(** * itoyori: the ADWS scheduler, the home manager and the global vector

    A shallow embedding of the parts of
      - include/ityr/ito/sched/adws.hpp        (flipper, dist_range, dist_tree, scheduler_adws)
      - include/ityr/ori/home_manager.hpp      (home_manager)
      - include/ityr/container/global_vector.hpp (global_vector::at, operator[])
    that the properties below are about.

    Conventions.
      - [int], [rank_t] and [version_t] values are [Z]; [uint64_t] and [std::size_t]
        values are [Z] reduced modulo [2^64] where the code can wrap.
      - [double] is IEEE binary64 ([PrimFloat.float]); the arithmetic of
        [dist_range] is written once over an interface of operations
        ([value_ops]) with two instances: [binary64], which is the program, and
        [exact], rational arithmetic without rounding, used to tell what is
        due to rounding.
      - Pointers are [Z] addresses, [0] being [nullptr].
      - The profiler, the DAG profiler and the verbose log have no effect on the
        modelled state and are left out.
      - Part I holds the definitions, Part II the properties. *)

From Stdlib Require Import ZArith Lia List Bool QArith Lqa Floats.
From stdpp Require Import base list gmap.
Import ListNotations.

Local Open Scope Z_scope.

(* ===================================================================== *)
(** * Part I: the embedding                                              *)
(* ===================================================================== *)

(** ** ITYR_CHECK

    The assertion macro of common/util.hpp (not among the sources at hand).  It is
    compiled in or out by the build; [check_enabled] is that build switch.  A
    failed check aborts the process. *)

(** [ITYR_CHECK check_enabled cond] tells whether execution goes on past the check. *)
Definition ITYR_CHECK (check_enabled : bool) (cond : bool) : bool :=
  negb check_enabled || cond.

(** ** flipper (adws.hpp, class flipper) *)

Module Flipper.

(** [value_type = uint64_t] *)
Definition width : Z := 64.
Definition modulus : Z := 2 ^ width.

Record flipper : Type := mk_flipper { val_ : Z }.

Definition zero : flipper := mk_flipper 0.

Definition value (f : flipper) : Z := val_ f.

(** [value_type(1) << n] on a 64-bit unsigned value. *)
Definition shl1 (n : Z) : Z := Z.shiftl 1 n mod modulus.

(** [void flip(int at) { val_ ^= (value_type(1) << at); }] *)
Definition flip (f : flipper) (at_ : Z) : flipper :=
  mk_flipper (Z.lxor (val_ f) (shl1 at_)).

(** [mask = (value_type(1) << (until + 1)) - 1], an unsigned subtraction. *)
Definition mask (until : Z) : Z := (shl1 (until + 1) - 1) mod modulus.

(** [bool match(flipper f, int until) const] *)
Definition match_ (self f : flipper) (until : Z) : bool :=
  Z.land (val_ self) (mask until) =? Z.land (value f) (mask until).

(** The two ITYR_CHECKs shared by [flip] and [match]. *)
Definition in_range (n : Z) : bool := (0 <=? n) && (n <? width).

End Flipper.

(** ** The arithmetic of [dist_range::value_type] *)

Class value_ops (V : Type) : Type := {
  v_add : V -> V -> V;
  v_sub : V -> V -> V;
  v_mul : V -> V -> V;
  v_div : V -> V -> V;
  v_eqb : V -> V -> bool;
  v_ltb : V -> V -> bool;
  (** [static_cast<value_type>(rank_t)] *)
  v_of_rank : Z -> V;
  (** [static_cast<rank_t>(value_type)]: truncation toward zero *)
  v_to_rank : V -> Z;
  (** the literal [0.00001] *)
  v_eps : V
}.

Module Binary64.

Definition int_min : Z := - 2 ^ 31.
Definition int_max : Z := 2 ^ 31 - 1.

(** Truncation of a double to [int].  Out of the range of [int] (and for NaN and
    the infinities) the conversion is undefined in C++; x86-64's cvttsd2si
    returns [INT_MIN], which is what is written here. *)
Definition to_int (f : float) : Z :=
  match Prim2SF f with
  | S754_zero _ => 0
  | S754_finite s m e =>
      let mag := if 0 <=? e then Zpos m * 2 ^ e else Zpos m / 2 ^ (- e) in
      let z := if s then - mag else mag in
      if (int_min <=? z) && (z <=? int_max) then z else int_min
  | S754_infinity _ | S754_nan => int_min
  end.

(** Conversion of an [int] to double (exact: every [int] is a double). *)
Definition of_int (z : Z) : float :=
  if z <? 0 then PrimFloat.opp (PrimFloat.of_uint63 (Uint63.of_Z (- z)))
  else PrimFloat.of_uint63 (Uint63.of_Z z).

(** The double nearest to 0.00001. *)
Definition eps : float := 0x1.4f8b588e368f1p-17%float.

End Binary64.

#[global] Instance binary64 : value_ops float := {
  v_add := PrimFloat.add;
  v_sub := PrimFloat.sub;
  v_mul := PrimFloat.mul;
  v_div := PrimFloat.div;
  v_eqb := PrimFloat.eqb;
  v_ltb := PrimFloat.ltb;
  v_of_rank := Binary64.of_int;
  v_to_rank := Binary64.to_int;
  v_eps := Binary64.eps
}.

(** Rational arithmetic: the same operations without rounding. *)
#[global] Instance exact : value_ops Q := {
  v_add := Qplus;
  v_sub := Qminus;
  v_mul := Qmult;
  v_div := Qdiv;
  v_eqb := Qeq_bool;
  v_ltb := fun a b => negb (Qle_bool b a);
  v_of_rank := inject_Z;
  v_to_rank := fun q => Z.quot (Qnum q) (Zpos (Qden q));
  v_eps := Qmake 1 100000
}.

(** ** dist_range (adws.hpp, class dist_range) *)

Module DistRange.

Record dist_range (V : Type) : Type := mk_dist_range { begin_ : V; end_ : V }.
Arguments mk_dist_range {V} _ _.
Arguments begin_ {V} _.
Arguments end_ {V} _.

Section Ops.
Context {V : Type} `{value_ops V}.

(** [dist_range(rank_t n_ranks) : begin_(0), end_(static_cast<value_type>(n_ranks))] *)
Definition of_n_ranks (n_ranks : Z) : dist_range V :=
  mk_dist_range (v_of_rank 0) (v_of_rank n_ranks).

Definition begin_rank (dr : dist_range V) : Z := v_to_rank (begin_ dr).

Definition end_rank (dr : dist_range V) : Z := v_to_rank (end_ dr).

Definition is_at_end_boundary (dr : dist_range V) : bool :=
  v_eqb (v_of_rank (v_to_rank (end_ dr))) (end_ dr).

Definition move_to_end_boundary (dr : dist_range V) : dist_range V :=
  mk_dist_range (begin_ dr) (v_of_rank (v_to_rank (end_ dr))).

(** [divide(T r1, T r2)].  The weights are taken in [value_type]: with [T] an
    integer type they are converted to it by the multiplication and the
    division. *)
Definition split_point (dr : dist_range V) (r1 r2 : V) : V :=
  v_add (begin_ dr) (v_div (v_mul (v_sub (end_ dr) (begin_ dr)) r1) (v_add r1 r2)).

Definition back_off (dr : dist_range V) (at_ : V) : V :=
  if v_eqb at_ (end_ dr) then
    let at' := v_sub at_ v_eps in
    if v_ltb at' (begin_ dr) then begin_ dr else at'
  else at_.

Definition divide (dr : dist_range V) (r1 r2 : V) : dist_range V * dist_range V :=
  let at_ := back_off dr (split_point dr r1 r2) in
  (mk_dist_range (begin_ dr) at_, mk_dist_range at_ (end_ dr)).

Definition owner (dr : dist_range V) : Z := v_to_rank (begin_ dr).

Definition is_cross_worker (dr : dist_range V) : bool :=
  negb (v_to_rank (begin_ dr) =? v_to_rank (end_ dr)).

Definition make_non_cross_worker (dr : dist_range V) : dist_range V :=
  mk_dist_range (begin_ dr) (begin_ dr).

(** [adws_min_drange_size_option::value()] is a run-time option (options.hpp);
    it is the parameter [min_drange_size]. *)
Definition is_sufficiently_small (min_drange_size : V) (dr : dist_range V) : bool :=
  v_ltb (v_sub (end_ dr) (begin_ dr)) min_drange_size.

End Ops.

End DistRange.

(** ** Run-time configuration and topology

    [common::topology] and the options of ito/options.hpp are not among the
    sources at hand; the values the scheduler reads from them are the fields of
    [config]. *)

Record config : Type := mk_config {
  my_rank : Z;                     (* common::topology::my_rank() *)
  n_ranks : Z;                     (* common::topology::n_ranks() *)
  adws_max_depth : Z;              (* adws_max_depth_option::value() *)
  adws_wsqueue_capacity : Z;       (* adws_wsqueue_capacity_option::value() *)
  adws_min_drange_size : float;    (* adws_min_drange_size_option::value() *)
  adws_max_dtree_reuse : Z;        (* adws_max_dtree_reuse_option::value() *)
  adws_enable_steal : bool;        (* adws_enable_steal_option::value() *)
  check_enabled : bool;            (* whether ITYR_CHECK is compiled in *)
  sizeof_thread_state : Z;         (* sizeof(thread_state<T>) *)
  sizeof_task : Z                  (* sizeof(callable_task<...>) *)
}.

(** Slots of an MPI window are addressed by (rank, index). *)
Definition slot : Type := (Z * Z)%type.

(** ** dist_tree (adws.hpp, class dist_tree) *)

Module DistTree.
Import DistRange Flipper.

Record node_ref : Type := mk_node_ref { owner_rank : Z; depth : Z }.

(** [node_ref{}]: both fields default to -1. *)
Definition null_ref : node_ref := mk_node_ref (-1) (-1).

Record node : Type := mk_node {
  parent : node_ref;
  drange : dist_range float;
  tg_version : flipper;
  version : Z
}.

(** [int depth() const { return parent.depth + 1; }] *)
Definition node_depth (n : node) : Z := depth (parent n) + 1.

(** A slot of the node window nobody has written yet. *)
Definition fresh_node : node :=
  mk_node null_ref (mk_dist_range 0%float 0%float) Flipper.zero 0.

(** [node_win_] and [dominant_flag_win_] are MPI windows: every rank exposes
    [max_depth_] slots, and [local_buf()] is the part at [my_rank].  Both windows
    are kept whole, keyed by (rank, depth), so that a one-sided access and a local
    one meet in the same slot.  [versions_] is private to the rank. *)
Record dist_tree : Type := mk_dist_tree {
  max_depth_ : Z;
  node_win_ : gmap slot node;
  dominant_flag_win_ : gmap slot Z;
  versions_ : list Z
}.

Definition int_max : Z := 2 ^ 31 - 1.

Definition node_at (dt : dist_tree) (rank d : Z) : node :=
  default fresh_node (node_win_ dt !! (rank, d)).

Definition flag_at (dt : dist_tree) (rank d : Z) : Z :=
  default 0 (dominant_flag_win_ dt !! (rank, d)).

Section WithConfig.
Variable cfg : config.

(** [dist_tree(int max_depth)] *)
Definition init (max_depth : Z) : dist_tree :=
  mk_dist_tree max_depth ∅ ∅ (replicate (Z.to_nat max_depth) (my_rank cfg + 1)).

(** [local_node(depth)] and [local_dominant_flag(depth)]; their ITYR_CHECKs are
    [0 <= depth < max_depth_]. *)
Definition local_node (dt : dist_tree) (d : Z) : node := node_at dt (my_rank cfg) d.

Definition local_dominant_flag (dt : dist_tree) (d : Z) : Z := flag_at dt (my_rank cfg) d.

Definition depth_in_range (dt : dist_tree) (d : Z) : bool :=
  (0 <=? d) && (d <? max_depth_ dt).

Definition store_local_flag (dt : dist_tree) (d v : Z) : dist_tree :=
  mk_dist_tree (max_depth_ dt) (node_win_ dt)
    (<[(my_rank cfg, d) := v]> (dominant_flag_win_ dt)) (versions_ dt).

Definition put_remote_flag (dt : dist_tree) (rank d v : Z) : dist_tree :=
  mk_dist_tree (max_depth_ dt) (node_win_ dt)
    (<[(rank, d) := v]> (dominant_flag_win_ dt)) (versions_ dt).

Definition version_slot (dt : dist_tree) (d : Z) : Z :=
  default 0 (versions_ dt !! Z.to_nat d).

(** [node_ref append(node_ref parent, dist_range drange, flipper tg_version)],
    once the ITYR_CHECK of [local_node(depth)] has passed: [depth_in_range] of
    the new depth is a precondition of the model. *)
Definition append (dt : dist_tree) (parent : node_ref) (dr : dist_range float)
    (tgv : flipper) : dist_tree * node_ref :=
  let d := depth parent + 1 in
  (* handle version overflow *)
  let v0 := if int_max - n_ranks cfg <=? version_slot dt d
            then my_rank cfg + 1 else version_slot dt d in
  let v := v0 + n_ranks cfg in
  let new_node := mk_node parent dr tgv v in
  (mk_dist_tree (max_depth_ dt)
     (<[(my_rank cfg, d) := new_node]> (node_win_ dt))
     (dominant_flag_win_ dt)
     (<[Z.to_nat d := v]> (versions_ dt)),
   mk_node_ref (my_rank cfg) d).

(** [void set_dominant(node_ref nr, bool dominant)], once the ITYR_CHECKs of
    [local_node(nr.depth)] and [local_dominant_flag(nr.depth)] have passed. *)
Definition set_dominant (dt : dist_tree) (nr : node_ref) (dominant : bool) : dist_tree :=
  let value := (if dominant then 1 else -1) * version (local_node dt (depth nr)) in
  let dt1 := store_local_flag dt (depth nr) value in
  if negb (owner_rank nr =? my_rank cfg)
  then put_remote_flag dt1 (owner_rank nr) (depth nr) value
  else dt1.

(** [get_random_rank(a, b)] (sched/util.hpp, not among the sources at hand): a
    rank drawn from [a, b].  The draw is the argument [seed]. *)
Definition get_random_rank (seed a b : Z) : Z :=
  if a <=? b then a + seed mod (b - a + 1) else a.

(** The ITYR_CHECKs an iteration of the loop of [get_topmost_dominant] meets
    before its first branch, at depth [d]: those of [local_node(d + 1)] (called
    when [d] is not [nr.depth]), of [local_node(d)] and [local_dominant_flag(d)],
    then [n.parent.depth == d - 1] and [n.version != 0]. *)
Definition scan_checks (dt : dist_tree) (nr : node_ref) (d : Z) : bool :=
  ((d =? depth nr) || depth_in_range dt (d + 1)) && depth_in_range dt d &&
  (depth (parent (local_node dt d)) =? d - 1) && negb (version (local_node dt d) =? 0).

(** One iteration of the loop of [get_topmost_dominant], at depth [d], up to the
    final test of the flag.  [seed] is the random draw of this iteration; [None]
    is a failed ITYR_CHECK. *)
Definition scan_depth (dt : dist_tree) (nr : node_ref) (d seed : Z) : option dist_tree :=
  let owner := if d =? depth nr then owner_rank nr
               else owner_rank (parent (local_node dt (d + 1))) in
  let n := local_node dt d in
  if negb (ITYR_CHECK (check_enabled cfg) (scan_checks dt nr d)) then None
  else if negb (owner =? my_rank cfg) && negb (local_dominant_flag dt d =? - version n) then
    if negb (ITYR_CHECK (check_enabled cfg) (owner =? begin_rank (drange n))) then None
    else
      let target_rank := get_random_rank seed owner (end_rank (drange n) - 1) in
      if negb (target_rank =? owner) && (local_dominant_flag dt d =? version n) then
        (* mpi_atomic_cas_value(n.version, 0, target_rank, ...): the remote slot
           takes n.version if it held 0; its previous value is returned *)
        let dominant_val := flag_at dt target_rank d in
        let dt1 := if dominant_val =? 0
                   then put_remote_flag dt target_rank d (version n) else dt in
        Some (if dominant_val =? - version n
              then store_local_flag dt1 d dominant_val else dt1)
      else
        (* mpi_atomic_get_value(target_rank, ...) *)
        let dominant_val := flag_at dt target_rank d in
        Some (if (dominant_val =? version n) || (dominant_val =? - version n)
              then store_local_flag dt d dominant_val else dt)
  else Some dt.

(** The loop [for (int d = 0; d <= nr.depth; d++)], [todo] iterations from [d];
    [seeds] are the random draws, one for each iteration.  [None] is a failed
    ITYR_CHECK, [Some (None, _)] is [std::nullopt]. *)
Fixpoint scan_from (dt : dist_tree) (nr : node_ref) (d : Z) (seeds : list Z)
    (todo : nat) : option (option node * dist_tree) :=
  match todo with
  | O => Some (None, dt)
  | S todo' =>
      match scan_depth dt nr d (hd 0 seeds) with
      | None => None
      | Some dt1 =>
          if local_dominant_flag dt1 d =? version (local_node dt1 d)
          then Some (Some (local_node dt1 d), dt1)
          else scan_from dt1 nr (d + 1) (tl seeds) todo'
      end
  end.

(** [std::optional<node> get_topmost_dominant(node_ref nr)] *)
Definition get_topmost_dominant (dt : dist_tree) (nr : node_ref) (seeds : list Z)
    : option (option node * dist_tree) :=
  if depth nr <? 0 then Some (None, dt)
  else scan_from dt nr 0 seeds (Z.to_nat (depth nr + 1)).

(** The slot of depth [d] is retired for this rank: its dominant flag holds
    [-version] of the node it has at that depth, which is not 0. *)
Definition retired (dt : dist_tree) (d : Z) : Prop :=
  local_dominant_flag dt d = - version (local_node dt d) /\
  version (local_node dt d) <> 0.

(** [void copy_parents(node_ref nr)]: the flags of depths [0..nr.depth] are
    zeroed, then [nr.depth + 1] nodes are fetched from the owner's window.  The
    ITYR_CHECKs of [local_node(d)] and [local_dominant_flag(d)] are taken to
    pass ([nr.depth < max_depth_]). *)
Fixpoint copy_parents_from (dt : dist_tree) (nr : node_ref) (d : Z) (todo : nat)
    : dist_tree :=
  match todo with
  | O => dt
  | S todo' =>
      let dt1 := mk_dist_tree (max_depth_ dt)
                   (<[(my_rank cfg, d) := node_at dt (owner_rank nr) d]> (node_win_ dt))
                   (<[(my_rank cfg, d) := 0]> (dominant_flag_win_ dt))
                   (versions_ dt) in
      copy_parents_from dt1 nr (d + 1) todo'
  end.

Definition copy_parents (dt : dist_tree) (nr : node_ref) : dist_tree :=
  copy_parents_from dt nr 0 (Z.to_nat (depth nr + 1)).

(** [node& get_local_node(node_ref nr)]; its ITYR_CHECK is
    [nr.owner_rank == my_rank]. *)
Definition get_local_node (dt : dist_tree) (nr : node_ref) : node :=
  local_node dt (depth nr).

End WithConfig.

End DistTree.

(** ** Work-stealing queues *)

Module WSQueue.

(** Modelled from the spec: [wsqueue<Entry, ...>] of ito/wsqueue.hpp, which is
    not among the sources at hand.  "Per-worker, per-depth deques"; "a capacity
    per depth, a maximum depth, and a lock per (rank, depth).  Owner-side
    operations are lock-free LIFO (push, pop); thief-side operations are locked
    FIFO (trylock, steal_nolock, abort_steal, unlock)."  The deque of (rank,
    depth) is a list whose head is the entry pushed last; a thief takes the last
    element.  The deques of all ranks are kept in one store, as they are exposed
    to remote ranks. *)
Record wsqueue (E : Type) : Type := mk_wsqueue {
  capacity : Z;
  n_queues_ : Z;
  queues : gmap slot (list E);
  locks : gmap slot bool
}.
Arguments mk_wsqueue {E} _ _ _ _.
Arguments capacity {E} _.
Arguments n_queues_ {E} _.
Arguments queues {E} _.
Arguments locks {E} _.

Section Ops.
Context {E : Type}.

Definition queue_at (q : wsqueue E) (rank d : Z) : list E :=
  default [] (queues q !! (rank, d)).

Definition set_queue (q : wsqueue E) (rank d : Z) (l : list E) : wsqueue E :=
  mk_wsqueue (capacity q) (n_queues_ q) (<[(rank, d) := l]> (queues q)) (locks q).

Definition locked (q : wsqueue E) (rank d : Z) : bool :=
  default false (locks q !! (rank, d)).

Definition set_lock (q : wsqueue E) (rank d : Z) (b : bool) : wsqueue E :=
  mk_wsqueue (capacity q) (n_queues_ q) (queues q) (<[(rank, d) := b]> (locks q)).

Definition n_queues (q : wsqueue E) : Z := n_queues_ q.

(** Modelled from the spec: [push(entry, depth)] on the owner's deque; a full
    deque is the fatal "queue overflow" ([None]). *)
Definition push (me : Z) (q : wsqueue E) (e : E) (d : Z) : option (wsqueue E) :=
  if Z.of_nat (length (queue_at q me d)) <? capacity q
  then Some (set_queue q me d (e :: queue_at q me d))
  else None.

(** Modelled from the spec: [pop(depth)], the owner takes the entry pushed last. *)
Definition pop (me : Z) (q : wsqueue E) (d : Z) : option E * wsqueue E :=
  match queue_at q me d with
  | [] => (None, q)
  | e :: l => (Some e, set_queue q me d l)
  end.

(** Modelled from the spec: [for_each_entry(fn, depth)] lets [fn] rewrite the
    entries of the owner's deque in place. *)
Definition for_each_entry {A : Type} (me : Z) (fn : A -> E -> A * E) (a : A)
    (q : wsqueue E) (d : Z) : A * wsqueue E :=
  let r := fold_right (fun e acc => let '(a', e') := fn (fst acc) e in (a', e' :: snd acc))
             (a, []) (queue_at q me d) in
  (fst r, if decide (queue_at q me d = []) then q else set_queue q me d (snd r)).

(** Modelled from the spec: [lock().trylock(rank, depth)]. *)
Definition trylock (q : wsqueue E) (rank d : Z) : bool * wsqueue E :=
  if locked q rank d then (false, q) else (true, set_lock q rank d true).

Definition unlock (q : wsqueue E) (rank d : Z) : wsqueue E := set_lock q rank d false.

(** Modelled from the spec: [steal_nolock(rank, depth)], the thief takes the
    entry pushed first. *)
Definition steal_nolock (q : wsqueue E) (rank d : Z) : option E * wsqueue E :=
  match rev (queue_at q rank d) with
  | [] => (None, q)
  | e :: l => (Some e, set_queue q rank d (rev l))
  end.

(** Modelled from the spec: [abort_steal(rank, depth)] gives the entry taken by
    the last [steal_nolock] back; [e] is that entry. *)
Definition abort_steal (q : wsqueue E) (rank d : Z) (e : E) : wsqueue E :=
  set_queue q rank d (queue_at q rank d ++ [e]).

(** Modelled from the spec: [pass(entry, target_rank, depth)], "a remote append
    used when an owner hands off a new cross-worker task to the rank that owns
    its range"; the entry becomes the oldest of the target's deque. *)
Definition pass (q : wsqueue E) (e : E) (target d : Z) : wsqueue E :=
  set_queue q target d (queue_at q target d ++ [e]).

(** The depths [for_each_nonempty_queue(rank, min_depth, max_depth, reverse, fn)]
    visits: those of [min_depth, max_depth) whose deque at [rank] is not empty,
    from the deepest when [reverse]. *)
Definition depths_between (min_depth max_depth : Z) : list Z :=
  map (fun i => min_depth + Z.of_nat i) (seq 0 (Z.to_nat (max_depth - min_depth))).

Definition nonempty_depths (q : wsqueue E) (rank min_depth max_depth : Z)
    (reverse : bool) : list Z :=
  let ds := filter (fun d => queue_at q rank d <> []) (depths_between min_depth max_depth) in
  if reverse then rev ds else ds.

End Ops.

End WSQueue.

(** ** scheduler_adws (adws.hpp, class scheduler_adws) *)

Module Sched.
Import DistRange Flipper DistTree WSQueue.

(** [(uintptr_t)a - (uintptr_t)b] *)
Definition ptr_diff (a b : Z) : Z := (a - b) mod 2 ^ 64.

Record suspended_state : Type := mk_suspended_state {
  ss_evacuation_ptr : Z;
  ss_frame_base : Z;
  ss_frame_size : Z
}.

Record cross_worker_task : Type := mk_cross_worker_task {
  cwt_evacuation_ptr : Z;
  cwt_frame_base : Z;
  cwt_frame_size : Z
}.

Record primary_wsq_entry : Type := mk_primary_wsq_entry {
  pwe_evacuation_ptr : Z;
  pwe_frame_base : Z;
  pwe_frame_size : Z;
  pwe_tg_version : flipper
}.

Record migration_wsq_entry : Type := mk_migration_wsq_entry {
  mwe_is_continuation : bool;
  mwe_evacuation_ptr : Z;
  mwe_frame_base : Z;
  mwe_frame_size : Z;
  mwe_tg_version : flipper
}.

Record thread_local_storage : Type := mk_tls {
  tls_drange : dist_range float;
  tls_dtree_node_ref : node_ref;
  tls_tg_version : flipper;
  tls_undistributed : bool
}.

Record task_group_data : Type := mk_task_group_data {
  tgd_drange : dist_range float;
  tgd_owns_dtree_node : bool
}.

(** Modelled from the spec: [common::remotable_resource] (common/allocator.hpp,
    not among the sources at hand), "fixed-size arena whose allocations carry a
    globally addressable pointer".  Blocks are handed out at increasing
    addresses from [rr_next]; [rr_freed] are the blocks deallocated so far. *)
Record remotable_resource : Type := mk_remotable_resource {
  rr_next : Z;
  rr_freed : list Z
}.

Definition allocate (r : remotable_resource) (size : Z) : Z * remotable_resource :=
  (rr_next r, mk_remotable_resource (rr_next r + Z.max 1 size) (rr_freed r)).

Definition deallocate (r : remotable_resource) (p : Z) : remotable_resource :=
  mk_remotable_resource (rr_next r) (p :: rr_freed r).

(** What the worker does outside its own state: one-sided operations on other
    ranks' mailboxes and the user's callbacks, in program order. *)
Inductive event : Type :=
| MailboxPut (cwt : cross_worker_task) (target_rank : Z)
| WaitRemotelyFreed (p : Z)
| PreSuspendCb
| PostSuspendCb
| DriftForkCb
| DriftDieCb.

(** How a scheduler function hands control on. *)
Inductive control : Type :=
| Returns                                  (* it returns to its caller *)
| ResumeSched                              (* resume_sched() *)
| ResumeSuspended (ss : suspended_state)   (* resume(suspended_state) *)
| ResumeFrame (cf : Z)                     (* resume(context_frame* ) *)
| StartNewTask (task_ptr task_size : Z)    (* start_new_task() *)
| Dies.                                    (* common::die or a failed ITYR_CHECK *)

Section WithReturnType.
(** The return type [T] of the threads. *)
Variable T : Type.

Record thread_state : Type := mk_thread_state {
  ts_retval : option T;          (* None: not written yet *)
  ts_resume_flag : Z;
  ts_suspended : option suspended_state
}.

Record thread_handler : Type := mk_thread_handler {
  th_state : Z;
  th_serialized : bool;
  th_retval_ser : option T
}.

Record scheduler_adws : Type := mk_sched {
  (** the call-stack region: the [parent_frame] word of the context frame saved
      at each address *)
  stack_frames : gmap Z Z;
  primary_wsq_ : wsqueue primary_wsq_entry;
  migration_wsq_ : wsqueue migration_wsq_entry;
  thread_state_allocator_ : remotable_resource;
  (** the thread states living in [thread_state_allocator_] *)
  thread_states : gmap Z thread_state;
  suspended_thread_allocator_ : remotable_resource;
  cf_top_ : Z;
  sched_cf_ : Z;
  tls_ : option thread_local_storage;
  use_primary_wsq_ : bool;
  dtree_ : dist_tree;
  dtree_local_bottom_ref_ : node_ref;
  (** events issued so far, the latest first *)
  issued : list event
}.


Definition set_stack_frames s v :=
  mk_sched v (primary_wsq_ s) (migration_wsq_ s) (thread_state_allocator_ s)
    (thread_states s) (suspended_thread_allocator_ s) (cf_top_ s) (sched_cf_ s) (tls_ s)
    (use_primary_wsq_ s) (dtree_ s) (dtree_local_bottom_ref_ s) (issued s).
Definition set_primary_wsq s v :=
  mk_sched (stack_frames s) v (migration_wsq_ s) (thread_state_allocator_ s)
    (thread_states s) (suspended_thread_allocator_ s) (cf_top_ s) (sched_cf_ s) (tls_ s)
    (use_primary_wsq_ s) (dtree_ s) (dtree_local_bottom_ref_ s) (issued s).
Definition set_migration_wsq s v :=
  mk_sched (stack_frames s) (primary_wsq_ s) v (thread_state_allocator_ s)
    (thread_states s) (suspended_thread_allocator_ s) (cf_top_ s) (sched_cf_ s) (tls_ s)
    (use_primary_wsq_ s) (dtree_ s) (dtree_local_bottom_ref_ s) (issued s).
Definition set_thread_state_allocator s v :=
  mk_sched (stack_frames s) (primary_wsq_ s) (migration_wsq_ s) v
    (thread_states s) (suspended_thread_allocator_ s) (cf_top_ s) (sched_cf_ s) (tls_ s)
    (use_primary_wsq_ s) (dtree_ s) (dtree_local_bottom_ref_ s) (issued s).
Definition set_thread_states s v :=
  mk_sched (stack_frames s) (primary_wsq_ s) (migration_wsq_ s) (thread_state_allocator_ s)
    v (suspended_thread_allocator_ s) (cf_top_ s) (sched_cf_ s) (tls_ s)
    (use_primary_wsq_ s) (dtree_ s) (dtree_local_bottom_ref_ s) (issued s).
Definition set_suspended_thread_allocator s v :=
  mk_sched (stack_frames s) (primary_wsq_ s) (migration_wsq_ s) (thread_state_allocator_ s)
    (thread_states s) v (cf_top_ s) (sched_cf_ s) (tls_ s)
    (use_primary_wsq_ s) (dtree_ s) (dtree_local_bottom_ref_ s) (issued s).
Definition set_cf_top s v :=
  mk_sched (stack_frames s) (primary_wsq_ s) (migration_wsq_ s) (thread_state_allocator_ s)
    (thread_states s) (suspended_thread_allocator_ s) v (sched_cf_ s) (tls_ s)
    (use_primary_wsq_ s) (dtree_ s) (dtree_local_bottom_ref_ s) (issued s).
Definition set_sched_cf s v :=
  mk_sched (stack_frames s) (primary_wsq_ s) (migration_wsq_ s) (thread_state_allocator_ s)
    (thread_states s) (suspended_thread_allocator_ s) (cf_top_ s) v (tls_ s)
    (use_primary_wsq_ s) (dtree_ s) (dtree_local_bottom_ref_ s) (issued s).
Definition set_tls s v :=
  mk_sched (stack_frames s) (primary_wsq_ s) (migration_wsq_ s) (thread_state_allocator_ s)
    (thread_states s) (suspended_thread_allocator_ s) (cf_top_ s) (sched_cf_ s) v
    (use_primary_wsq_ s) (dtree_ s) (dtree_local_bottom_ref_ s) (issued s).
Definition set_use_primary_wsq s v :=
  mk_sched (stack_frames s) (primary_wsq_ s) (migration_wsq_ s) (thread_state_allocator_ s)
    (thread_states s) (suspended_thread_allocator_ s) (cf_top_ s) (sched_cf_ s) (tls_ s)
    v (dtree_ s) (dtree_local_bottom_ref_ s) (issued s).
Definition set_dtree s v :=
  mk_sched (stack_frames s) (primary_wsq_ s) (migration_wsq_ s) (thread_state_allocator_ s)
    (thread_states s) (suspended_thread_allocator_ s) (cf_top_ s) (sched_cf_ s) (tls_ s)
    (use_primary_wsq_ s) v (dtree_local_bottom_ref_ s) (issued s).
Definition set_dtree_local_bottom_ref s v :=
  mk_sched (stack_frames s) (primary_wsq_ s) (migration_wsq_ s) (thread_state_allocator_ s)
    (thread_states s) (suspended_thread_allocator_ s) (cf_top_ s) (sched_cf_ s) (tls_ s)
    (use_primary_wsq_ s) (dtree_ s) v (issued s).
Definition issue s (e : event) :=
  mk_sched (stack_frames s) (primary_wsq_ s) (migration_wsq_ s) (thread_state_allocator_ s)
    (thread_states s) (suspended_thread_allocator_ s) (cf_top_ s) (sched_cf_ s) (tls_ s)
    (use_primary_wsq_ s) (dtree_ s) (dtree_local_bottom_ref_ s) (e :: issued s).

Variable cfg : config.

Definition null : Z := 0.

Definition depth_of (tls : thread_local_storage) : Z := depth (tls_dtree_node_ref tls).

Definition with_drange (tls : thread_local_storage) (dr : dist_range float) :=
  mk_tls dr (tls_dtree_node_ref tls) (tls_tg_version tls) (tls_undistributed tls).
Definition with_dtree_node_ref (tls : thread_local_storage) (nr : node_ref) :=
  mk_tls (tls_drange tls) nr (tls_tg_version tls) (tls_undistributed tls).
Definition with_tg_version (tls : thread_local_storage) (v : flipper) :=
  mk_tls (tls_drange tls) (tls_dtree_node_ref tls) v (tls_undistributed tls).
Definition with_undistributed (tls : thread_local_storage) (b : bool) :=
  mk_tls (tls_drange tls) (tls_dtree_node_ref tls) (tls_tg_version tls) b.

(** *** Contexts

    Modelled from the spec: the context engine (ito/context.hpp, not among the
    sources at hand).  "save_context_with_call(prev_top_frame, closure): captures
    the current context as a context frame whose in-memory layout starts with
    parent_frame = prev_top_frame; calls closure(cf)".  The address [cf] of the
    frame is where the stack pointer stands, which the caller of the model
    supplies. *)
Definition save_context (s : scheduler_adws) (cf : Z) : scheduler_adws :=
  set_stack_frames s (<[cf := cf_top_ s]> (stack_frames s)).

(** [cf->parent_frame] *)
Definition parent_frame (frames : gmap Z Z) (cf : Z) : Z := default null (frames !! cf).

(** [suspend(fn)] up to the call of [fn(cf)]: the context is saved at [cf] and
    [cf_top_ = cf]. *)
Definition suspend_enter (s : scheduler_adws) (cf : Z) : scheduler_adws :=
  set_cf_top (save_context s cf) cf.

(** [suspend(fn)] after the saved context is resumed:
    [cf_top_ = prev_cf_top; tls_ = prev_tls]. *)
Definition suspend_leave (s : scheduler_adws) (prev_cf_top : Z)
    (prev_tls : option thread_local_storage) : scheduler_adws :=
  set_tls (set_cf_top s prev_cf_top) prev_tls.

(** [void resume_sched()] *)
Definition resume_sched (s : scheduler_adws) : scheduler_adws * control :=
  (set_tls (set_cf_top s null) None, ResumeSched).

(** *** Evacuation *)

(** [suspended_state evacuate(context_frame* cf)] *)
Definition evacuate_frame (frames : gmap Z Z) (a : remotable_resource) (cf : Z)
    : suspended_state * remotable_resource :=
  let cf_size := ptr_diff (parent_frame frames cf) cf in
  let '(evacuation_ptr, a') := allocate a cf_size in
  (mk_suspended_state evacuation_ptr cf cf_size, a').

Definition evacuate (s : scheduler_adws) (cf : Z) : suspended_state * scheduler_adws :=
  let '(ss, a) := evacuate_frame (stack_frames s) (suspended_thread_allocator_ s) cf in
  (ss, set_suspended_thread_allocator s a).

(** The body of the loop of [evacuate_all] over the entries of a primary queue. *)
Definition evacuate_pwe (frames : gmap Z Z) (a : remotable_resource)
    (pwe : primary_wsq_entry) : remotable_resource * primary_wsq_entry :=
  if pwe_evacuation_ptr pwe =? null then
    let '(ss, a') := evacuate_frame frames a (pwe_frame_base pwe) in
    (a', mk_primary_wsq_entry (ss_evacuation_ptr ss) (ss_frame_base ss)
           (ss_frame_size ss) (pwe_tg_version pwe))
  else (a, pwe).

(** The same over the entries of a migration queue. *)
Definition evacuate_mwe (frames : gmap Z Z) (a : remotable_resource)
    (mwe : migration_wsq_entry) : remotable_resource * migration_wsq_entry :=
  if mwe_is_continuation mwe && (mwe_evacuation_ptr mwe =? null) then
    let '(ss, a') := evacuate_frame frames a (mwe_frame_base mwe) in
    (a', mk_migration_wsq_entry true (ss_evacuation_ptr ss) (ss_frame_base ss)
           (ss_frame_size ss) (mwe_tg_version mwe))
  else (a, mwe).

(** [for (int d = tls_->dtree_node_ref.depth; d >= 0; d--)], [todo] iterations
    from [d]. *)
Fixpoint evacuate_primary_from (frames : gmap Z Z) (a : remotable_resource)
    (q : wsqueue primary_wsq_entry) (d : Z) (todo : nat)
    : remotable_resource * wsqueue primary_wsq_entry :=
  match todo with
  | O => (a, q)
  | S todo' =>
      let '(a1, q1) := for_each_entry (my_rank cfg) (evacuate_pwe frames) a q d in
      evacuate_primary_from frames a1 q1 (d - 1) todo'
  end.

(** [void evacuate_all()] *)
Definition evacuate_all (s : scheduler_adws) : option scheduler_adws :=
  tls ← tls_ s;
  if use_primary_wsq_ s then
    let '(a, q) := evacuate_primary_from (stack_frames s) (suspended_thread_allocator_ s)
                     (primary_wsq_ s) (depth_of tls) (Z.to_nat (depth_of tls + 1)) in
    Some (set_primary_wsq (set_suspended_thread_allocator s a) q)
  else
    let '(a, q) := for_each_entry (my_rank cfg) (evacuate_mwe (stack_frames s))
                     (suspended_thread_allocator_ s) (migration_wsq_ s) (depth_of tls) in
    Some (set_migration_wsq (set_suspended_thread_allocator s a) q).





(** *** Thread states in [thread_state_allocator_] *)

Definition fresh_thread_state : thread_state := mk_thread_state None 0 None.

Definition thread_state_at (s : scheduler_adws) (ts : Z) : thread_state :=
  default fresh_thread_state (thread_states s !! ts).

(** The three one-sided accesses to a thread state: [remote_put_value] of the
    return value, [remote_put_value] of the suspended state, and
    [remote_faa_value(allocator, 1, &ts->resume_flag)], which returns the
    previous value. *)
Definition st_put_retval (st : thread_state) (ret : T) : thread_state :=
  mk_thread_state (Some ret) (ts_resume_flag st) (ts_suspended st).

Definition st_put_suspended (st : thread_state) (ss : suspended_state) : thread_state :=
  mk_thread_state (ts_retval st) (ts_resume_flag st) (Some ss).

Definition st_faa_resume_flag (st : thread_state) : Z * thread_state :=
  (ts_resume_flag st,
   mk_thread_state (ts_retval st) (ts_resume_flag st + 1) (ts_suspended st)).

Definition update_thread_state (s : scheduler_adws) (ts : Z) (st : thread_state)
    : scheduler_adws :=
  set_thread_states s (<[ts := st]> (thread_states s)).

Definition put_retval (s : scheduler_adws) (ts : Z) (ret : T) : scheduler_adws :=
  update_thread_state s ts (st_put_retval (thread_state_at s ts) ret).

Definition put_suspended (s : scheduler_adws) (ts : Z) (ss : suspended_state) : scheduler_adws :=
  update_thread_state s ts (st_put_suspended (thread_state_at s ts) ss).

Definition faa_resume_flag (s : scheduler_adws) (ts : Z) : Z * scheduler_adws :=
  let '(prev, st) := st_faa_resume_flag (thread_state_at s ts) in
  (prev, update_thread_state s ts st).

(** [new (thread_state_allocator_.allocate(sizeof(thread_state<T>))) thread_state<T>] *)
Definition new_thread_state (s : scheduler_adws) : Z * scheduler_adws :=
  let '(ts, a) := allocate (thread_state_allocator_ s) (sizeof_thread_state cfg) in
  (ts, set_thread_states (set_thread_state_allocator s a)
         (<[ts := fresh_thread_state]> (thread_states s))).

(** [std::destroy_at(ts); thread_state_allocator_.deallocate(ts, ...)] *)
Definition delete_thread_state (s : scheduler_adws) (ts : Z) : scheduler_adws :=
  set_thread_states
    (set_thread_state_allocator s (deallocate (thread_state_allocator_ s) ts))
    (delete ts (thread_states s)).

(** *** Task death *)

(** The loop of [on_task_die] that builds one dummy task for each rank of
    [begin_rank + 1 .. end_rank - 1]. *)
Fixpoint make_dummy_tasks (a : remotable_resource) (target_rank : Z) (todo : nat)
    : list (cross_worker_task * Z) * remotable_resource :=
  match todo with
  | O => ([], a)
  | S todo' =>
      let '(task_ptr, a1) := allocate a (sizeof_task cfg) in
      let '(tasks, a2) := make_dummy_tasks a1 (target_rank + 1) todo' in
      ((mk_cross_worker_task null task_ptr (sizeof_task cfg), target_rank) :: tasks, a2)
  end.

Definition issue_all (s : scheduler_adws) (es : list event) : scheduler_adws :=
  fold_left issue es s.

(** [void on_task_die()] *)
Definition on_task_die (s : scheduler_adws) : option scheduler_adws :=
  tls ← tls_ s;
  let dr := tls_drange tls in
  if is_cross_worker dr then
    let s1 := set_dtree s (set_dominant cfg (dtree_ s) (tls_dtree_node_ref tls) true) in
    let s2 :=
      if tls_undistributed tls && (begin_rank dr + 1 <? end_rank dr) then
        let '(tasks, a) := make_dummy_tasks (suspended_thread_allocator_ s1)
                             (begin_rank dr + 1)
                             (Z.to_nat (end_rank dr - (begin_rank dr + 1))) in
        let s' := set_suspended_thread_allocator s1 a in
        (* allocate memory then put *)
        let s'' := issue_all s' (map (fun tr => MailboxPut (fst tr) (snd tr)) tasks) in
        (* wait until all tasks are completed on remote workers *)
        issue_all s'' (map (fun tr => WaitRemotelyFreed (cwt_frame_base (fst tr))) tasks)
      else s1 in
    Some (set_tls s2 (Some (with_drange tls (make_non_cross_worker dr))))
  else Some s.

(** [void on_die_drifted(ts, ret, on_drift_die_cb)] *)
Definition on_die_drifted (s : scheduler_adws) (ts : Z) (ret : T)
    : option (scheduler_adws * control) :=
  let s1 := issue s DriftDieCb in
  let s2 := put_retval s1 ts ret in
  (* race *)
  let '(prev, s3) := faa_resume_flag s2 ts in
  if prev =? 0 then
    s4 ← evacuate_all s3;
    Some (resume_sched s4)
  else
    match ts_suspended (thread_state_at s3 ts) with
    | Some ss => Some (s3, ResumeSuspended ss)
    | None => None   (* the suspended state is read before it is written *)
    end.

(** [void on_die_workfirst(ts, ret, on_drift_die_cb)].  [Returns] is the early
    [return]: the thread is serialized. *)
Definition on_die_workfirst (s : scheduler_adws) (ts : Z) (ret : T)
    : option (scheduler_adws * control) :=
  tls ← tls_ s;
  if use_primary_wsq_ s then
    match pop (my_rank cfg) (primary_wsq_ s) (depth_of tls) with
    | (Some qe, q) =>
        if negb (pwe_evacuation_ptr qe =? null) then
          (* If it might not be its parent, return it to the queue. *)
          match push (my_rank cfg) q qe (depth_of tls) with
          | Some q' => on_die_drifted (set_primary_wsq s q') ts ret
          | None => Some (set_primary_wsq s q, Dies)
          end
        else
          (* parent is popped *)
          if ITYR_CHECK (check_enabled cfg) (pwe_frame_base qe =? cf_top_ s)
          then Some (set_primary_wsq s q, Returns)
          else Some (set_primary_wsq s q, Dies)
    | (None, q) => on_die_drifted s ts ret
    end
  else
    match pop (my_rank cfg) (migration_wsq_ s) (depth_of tls) with
    | (Some qe, q) =>
        if mwe_is_continuation qe && (mwe_evacuation_ptr qe =? null) then
          if ITYR_CHECK (check_enabled cfg) (mwe_frame_base qe =? cf_top_ s)
          then Some (set_migration_wsq s q, Returns)
          else Some (set_migration_wsq s q, Dies)
        else
          match push (my_rank cfg) q qe (depth_of tls) with
          | Some q' => on_die_drifted (set_migration_wsq s q') ts ret
          | None => Some (set_migration_wsq s q, Dies)
          end
    | (None, q) => on_die_drifted s ts ret
    end.

(** [void on_root_die(ts, ret)] *)
Definition on_root_die (s : scheduler_adws) (ts : Z) (ret : T)
    : scheduler_adws * control :=
  let s1 := put_retval s ts ret in
  let st := thread_state_at s1 ts in
  let s2 := set_thread_states s1
              (<[ts := mk_thread_state (ts_retval st) 1 (ts_suspended st)]> (thread_states s1)) in
  resume_sched s2.

(** *** Task groups *)

(** [task_group_data task_group_begin()] *)
Definition task_group_begin (s : scheduler_adws) : option (task_group_data * scheduler_adws) :=
  tls ← tls_ s;
  if is_cross_worker (tls_drange tls) then
    if depth_of tls + 1 <? adws_max_depth cfg then
      let '(dt, nr) := append cfg (dtree_ s) (tls_dtree_node_ref tls) (tls_drange tls)
                         (tls_tg_version tls) in
      let s1 := set_dtree_local_bottom_ref (set_dtree s dt) nr in
      Some (mk_task_group_data (tls_drange tls) true,
            set_tls s1 (Some (with_undistributed (with_dtree_node_ref tls nr) true)))
    else
      Some (mk_task_group_data (tls_drange tls) false,
            set_tls s (Some (with_undistributed tls true)))
  else Some (mk_task_group_data (tls_drange tls) false, s).

(** The part of [task_group_end] from [if (tgdata.owns_dtree_node)] on.  After
    a migration it runs on the owner of the range, on the scheduler of that
    rank. *)
Definition task_group_end_tail (s : scheduler_adws) (tgdata : task_group_data)
    : option (scheduler_adws * control) :=
  tls ← tls_ s;
  if tgd_owns_dtree_node tgdata then
    (* Set the completed current task group as non-dominant to reduce steal requests *)
    let dt := set_dominant cfg (dtree_ s) (tls_dtree_node_ref tls) false in
    (* Set the parent dist_tree node to the current thread *)
    if ITYR_CHECK (check_enabled cfg) (owner_rank (tls_dtree_node_ref tls) =? my_rank cfg) then
      let dtree_node := get_local_node cfg dt (tls_dtree_node_ref tls) in
      let tls1 := with_dtree_node_ref tls (parent dtree_node) in
      let s1 := set_dtree_local_bottom_ref (set_dtree s dt) (parent dtree_node) in
      (* Flip the next version of the task group at this depth *)
      if ITYR_CHECK (check_enabled cfg) (Flipper.in_range (node_depth dtree_node)) then
        let tls2 := with_tg_version tls1 (flip (tls_tg_version tls1) (node_depth dtree_node)) in
        Some (set_tls s1 (Some (with_undistributed tls2 false)), Returns)
      else Some (s1, Dies)
    else Some (set_dtree s dt, Dies)
  else Some (set_tls s (Some (with_undistributed tls false)), Returns).

(** [void task_group_end(tgdata, pre_suspend_cb, post_suspend_cb)].  [cf] is
    where the context is saved if the thread has to migrate. *)
Definition task_group_end (s : scheduler_adws) (tgdata : task_group_data) (cf : Z)
    : option (scheduler_adws * control) :=
  (* Just in case no threads are spawned in this task group *)
  s1 ← on_task_die s;
  tls ← tls_ s1;
  (* restore the original distribution range of this thread *)
  let tls1 := with_drange tls (tgd_drange tgdata) in
  let s2 := set_tls s1 (Some tls1) in
  if is_cross_worker (tls_drange tls1) then
    (* migrate the cross-worker-task to the owner *)
    let target_rank := owner (tls_drange tls1) in
    if negb (target_rank =? my_rank cfg) then
      let s3 := suspend_enter (issue s2 PreSuspendCb) cf in
      let '(ss, s4) := evacuate s3 cf in
      let s5 := issue s4 (MailboxPut (mk_cross_worker_task (ss_evacuation_ptr ss)
                            (ss_frame_base ss) (ss_frame_size ss)) target_rank) in
      s6 ← evacuate_all s5;
      Some (resume_sched s6)
    else task_group_end_tail s2 tgdata
  else Some (s2, Returns).

(** *** fork and join *)

Record fork_result : Type := mk_fork_result {
  fr_sched : scheduler_adws;
  fr_th : thread_handler;
  fr_control : control
}.

(** The head of [fork]: the range of the new thread and the rank it is for.
    The result is (the caller's storage after the division, [new_drange],
    [target_rank]). *)
Definition fork_ranges (tls : thread_local_storage) (w_new w_rest : float)
    : thread_local_storage * dist_range float * Z :=
  if is_cross_worker (tls_drange tls) then
    (* Avoid too fine-grained task migration *)
    let dr := if is_sufficiently_small (adws_min_drange_size cfg) (tls_drange tls)
              then move_to_end_boundary (tls_drange tls) else tls_drange tls in
    let '(dr_rest, dr_new) := divide dr w_rest w_new in
    (with_drange tls dr_rest, dr_new, owner dr_new)
  else
    (* quick path for non-cross-worker tasks *)
    (tls, tls_drange tls, my_rank cfg).

(** The local branch of [fork] from [suspend] to the call of [fn]: the context
    of the caller is saved at [cf], the storage of the new thread is set up and
    the continuation of the caller is pushed.  [s1] is the scheduler with the
    caller's storage [tls1] already updated.  [None] is a queue overflow. *)
Definition fork_enter_child (s1 : scheduler_adws) (tls1 : thread_local_storage)
    (new_drange : dist_range float) (cf : Z) : option scheduler_adws :=
  let s2 := suspend_enter s1 cf in
  let child := mk_tls new_drange (tls_dtree_node_ref tls1) (tls_tg_version tls1) true in
  let s3 := set_tls s2 (Some child) in
  let cf_size := ptr_diff (parent_frame (stack_frames s3) cf) cf in
  if use_primary_wsq_ s3 then
    set_primary_wsq s3 <$>
      push (my_rank cfg) (primary_wsq_ s3)
        (mk_primary_wsq_entry null cf cf_size (tls_tg_version child)) (depth_of child)
  else
    set_migration_wsq s3 <$>
      push (my_rank cfg) (migration_wsq_ s3)
        (mk_migration_wsq_entry true null cf cf_size (tls_tg_version child)) (depth_of child).

(** [void fork(th, on_drift_fork_cb, on_drift_die_cb, w_new, w_rest, fn, args...)].
    [fn] is the body of the new thread, run on this scheduler; [cf] is where the
    context of the caller is saved. *)
Definition fork (s : scheduler_adws) (cf : Z) (w_new w_rest : float)
    (fn : scheduler_adws -> T * scheduler_adws) : option fork_result :=
  tls ← tls_ s;
  let '(ts, s0) := new_thread_state s in
  let th := mk_thread_handler ts false None in
  let '(tls1, new_drange, target_rank) := fork_ranges tls w_new w_rest in
  let s1 := set_tls s0 (Some tls1) in
  if target_rank =? my_rank cfg then
    (* Put the continuation into the local queue and execute the new task (work-first) *)
    let prev_cf_top := cf_top_ s1 in
    let prev_tls := tls_ s1 in
    match fork_enter_child s1 tls1 new_drange cf with
    | None => Some (mk_fork_result s1 th Dies)
    | Some s4 =>
        let '(ret, s5) := fn s4 in
        s6 ← on_task_die s5;
        '(s7, c) ← on_die_workfirst s6 ts ret;
        match c with
        | Returns =>
            (* The following is executed only when the thread is serialized *)
            let s8 := delete_thread_state s7 ts in
            Some (mk_fork_result (suspend_leave s8 prev_cf_top prev_tls)
                    (mk_thread_handler null true (Some ret)) Returns)
        | _ => Some (mk_fork_result s7 th c)
        end
    end
  else
    (* Pass the new task to another worker and execute the continuation *)
    let '(t, a) := allocate (suspended_thread_allocator_ s1) (sizeof_task cfg) in
    let s2 := set_suspended_thread_allocator s1 a in
    if is_cross_worker new_drange then
      Some (mk_fork_result
              (issue s2 (MailboxPut (mk_cross_worker_task null t (sizeof_task cfg)) target_rank))
              th Returns)
    else
      Some (mk_fork_result
              (set_migration_wsq s2
                 (pass (migration_wsq_ s2)
                    (mk_migration_wsq_entry false null t (sizeof_task cfg) (tls_tg_version tls1))
                    target_rank (depth_of tls1)))
              th Returns).


Record join_result : Type := mk_join_result {
  jr_sched : scheduler_adws;
  jr_th : thread_handler;
  jr_control : control;
  jr_retval : option T
}.

(** The end of [join] for a thread that was not serialized: the return value is
    fetched and the thread state is freed.  It also runs when the continuation
    suspended in [join] is resumed by the joined thread. *)
Definition join_finish (s : scheduler_adws) (th : thread_handler) : join_result :=
  let ts := th_state th in
  let retval := ts_retval (thread_state_at s ts) in
  mk_join_result (delete_thread_state s ts)
    (mk_thread_handler null (th_serialized th) (th_retval_ser th)) Returns retval.

(** [T join(thread_handler<T>& th)]; [cf] is where the context is saved if the
    thread has to wait. *)
Definition join (s : scheduler_adws) (th : thread_handler) (cf : Z) : option join_result :=
  s1 ← on_task_die s;
  if th_serialized th then
    Some (mk_join_result s1 th Returns (th_retval_ser th))
  else if negb (ITYR_CHECK (check_enabled cfg) (negb (th_state th =? null))) then
    Some (mk_join_result s1 th Dies None)
  else
    let ts := th_state th in
    if 1 <=? ts_resume_flag (thread_state_at s1 ts) then
      Some (join_finish s1 th)
    else
      let prev_cf_top := cf_top_ s1 in
      let prev_tls := tls_ s1 in
      let s2 := suspend_enter s1 cf in
      let '(ss, s3) := evacuate s2 cf in
      let s4 := put_suspended s3 ts ss in
      (* race *)
      let '(prev, s5) := faa_resume_flag s4 ts in
      if prev =? 0 then
        s6 ← evacuate_all s5;
        let '(s7, c) := resume_sched s6 in
        Some (mk_join_result s7 th c None)
      else
        let s6 := set_suspended_thread_allocator s5
                    (deallocate (suspended_thread_allocator_ s5) (ss_evacuation_ptr ss)) in
        Some (join_finish (suspend_leave s6 prev_cf_top prev_tls) th).

(** *** The scheduler loop *)

(** [pop_from_primary_queues(depth_from)]: [todo] iterations from depth [d] down.
    The queue operation is [pop<false>(d)]. *)
Fixpoint pop_primary_from (q : wsqueue primary_wsq_entry) (d : Z) (todo : nat)
    : option primary_wsq_entry * wsqueue primary_wsq_entry :=
  match todo with
  | O => (None, q)
  | S todo' =>
      match pop (my_rank cfg) q d with
      | (Some pwe, q') => (Some pwe, q')
      | (None, q') => pop_primary_from q' (d - 1) todo'
      end
  end.

Definition pop_from_primary_queues (s : scheduler_adws) (depth_from : Z)
    : option primary_wsq_entry * scheduler_adws :=
  let '(pwe, q) := pop_primary_from (primary_wsq_ s) depth_from (Z.to_nat (depth_from + 1)) in
  (pwe, set_primary_wsq s q).

(** [pop_from_migration_queues()]: [todo] iterations from depth [d] up, with
    [pop<false>(d)] as well. *)
Fixpoint pop_migration_from (q : wsqueue migration_wsq_entry) (d : Z) (todo : nat)
    : option migration_wsq_entry * wsqueue migration_wsq_entry :=
  match todo with
  | O => (None, q)
  | S todo' =>
      match pop (my_rank cfg) q d with
      | (Some mwe, q') => (Some mwe, q')
      | (None, q') => pop_migration_from q' (d + 1) todo'
      end
  end.

Definition pop_from_migration_queues (s : scheduler_adws)
    : option migration_wsq_entry * scheduler_adws :=
  let '(mwe, q) := pop_migration_from (migration_wsq_ s) 0
                     (Z.to_nat (n_queues (migration_wsq_ s))) in
  (mwe, set_migration_wsq s q).

(** [suspend([&](context_frame* cf) { sched_cf_ = cf; ... })] in the scheduler. *)
Definition suspend_sched (s : scheduler_adws) (cf : Z) : scheduler_adws :=
  set_sched_cf (suspend_enter s cf) cf.

(** [void execute_cross_worker_task(const cross_worker_task& cwt)] *)
Definition execute_cross_worker_task (s : scheduler_adws) (cwt : cross_worker_task)
    (cf : Z) : scheduler_adws * control :=
  if cwt_evacuation_ptr cwt =? null then
    (suspend_sched s cf, StartNewTask (cwt_frame_base cwt) (cwt_frame_size cwt))
  else
    (suspend_sched s cf,
     ResumeSuspended (mk_suspended_state (cwt_evacuation_ptr cwt) (cwt_frame_base cwt)
                        (cwt_frame_size cwt))).

(** [void execute_migrated_task(const migration_wsq_entry& mwe)] *)
Definition execute_migrated_task (s : scheduler_adws) (mwe : migration_wsq_entry)
    (cf : Z) : scheduler_adws * control :=
  if negb (mwe_is_continuation mwe) then
    (suspend_sched s cf, StartNewTask (mwe_frame_base mwe) (mwe_frame_size mwe))
  else if negb (mwe_evacuation_ptr mwe =? null) then
    (suspend_sched s cf,
     ResumeSuspended (mk_suspended_state (mwe_evacuation_ptr mwe) (mwe_frame_base mwe)
                        (mwe_frame_size mwe)))
  else
    (* On-stack threads cannot remain after switching to the scheduler. *)
    (s, Dies).

(** *** Work stealing *)

(** What a successful steal took, and from where. *)
Inductive stolen : Type :=
| StolenPrimary (target_rank d : Z) (pwe : primary_wsq_entry)
| StolenMigration (target_rank d : Z) (mwe : migration_wsq_entry).

(** The queue depth and the task-group version of what was taken. *)
Definition stolen_depth (what : stolen) : Z :=
  match what with
  | StolenPrimary _ d _ => d
  | StolenMigration _ d _ => d
  end.

Definition stolen_tg_version (what : stolen) : flipper :=
  match what with
  | StolenPrimary _ _ pwe => pwe_tg_version pwe
  | StolenMigration _ _ mwe => mwe_tg_version mwe
  end.

(** [context::clear_parent_frame(cf)] *)
Definition clear_parent_frame (s : scheduler_adws) (cf : Z) : scheduler_adws :=
  set_stack_frames s (<[cf := null]> (stack_frames s)).

(** The callback [steal_from_primary_queues] runs on the queue of depth [d] of
    [target_rank].  [None] is its [return false].  The bytes
    [stack_.direct_copy_from] brings are those of the thief's own stack region
    from then on; only the frame that is resumed is tracked. *)
Definition steal_primary_at (s : scheduler_adws) (target_rank d : Z)
    (steal_cond_fn : primary_wsq_entry -> bool) (cf : Z)
    : scheduler_adws * option (stolen * control) :=
  let '(ok, q1) := trylock (primary_wsq_ s) target_rank d in
  if negb ok then (s, None)
  else
    match steal_nolock q1 target_rank d with
    | (None, q2) => (set_primary_wsq s (unlock q2 target_rank d), None)
    | (Some pwe, q2) =>
        if negb (steal_cond_fn pwe) then
          (set_primary_wsq s (unlock (abort_steal q2 target_rank d pwe) target_rank d), None)
        else
          let s1 := set_primary_wsq s (unlock q2 target_rank d) in
          if negb (pwe_evacuation_ptr pwe =? null) then
            (* This task is an evacuated continuation *)
            (suspend_sched s1 cf,
             Some (StolenPrimary target_rank d pwe,
                   ResumeSuspended (mk_suspended_state (pwe_evacuation_ptr pwe)
                                      (pwe_frame_base pwe) (pwe_frame_size pwe))))
          else
            (* This task is a context frame on the stack *)
            (clear_parent_frame (suspend_sched s1 cf) (pwe_frame_base pwe),
             Some (StolenPrimary target_rank d pwe, ResumeFrame (pwe_frame_base pwe)))
    end.

(** The same for [steal_from_migration_queues]. *)
Definition steal_migration_at (s : scheduler_adws) (target_rank d : Z)
    (steal_cond_fn : migration_wsq_entry -> bool) (cf : Z)
    : scheduler_adws * option (stolen * control) :=
  let '(ok, q1) := trylock (migration_wsq_ s) target_rank d in
  if negb ok then (s, None)
  else
    match steal_nolock q1 target_rank d with
    | (None, q2) => (set_migration_wsq s (unlock q2 target_rank d), None)
    | (Some mwe, q2) =>
        if negb (steal_cond_fn mwe) then
          (set_migration_wsq s (unlock (abort_steal q2 target_rank d mwe) target_rank d), None)
        else
          let s1 := set_migration_wsq s (unlock q2 target_rank d) in
          if negb (mwe_is_continuation mwe) then
            (* This task is a new task *)
            (suspend_sched s1 cf,
             Some (StolenMigration target_rank d mwe,
                   StartNewTask (mwe_frame_base mwe) (mwe_frame_size mwe)))
          else if negb (mwe_evacuation_ptr mwe =? null) then
            (* This task is an evacuated continuation *)
            (suspend_sched s1 cf,
             Some (StolenMigration target_rank d mwe,
                   ResumeSuspended (mk_suspended_state (mwe_evacuation_ptr mwe)
                                      (mwe_frame_base mwe) (mwe_frame_size mwe))))
          else
            (* This task is a continuation on the stack *)
            (suspend_sched s1 cf,
             Some (StolenMigration target_rank d mwe, ResumeFrame (mwe_frame_base mwe)))
    end.

(** [for_each_nonempty_queue] stops at the first depth whose callback returns
    true. *)
Fixpoint first_success {R : Type}
    (f : scheduler_adws -> Z -> scheduler_adws * option R)
    (s : scheduler_adws) (ds : list Z) : scheduler_adws * option R :=
  match ds with
  | [] => (s, None)
  | d :: ds' =>
      match f s d with
      | (s', Some r) => (s', Some r)
      | (s', None) => first_success f s' ds'
      end
  end.

(** [bool steal_from_primary_queues(target_rank, min_depth, max_depth, steal_cond_fn)] *)
Definition steal_from_primary_queues (s : scheduler_adws) (target_rank min_depth max_depth : Z)
    (steal_cond_fn : primary_wsq_entry -> bool) (cf : Z)
    : scheduler_adws * option (stolen * control) :=
  first_success (fun s' d => steal_primary_at s' target_rank d steal_cond_fn cf) s
    (nonempty_depths (primary_wsq_ s) target_rank min_depth max_depth false).

(** [bool steal_from_migration_queues(target_rank, min_depth, max_depth, steal_cond_fn)] *)
Definition steal_from_migration_queues (s : scheduler_adws) (target_rank min_depth max_depth : Z)
    (steal_cond_fn : migration_wsq_entry -> bool) (cf : Z)
    : scheduler_adws * option (stolen * control) :=
  first_success (fun s' d => steal_migration_at s' target_rank d steal_cond_fn cf) s
    (nonempty_depths (migration_wsq_ s) target_rank min_depth max_depth true).

(** What [steal] ends with. *)
Inductive steal_outcome : Type :=
| NothingStolen
| CheckFailed
| Took (what : stolen) (c : control)
| Received (cwt : cross_worker_task) (c : control).

(** What the worker meets from outside during one call: the random draws and
    what [cross_worker_mailbox_.pop()] finds, in the order they are asked for. *)
Record environment : Type := mk_environment {
  env_scan_seeds : list Z;
  env_target_seeds : list Z;
  env_arrivals : list (option cross_worker_task)
}.

(** The loop [for (int i = 0; i < max_reuse; i++)] of [steal]. *)
Fixpoint steal_loop (s : scheduler_adws) (steal_range : dist_range float)
    (tgv : flipper) (d begin_rank end_rank : Z)
    (target_seeds : list Z) (arrivals : list (option cross_worker_task))
    (cf : Z) (todo : nat) : scheduler_adws * steal_outcome :=
  match todo with
  | O => (s, NothingStolen)
  | S todo' =>
      let target_rank := get_random_rank (hd 0 target_seeds) begin_rank end_rank in
      let '(s1, r1) :=
        if negb (target_rank =? begin_rank) then
          steal_from_migration_queues s target_rank d (n_queues (migration_wsq_ s))
            (fun mwe => match_ (mwe_tg_version mwe) tgv d) cf
        else (s, None) in
      match r1 with
      | Some (what, c) => (s1, Took what c)
      | None =>
          let '(s2, r2) :=
            if negb (target_rank =? end_rank)
               || ((target_rank =? end_rank) && is_at_end_boundary steal_range) then
              steal_from_primary_queues s1 target_rank d (n_queues (primary_wsq_ s1))
                (fun pwe => match_ (pwe_tg_version pwe) tgv d) cf
            else (s1, None) in
          match r2 with
          | Some (what, c) => (s2, Took what c)
          | None =>
              (* Periodic check for cross-worker task arrival *)
              match hd None arrivals with
              | Some cwt =>
                  let '(s3, c) := execute_cross_worker_task s2 cwt cf in
                  (s3, Received cwt c)
              | None =>
                  steal_loop s2 steal_range tgv d begin_rank end_rank
                    (tl target_seeds) (tl arrivals) cf todo'
              end
          end
      end
  end.

(** [void steal()].  The dominant node the scan found is returned with the
    outcome; [CheckFailed] is a failed ITYR_CHECK. *)
Definition steal (s : scheduler_adws) (env : environment) (cf : Z)
    : scheduler_adws * option node * steal_outcome :=
  match get_topmost_dominant cfg (dtree_ s) (dtree_local_bottom_ref_ s)
          (env_scan_seeds env) with
  | None => (s, None, CheckFailed)
  | Some (None, dt) => (set_dtree s dt, None, NothingStolen)
  | Some (Some n, dt) =>
      let s1 := set_dtree s dt in
      let steal_range := drange n in
      let begin_rank := begin_rank steal_range in
      let end_rank := if is_at_end_boundary steal_range
                      then end_rank steal_range - 1 else end_rank steal_range in
      if begin_rank =? end_rank then (s1, Some n, NothingStolen)
      else if negb (ITYR_CHECK (check_enabled cfg)
                      ((begin_rank <=? my_rank cfg) || (my_rank cfg <=? end_rank)))
      then (s1, Some n, CheckFailed)
      else
        (* reuse the dist tree information multiple times *)
        let max_reuse := Z.max 1 (adws_max_dtree_reuse cfg) in
        let '(s2, o) := steal_loop s1 steal_range (tg_version n) (node_depth n)
                          begin_rank end_rank (env_target_seeds env) (env_arrivals env)
                          cf (Z.to_nat max_reuse) in
        (s2, Some n, o)
  end.

(** What one iteration of [sched_loop] ends with. *)
Inductive iteration : Type :=
| RunsCrossWorkerTask (cwt : cross_worker_task) (c : control)
| RunsPopped (pwe : primary_wsq_entry) (c : control)
| RunsMigrated (mwe : migration_wsq_entry) (c : control)
| Steals (o : steal_outcome).

(** The body of the [while] loop of [sched_loop], once [should_exit_sched_loop]
    has returned false.  [env_arrivals] gives first what the loop's own
    [cross_worker_mailbox_.pop()] finds. *)
Definition sched_loop_body (s : scheduler_adws) (env : environment) (cf : Z)
    : scheduler_adws * iteration :=
  match hd None (env_arrivals env) with
  | Some cwt =>
      let '(s1, c) := execute_cross_worker_task s cwt cf in (s1, RunsCrossWorkerTask cwt c)
  | None =>
      match pop_from_primary_queues s (n_queues (primary_wsq_ s) - 1) with
      | (Some pwe, s1) =>
          (* No on-stack thread can exist while the scheduler thread is running *)
          if ITYR_CHECK (check_enabled cfg) (negb (pwe_evacuation_ptr pwe =? null)) then
            (suspend_sched s1 cf,
             RunsPopped pwe
               (ResumeSuspended (mk_suspended_state (pwe_evacuation_ptr pwe)
                                   (pwe_frame_base pwe) (pwe_frame_size pwe))))
          else (s1, RunsPopped pwe Dies)
      | (None, s1) =>
          match pop_from_migration_queues s1 with
          | (Some mwe, s2) =>
              let '(s3, c) := execute_migrated_task (set_use_primary_wsq s2 false) mwe cf in
              (s3, RunsMigrated mwe c)
          | (None, s2) =>
              if adws_enable_steal cfg then
                let '(s3, _, o) :=
                  steal s2 (mk_environment (env_scan_seeds env) (env_target_seeds env)
                              (tl (env_arrivals env))) cf in
                (s3, Steals o)
              else (s2, Steals NothingStolen)
          end
      end
  end.


End WithReturnType.

Arguments mk_thread_state {T} _ _ _.
Arguments ts_retval {T} _.
Arguments ts_resume_flag {T} _.
Arguments ts_suspended {T} _.
Arguments mk_thread_handler {T} _ _ _.
Arguments th_state {T} _.
Arguments th_serialized {T} _.
Arguments th_retval_ser {T} _.
Arguments stack_frames {T} _.
Arguments primary_wsq_ {T} _.
Arguments migration_wsq_ {T} _.
Arguments thread_state_allocator_ {T} _.
Arguments thread_states {T} _.
Arguments suspended_thread_allocator_ {T} _.
Arguments cf_top_ {T} _.
Arguments sched_cf_ {T} _.
Arguments tls_ {T} _.
Arguments use_primary_wsq_ {T} _.
Arguments dtree_ {T} _.
Arguments dtree_local_bottom_ref_ {T} _.
Arguments issued {T} _.
Arguments fr_sched {T} _.
Arguments fr_th {T} _.
Arguments fr_control {T} _.
Arguments jr_sched {T} _.
Arguments jr_th {T} _.
Arguments jr_control {T} _.
Arguments jr_retval {T} _.

End Sched.

(** ** The race on [resume_flag] between [join] and [on_die_drifted]

    The joined thread (the child) and the joining thread (the parent) may run on
    different workers; what they share is the thread state, which they reach by
    one-sided operations.  Each party is cut at these operations, in the order
    of [on_die_drifted] and of the non-serialized branch of [join]; a schedule
    interleaves the two. *)

Module JoinRace.
Import Sched.

Section Race.
Variable T : Type.
(** what the child returns, and what [evacuate(cf)] gives the parent *)
Variable ret : T.
Variable ss : suspended_state.

(** Where the child stands in [on_die_drifted]. *)
Inductive child_pc : Type :=
| CPutRetval                              (* before remote_put_value(retval, &ts->retval) *)
| CRace                                   (* before remote_faa_value(1, &ts->resume_flag) *)
| CWins                                   (* evacuate_all(); resume_sched() *)
| CLoses                                  (* before remote_get_value(&ts->suspended) *)
| CResumes (r : option suspended_state).  (* resume(ss): the parent's continuation runs *)

(** Where the parent stands in [join]. *)
Inductive parent_pc : Type :=
| PCheck                     (* before remote_get_value(&ts->resume_flag) >= 1 *)
| PSuspend                   (* before evacuate(cf); remote_put_value(ss, &ts->suspended) *)
| PRace                      (* before remote_faa_value(1, &ts->resume_flag) *)
| PWins                      (* evacuate_all(); resume_sched(): waits to be resumed *)
| PFetch                     (* before remote_get_value(&ts->retval) *)
| PDone (retval : option T). (* the thread state is freed and [join] returns *)

Inductive party : Type := Child | Parent.

Record race : Type := mk_race {
  shared : thread_state T;
  cpc : child_pc;
  ppc : parent_pc;
  (** what the [fetch_add] of each party returned, once it has run *)
  child_saw : option Z;
  parent_saw : option Z
}.

Definition start : race := mk_race (fresh_thread_state T) CPutRetval PCheck None None.

Definition step (who : party) (x : race) : option race :=
  match who with
  | Child =>
      match cpc x with
      | CPutRetval =>
          Some (mk_race (st_put_retval T (shared x) ret) CRace (ppc x)
                  (child_saw x) (parent_saw x))
      | CRace =>
          let '(prev, st) := st_faa_resume_flag T (shared x) in
          Some (mk_race st (if prev =? 0 then CWins else CLoses) (ppc x)
                  (Some prev) (parent_saw x))
      | CLoses =>
          (* the continuation the parent left in ts->suspended goes on, after
             its [suspend] *)
          Some (mk_race (shared x) (CResumes (ts_suspended (shared x)))
                  (match ppc x with PWins => PFetch | p => p end)
                  (child_saw x) (parent_saw x))
      | CWins | CResumes _ => None
      end
  | Parent =>
      match ppc x with
      | PCheck =>
          Some (mk_race (shared x) (cpc x)
                  (if 1 <=? ts_resume_flag (shared x) then PFetch else PSuspend)
                  (child_saw x) (parent_saw x))
      | PSuspend =>
          Some (mk_race (st_put_suspended T (shared x) ss) (cpc x) PRace
                  (child_saw x) (parent_saw x))
      | PRace =>
          let '(prev, st) := st_faa_resume_flag T (shared x) in
          Some (mk_race st (cpc x) (if prev =? 0 then PWins else PFetch)
                  (child_saw x) (Some prev))
      | PFetch =>
          Some (mk_race (shared x) (cpc x) (PDone (ts_retval (shared x)))
                  (child_saw x) (parent_saw x))
      | PWins | PDone _ => None
      end
  end.

(** A schedule is run from the left; a party that cannot move is skipped. *)
Fixpoint run (sched : list party) (x : race) : race :=
  match sched with
  | [] => x
  | who :: rest => run rest (default x (step who x))
  end.

Inductive reachable : race -> Prop :=
| reachable_start : reachable start
| reachable_step who x x' : reachable x -> step who x = Some x' -> reachable x'.

(** Both parties are through. *)
Definition finished (x : race) : Prop :=
  match cpc x, ppc x with
  | (CWins | CResumes _), PDone _ => True
  | _, _ => False
  end.

(** The number of increments of [resume_flag] a party has made. *)
Definition increments (saw : option Z) : Z :=
  match saw with Some _ => 1 | None => 0 end.

Definition saw_zero (saw : option Z) : bool :=
  match saw with Some 0 => true | _ => false end.

(** How far the two parties are; every step moves on. *)
Definition progress_of (x : race) : Z :=
  match cpc x with
  | CPutRetval => 0 | CRace => 1 | CLoses => 2 | CWins | CResumes _ => 3
  end +
  match ppc x with
  | PCheck => 0 | PSuspend => 1 | PRace => 2 | PWins => 3 | PFetch => 4 | PDone _ => 5
  end.

(** What holds in every state the two parties can reach. *)
Definition race_invariant (x : race) : Prop :=
  (* the flag counts the increments made so far *)
  ts_resume_flag (shared x) = increments (child_saw x) + increments (parent_saw x) /\
  (* the first increment saw 0, the second saw 1 *)
  match child_saw x, parent_saw x with
  | None, None => True
  | Some c, None => c = 0
  | None, Some p => p = 0
  | Some c, Some p => (c = 0 /\ p = 1) \/ (c = 1 /\ p = 0)
  end /\
  (* where the child stands *)
  match cpc x with
  | CPutRetval => child_saw x = None
  | CRace => child_saw x = None /\ ts_retval (shared x) = Some ret
  | CWins => child_saw x = Some 0 /\ ts_retval (shared x) = Some ret
  | CLoses => child_saw x = Some 1 /\ ts_retval (shared x) = Some ret /\ ppc x = PWins
  | CResumes r => child_saw x = Some 1 /\ ts_retval (shared x) = Some ret /\ r = Some ss
  end /\
  (* where the parent stands *)
  match ppc x with
  | PCheck | PSuspend => parent_saw x = None
  | PRace => parent_saw x = None /\ ts_suspended (shared x) = Some ss
  | PWins =>
      parent_saw x = Some 0 /\ ts_suspended (shared x) = Some ss /\
      match cpc x with CResumes _ | CWins => False | _ => True end
  | PFetch =>
      ts_retval (shared x) = Some ret /\ child_saw x <> None /\
      (parent_saw x = Some 0 -> exists r, cpc x = CResumes r)
  | PDone v =>
      v = Some ret /\ child_saw x <> None /\
      (parent_saw x = Some 0 -> exists r, cpc x = CResumes r)
  end.

End Race.

Arguments PCheck {T}.
Arguments PSuspend {T}.
Arguments PRace {T}.
Arguments PWins {T}.
Arguments PFetch {T}.
Arguments PDone {T} _.
Arguments shared {T} _.
Arguments cpc {T} _.
Arguments ppc {T} _.
Arguments child_saw {T} _.
Arguments parent_saw {T} _.

End JoinRace.

(** ** coll_exec and execute_coll_task (adws.hpp) *)

Module CollExec.

(** Modelled from the spec: [common::next_pow2] (common/util.hpp, not among the
    sources at hand), the size of the "next_pow2(N)-tree": the least power of
    two that is not below [n]. *)
Definition next_pow2 (n : Z) : Z := 2 ^ Z.log2_up n.

(** [(my_rank + n_ranks - ct.begin_rank) % n_ranks] *)
Definition shifted (n_ranks begin_rank my_rank : Z) : Z :=
  (my_rank + n_ranks - begin_rank) mod n_ranks.

(** The loop [for (rank_t i = next_pow2(n_ranks); i > 1; i /= 2)] of
    [execute_coll_task], from [i] on: the ranks [coll_task_mailbox_.put] is
    called for, in order.  The loop halves [i], so [fuel] = [i] iterations are
    enough. *)
Fixpoint put_loop (n_ranks begin_rank my_rank_shifted i : Z) (fuel : nat) : list Z :=
  match fuel with
  | O => []
  | S fuel' =>
      if 1 <? i then
        (if my_rank_shifted mod i =? 0 then
           let target_rank_shifted := my_rank_shifted + i / 2 in
           if target_rank_shifted <? n_ranks
           then [(target_rank_shifted + begin_rank) mod n_ranks]
           else []
         else [])
        ++ put_loop n_ranks begin_rank my_rank_shifted (i / 2) fuel'
      else []
  end.

Definition put_targets (n_ranks begin_rank my_rank : Z) : list Z :=
  put_loop n_ranks begin_rank (shifted n_ranks begin_rank my_rank)
    (next_pow2 n_ranks) (Z.to_nat (next_pow2 n_ranks)).

(** What a rank does in [execute_coll_task], in program order. *)
Inductive action : Type :=
| Put (target_rank : Z)     (* coll_task_mailbox_.put(ct_, target_rank) *)
| Barrier                   (* common::mpi_barrier *)
| Execute.                  (* t->execute() *)

(** [void execute_coll_task(task_general* t, coll_task ct)] on rank [my_rank]. *)
Definition execute_coll_task (n_ranks begin_rank my_rank : Z) : list action :=
  map Put (put_targets n_ranks begin_rank my_rank) ++ [Barrier; Execute; Barrier].

(** A rank runs [execute_coll_task] for a task begun on [begin_rank] when it is
    [begin_rank] itself, from [coll_exec], or when its mailbox holds the task
    ([execute_coll_task_if_arrived]), which some rank that runs it has put
    there. *)
Inductive runs (n_ranks begin_rank : Z) : Z -> Prop :=
| runs_begin : runs n_ranks begin_rank begin_rank
| runs_put sender r :
    runs n_ranks begin_rank sender ->
    In r (put_targets n_ranks begin_rank sender) ->
    runs n_ranks begin_rank r.

(** The closure [coll_task_fn] of [coll_exec]: [fn] is run, and its result is
    kept in [retv] on the rank that began.  [fn] may depend on the rank it runs
    on. *)
Definition coll_task_fn {R : Type} (fn : Z -> R) (begin_rank my_rank : Z)
    (retv : option R) : option R :=
  let ret := fn my_rank in
  if my_rank =? begin_rank then Some ret else retv.

(** [auto coll_exec(Fn&& fn, Args&&... args)] on the rank that calls it: what
    it does and what it returns. *)
Definition coll_exec {R : Type} (n_ranks my_rank : Z) (fn : Z -> R)
    : list action * option R :=
  let begin_rank := my_rank in
  (execute_coll_task n_ranks begin_rank my_rank,
   coll_task_fn fn begin_rank my_rank None).

Definition is_execute (a : action) : bool :=
  match a with Execute => true | _ => false end.

Definition is_barrier (a : action) : bool :=
  match a with Barrier => true | _ => false end.

(** How many times [t->execute()] stands in a list of actions. *)
Definition count_executes (l : list action) : nat :=
  length (List.filter is_execute l).

End CollExec.

(** ** home_manager (ori/home_manager.hpp) *)

Module HomeManager.

Record mmap_entry : Type := mk_mmap_entry {
  entry_idx : Z;
  addr : Z;
  mapped_addr : Z;
  size : Z;
  mapped_size : Z;
  pm : Z;
  pm_offset : Z;
  ref_count : Z
}.

(** [bool is_evictable() const { return ref_count == 0; }] *)
Definition is_evictable (me : mmap_entry) : bool := ref_count me =? 0.

Definition with_ref_count (me : mmap_entry) (n : Z) : mmap_entry :=
  mk_mmap_entry (entry_idx me) (addr me) (mapped_addr me) (size me) (mapped_size me)
    (pm me) (pm_offset me) n.

(** [common::span<std::byte>]: data() and size(). *)
Record span : Type := mk_span { sp_data : Z; sp_size : Z }.

Section WithTlb.
(** [tlb<span, mmap_entry*>] (ori/tlb.hpp) is not among the sources at hand: its
    state is [tlb], and [tlb_get] is its [get(pred)], which yields the entry
    found, as the key of the entry in the cache, and the state it leaves. *)
Variable tlb : Type.
Variable tlb_get : tlb -> (span -> bool) -> option Z * tlb.

Record home_manager : Type := mk_home_manager {
  (** the entries [cs_] holds, by cache key; [mmap_entry*] is such a key *)
  cs_ : gmap Z mmap_entry;
  home_tlb_ : tlb;
  home_segments_to_map_ : list Z
}.

(** The predicate both fast paths hand to [home_tlb_.get]. *)
Definition covers (addr size : Z) (seg : span) : bool :=
  (sp_data seg <=? addr) && (addr + size <=? sp_data seg + sp_size seg).

(** A slot of the cache no segment has been brought to: the member
    initialisers of [mmap_entry]. *)
Definition fresh_entry : mmap_entry :=
  mk_mmap_entry (2 ^ 64 - 1) 0 0 0 0 0 0 0.

(** [mmap_entry& me = **meo]: the entry a key of the cache stands for. *)
Definition entry_at (hm : home_manager) (key : Z) : mmap_entry :=
  default fresh_entry (cs_ hm !! key).

(** [me.ref_count++] ([delta] = 1), [me.ref_count--] ([delta] = -1) or neither on
    the entry [key]; [t] is the state the lookup left the buffer in. *)
Definition update_ref_count (hm : home_manager) (t : tlb) (key : Z) (delta : Z)
    : home_manager :=
  let me := entry_at hm key in
  mk_home_manager
    (<[key := with_ref_count me (ref_count me + delta)]> (cs_ hm))
    t (home_segments_to_map_ hm).

(** [template <bool IncrementRef> bool checkout_fast(std::byte* addr, std::size_t size)],
    once the two ITYR_CHECKs at its head ([addr] is not null, [size > 0]) have
    passed: they are preconditions of the model. *)
Definition checkout_fast (IncrementRef : bool) (hm : home_manager) (addr size : Z)
    : bool * home_manager :=
  match tlb_get (home_tlb_ hm) (covers addr size) with
  | (None, t) => (false, mk_home_manager (cs_ hm) t (home_segments_to_map_ hm))
  | (Some key, t) =>
      (true, update_ref_count hm t key (if IncrementRef then 1 else 0))
  end.

(** [template <bool DecrementRef> bool checkin_fast(const std::byte* addr, std::size_t size)],
    once the same two ITYR_CHECKs have passed. *)
Definition checkin_fast (DecrementRef : bool) (hm : home_manager) (addr size : Z)
    : bool * home_manager :=
  if negb DecrementRef then (false, hm)
  else
    match tlb_get (home_tlb_ hm) (covers addr size) with
    | (None, t) => (false, mk_home_manager (cs_ hm) t (home_segments_to_map_ hm))
    | (Some key, t) => (true, update_ref_count hm t key (-1))
    end.

(** [me.ref_count] of the entry with key [key]. *)
Definition ref_count_of (hm : home_manager) (key : Z) : Z := ref_count (entry_at hm key).

End WithTlb.

(** A translation buffer that keeps its segments in a list and finds the first
    one the predicate accepts; used to run the functions above. *)
Definition list_tlb : Type := list (span * Z).

Definition list_tlb_get (t : list_tlb) (pred : span -> bool) : option Z * list_tlb :=
  (snd <$> find (fun e => pred (fst e)) t, t).

End HomeManager.

(** ** global_vector::at and operator[] (container/global_vector.hpp) *)

Module GlobalVector.

(** [global_ptr<T>] values are addresses counted in elements of [T]. *)
Record global_vector : Type := mk_global_vector {
  begin_ : Z;
  end_ : Z;
  reserved_end_ : Z
}.

(** [size_type] is [std::size_t]. *)
Definition size_max : Z := 2 ^ 64.

(** [size_type size() const noexcept { return end_ - begin_; }] *)
Definition size (v : global_vector) : Z := (end_ v - begin_ v) mod size_max.

(** [size_type capacity() const noexcept { return reserved_end_ - begin_; }] *)
Definition capacity (v : global_vector) : Z := (reserved_end_ v - begin_ v) mod size_max.

(** What an access ends with: the reference (the address it stands for), the
    exception [std::out_of_range], or a failed ITYR_CHECK. *)
Inductive access : Type :=
| Reference (p : Z)
| ThrowsOutOfRange
| CheckFails.

(** The vector and the global memory its elements live in. *)
Record store (T : Type) : Type := mk_store {
  vec : global_vector;
  memory : gmap Z T
}.
Arguments mk_store {T} _ _.
Arguments vec {T} _.
Arguments memory {T} _.

Section WithElements.
Variable T : Type.
Variable check_enabled : bool.

(** [reference operator[](size_type i) const] *)
Definition subscript (st : store T) (i : Z) : access * store T :=
  if ITYR_CHECK check_enabled (i <=? size (vec st))
  then (Reference (begin_ (vec st) + i), st)
  else (CheckFails, st).

(** [reference at(size_type i) const] *)
Definition at_ (st : store T) (i : Z) : access * store T :=
  if size (vec st) <=? i then (ThrowsOutOfRange, st)
  else subscript st i.

(** The elements of the vector: what the memory holds at its indices. *)
Definition elements (st : store T) : list (option T) :=
  map (fun k => memory st !! (begin_ (vec st) + Z.of_nat k))
    (seq 0 (Z.to_nat (size (vec st)))).

End WithElements.

End GlobalVector.

(** ** Predicates on the distribution tree *)

Module DistTreeState.
Import DistRange Flipper DistTree.

Section WithConfig.
Variable cfg : config.

(** A value of [versions_] that [append] can have left: positive, an [int], and
    in the residue class of this rank ([my_rank + 1] modulo the number of
    ranks). *)
Definition version_ok (v : Z) : Prop :=
  0 < v <= DistTree.int_max /\
  v mod n_ranks cfg = (my_rank cfg + 1) mod n_ranks cfg.

Definition versions_ok (dt : dist_tree) : Prop := Forall version_ok (versions_ dt).

(** The topology: this rank is one of the [n_ranks] ranks, and their number
    leaves room for a version counter in an [int]. *)
Definition topology_ok : Prop :=
  0 <= my_rank cfg < n_ranks cfg /\ my_rank cfg + 1 + n_ranks cfg <= DistTree.int_max.

End WithConfig.

End DistTreeState.

(** ** Readings of the scheduler's state *)

Module SchedState.
Import DistRange Flipper DistTree WSQueue Sched.

(** The ranks the [cross_worker_mailbox_.put]s of a list of events go to, the
    tasks they carry (by their [frame_base]) and the tasks waited for with
    [is_remotely_freed], each in the order of the list. *)
Definition put_targets_of (es : list event) : list Z :=
  flat_map (fun e => match e with MailboxPut _ r => [r] | _ => [] end) es.

Definition put_tasks_of (es : list event) : list cross_worker_task :=
  flat_map (fun e => match e with MailboxPut cwt _ => [cwt] | _ => [] end) es.

Definition waits_of (es : list event) : list Z :=
  flat_map (fun e => match e with WaitRemotelyFreed p => [p] | _ => [] end) es.

(** [issued] keeps the latest event first; this is the program order. *)
Definition events {T : Type} (s : scheduler_adws T) : list event := rev (issued s).

(** The ranks [a, a + 1, ..., b - 1]. *)
Definition ranks_from_to (a b : Z) : list Z :=
  map (fun i => a + Z.of_nat i) (seq 0 (Z.to_nat (b - a))).

(** Two states of a set of work-stealing queues with the same locks, and with
    the same entries. *)
Definition same_locks {E : Type} (q q' : wsqueue E) : Prop :=
  forall rank d, locked q' rank d = locked q rank d.

Definition same_entries {E : Type} (q q' : wsqueue E) : Prop :=
  forall rank d, queue_at q' rank d = queue_at q rank d.

(** [q'] is [q] without the oldest entry [e] of the deque of ([rank], [d]). *)
Definition taken_from {E : Type} (q q' : wsqueue E) (rank d : Z) (e : E) : Prop :=
  queue_at q rank d = queue_at q' rank d ++ [e] /\
  forall rank' d', (rank', d') <> (rank, d) -> queue_at q' rank' d' = queue_at q rank' d'.

(** The rank a stolen entry was taken from. *)
Definition stolen_rank (what : stolen) : Z :=
  match what with
  | StolenPrimary target_rank _ _ => target_rank
  | StolenMigration target_rank _ _ => target_rank
  end.

(** From [s] to [s'] no lock and no entry of a work-stealing queue has
    changed, on any rank. *)
Definition queues_untouched {T : Type} (s s' : scheduler_adws T) : Prop :=
  same_locks (primary_wsq_ s) (primary_wsq_ s') /\
  same_locks (migration_wsq_ s) (migration_wsq_ s') /\
  same_entries (primary_wsq_ s) (primary_wsq_ s') /\
  same_entries (migration_wsq_ s) (migration_wsq_ s').

(** From [s] to [s'] the locks are as they were and the queues differ by the
    one entry [what] says was taken. *)
Definition entry_taken {T : Type} (s s' : scheduler_adws T) (what : stolen) : Prop :=
  same_locks (primary_wsq_ s) (primary_wsq_ s') /\
  same_locks (migration_wsq_ s) (migration_wsq_ s') /\
  match what with
  | StolenPrimary target_rank d pwe =>
      taken_from (primary_wsq_ s) (primary_wsq_ s') target_rank d pwe /\
      same_entries (migration_wsq_ s) (migration_wsq_ s')
  | StolenMigration target_rank d mwe =>
      taken_from (migration_wsq_ s) (migration_wsq_ s') target_rank d mwe /\
      same_entries (primary_wsq_ s) (primary_wsq_ s')
  end.

End SchedState.

(** ** root_exec (adws.hpp, scheduler_adws::root_exec) *)

Module RootExec.
Import DistRange Flipper DistTree WSQueue Sched.

Section WithReturnType.
Variable T : Type.
Variable cfg : config.

(** The storage [root_exec] gives the root thread: the range of all ranks, no
    node of the distribution tree ([dtree_node_ref = {}]), version 0. *)
Definition root_tls : thread_local_storage :=
  mk_tls (of_n_ranks (n_ranks cfg)) null_ref Flipper.zero true.

(** [root_exec] from its start to the call of [fn]: the thread state is
    allocated, the scheduler's context is saved at [cf] ([sched_cf_ = cf]),
    [root_on_stack] sets [cf_top_ = stack_top()] and the storage of the root
    thread is set up.  [stack_top] is the value of [stack_top()]. *)
Definition root_exec_enter (s : scheduler_adws T) (cf stack_top : Z)
    : Z * scheduler_adws T :=
  let '(ts, s0) := new_thread_state T cfg s in
  let s1 := suspend_sched T s0 cf in
  let s2 := set_cf_top T s1 stack_top in
  (ts, set_tls T s2 (Some root_tls)).

(** The root thread: [T ret = invoke_fn<T>(fn, args...); on_root_die(ts, ret);]. *)
Definition root_thread (s : scheduler_adws T) (cf stack_top : Z)
    (fn : scheduler_adws T -> T * scheduler_adws T)
    : Z * (scheduler_adws T * control) :=
  let '(ts, s3) := root_exec_enter s cf stack_top in
  let '(ret, s4) := fn s3 in
  (ts, on_root_die T s4 ts ret).

(** The condition [sched_loop] is given: [[=]() { return ts->resume_flag >= 1; }]. *)
Definition root_is_done (s : scheduler_adws T) (ts : Z) : bool :=
  1 <=? ts_resume_flag (thread_state_at T s ts).

(** [root_exec] after [sched_loop] has returned: the return value is read
    and the thread state is freed. *)
Definition root_exec_leave (s : scheduler_adws T) (ts : Z) : option T * scheduler_adws T :=
  (ts_retval (thread_state_at T s ts), delete_thread_state T s ts).

End WithReturnType.

End RootExec.

(** ** Readings of a collective broadcast *)

Module CollState.
Import CollExec.

(** The ranks [0 .. n_ranks - 1]. *)
Definition all_ranks (n_ranks : Z) : list Z := map Z.of_nat (seq 0 (Z.to_nat n_ranks)).

(** The targets of all the [coll_task_mailbox_.put]s of one broadcast begun on
    [begin_rank], rank by rank. *)
Definition all_puts (n_ranks begin_rank : Z) : list Z :=
  flat_map (put_targets n_ranks begin_rank) (all_ranks n_ranks).

End CollState.

(** ** for_each_aux with a sequenced policy (pattern/serial_loop.hpp) *)

Module SerialLoop.

(** [std::size_t] *)
Definition size_max : Z := 2 ^ 64.

(** [struct sequenced_policy] *)
Record sequenced_policy : Type := mk_sequenced_policy {
  checkout_count : Z
}.

(** [struct parallel_policy] *)
Record parallel_policy : Type := mk_parallel_policy {
  cutoff_count : Z;
  par_checkout_count : Z
}.

(** [inline constexpr sequenced_policy seq;] and [parallel_policy par;]: the
    member initialisers. *)
Definition execution_seq : sequenced_policy := mk_sequenced_policy 1.
Definition execution_par : parallel_policy := mk_parallel_policy 1 1.

(** [to_sequenced_policy(const sequenced_policy&)] *)
Definition to_sequenced_policy_seq (opts : sequenced_policy) : sequenced_policy := opts.

(** [to_sequenced_policy(const parallel_policy&)] *)
Definition to_sequenced_policy (opts : parallel_policy) : sequenced_policy :=
  mk_sequenced_policy (par_checkout_count opts).

(** [assert_policy(const sequenced_policy&)]: whether execution goes on. *)
Definition assert_policy_seq (check_enabled : bool) (opts : sequenced_policy) : bool :=
  ITYR_CHECK check_enabled (0 <? checkout_count opts).

(** [assert_policy(const parallel_policy&)] *)
Definition assert_policy (check_enabled : bool) (opts : parallel_policy) : bool :=
  ITYR_CHECK check_enabled (0 <? par_checkout_count opts) &&
  ITYR_CHECK check_enabled (par_checkout_count opts <=? cutoff_count opts).

(** What a loop does, in order.  Iterators are positions; the iterators of one
    call advance together, so one position stands for all of them. *)
Inductive event : Type :=
| Checkout (pos count : Z)  (** [checkout_global_iterators(n_, first, firsts...)] *)
| Apply (pos : Z)           (** the call of [op] on the elements the iterators stand at *)
| EndOfChunk (pos count : Z) (** the checkout spans [css] leave their scope *).

(** [apply_iterators(op, n, its...)]:
    [for (std::size_t i = 0; i < n; (++i, ..., ++its)) op(its);] *)
Definition apply_iterators (n pos : Z) : list event :=
  map (fun i => Apply (pos + Z.of_nat i)) (seq 0 (Z.to_nat n)).

(** The loop of [for_each_aux] over global iterators,
    [for (std::size_t d = 0; d < n; d += c)], from [d] on, with [first] where the
    iterators stand and [done] what was done before.  The result is [true] with
    all the events if the loop ends within [fuel] iterations, [false] with the
    events so far if not. *)
Fixpoint chunk_loop (fuel : nat) (n c d first : Z) (done : list event)
    : bool * list event :=
  match fuel with
  | O => (negb (d <? n), done)
  | S fuel' =>
      if d <? n then
        let n_ := Z.min ((n - d) mod size_max) c in
        chunk_loop fuel' n c ((d + c) mod size_max) (first + n_)
          (done ++ Checkout first n_ :: apply_iterators n_ first ++ [EndOfChunk first n_])
      else (true, done)
  end.

(** The loop over iterators that are not global,
    [for (; first != last; (++first, ..., ++firsts)) op(first, firsts);] *)
Fixpoint plain_loop (fuel : nat) (first last : Z) (done : list event)
    : bool * list event :=
  match fuel with
  | O => (first =? last, done)
  | S fuel' =>
      if first =? last then (true, done)
      else plain_loop fuel' (first + 1) last (done ++ [Apply first])
  end.

(** [for_each_aux(policy, op, first, last, firsts...)]; [global] tells whether
    one of the iterators is a global iterator. *)
Definition for_each_aux (global : bool) (fuel : nat) (policy : sequenced_policy)
    (first last : Z) : bool * list event :=
  if global then
    let n := (last - first) mod size_max in
    let c := checkout_count policy in
    chunk_loop fuel n c 0 first []
  else plain_loop fuel first last [].

(** The positions [op] was applied at, in order. *)
Definition applied (tr : list event) : list Z :=
  flat_map (fun e => match e with Apply p => [p] | _ => [] end) tr.

(** The checkouts made, in order. *)
Definition checkouts (tr : list event) : list (Z * Z) :=
  flat_map (fun e => match e with Checkout p k => [(p, k)] | _ => [] end) tr.

(** The positions [first, first + 1, ..., last - 1]. *)
Definition positions (first last : Z) : list Z :=
  map (fun i => first + Z.of_nat i) (seq 0 (Z.to_nat (last - first))).

(** The events of one chunk. *)
Definition chunk_events (pos count : Z) : list event :=
  Checkout pos count :: apply_iterators count pos ++ [EndOfChunk pos count].

(** The chunks of a range of [n] elements from [first], [c] at a time:
    position and number of elements of the [i]-th. *)
Definition chunk_at (n c first : Z) (i : nat) : Z * Z :=
  (first + Z.of_nat i * c, Z.min (n - Z.of_nat i * c) c).

(** The events of the chunk [ch]. *)
Definition events_of (ch : Z * Z) : list event := chunk_events (fst ch) (snd ch).

(** [m] chunks of [c] are what [n] elements take. *)
Definition chunks_for (n c : Z) (m : nat) : Prop :=
  n <= Z.of_nat m * c /\ (m = O \/ (Z.of_nat m - 1) * c < n).

End SerialLoop.

(** ** global_vector: construction, growth and destruction
       (container/global_vector.hpp) *)

Module GlobalVectorOps.
Import GlobalVector.

(** [struct global_vector_options] *)
Record global_vector_options : Type := mk_options {
  collective : bool;
  parallel_construct : bool;
  parallel_destruct : bool;
  cutoff_count : Z
}.

(** [global_vector_options()]: the member initialisers. *)
Definition default_options : global_vector_options := mk_options false false false 1024.

(** A [global_vector<T>] object: its options and its three pointers. *)
Record object : Type := mk_object {
  opts_ : global_vector_options;
  ptrs : global_vector
}.

Definition with_ptrs (v : object) (b e r : Z) : object :=
  mk_object (opts_ v) (mk_global_vector b e r).

(** [begin_ = end_ = reserved_end_ = nullptr] *)
Definition nulled (opts : global_vector_options) : object :=
  mk_object opts (mk_global_vector 0 0 0).

(** How a function object is run by [root_exec_if_coll] and [coll_exec_if_coll]:
    called in place, through [root_exec], or through [ito::coll_exec]. *)
Inductive how : Type := Called | ViaRootExec | ViaCollExec.

(** Where the elements of [construct_elems_from_iter] are taken from. *)
Inductive source : Type :=
| MovedFrom (b e : Z)   (** [make_move_iterator(old_begin)], [make_move_iterator(old_end)] *)
| CopiedFrom (b e : Z)  (** [other.cbegin()], [other.cend()] *)
| Given (d : Z)         (** a range of the caller, [d] long *).

(** The calls a vector makes to the memory layer and to the loops over its
    elements, which are not part of this file:
    [ori::malloc], [ori::malloc_coll], [ori::free], [ori::free_coll], the
    [for_each] of [construct_elems], [construct_elems_from_iter] and
    [destruct_elems] with the policy ([parallel], [cutoff_count]) it is given,
    and the checkout of one element by [push_back_impl] and [pop_back]. *)
Inductive call : Type :=
| Malloc (count p : Z)
| MallocColl (h : how) (count p : Z)
| Free (p count : Z)
| FreeColl (h : how) (p : Z)
| Construct (h : how) (parallel : bool) (cutoff b e : Z)
| ConstructFrom (h : how) (parallel : bool) (cutoff : Z) (src : source) (b : Z)
| Destruct (h : how) (parallel : bool) (cutoff b e : Z)
| PlaceAt (p : Z)
| DestroyAt (p : Z).

(** What an operation ends with: a result, a failed ITYR_CHECK, or
    [common::die]. *)
Inductive outcome (A : Type) : Type :=
| Done (a : A)
| CheckFails
| Dies.
Arguments Done {A} _.
Arguments CheckFails {A}.
Arguments Dies {A}.

Section WithMemoryLayer.
(** [T] is trivially destructible or not ([std::is_trivially_destructible_v<T>]). *)
Variable trivially_destructible : bool.
Variable check_enabled : bool.
(** [ito::is_spmd()] and [ito::is_root()]. *)
Variable is_spmd : bool.
Variable is_root : bool.
(** The global heap of [ori], which is not among the sources at hand: its state
    and the pointer an allocation returns. *)
Variable heap : Type.
Variable ori_malloc : heap -> Z -> Z * heap.
Variable ori_malloc_coll : heap -> Z -> Z * heap.
Variable ori_free : heap -> Z -> Z -> heap.
Variable ori_free_coll : heap -> Z -> heap.

(** The heap and the calls made so far, first call first. *)
Record world : Type := mk_world {
  heap_ : heap;
  calls_ : list call
}.

Definition M (A : Type) : Type := world -> outcome (A * world).

Definition ret {A : Type} (a : A) : M A := fun w => Done (a, w).

Definition bind {A B : Type} (m : M A) (f : A -> M B) : M B :=
  fun w =>
    match m w with
    | Done (a, w') => f a w'
    | CheckFails => CheckFails
    | Dies => Dies
    end.

Notation "'let*' x ':=' m 'in' k" := (bind m (fun x => k))
  (at level 10, x name, m at level 100, k at level 200).
Notation "m 'and_then' k" := (bind m (fun _ => k))
  (at level 90, k at level 200, right associativity).

(** [ITYR_CHECK(cond)] *)
Definition check (cond : bool) : M unit :=
  fun w => if ITYR_CHECK check_enabled cond then Done (tt, w) else CheckFails.

(** [common::die(...)] *)
Definition die {A : Type} : M A := fun _ => Dies.

Definition emit (c : call) : M unit :=
  fun w => Done (tt, mk_world (heap_ w) (calls_ w ++ [c])).

Definition malloc (count : Z) : M Z :=
  fun w => let (p, h) := ori_malloc (heap_ w) count in
           Done (p, mk_world h (calls_ w ++ [Malloc count p])).

Definition malloc_coll (hw : how) (count : Z) : M Z :=
  fun w => let (p, h) := ori_malloc_coll (heap_ w) count in
           Done (p, mk_world h (calls_ w ++ [MallocColl hw count p])).

Definition free (p count : Z) : M unit :=
  fun w => Done (tt, mk_world (ori_free (heap_ w) p count) (calls_ w ++ [Free p count])).

Definition free_coll (hw : how) (p : Z) : M unit :=
  fun w => Done (tt, mk_world (ori_free_coll (heap_ w) p) (calls_ w ++ [FreeColl hw p])).

(** [size_type next_size(size_type least) const] *)
Definition next_size (v : object) (least : Z) : Z :=
  Z.max least ((size (ptrs v) * 2) mod size_max).

(** [root_exec_if_coll(fn)]: how [fn] is run. *)
Definition root_exec_if_coll (v : object) : M how :=
  if collective (opts_ v) then
    if is_spmd then ret ViaRootExec
    else if is_root then ret Called
    else die
  else ret Called.

(** [coll_exec_if_coll(fn)]: how [fn] is run. *)
Definition coll_exec_if_coll (v : object) : M how :=
  if collective (opts_ v) then
    if is_spmd then ret Called
    else if is_root then ret ViaCollExec
    else die
  else ret Called.

(** [pointer allocate_mem(size_type count) const] *)
Definition allocate_mem (v : object) (count : Z) : M Z :=
  if collective (opts_ v) then
    let* hw := coll_exec_if_coll v in malloc_coll hw count
  else malloc count.

(** [void free_mem(pointer p, size_type count) const] *)
Definition free_mem (v : object) (p count : Z) : M unit :=
  if collective (opts_ v) then
    let* hw := coll_exec_if_coll v in free_coll hw p
  else free p count.

(** [void construct_elems(pointer b, pointer e, Args&&... args) const] *)
Definition construct_elems (v : object) (b e : Z) : M unit :=
  let* hw := root_exec_if_coll v in
  emit (Construct hw (parallel_construct (opts_ v)) (cutoff_count (opts_ v)) b e).

(** [void construct_elems_from_iter(ForwardIterator first, ForwardIterator last, pointer b) const] *)
Definition construct_elems_from_iter (v : object) (src : source) (b : Z) : M unit :=
  let* hw := root_exec_if_coll v in
  emit (ConstructFrom hw (parallel_construct (opts_ v)) (cutoff_count (opts_ v)) src b).

(** [void destruct_elems(pointer b, pointer e) const] *)
Definition destruct_elems (v : object) (b e : Z) : M unit :=
  if trivially_destructible then ret tt
  else
    let* hw := root_exec_if_coll v in
    emit (Destruct hw (parallel_destruct (opts_ v)) (cutoff_count (opts_ v)) b e).

(** [void realloc_mem(size_type count)] *)
Definition realloc_mem (v : object) (count : Z) : M object :=
  let old_begin := begin_ (ptrs v) in
  let old_end := end_ (ptrs v) in
  let old_capacity := capacity (ptrs v) in
  let* p := allocate_mem v count in
  let v' := with_ptrs v p (p + (old_end - old_begin)) (p + count) in
  (if 0 <? old_end - old_begin then
     construct_elems_from_iter v' (MovedFrom old_begin old_end) p and_then
     destruct_elems v' old_begin old_end
   else ret tt) and_then
  (if 0 <? old_capacity then free_mem v' old_begin old_capacity else ret tt) and_then
  ret v'.

(** [void initialize_uniform(size_type count, Args&&... args)] *)
Definition initialize_uniform (v : object) (count : Z) : M object :=
  let* p := allocate_mem v count in
  let v' := with_ptrs v p (p + count) (p + count) in
  construct_elems v' p (p + count) and_then
  ret v'.

(** [void initialize_from_iter(ForwardIterator first, ForwardIterator last, std::forward_iterator_tag)];
    [d] is [std::distance(first, last)]. *)
Definition initialize_from_iter (v : object) (src : source) (d : Z) : M object :=
  if 0 <? d then
    let* p := allocate_mem v d in
    let v' := with_ptrs v p (p + d) (p + d) in
    construct_elems_from_iter v' src p and_then
    ret v'
  else ret (with_ptrs v 0 0 0).

(** [void push_back_impl(Args&&... args)] *)
Definition push_back_impl (v : object) : M object :=
  check (negb (collective (opts_ v))) and_then
  let* v1 := (if size (ptrs v) =? capacity (ptrs v)
         then realloc_mem v (next_size v ((size (ptrs v) + 1) mod size_max))
         else ret v) in
  emit (PlaceAt (end_ (ptrs v1))) and_then
  ret (with_ptrs v1 (begin_ (ptrs v1)) (end_ (ptrs v1) + 1) (reserved_end_ (ptrs v1))).

(** [void push_back(const value_type& value)] and [void push_back(value_type&& value)] *)
Definition push_back (v : object) : M object := push_back_impl v.

(** [reference emplace_back(Args&&... args)]: the vector and [back()]. *)
Definition emplace_back (v : object) : M (Z * object) :=
  let* v' := push_back_impl v in
  ret (end_ (ptrs v') - 1, v').

(** [void pop_back()] *)
Definition pop_back (v : object) : M object :=
  check (negb (collective (opts_ v))) and_then
  check (0 <? size (ptrs v)) and_then
  emit (DestroyAt (end_ (ptrs v) - 1)) and_then
  ret (with_ptrs v (begin_ (ptrs v)) (end_ (ptrs v) - 1) (reserved_end_ (ptrs v))).

(** [void clear()] *)
Definition clear (v : object) : M object :=
  destruct_elems v (begin_ (ptrs v)) (end_ (ptrs v)) and_then
  ret (with_ptrs v (begin_ (ptrs v)) (begin_ (ptrs v)) (reserved_end_ (ptrs v))).

(** [void reserve(size_type new_cap)] *)
Definition reserve (v : object) (new_cap : Z) : M object :=
  if (capacity (ptrs v) =? 0) && (0 <? new_cap) then
    let* p := allocate_mem v new_cap in
    ret (with_ptrs v p p (p + new_cap))
  else if capacity (ptrs v) <? new_cap then realloc_mem v new_cap
  else ret v.

(** [void resize_impl(size_type count, Args&&... args)] *)
Definition resize_impl (v : object) (count : Z) : M object :=
  if size (ptrs v) <? count then
    let* v1 := (if capacity (ptrs v) <? count
           then realloc_mem v (next_size v count)
           else ret v) in
    construct_elems v1 (end_ (ptrs v1)) (begin_ (ptrs v1) + count) and_then
    ret (with_ptrs v1 (begin_ (ptrs v1)) (begin_ (ptrs v1) + count) (reserved_end_ (ptrs v1)))
  else if count <? size (ptrs v) then
    destruct_elems v (begin_ (ptrs v) + count) (end_ (ptrs v)) and_then
    ret (with_ptrs v (begin_ (ptrs v)) (begin_ (ptrs v) + count) (reserved_end_ (ptrs v)))
  else ret v.

(** [void resize(size_type count)] and [void resize(size_type count, const value_type& value)] *)
Definition resize (v : object) (count : Z) : M object := resize_impl v count.

(** [~global_vector()] *)
Definition destructor (v : object) : M unit :=
  if negb (begin_ (ptrs v) =? 0) then
    destruct_elems v (begin_ (ptrs v)) (end_ (ptrs v)) and_then
    free_mem v (begin_ (ptrs v)) (capacity (ptrs v))
  else ret tt.

(** [explicit global_vector(const global_vector_options& opts)] *)
Definition construct_empty (opts : global_vector_options) : M object :=
  ret (nulled opts).

(** [explicit global_vector(const global_vector_options& opts, size_type count)]
    and the one with a value. *)
Definition construct_count (opts : global_vector_options) (count : Z) : M object :=
  initialize_uniform (nulled opts) count.

(** [global_vector(const global_vector_options& opts, InputIterator first, InputIterator last)]
    for forward iterators, and the one from an initializer list; [d] is the
    distance from [first] to [last]. *)
Definition construct_range (opts : global_vector_options) (d : Z) : M object :=
  initialize_from_iter (nulled opts) (Given d) d.

(** [void initialize_from_iter(InputIterator first, InputIterator last, std::input_iterator_tag)]:
    [for (; first != last; ++first) emplace_back(element);] over a range that
    gives [n] elements. *)
Fixpoint emplace_each (n : nat) (v : object) : M object :=
  match n with
  | O => ret v
  | S n' => let* r := emplace_back v in emplace_each n' (snd r)
  end.

Definition initialize_from_input_iter (v : object) (n : nat) : M object :=
  check (negb (collective (opts_ v))) and_then
  check (negb (parallel_construct (opts_ v))) and_then
  emplace_each n v.

(** The same constructor for iterators that are input iterators only. *)
Definition construct_input_range (opts : global_vector_options) (n : nat) : M object :=
  initialize_from_input_iter (nulled opts) n.

(** [global_vector(const this_t& other)] *)
Definition copy_construct (other : object) : M object :=
  initialize_from_iter (nulled (opts_ other))
    (CopiedFrom (begin_ (ptrs other)) (end_ (ptrs other)))
    (end_ (ptrs other) - begin_ (ptrs other)).

(** [this_t& operator=(const this_t& other)], for [other] another object. *)
Definition copy_assign (v other : object) : M object :=
  destructor v and_then
  initialize_from_iter (mk_object (opts_ other) (ptrs v))
    (CopiedFrom (begin_ (ptrs other)) (end_ (ptrs other)))
    (end_ (ptrs other) - begin_ (ptrs other)).

(** [global_vector(this_t&& other)]: the new vector and [other]. *)
Definition move_construct (other : object) : M (object * object) :=
  ret (mk_object (opts_ other) (ptrs other), nulled (opts_ other)).

(** [this_t& operator=(this_t&& other)], for [other] another object: this
    vector and [other]. *)
Definition move_assign (v other : object) : M (object * object) :=
  destructor v and_then
  ret (mk_object (opts_ other) (ptrs other), nulled (opts_ other)).

(** [void swap(this_t& other) noexcept]: this vector and [other]. *)
Definition swap (v other : object) : M (object * object) := ret (other, v).

(** [bool empty() const noexcept] *)
Definition empty (v : object) : bool := size (ptrs v) =? 0.

(** The operations that change one vector, as a program runs them one after
    another. *)
Inductive operation : Type :=
| PushBack
| PopBack
| Clear
| Reserve (new_cap : Z)
| Resize (count : Z).

Definition apply_operation (o : operation) (v : object) : M object :=
  match o with
  | PushBack => push_back v
  | PopBack => pop_back v
  | Clear => clear v
  | Reserve new_cap => reserve v new_cap
  | Resize count => resize v count
  end.

Fixpoint apply_operations (os : list operation) (v : object) : M object :=
  match os with
  | [] => ret v
  | o :: os' => let* v' := apply_operation o v in apply_operations os' v'
  end.

End WithMemoryLayer.

(** The blocks that were allocated and not freed by the calls [cs], as
    (pointer, count); [None] if a block is freed that is not there, with the
    count it was allocated with. *)
Fixpoint remove_block (b : Z * Z) (l : list (Z * Z)) : option (list (Z * Z)) :=
  match l with
  | [] => None
  | x :: l' =>
      if (fst x =? fst b) && (snd x =? snd b) then Some l'
      else option_map (cons x) (remove_block b l')
  end.

Fixpoint live_blocks (cs : list call) (live : list (Z * Z)) : option (list (Z * Z)) :=
  match cs with
  | [] => Some live
  | Malloc count p :: cs' => live_blocks cs' ((p, count) :: live)
  | Free p count :: cs' =>
      match remove_block (p, count) live with
      | Some live' => live_blocks cs' live'
      | None => None
      end
  | _ :: cs' => live_blocks cs' live
  end.

(** The number of allocations among the calls, and of elements moved. *)
Definition mallocs (cs : list call) : Z :=
  Z.of_nat (length (List.filter (fun c => match c with Malloc _ _ => true | _ => false end) cs)).

Definition moved (cs : list call) : Z :=
  fold_right Z.add 0
    (map (fun c => match c with
                   | ConstructFrom _ _ _ (MovedFrom b e) _ => e - b
                   | _ => 0
                   end) cs).

(** The pointers of a vector are in order and its capacity is a [size_type]. *)
Definition well_formed (v : object) : Prop :=
  begin_ (ptrs v) <= end_ (ptrs v) <= reserved_end_ (ptrs v) /\
  reserved_end_ (ptrs v) - begin_ (ptrs v) < size_max.

End GlobalVectorOps.

(** ** Readings of a global_vector and of the calls it made *)

Module GlobalVectorState.
Import GlobalVector GlobalVectorOps.

(** The least power of two that is at least [n], and 0 for 0; and the number
    of times a capacity that starts at 0 and doubles has to grow to reach it. *)
Definition grown_capacity (n : Z) : Z := if n =? 0 then 0 else 2 ^ Z.log2_up n.

Definition growth_steps (n : Z) : Z := if n =? 0 then 0 else Z.log2_up n + 1.

(** A block of no element, or at the null pointer. *)
Definition zero_or_null (b : Z * Z) : Prop := snd b = 0 \/ fst b = 0.

(** Among the blocks [live] there is the one [v] points to, with the capacity
    of [v] as its count, and the others are of no element or null. *)
Definition holds (v : object) (live : list (Z * Z)) : Prop :=
  0 <= reserved_end_ (ptrs v) - begin_ (ptrs v) < size_max /\
  exists rest,
    Forall zero_or_null rest /\
    (Permutation live ((begin_ (ptrs v), capacity (ptrs v)) :: rest) \/
     (live = rest /\ begin_ (ptrs v) = 0 /\ capacity (ptrs v) = 0)).

(** A call that neither allocates nor frees a block of a vector that is not
    collective. *)
Definition quiet (c : call) : Prop :=
  match c with
  | Malloc _ _ | Free _ _ => False
  | _ => True
  end.

(** The calls [cs] freed only blocks that were there, and what is left holds
    the block of [v]. *)
Definition tracked (v : object) (cs : list call) : Prop :=
  exists live, live_blocks cs [] = Some live /\ holds v live.

(** An operation ended with a result that satisfies [P], or with a failed
    ITYR_CHECK where the checks are compiled in; it did not die. *)
Definition ends_well (check_enabled : bool) {A heap : Type}
    (P : A -> world heap -> Prop) (r : outcome (A * world heap)) : Prop :=
  match r with
  | Done (a, w) => P a w
  | CheckFails => check_enabled = true
  | Dies => False
  end.

(** A call of a collective vector goes the way [coll_exec_if_coll] and
    [root_exec_if_coll] send it: in the SPMD region ([spmd]) the memory is
    allocated and freed in place and the loops over the elements run through
    [root_exec]; on the root thread the memory goes through [ito::coll_exec]
    and the loops run in place.  [ori::malloc] and [ori::free] are not used. *)
Definition routed (spmd : bool) (c : call) : Prop :=
  match c with
  | Malloc _ _ | Free _ _ => False
  | MallocColl h _ _ | FreeColl h _ => h = if spmd then Called else ViaCollExec
  | Construct h _ _ _ _ | ConstructFrom h _ _ _ _ | Destruct h _ _ _ _ =>
      h = if spmd then ViaRootExec else Called
  | PlaceAt _ | DestroyAt _ => True
  end.

(** The arguments of an operation are [size_type] values. *)
Definition operation_in_range (o : operation) : Prop :=
  match o with
  | Reserve new_cap => 0 <= new_cap < size_max
  | Resize count => 0 <= count < size_max
  | _ => True
  end.

(** The ways a vector is constructed from nothing. *)
Inductive construction : Type :=
| Empty
| OfCount (count : Z)
| OfRange (d : Z)
| OfInputRange (n : nat).

Definition construction_in_range (c : construction) : Prop :=
  match c with
  | OfCount count => 0 <= count < size_max
  | OfRange d => d < size_max
  | _ => True
  end.

Section WithMemoryLayer.
Variable trivially_destructible : bool.
Variable check_enabled : bool.
Variable is_spmd : bool.
Variable is_root : bool.
Variable heap : Type.
Variable ori_malloc : heap -> Z -> Z * heap.
Variable ori_malloc_coll : heap -> Z -> Z * heap.
Variable ori_free : heap -> Z -> Z -> heap.
Variable ori_free_coll : heap -> Z -> heap.

Definition construct (c : construction) (opts : global_vector_options) : M heap object :=
  match c with
  | Empty => construct_empty heap opts
  | OfCount count => construct_count is_spmd is_root heap ori_malloc ori_malloc_coll opts count
  | OfRange d => construct_range is_spmd is_root heap ori_malloc ori_malloc_coll opts d
  | OfInputRange n =>
      construct_input_range trivially_destructible check_enabled is_spmd is_root heap
        ori_malloc ori_malloc_coll ori_free ori_free_coll opts n
  end.

(** A vector from its constructor to its destructor, with the operations [os]
    in between. *)
Definition lifetime (c : construction) (opts : global_vector_options)
    (os : list operation) : M heap unit :=
  bind heap (construct c opts) (fun v0 =>
  bind heap (apply_operations trivially_destructible check_enabled is_spmd is_root heap
               ori_malloc ori_malloc_coll ori_free ori_free_coll os v0) (fun v =>
  destructor trivially_destructible is_spmd is_root heap ori_free ori_free_coll v)).

(** The same with a move in between: the vector is moved to a new one by the
    move constructor, the operations [os'] are made on the new one, and both
    are destroyed, the new one first. *)
Definition lifetime_moved (c : construction) (opts : global_vector_options)
    (os os' : list operation) : M heap unit :=
  bind heap (construct c opts) (fun v0 =>
  bind heap (apply_operations trivially_destructible check_enabled is_spmd is_root heap
               ori_malloc ori_malloc_coll ori_free ori_free_coll os v0) (fun v1 =>
  bind heap (move_construct heap v1) (fun moved =>
  bind heap (apply_operations trivially_destructible check_enabled is_spmd is_root heap
               ori_malloc ori_malloc_coll ori_free ori_free_coll os' (fst moved)) (fun v2 =>
  bind heap (destructor trivially_destructible is_spmd is_root heap ori_free ori_free_coll v2)
    (fun _ =>
  destructor trivially_destructible is_spmd is_root heap ori_free ori_free_coll
    (snd moved)))))).

End WithMemoryLayer.

End GlobalVectorState.

(** ** home_manager::checkout_complete and update_mapping (ori/home_manager.hpp) *)

Module HomeManagerOps.
Import HomeManager.

(** The changes made to the address space:
    [common::mmap_no_physical_mem(addr, size, true)] and
    [pm->map_to_vm(addr, size, pm_offset)]. *)
Inductive mapping : Type :=
| Unmap (addr size : Z)
| Map (pm addr size pm_offset : Z).

Definition with_mapping (me : mmap_entry) (a s : Z) : mmap_entry :=
  mk_mmap_entry (entry_idx me) (addr me) a (size me) s (pm me) (pm_offset me)
    (ref_count me).

Section WithTlb.
Variable tlb : Type.
Variable check_enabled : bool.

(** [void update_mapping(mmap_entry& me)]: the entry as it is left and the
    changes made, or nothing if an ITYR_CHECK fails. *)
Definition update_mapping (me : mmap_entry) : option (mmap_entry * list mapping) :=
  let unmapped :=
    if negb (mapped_addr me =? 0) then [Unmap (mapped_addr me) (mapped_size me)] else [] in
  if ITYR_CHECK check_enabled (negb (pm me =? 0)) then
    if ITYR_CHECK check_enabled (negb (addr me =? 0)) then
      Some (with_mapping me (addr me) (size me),
            unmapped ++ [Map (pm me) (addr me) (size me) (pm_offset me)])
    else None
  else None.

(** [for (mmap_entry* me : home_segments_to_map_) update_mapping(me's entry);]
    over the entries with the keys [keys], after the changes [done]. *)
Fixpoint update_mappings (cs : gmap Z mmap_entry) (keys : list Z) (done : list mapping)
    : option (gmap Z mmap_entry * list mapping) :=
  match keys with
  | [] => Some (cs, done)
  | key :: keys' =>
      match update_mapping (default fresh_entry (cs !! key)) with
      | Some (me, ms) => update_mappings (<[key := me]> cs) keys' (done ++ ms)
      | None => None
      end
  end.

(** [void checkout_complete()] *)
Definition checkout_complete (hm : home_manager tlb)
    : option (home_manager tlb * list mapping) :=
  match home_segments_to_map_ tlb hm with
  | [] => Some (hm, [])
  | _ :: _ =>
      match update_mappings (cs_ tlb hm) (home_segments_to_map_ tlb hm) [] with
      | Some (cs, ms) => Some (mk_home_manager tlb cs (home_tlb_ tlb hm) [], ms)
      | None => None
      end
  end.

End WithTlb.

(** The segments mapped by the changes [ms], in order. *)
Definition mapped (ms : list mapping) : list mapping :=
  flat_map (fun m => match m with Map _ _ _ _ => [m] | Unmap _ _ => [] end) ms.

(** The mapping [update_mapping] makes for the entry [me]. *)
Definition map_of (me : mmap_entry) : mapping :=
  Map (pm me) (addr me) (size me) (pm_offset me).

(** The changes the loop of [checkout_complete] is to make for the entries
    with the keys [keys], read in the entries [entry] as they are before the
    call; the entries with the keys [seen] came earlier in the list and are
    already mapped at their address.  For each entry: the unmapping of what it
    has mapped, if anything, then its mapping. *)
Fixpoint changes_for (entry : Z -> mmap_entry) (seen keys : list Z) : list mapping :=
  match keys with
  | [] => []
  | key :: keys' =>
      let me := entry key in
      let was := if in_dec Z.eq_dec key seen then (addr me, size me)
                 else (mapped_addr me, mapped_size me) in
      (if fst was =? 0 then [] else [Unmap (fst was) (snd was)])
        ++ map_of me :: changes_for entry (key :: seen) keys'
  end.

End HomeManagerOps.

(** ** Readings of the queues of the scheduler's own rank *)

Module SchedLoopState.
Import WSQueue Sched.

Section WithConfig.
Variable cfg : config.

(** Every deque of this rank is empty. *)
Definition local_queues_empty {E : Type} (q : wsqueue E) : Prop :=
  forall d, 0 <= d < n_queues q -> queue_at q (my_rank cfg) d = [].

(** [e] is the entry [pop] takes from the deque of depth [d] of this rank, and
    [q'] is [q] without it. *)
Definition popped_at {E : Type} (q q' : wsqueue E) (d : Z) (e : E) : Prop :=
  exists rest,
    queue_at q (my_rank cfg) d = e :: rest /\
    q' = set_queue q (my_rank cfg) d rest.

End WithConfig.

End SchedLoopState.

(** ** Continuations on the stack and the scheduler context *)

Module StackDiscipline.
Import DistTree WSQueue Sched.

Section WithConfig.
Variable T : Type.
Variable cfg : config.









End WithConfig.

End StackDiscipline.

(** ** Sample configurations and states

    Concrete inputs on which the properties of Part II are run. *)

Module Samples.
Import DistRange Flipper DistTree WSQueue Sched.

(** The doubles nearest to 0.3 and just above 4. *)
Definition d0_3 : float := 0x1.3333333333333p-2%float.
Definition above_4 : float := 0x1.0000000000001p+2%float.

(** Four workers; this one is rank 0.  [cfg_debug] has ITYR_CHECK compiled in,
    [cfg_release] has not. *)
Definition cfg_debug : config :=
  mk_config 0 4 8 16 0x1p-4%float 1 true true 64 64.

Definition cfg_release : config :=
  mk_config 0 4 8 16 0x1p-4%float 1 true false 64 64.

Definition wsq_empty {E : Type} : wsqueue E := mk_wsqueue 16 8 ∅ ∅.

Definition allocator_at (p : Z) : remotable_resource := mk_remotable_resource p [].

(** A thread of rank 0 at depth 0 of the distribution tree, with range [dr]. *)
Definition tls_at (dr : dist_range float) : thread_local_storage :=
  mk_tls dr (mk_node_ref 0 0) Flipper.zero true.

(** A scheduler whose primary queue of depth 0 holds [entries], running a thread
    with range [dr] whose youngest context frame is at [cf_top]. *)
Definition sched_with (entries : list primary_wsq_entry) (dr : dist_range float)
    (cf_top : Z) : scheduler_adws nat :=
  mk_sched nat ∅
    (set_queue wsq_empty 0 0 entries) wsq_empty
    (allocator_at 4096) ∅ (allocator_at 8192)
    cf_top 0 (Some (tls_at dr)) true (DistTree.init cfg_debug 8) (mk_node_ref 0 0) [].

(** The range [0.25, 0.75): inside rank 0. *)
Definition dr_local : dist_range float := mk_dist_range 0x1p-2%float 0x1.8p-1%float.

(** The same with the migration queue in use and holding [entries]. *)
Definition sched_with_migration (entries : list migration_wsq_entry)
    (dr : dist_range float) (cf_top : Z) : scheduler_adws nat :=
  mk_sched nat ∅
    wsq_empty (set_queue wsq_empty 0 0 entries)
    (allocator_at 4096) ∅ (allocator_at 8192)
    cf_top 0 (Some (tls_at dr)) false (DistTree.init cfg_debug 8) (mk_node_ref 0 0) [].

(** An on-stack continuation whose frame is at 1000, while [cf_top_] is 2000. *)
Definition foreign_frame : primary_wsq_entry :=
  mk_primary_wsq_entry 0 1000 64 Flipper.zero.

Definition sched_foreign_frame : scheduler_adws nat :=
  sched_with [foreign_frame] dr_local 2000.

(** The root range of four workers, [0, 4), for a thread of rank 0. *)
Definition dr_root : dist_range float := of_n_ranks 4.

Definition sched_cross : scheduler_adws nat := sched_with [] dr_root 2000.

(** A thread on rank 0 whose range lies inside rank 0, with an empty queue. *)
Definition sched_local : scheduler_adws nat := sched_with [] dr_local 2000.

(** A thread body that returns 42 and leaves the scheduler alone. *)
Definition fn_42 (s : scheduler_adws nat) : nat * scheduler_adws nat := (42%nat, s).

(** The state in which [fork] calls the body of the new thread, for
    [sched_local] and a context saved at 1900. *)
Definition sched_local_child : scheduler_adws nat :=
  default sched_local
    (fork_enter_child nat cfg_debug
       (set_tls nat (snd (new_thread_state nat cfg_debug sched_local))
          (Some (tls_at dr_local)))
       (tls_at dr_local) dr_local 1900).

(** A home manager whose buffer knows one segment, [4096, 8192), mapped by the
    entry of key 7, which nobody holds. *)
Definition hm_one_segment : HomeManager.home_manager HomeManager.list_tlb :=
  HomeManager.mk_home_manager HomeManager.list_tlb
    {[ 7 := HomeManager.fresh_entry ]}
    [(HomeManager.mk_span 4096 4096, 7)] [].

(** What [evacuate] gives a joining thread whose frame of 100 bytes is at 1900. *)
Definition some_frame : suspended_state := mk_suspended_state 8192 1900 100.

(** A thread of rank 0 at depth 0 that uses the migration queues, as the
    scheduler starts one it has popped from them. *)
Definition sched_migrated : scheduler_adws nat := sched_with_migration [] dr_local 2000.

(** The state in which [fork] calls the body of the new thread, for
    [sched_migrated] and a context saved at 1900: the continuation of the
    caller is on the stack, in the migration queue. *)
Definition sched_migrated_child : scheduler_adws nat :=
  default sched_migrated
    (fork_enter_child nat cfg_debug
       (set_tls nat (snd (new_thread_state nat cfg_debug sched_migrated))
          (Some (tls_at dr_local)))
       (tls_at dr_local) dr_local 1900).

(** Nothing arrives in the mailbox and no random number is drawn. *)
Definition quiet : environment := mk_environment [] [] [].

(** [sched_foreign_frame] with the frame at 1000 on the stack: its parent frame
    is at 1064. *)
Definition sched_on_stack : scheduler_adws nat :=
  set_stack_frames nat sched_foreign_frame {[ 1000 := 1064 ]}.

(** The distribution tree of rank 0 once it has appended a node for the range
    [0, 4) at depth 0 and marked it dominant, or retired it. *)
Definition dtree_appended : dist_tree :=
  fst (append cfg_debug (DistTree.init cfg_debug 8) null_ref dr_root Flipper.zero).

Definition dtree_dominant : dist_tree :=
  set_dominant cfg_debug dtree_appended (mk_node_ref 0 0) true.

Definition dtree_retired : dist_tree :=
  set_dominant cfg_debug dtree_appended (mk_node_ref 0 0) false.

(** An evacuated continuation of the task group of version 0 and one whose bit
    of depth 0 differs. *)
Definition stealable : primary_wsq_entry :=
  mk_primary_wsq_entry 8192 1000 64 Flipper.zero.

Definition straggler : primary_wsq_entry :=
  mk_primary_wsq_entry 8192 1000 64 (flip Flipper.zero 0).

(** The scheduler of rank 0 looking for work, with the tree [dt], while the
    primary queue of depth 0 of rank 2 holds [entries]. *)
Definition sched_thief (entries : list primary_wsq_entry) (dt : dist_tree)
    : scheduler_adws nat :=
  mk_sched nat ∅
    (set_queue wsq_empty 2 0 entries) wsq_empty
    (allocator_at 4096) ∅ (allocator_at 8192)
    0 0 None true dt (mk_node_ref 0 0) [].

(** The random draws make rank 2 the target; nothing arrives in the mailbox. *)
Definition draws : environment := mk_environment [0] [2] [None].

(** The same four workers seen from rank [r], with ITYR_CHECK compiled in. *)
Definition cfg_of_rank (r : Z) : config :=
  mk_config r 4 8 16 0x1p-4%float 1 true true 64 64.

(** The tree [dt] as a rank with the version counters [versions] has it: the
    two windows are shared by the ranks, [versions_] is the rank's own. *)
Definition seen_with (versions : list Z) (dt : dist_tree) : dist_tree :=
  mk_dist_tree (max_depth_ dt) (node_win_ dt) (dominant_flag_win_ dt) versions.

(** Rank 1 opens a task group for the range [1, 4): [task_group_begin] appends
    a node at depth 0 and [on_task_die] marks it dominant. *)
Definition dtree_group_open : dist_tree :=
  let '(dt, nr) := append (cfg_of_rank 1) (DistTree.init (cfg_of_rank 1) 8) null_ref
                     (mk_dist_range 1%float 4%float) Flipper.zero in
  set_dominant (cfg_of_rank 1) dt nr true.

(** Rank 2 runs the dummy task of this group ([copy_parents]); its next scan
    asks the owner (the draw is 0) and finds the node dominant. *)
Definition dtree_group_seen : dist_tree :=
  let dt := copy_parents (cfg_of_rank 2)
              (seen_with (versions_ (DistTree.init (cfg_of_rank 2) 8)) dtree_group_open)
              (mk_node_ref 1 0) in
  match get_topmost_dominant (cfg_of_rank 2) dt (mk_node_ref 1 0) [0] with
  | Some (_, dt') => dt'
  | None => dt
  end.

(** Rank 1 closes the group: [task_group_end] retires the node.  The tree is
    then given as rank 2 has it. *)
Definition dtree_group_closed : dist_tree :=
  seen_with (versions_ dtree_group_seen)
    (set_dominant (cfg_of_rank 1)
       (seen_with (versions_ dtree_group_open) dtree_group_seen) (mk_node_ref 1 0) false).

(** The scheduler of rank 2 looking for work after that, while the primary
    queue of depth 0 of rank 3 holds [stealable]. *)
Definition sched_late_thief : scheduler_adws nat :=
  mk_sched nat ∅
    (set_queue wsq_empty 3 0 [stealable]) wsq_empty
    (allocator_at 4096) ∅ (allocator_at 8192)
    0 0 None true dtree_group_closed (mk_node_ref 1 0) [].

(** A vector of three elements at 4096, with room for eight. *)
Definition vec_three : GlobalVector.store nat :=
  GlobalVector.mk_store (GlobalVector.mk_global_vector 4096 4099 4104)
    {[ 4096 := 10%nat; 4097 := 20%nat; 4098 := 30%nat ]}.

(** A thread of rank 0 whose range [0.5, 1.5) reaches into rank 1. *)
Definition dr_into_rank_1 : dist_range float := mk_dist_range 0x1p-1%float 0x1.8p+0%float.

Definition sched_into_rank_1 : scheduler_adws nat := sched_with [] dr_into_rank_1 2000.

(** The scheduler of rank 0 with evacuated continuations in its primary queues
    of depth 0 and 2, and a new task in its migration queue of depth 1. *)
Definition entry_a : primary_wsq_entry := mk_primary_wsq_entry 8192 1000 64 Flipper.zero.
Definition entry_b : primary_wsq_entry := mk_primary_wsq_entry 8256 1100 64 Flipper.zero.
Definition entry_c : primary_wsq_entry := mk_primary_wsq_entry 8320 1200 64 Flipper.zero.
Definition task_m : migration_wsq_entry := mk_migration_wsq_entry false 0 8400 64 Flipper.zero.

Definition sched_three_queues : scheduler_adws nat :=
  mk_sched nat ∅
    (set_queue (set_queue wsq_empty 0 0 [entry_a]) 0 2 [entry_b; entry_c])
    (set_queue wsq_empty 0 1 [task_m])
    (allocator_at 4096) ∅ (allocator_at 8500)
    0 0 None true (DistTree.init cfg_debug 8) null_ref [].

(** A heap that hands out its blocks one behind the other; [bump_heap] is the
    address of the next one. *)
Definition bump_malloc (h count : Z) : Z * Z := (h, h + Z.max count 1).
Definition bump_free (h p count : Z) : Z := h.
Definition bump_free_coll (h p : Z) : Z := h.

(** The heap at address 8192, and no call made. *)
Definition world_8192 : GlobalVectorOps.world Z := GlobalVectorOps.mk_world Z 8192 [].

(** Vectors at address 4096 with the capacity 4: one that is full, one with
    two elements, one with none. *)
Definition vec_full : GlobalVectorOps.object :=
  GlobalVectorOps.mk_object GlobalVectorOps.default_options
    (GlobalVector.mk_global_vector 4096 4100 4100).

Definition vec_half : GlobalVectorOps.object :=
  GlobalVectorOps.mk_object GlobalVectorOps.default_options
    (GlobalVector.mk_global_vector 4096 4098 4100).

Definition vec_none : GlobalVectorOps.object :=
  GlobalVectorOps.mk_object GlobalVectorOps.default_options
    (GlobalVector.mk_global_vector 4096 4096 4100).

(** A home manager with two segments waiting to be mapped; the entry of the
    first still has 4096 bytes mapped at 12288. *)
Definition hm_two_waiting : HomeManager.home_manager HomeManager.list_tlb :=
  HomeManager.mk_home_manager HomeManager.list_tlb
    {[ 1 := HomeManager.mk_mmap_entry 0 4096 12288 4096 4096 100 0 1;
       2 := HomeManager.mk_mmap_entry 1 8192 0 4096 0 100 4096 0 ]}
    [] [1; 2].

(** The options of a collective vector. *)
Definition coll_options : GlobalVectorOps.global_vector_options :=
  GlobalVectorOps.mk_options true false false 1024.

(** The data of a task group whose range [1.5, 3.5) belongs to rank 1, and
    which owns a node of the distribution tree. *)
Definition tgdata_of_rank_1 : task_group_data :=
  mk_task_group_data (mk_dist_range 0x1.8p+0%float 0x1.cp+1%float) true.

End Samples.

(* ===================================================================== *)
(** * Part II: properties                                                *)
(* ===================================================================== *)

(** ** Distribution ranges *)

Section ExactDivide.
Import DistRange.
Local Open Scope Q_scope.

(** Without rounding, and for weights that are not negative and not both zero,
    the split point before the back-off lies in the range. *)
Lemma split_point_exact_in_range (dr : dist_range Q) (r1 r2 : Q) :
  begin_ dr <= end_ dr -> 0 <= r1 -> 0 <= r2 -> 0 < r1 + r2 ->
  begin_ dr <= split_point dr r1 r2 /\ split_point dr r1 r2 <= end_ dr.
Proof.
  intros Hbe H1 H2 Hs. unfold split_point; cbn [v_add v_sub v_mul v_div exact].
  set (b := begin_ dr) in *. set (e := end_ dr) in *.
  assert (Hq0 : 0 <= (e - b) * r1 / (r1 + r2)).
  { apply Qle_shift_div_l; [exact Hs|]. nra. }
  assert (Hq1 : (e - b) * r1 / (r1 + r2) <= e - b).
  { apply Qle_shift_div_r; [exact Hs|]. nra. }
  split; lra.
Qed.

(** Without rounding the split point [divide] returns lies in the range, with
    or without the back-off. *)
Lemma divide_exact_in_range (dr : dist_range Q) (r1 r2 : Q) :
  begin_ dr <= end_ dr -> 0 <= r1 -> 0 <= r2 -> 0 < r1 + r2 ->
  let at_ := begin_ (snd (divide dr r1 r2)) in
  fst (divide dr r1 r2) = mk_dist_range (begin_ dr) at_ /\
  snd (divide dr r1 r2) = mk_dist_range at_ (end_ dr) /\
  begin_ dr <= at_ /\ at_ <= end_ dr.
Proof.
  intros Hbe H1 H2 Hs.
  destruct (split_point_exact_in_range dr r1 r2 Hbe H1 H2 Hs) as [Hlo Hhi].
  cbn [divide fst snd begin_]. repeat split; try reflexivity.
  - unfold back_off; cbn [v_eqb v_ltb v_sub v_eps exact].
    destruct (Qeq_bool _ _) eqn:E; [|exact Hlo].
    destruct (Qle_bool _ _) eqn:L; cbn [negb]; [|apply Qle_refl].
    now apply Qle_bool_iff in L.
  - unfold back_off; cbn [v_eqb v_ltb v_sub v_eps exact].
    destruct (Qeq_bool _ _) eqn:E; [|exact Hhi].
    destruct (Qle_bool _ _) eqn:L; cbn [negb]; [|exact Hbe].
    apply Qeq_bool_iff in E. assert (0 <= 1 # 100000) by discriminate. lra.
Qed.

End ExactDivide.

Section Binary64Divide.
Import DistRange Sched Samples.
Local Open Scope float_scope.

(** C1: range containment at a fork.  In binary64 the split point [divide]
    computes can lie above the end of the range, where the back-off (tested by
    [at == end_]) does not apply.  With 4 workers, the root range [0, 4) forked
    with weights [w_new = 37], [w_rest = 3] gives the child the range
    [0.3, 4) on rank 0; that child, forking with [w_new = 0], [w_rest = 3],
    gets the split point 4.000000000000001: its new thread has the range
    [4.000000000000001, 4), which is not inside [0.3, 4), and is sent to rank 4,
    which does not exist. *)
Theorem C1_split_point_above_end (cfg : config) (nr : DistTree.node_ref)
    (tgv : Flipper.flipper) (und : bool) :
  fork_ranges cfg (mk_tls (of_n_ranks 4) nr tgv und) 37 3
    = (mk_tls (mk_dist_range 0 d0_3) nr tgv und, mk_dist_range d0_3 4, 0%Z) /\
  fork_ranges cfg (mk_tls (mk_dist_range d0_3 4) nr tgv und) 0 3
    = (mk_tls (mk_dist_range d0_3 above_4) nr tgv und, mk_dist_range above_4 4, 4%Z) /\
  PrimFloat.ltb 4 above_4 = true /\
  PrimFloat.leb above_4 4 = false.
Proof.
  repeat split.
  - unfold fork_ranges; cbn [tls_drange].
    replace (is_cross_worker (of_n_ranks 4)) with true by (vm_compute; reflexivity).
    destruct (is_sufficiently_small _ _); vm_compute; reflexivity.
  - unfold fork_ranges; cbn [tls_drange].
    replace (is_cross_worker (mk_dist_range d0_3 4)) with true by (vm_compute; reflexivity).
    destruct (is_sufficiently_small _ _); vm_compute; reflexivity.
Qed.

End Binary64Divide.

(** ** The global vector *)

Section GlobalVectorAt.
Import GlobalVector.
Variable T : Type.
Variable check_enabled : bool.

Lemma subscript_in_range (st : store T) (i : Z) :
  i <= size (vec st) ->
  subscript T check_enabled st i = (Reference (begin_ (vec st) + i), st).
Proof.
  intros Hi. unfold subscript, ITYR_CHECK.
  replace (i <=? size (vec st)) with true by (symmetry; apply Z.leb_le; exact Hi).
  now rewrite orb_true_r.
Qed.

(** C10: [v.at(i)] throws [std::out_of_range] exactly when [i >= v.size()]; the
    vector (its size, capacity and elements) is as before whatever the outcome;
    and for [i < v.size()] the call gives what [v[i]] gives, the reference to
    the element at [begin() + i]. *)
Theorem C10_at_out_of_range (st : store T) (i : Z) :
  (fst (at_ T check_enabled st i) = ThrowsOutOfRange <-> size (vec st) <= i) /\
  (size (vec (snd (at_ T check_enabled st i))) = size (vec st) /\
   capacity (vec (snd (at_ T check_enabled st i))) = capacity (vec st) /\
   elements T (snd (at_ T check_enabled st i)) = elements T st /\
   snd (at_ T check_enabled st i) = st) /\
  (i < size (vec st) ->
   at_ T check_enabled st i = subscript T check_enabled st i /\
   fst (at_ T check_enabled st i) = Reference (begin_ (vec st) + i)).
Proof.
  unfold at_. destruct (Z.leb_spec (size (vec st)) i) as [Hge | Hlt].
  - split; [|split].
    + cbn. split; [intros _; exact Hge | reflexivity].
    + cbn. repeat split.
    + intros Hlt. lia.
  - rewrite subscript_in_range by lia. cbn. split; [|split].
    + split; [discriminate | intros; lia].
    + repeat split.
    + intros _. split; reflexivity.
Qed.

End GlobalVectorAt.

Section GlobalVectorRuns.
Import GlobalVector Samples.

(** C10, run: on a vector of three elements, [at(3)] throws and [at(1)] is
    [v[1]], the element at 4097. *)
Lemma C10_at_out_of_range_witness :
  fst (at_ nat true vec_three 3) = ThrowsOutOfRange /\
  at_ nat true vec_three 1 = subscript nat true vec_three 1 /\
  fst (at_ nat true vec_three 1) = Reference 4097.
Proof.
  destruct (C10_at_out_of_range nat true vec_three 3) as (Hthrow & _ & _).
  destruct (C10_at_out_of_range nat true vec_three 1) as (_ & _ & Hin).
  split.
  - apply Hthrow. apply Z.leb_le. reflexivity.
  - apply Hin. apply Z.ltb_lt. reflexivity.
Defined.

End GlobalVectorRuns.

(** ** The home manager *)

Section HomeManagerRefCount.
Import HomeManager.
Variable tlb : Type.
Variable tlb_get : tlb -> (span -> bool) -> option Z * tlb.

Lemma ref_count_of_update (hm : home_manager tlb) (t : tlb) (key delta k : Z) :
  ref_count_of tlb (update_ref_count tlb hm t key delta) k
  = ref_count_of tlb hm k + (if decide (k = key) then delta else 0).
Proof.
  unfold ref_count_of, update_ref_count, entry_at; cbn [cs_].
  destruct (decide (k = key)) as [->|Hne].
  - rewrite lookup_insert_eq. cbn. reflexivity.
  - rewrite lookup_insert_ne by congruence. lia.
Qed.

(** C9: an entry is evictable exactly when its reference count is zero; a
    successful reference-counting checkout ([checkout_fast<true>]) adds one to
    the count of the entry that covers the block and to no other; the matching
    checkin ([checkin_fast<true>], which finds the same entry) takes one off;
    so the pair leaves every count as it was.  (With [IncrementRef] or
    [DecrementRef] false the functions do not count: these are not checkouts
    that hold the block.) *)
Theorem C9_checkout_checkin_ref_count (hm hm1 hm2 : home_manager tlb) (addr size : Z) :
  checkout_fast tlb tlb_get true hm addr size = (true, hm1) ->
  checkin_fast tlb tlb_get true hm1 addr size = (true, hm2) ->
  fst (tlb_get (home_tlb_ tlb hm1) (covers addr size))
    = fst (tlb_get (home_tlb_ tlb hm) (covers addr size)) ->
  (forall me, is_evictable me = true <-> ref_count me = 0) /\
  exists key,
    fst (tlb_get (home_tlb_ tlb hm) (covers addr size)) = Some key /\
    (forall k, ref_count_of tlb hm1 k
               = ref_count_of tlb hm k + (if decide (k = key) then 1 else 0)) /\
    (forall k, ref_count_of tlb hm2 k
               = ref_count_of tlb hm1 k - (if decide (k = key) then 1 else 0)) /\
    (forall k, ref_count_of tlb hm2 k = ref_count_of tlb hm k) /\
    (0 <= ref_count_of tlb hm key -> is_evictable (entry_at tlb hm1 key) = false).
Proof.
  unfold checkout_fast, checkin_fast; cbn [negb].
  intros Hout Hin Hsame. split.
  { intros me. unfold is_evictable. apply Z.eqb_eq. }
  destruct (tlb_get (home_tlb_ tlb hm) (covers addr size)) as [[key|] t] eqn:E;
    [|discriminate].
  injection Hout as <-.
  destruct (tlb_get (home_tlb_ tlb (update_ref_count tlb hm t key 1)) (covers addr size))
    as [[key'|] t'] eqn:E'; [|discriminate].
  cbn [fst] in Hsame. injection Hsame as ->.
  injection Hin as <-.
  exists key. split; [reflexivity|].
  assert (H1 : forall k, ref_count_of tlb (update_ref_count tlb hm t key 1) k
               = ref_count_of tlb hm k + (if decide (k = key) then 1 else 0))
    by (intros; apply ref_count_of_update).
  assert (H2 : forall k,
             ref_count_of tlb
               (update_ref_count tlb (update_ref_count tlb hm t key 1) t' key (-1)) k
             = ref_count_of tlb (update_ref_count tlb hm t key 1) k
               - (if decide (k = key) then 1 else 0)).
  { intros k. rewrite ref_count_of_update. destruct (decide (k = key)); lia. }
  repeat split; try assumption.
  - intros k. rewrite H2, H1. lia.
  - intros Hnn. unfold is_evictable. apply Z.eqb_neq.
    specialize (H1 key). unfold ref_count_of in H1 at 1.
    destruct (decide (key = key)); [|congruence]. lia.
Qed.

End HomeManagerRefCount.

(** ** Death of a work-first thread *)

Section DieWorkfirst.
Import WSQueue Sched.
Variable T : Type.
Variable cfg : config.

Lemma set_queue_same {E : Type} (q : wsqueue E) (rank d : Z) (l : list E) :
  queues q !! (rank, d) = Some l -> set_queue q rank d l = q.
Proof.
  intros H. destruct q as [c n qs ls]. unfold set_queue; cbn in *.
  f_equal. now apply insert_id.
Qed.

Lemma set_queue_twice {E : Type} (q : wsqueue E) (rank d : Z) (l l' : list E) :
  set_queue (set_queue q rank d l) rank d l' = set_queue q rank d l'.
Proof.
  destruct q as [c n qs ls]. unfold set_queue; cbn. f_equal. apply insert_insert_eq.
Qed.

Lemma queue_at_set_queue {E : Type} (q : wsqueue E) (rank d : Z) (l : list E) :
  queue_at (set_queue q rank d l) rank d = l.
Proof. unfold queue_at, set_queue; cbn. now rewrite lookup_insert_eq. Qed.

Lemma queue_at_cons_lookup {E : Type} (q : wsqueue E) (rank d : Z) (e : E) (l : list E) :
  queue_at q rank d = e :: l -> queues q !! (rank, d) = Some (e :: l).
Proof.
  unfold queue_at. destruct (queues q !! (rank, d)); cbn; [congruence | discriminate].
Qed.

(** The owner's [pop] followed by [push] of the entry it took gives the queue
    back, when the queue was within its capacity. *)
Lemma pop_push_restores {E : Type} (me : Z) (q : wsqueue E) (d : Z) (e : E) (l : list E) :
  queue_at q me d = e :: l ->
  Z.of_nat (length (queue_at q me d)) <= capacity q ->
  pop me q d = (Some e, set_queue q me d l) /\
  push me (set_queue q me d l) e d = Some q.
Proof.
  intros Hq Hcap. unfold pop, push. rewrite Hq. split; [reflexivity|].
  rewrite queue_at_set_queue. rewrite Hq in Hcap. cbn [length] in Hcap.
  replace (Z.of_nat (length l) <? capacity (set_queue q me d l)) with true
    by (symmetry; apply Z.ltb_lt; cbn; lia).
  rewrite set_queue_twice. f_equal. apply set_queue_same.
  now apply queue_at_cons_lookup.
Qed.

Lemma pop_empty {E : Type} (me : Z) (q : wsqueue E) (d : Z) :
  queue_at q me d = [] -> pop me q d = (None, q).
Proof. intros Hq. unfold pop. now rewrite Hq. Qed.

Lemma set_primary_wsq_same (s : scheduler_adws T) : set_primary_wsq T s (primary_wsq_ s) = s.
Proof. now destruct s. Qed.

Lemma set_migration_wsq_same (s : scheduler_adws T) :
  set_migration_wsq T s (migration_wsq_ s) = s.
Proof. now destruct s. Qed.

(** [on_die_drifted] never returns to its caller. *)
Lemma on_die_drifted_leaves (s s' : scheduler_adws T) (ts : Z) (ret : T) (c : control) :
  on_die_drifted T cfg s ts ret = Some (s', c) ->
  c = ResumeSched \/ exists ss, c = ResumeSuspended ss.
Proof.
  unfold on_die_drifted, faa_resume_flag, st_faa_resume_flag, resume_sched.
  destruct (_ =? 0).
  - destruct (evacuate_all _ _ _); cbn; [|discriminate].
    intros [= <- <-]. now left.
  - destruct (ts_suspended _) as [ss|]; [|discriminate].
    intros [= <- <-]. right. now exists ss.
Qed.

(** What [on_die_workfirst] tests: when a work-first thread dies, the entry on top of
    the queue in use (the primary queue, or the migration queue under
    [use_primary_wsq_ = false]) at the depth of the thread is popped.  It is
    taken for the parent's continuation exactly when its evacuation pointer is
    null (and, on the migration queue, it is a continuation); [frame_base ==
    cf_top_] is then only asserted by ITYR_CHECK: the thread is serialized if
    the check passes or is compiled out, and the process aborts otherwise.  An
    entry that is not taken for the parent is pushed back, which leaves the
    scheduler as it was, and [on_die_drifted] runs; so it does when the queue
    is empty. *)
Lemma on_die_workfirst_cases (s : scheduler_adws T) (tls : thread_local_storage)
    (ts : Z) (ret : T) :
  tls_ s = Some tls ->
  Z.of_nat (length (queue_at (primary_wsq_ s) (my_rank cfg) (depth_of tls)))
    <= capacity (primary_wsq_ s) ->
  Z.of_nat (length (queue_at (migration_wsq_ s) (my_rank cfg) (depth_of tls)))
    <= capacity (migration_wsq_ s) ->
  (if use_primary_wsq_ s then
     match queue_at (primary_wsq_ s) (my_rank cfg) (depth_of tls) with
     | qe :: rest =>
         if pwe_evacuation_ptr qe =? null then
           on_die_workfirst T cfg s ts ret
           = Some (set_primary_wsq T s
                     (set_queue (primary_wsq_ s) (my_rank cfg) (depth_of tls) rest),
                   if ITYR_CHECK (check_enabled cfg) (pwe_frame_base qe =? cf_top_ s)
                   then Returns else Dies)
         else on_die_workfirst T cfg s ts ret = on_die_drifted T cfg s ts ret
     | [] => on_die_workfirst T cfg s ts ret = on_die_drifted T cfg s ts ret
     end
   else
     match queue_at (migration_wsq_ s) (my_rank cfg) (depth_of tls) with
     | qe :: rest =>
         if mwe_is_continuation qe && (mwe_evacuation_ptr qe =? null) then
           on_die_workfirst T cfg s ts ret
           = Some (set_migration_wsq T s
                     (set_queue (migration_wsq_ s) (my_rank cfg) (depth_of tls) rest),
                   if ITYR_CHECK (check_enabled cfg) (mwe_frame_base qe =? cf_top_ s)
                   then Returns else Dies)
         else on_die_workfirst T cfg s ts ret = on_die_drifted T cfg s ts ret
     | [] => on_die_workfirst T cfg s ts ret = on_die_drifted T cfg s ts ret
     end) /\
  ((exists s', on_die_workfirst T cfg s ts ret = Some (s', Returns)) <->
   (if use_primary_wsq_ s then
      exists qe rest,
        queue_at (primary_wsq_ s) (my_rank cfg) (depth_of tls) = qe :: rest /\
        pwe_evacuation_ptr qe = null /\
        ITYR_CHECK (check_enabled cfg) (pwe_frame_base qe =? cf_top_ s) = true
    else
      exists qe rest,
        queue_at (migration_wsq_ s) (my_rank cfg) (depth_of tls) = qe :: rest /\
        mwe_is_continuation qe = true /\ mwe_evacuation_ptr qe = null /\
        ITYR_CHECK (check_enabled cfg) (mwe_frame_base qe =? cf_top_ s) = true)).
Proof.
  intros Htls Hcp Hcm.
  assert (Hdrift : forall s', on_die_drifted T cfg s ts ret <> Some (s', Returns)).
  { intros s' H. destruct (on_die_drifted_leaves _ _ _ _ _ H) as [?|[? ?]]; discriminate. }
  unfold on_die_workfirst. rewrite Htls. cbn [mbind option_bind].
  destruct (use_primary_wsq_ s).
  - destruct (queue_at (primary_wsq_ s) (my_rank cfg) (depth_of tls)) as [|qe rest] eqn:Hq.
    + rewrite pop_empty by exact Hq. split; [reflexivity|].
      split; [intros [s' H]; now apply Hdrift in H | intros (? & ? & ? & _); discriminate].
    + destruct (pop_push_restores _ _ _ _ _ Hq ltac:(rewrite Hq; exact Hcp))
        as [-> Hpush].
      destruct (pwe_evacuation_ptr qe =? null) eqn:He; cbn [negb].
      * split; [now destruct (ITYR_CHECK _ _)|].
        split.
        -- intros [s' H]. exists qe, rest. split; [reflexivity|].
           split; [now apply Z.eqb_eq|]. destruct (ITYR_CHECK _ _); [reflexivity|discriminate].
        -- intros (qe' & rest' & [= <- <-] & _ & ->). eauto.
      * rewrite Hpush, set_primary_wsq_same. split; [reflexivity|].
        split; [intros [s' H]; now apply Hdrift in H|].
        intros (qe' & rest' & [= <- <-] & Hnull & _). apply Z.eqb_neq in He. contradiction.
  - destruct (queue_at (migration_wsq_ s) (my_rank cfg) (depth_of tls)) as [|qe rest] eqn:Hq.
    + rewrite pop_empty by exact Hq. split; [reflexivity|].
      split; [intros [s' H]; now apply Hdrift in H | intros (? & ? & ? & _); discriminate].
    + destruct (pop_push_restores _ _ _ _ _ Hq ltac:(rewrite Hq; exact Hcm))
        as [-> Hpush].
      destruct (mwe_is_continuation qe && (mwe_evacuation_ptr qe =? null)) eqn:He.
      * apply andb_true_iff in He as [Hc He]. split; [now destruct (ITYR_CHECK _ _)|].
        split.
        -- intros [s' H]. exists qe, rest. split; [reflexivity|].
           split; [exact Hc|]. split; [now apply Z.eqb_eq|].
           destruct (ITYR_CHECK _ _); [reflexivity|discriminate].
        -- intros (qe' & rest' & [= <- <-] & _ & _ & ->). eauto.
      * rewrite Hpush, set_migration_wsq_same. split; [reflexivity|].
        split; [intros [s' H]; now apply Hdrift in H|].
        intros (qe' & rest' & [= <- <-] & Hc & Hnull & _).
        rewrite Hc in He. cbn in He. apply Z.eqb_neq in He. contradiction.
Qed.

(** C4: when a work-first thread dies, [on_die_workfirst] pops the entry on top
    of the queue in use (the primary queue, or the migration queue under
    [use_primary_wsq_ = false]) at the depth of the thread.  The states it is
    called in satisfy the assertion the code makes, [ITYR_CHECK(qe->frame_base
    == cf_top_)]: a popped entry that is still on the stack (its evacuation
    pointer is null and, on the migration queue, it is a continuation) is the
    frame on top of the stack; and a new task of the migration queue, whose
    [frame_base] is a task object of [suspended_thread_allocator_], is not.
    In such a state the thread is serialized ([on_die_workfirst] returns) if
    and only if the popped entry has a null evacuation pointer and
    [frame_base == cf_top_], and the entry is then gone from the queue.  In
    every other case the entry is pushed back onto the same queue, which is
    then as it was before the pop, and [on_die_drifted] runs; it also runs
    when the queue is empty, and it never returns to its caller. *)
Theorem C4_on_die_workfirst_serializes (s : scheduler_adws T) (tls : thread_local_storage)
    (ts : Z) (ret : T) :
  tls_ s = Some tls ->
  Z.of_nat (length (queue_at (primary_wsq_ s) (my_rank cfg) (depth_of tls)))
    <= capacity (primary_wsq_ s) ->
  Z.of_nat (length (queue_at (migration_wsq_ s) (my_rank cfg) (depth_of tls)))
    <= capacity (migration_wsq_ s) ->
  (forall qe rest,
     use_primary_wsq_ s = true ->
     queue_at (primary_wsq_ s) (my_rank cfg) (depth_of tls) = qe :: rest ->
     pwe_evacuation_ptr qe = null -> pwe_frame_base qe = cf_top_ s) ->
  (forall qe rest,
     use_primary_wsq_ s = false ->
     queue_at (migration_wsq_ s) (my_rank cfg) (depth_of tls) = qe :: rest ->
     mwe_evacuation_ptr qe = null ->
     if mwe_is_continuation qe then mwe_frame_base qe = cf_top_ s
     else mwe_frame_base qe <> cf_top_ s) ->
  ((exists s', on_die_workfirst T cfg s ts ret = Some (s', Returns)) <->
   (if use_primary_wsq_ s then
      exists qe rest,
        queue_at (primary_wsq_ s) (my_rank cfg) (depth_of tls) = qe :: rest /\
        pwe_evacuation_ptr qe = null /\ pwe_frame_base qe = cf_top_ s
    else
      exists qe rest,
        queue_at (migration_wsq_ s) (my_rank cfg) (depth_of tls) = qe :: rest /\
        mwe_evacuation_ptr qe = null /\ mwe_frame_base qe = cf_top_ s)) /\
  (use_primary_wsq_ s = true ->
   match queue_at (primary_wsq_ s) (my_rank cfg) (depth_of tls) with
   | qe :: rest =>
       let popped := set_queue (primary_wsq_ s) (my_rank cfg) (depth_of tls) rest in
       pop (my_rank cfg) (primary_wsq_ s) (depth_of tls) = (Some qe, popped) /\
       if (pwe_evacuation_ptr qe =? null) && (pwe_frame_base qe =? cf_top_ s) then
         on_die_workfirst T cfg s ts ret = Some (set_primary_wsq T s popped, Returns)
       else
         push (my_rank cfg) popped qe (depth_of tls) = Some (primary_wsq_ s) /\
         on_die_workfirst T cfg s ts ret = on_die_drifted T cfg s ts ret
   | [] => on_die_workfirst T cfg s ts ret = on_die_drifted T cfg s ts ret
   end) /\
  (use_primary_wsq_ s = false ->
   match queue_at (migration_wsq_ s) (my_rank cfg) (depth_of tls) with
   | qe :: rest =>
       let popped := set_queue (migration_wsq_ s) (my_rank cfg) (depth_of tls) rest in
       pop (my_rank cfg) (migration_wsq_ s) (depth_of tls) = (Some qe, popped) /\
       if (mwe_evacuation_ptr qe =? null) && (mwe_frame_base qe =? cf_top_ s) then
         on_die_workfirst T cfg s ts ret = Some (set_migration_wsq T s popped, Returns)
       else
         push (my_rank cfg) popped qe (depth_of tls) = Some (migration_wsq_ s) /\
         on_die_workfirst T cfg s ts ret = on_die_drifted T cfg s ts ret
   | [] => on_die_workfirst T cfg s ts ret = on_die_drifted T cfg s ts ret
   end) /\
  (forall s', on_die_drifted T cfg s ts ret <> Some (s', Returns)).
Proof.
  intros Htls Hcp Hcm Hprim Hmig.
  destruct (on_die_workfirst_cases s tls ts ret Htls Hcp Hcm) as (Hcases & Hiff).
  assert (Hpass : forall b, ITYR_CHECK (check_enabled cfg) (b =? b) = true).
  { intros b. unfold ITYR_CHECK. rewrite Z.eqb_refl. apply orb_true_r. }
  split; [|split; [|split]].
  - rewrite Hiff. destruct (use_primary_wsq_ s) eqn:Hu.
    + split.
      * intros (qe & rest & Hq & He & _). exists qe, rest.
        split; [exact Hq|]. split; [exact He|]. exact (Hprim qe rest eq_refl Hq He).
      * intros (qe & rest & Hq & He & Hf). exists qe, rest.
        split; [exact Hq|]. split; [exact He|]. rewrite Hf. apply Hpass.
    + split.
      * intros (qe & rest & Hq & Hc & He & _). exists qe, rest.
        split; [exact Hq|]. split; [exact He|].
        pose proof (Hmig qe rest eq_refl Hq He) as Hf. now rewrite Hc in Hf.
      * intros (qe & rest & Hq & He & Hf). exists qe, rest.
        pose proof (Hmig qe rest eq_refl Hq He) as Hf'.
        destruct (mwe_is_continuation qe); [|contradiction].
        split; [exact Hq|]. split; [reflexivity|]. split; [exact He|].
        rewrite Hf. apply Hpass.
  - intros Hu. rewrite Hu in Hcases.
    destruct (queue_at (primary_wsq_ s) (my_rank cfg) (depth_of tls)) as [|qe rest] eqn:Hq;
      [exact Hcases|].
    destruct (pop_push_restores (my_rank cfg) (primary_wsq_ s) (depth_of tls) qe rest Hq
                ltac:(rewrite Hq; exact Hcp)) as [Hpop Hpush].
    cbn zeta. split; [exact Hpop|].
    destruct (Z.eqb_spec (pwe_evacuation_ptr qe) null) as [He|He]; cbn [andb].
    + rewrite (Hprim qe rest Hu eq_refl He), Z.eqb_refl.
      rewrite Hcases, (Hprim qe rest Hu eq_refl He), Hpass. reflexivity.
    + split; [exact Hpush | exact Hcases].
  - intros Hu. rewrite Hu in Hcases.
    destruct (queue_at (migration_wsq_ s) (my_rank cfg) (depth_of tls)) as [|qe rest] eqn:Hq;
      [exact Hcases|].
    destruct (pop_push_restores (my_rank cfg) (migration_wsq_ s) (depth_of tls) qe rest Hq
                ltac:(rewrite Hq; exact Hcm)) as [Hpop Hpush].
    cbn zeta. split; [exact Hpop|].
    destruct (Z.eqb_spec (mwe_evacuation_ptr qe) null) as [He|He]; cbn [andb].
    + pose proof (Hmig qe rest Hu eq_refl He) as Hf.
      destruct (mwe_is_continuation qe); cbn [andb] in Hcases.
      * rewrite Hf, Z.eqb_refl. rewrite Hcases, Hf, Hpass. reflexivity.
      * replace (mwe_frame_base qe =? cf_top_ s) with false
          by (symmetry; now apply Z.eqb_neq).
        split; [exact Hpush | exact Hcases].
    + rewrite andb_false_r in Hcases. split; [exact Hpush | exact Hcases].
  - intros s' H. destruct (on_die_drifted_leaves _ _ _ _ _ H) as [?|[? ?]]; discriminate.
Qed.

End DieWorkfirst.

Section DieWorkfirstRuns.
Import WSQueue Sched Samples.

(** C4, run: [fork] has pushed the continuation of its caller, saved at 1900,
    and started the new thread; the thread dies with the continuation still on
    top of the queue in use and is serialized.  Once with the primary queues
    in use, once with the migration queues. *)
Lemma C4_on_die_workfirst_serializes_witness :
  (queue_at (primary_wsq_ sched_local_child) 0 0
     = [mk_primary_wsq_entry 0 1900 100 Flipper.zero] /\
   cf_top_ sched_local_child = 1900 /\
   exists s', on_die_workfirst nat cfg_debug sched_local_child 4096 42%nat
              = Some (s', Returns)) /\
  (queue_at (migration_wsq_ sched_migrated_child) 0 0
     = [mk_migration_wsq_entry true 0 1900 100 Flipper.zero] /\
   use_primary_wsq_ sched_migrated_child = false /\
   cf_top_ sched_migrated_child = 1900 /\
   exists s', on_die_workfirst nat cfg_debug sched_migrated_child 4096 42%nat
              = Some (s', Returns)).
Proof.
  split.
  - split; [vm_compute; reflexivity|]. split; [reflexivity|].
    apply (proj1 (C4_on_die_workfirst_serializes nat cfg_debug sched_local_child
                    (tls_at dr_local) 4096 42%nat eq_refl
                    ltac:(apply Z.leb_le; vm_compute; reflexivity)
                    ltac:(apply Z.leb_le; vm_compute; reflexivity)
                    ltac:(intros qe rest _ Hq He; vm_compute in Hq;
                          injection Hq as <- _; reflexivity)
                    ltac:(intros qe rest Hu; discriminate Hu))).
    exists (mk_primary_wsq_entry 0 1900 100 Flipper.zero), [].
    repeat split.
  - split; [vm_compute; reflexivity|]. split; [reflexivity|]. split; [reflexivity|].
    apply (proj1 (C4_on_die_workfirst_serializes nat cfg_debug sched_migrated_child
                    (tls_at dr_local) 4096 42%nat eq_refl
                    ltac:(apply Z.leb_le; vm_compute; reflexivity)
                    ltac:(apply Z.leb_le; vm_compute; reflexivity)
                    ltac:(intros qe rest Hu; discriminate Hu)
                    ltac:(intros qe rest _ Hq He; vm_compute in Hq;
                          injection Hq as <- _; reflexivity))).
    exists (mk_migration_wsq_entry true 0 1900 100 Flipper.zero), [].
    repeat split.
Defined.

End DieWorkfirstRuns.

(** ** Task groups *)

Section TaskGroups.
Import DistRange Flipper DistTree WSQueue Sched.
Variable T : Type.
Variable cfg : config.

Lemma ITYR_CHECK_passes (enabled : bool) : ITYR_CHECK enabled true = true.
Proof. unfold ITYR_CHECK. apply orb_true_r. Qed.

Lemma with_drange_same (tls : thread_local_storage) : with_drange tls (tls_drange tls) = tls.
Proof. now destruct tls. Qed.

(** The fields of the scheduler a list of events leaves alone. *)
Lemma issue_all_fields (s : scheduler_adws T) (es : list event) :
  let s' := issue_all T s es in
  primary_wsq_ s' = primary_wsq_ s /\ migration_wsq_ s' = migration_wsq_ s /\
  tls_ s' = tls_ s /\ dtree_ s' = dtree_ s /\
  dtree_local_bottom_ref_ s' = dtree_local_bottom_ref_ s /\
  cf_top_ s' = cf_top_ s /\ use_primary_wsq_ s' = use_primary_wsq_ s /\
  stack_frames s' = stack_frames s /\
  suspended_thread_allocator_ s' = suspended_thread_allocator_ s.
Proof.
  revert s. induction es as [|e es IH]; intros s; cbn.
  - repeat split.
  - specialize (IH (issue T s e)). cbn in IH. exact IH.
Qed.

(** [set_dominant] writes flags only. *)
Lemma set_dominant_nodes (dt : dist_tree) (nr : node_ref) (b : bool) :
  node_win_ (set_dominant cfg dt nr b) = node_win_ dt /\
  versions_ (set_dominant cfg dt nr b) = versions_ dt /\
  max_depth_ (set_dominant cfg dt nr b) = max_depth_ dt.
Proof. unfold set_dominant. destruct (negb _); cbn; repeat split. Qed.

(** What [on_task_die] changes: the range of the thread is made
    non-cross-worker if it was cross-worker, flags of the distribution tree are
    written, dummy tasks are allocated and sent.  The queues, the nodes of the
    tree and the rest of the thread's storage stay. *)
Lemma on_task_die_effect (s : scheduler_adws T) (tls : thread_local_storage) :
  tls_ s = Some tls ->
  exists s',
    on_task_die T cfg s = Some s' /\
    tls_ s' = Some (with_drange tls
                      (if is_cross_worker (tls_drange tls)
                       then make_non_cross_worker (tls_drange tls)
                       else tls_drange tls)) /\
    primary_wsq_ s' = primary_wsq_ s /\ migration_wsq_ s' = migration_wsq_ s /\
    node_win_ (dtree_ s') = node_win_ (dtree_ s) /\
    cf_top_ s' = cf_top_ s /\ use_primary_wsq_ s' = use_primary_wsq_ s /\
    stack_frames s' = stack_frames s.
Proof.
  intros Htls. unfold on_task_die. rewrite Htls. cbn [mbind option_bind].
  destruct (is_cross_worker (tls_drange tls)) eqn:Hx.
  - eexists. split; [reflexivity|].
    destruct (tls_undistributed tls && _).
    + destruct (make_dummy_tasks _ _ _ _) as [tasks a].
      match goal with |- context [issue_all T (issue_all T ?s0 ?e1) ?e2] =>
        pose proof (issue_all_fields (issue_all T s0 e1) e2) as H2;
        pose proof (issue_all_fields s0 e1) as H1 end.
      cbn in H1, H2.
      destruct H1 as (p1 & m1 & t1 & d1 & b1 & c1 & u1 & f1 & a1).
      destruct H2 as (p2 & m2 & t2 & d2 & b2 & c2 & u2 & f2 & a2).
      cbn. rewrite p2, p1, m2, m1, d2, d1, c2, c1, u2, u1, f2, f1. cbn.
      repeat split. apply set_dominant_nodes.
    + cbn. repeat split. apply set_dominant_nodes.
  - exists s. rewrite with_drange_same. repeat split; assumption.
Qed.


Lemma shl1_small (n : Z) : 0 <= n < 64 -> shl1 n = 2 ^ n.
Proof.
  intros Hn. unfold shl1, modulus, width. rewrite Z.shiftl_1_l.
  apply Z.mod_small. split; [apply Z.pow_nonneg; lia|].
  apply Z.pow_lt_mono_r; lia.
Qed.

(** [flip] toggles the bit [at_] and no other. *)
Lemma flip_testbit (f : flipper) (at_ i : Z) :
  0 <= at_ < 64 ->
  Z.testbit (val_ (flip f at_)) i = xorb (Z.testbit (val_ f) i) (i =? at_).
Proof.
  intros Hat. unfold flip; cbn [val_]. rewrite Z.lxor_spec, shl1_small by exact Hat.
  f_equal. rewrite Z.pow2_bits_eqb by lia. apply Z.eqb_sym.
Qed.

(** [task_group_end] on the owner of the range, for a task group that does not
    own a node. *)
Lemma task_group_end_not_owned (s1 : scheduler_adws T) (tls1 : thread_local_storage)
    (dr : dist_range float) (cf : Z) :
  tls_ s1 = Some tls1 ->
  (is_cross_worker dr = true -> owner dr = my_rank cfg) ->
  exists s2,
    task_group_end T cfg s1 (mk_task_group_data dr false) cf = Some (s2, Returns) /\
    tls_ s2 = Some (mk_tls dr (tls_dtree_node_ref tls1) (tls_tg_version tls1)
                      (if is_cross_worker dr then false else tls_undistributed tls1)) /\
    primary_wsq_ s2 = primary_wsq_ s1 /\ migration_wsq_ s2 = migration_wsq_ s1.
Proof.
  intros Htls Hown.
  destruct (on_task_die_effect s1 tls1 Htls) as (sd & Hdie & Htd & Hp & Hm & _).
  unfold task_group_end. rewrite Hdie. cbn [mbind option_bind]. rewrite Htd.
  cbn [mbind option_bind tgd_drange]. unfold with_drange.
  cbn [tls_drange tls_dtree_node_ref tls_tg_version tls_undistributed].
  destruct (is_cross_worker dr) eqn:Hx.
  - rewrite (Hown eq_refl), Z.eqb_refl. cbn [negb].
    unfold task_group_end_tail. cbn [tls_ set_tls mbind option_bind tgd_owns_dtree_node].
    eexists. split; [reflexivity|]. cbn. rewrite Hp, Hm. repeat split.
  - eexists. split; [reflexivity|]. cbn. rewrite Hp, Hm. repeat split.
Qed.

(** [task_group_end] on the owner of the range, for a task group that owns the
    node [n] of the local slot its reference names. *)
Lemma task_group_end_owned (s1 : scheduler_adws T) (tls1 : thread_local_storage)
    (dr : dist_range float) (n : node) (cf : Z) :
  tls_ s1 = Some tls1 ->
  is_cross_worker dr = true -> owner dr = my_rank cfg ->
  owner_rank (tls_dtree_node_ref tls1) = my_rank cfg ->
  node_win_ (dtree_ s1) !! (my_rank cfg, depth (tls_dtree_node_ref tls1)) = Some n ->
  0 <= node_depth n < 64 ->
  exists s2,
    task_group_end T cfg s1 (mk_task_group_data dr true) cf = Some (s2, Returns) /\
    tls_ s2 = Some (mk_tls dr (parent n) (flip (tls_tg_version tls1) (node_depth n)) false) /\
    primary_wsq_ s2 = primary_wsq_ s1 /\ migration_wsq_ s2 = migration_wsq_ s1.
Proof.
  intros Htls Hx Hown Hnr Hnode Hrange.
  destruct (on_task_die_effect s1 tls1 Htls) as (sd & Hdie & Htd & Hp & Hm & Hn & _).
  unfold task_group_end. rewrite Hdie. cbn [mbind option_bind]. rewrite Htd.
  cbn [mbind option_bind tgd_drange]. unfold with_drange.
  cbn [tls_drange tls_dtree_node_ref tls_tg_version tls_undistributed].
  rewrite Hx, Hown, Z.eqb_refl. cbn [negb].
  unfold task_group_end_tail.
  cbn [tls_ set_tls mbind option_bind tgd_owns_dtree_node tls_dtree_node_ref].
  rewrite Hnr, Z.eqb_refl, ITYR_CHECK_passes.
  unfold get_local_node, local_node, node_at.
  destruct (set_dominant_nodes (dtree_ (set_tls T sd
              (Some (mk_tls dr (tls_dtree_node_ref tls1) (tls_tg_version tls1)
                       (tls_undistributed tls1)))))
              (tls_dtree_node_ref tls1) false) as (Hn' & _ & _).
  rewrite Hn'. cbn [dtree_ set_tls]. rewrite Hn, Hnode. cbn [default from_option]. unfold id.
  unfold Flipper.in_range, width.
  replace ((0 <=? node_depth n) && (node_depth n <? 64)) with true
    by (symmetry; apply andb_true_iff; split; [apply Z.leb_le | apply Z.ltb_lt]; lia).
  rewrite ITYR_CHECK_passes.
  eexists. split; [reflexivity|]. cbn. rewrite Hp, Hm. repeat split.
Qed.

(** C5 (as the code has it): [task_group_begin(); task_group_end()] with nothing
    in between, for a thread that runs on the owner of its range (so that
    [task_group_end] does not migrate it), returns with [tls.drange] and
    [tls.dtree_node_ref] as they were and with both work-stealing queues
    untouched.  If the range is cross-worker and the depth permits, a
    distribution-tree node is appended and owned, and [tg_version] is flipped
    once, at the depth of that node, by [task_group_end]: that bit ends
    toggled.  Otherwise [tg_version] is not touched. *)
Theorem C5_task_group_round_trip (s : scheduler_adws T) (tls : thread_local_storage)
    (cf : Z) :
  tls_ s = Some tls ->
  (is_cross_worker (tls_drange tls) = true -> owner (tls_drange tls) = my_rank cfg) ->
  -1 <= depth_of tls ->
  adws_max_depth cfg <= 64 ->
  exists tgdata s1 s2 tls2,
    task_group_begin T cfg s = Some (tgdata, s1) /\
    task_group_end T cfg s1 tgdata cf = Some (s2, Returns) /\
    tls_ s2 = Some tls2 /\
    tls_drange tls2 = tls_drange tls /\
    tls_dtree_node_ref tls2 = tls_dtree_node_ref tls /\
    primary_wsq_ s2 = primary_wsq_ s /\
    migration_wsq_ s2 = migration_wsq_ s /\
    tgd_owns_dtree_node tgdata
      = is_cross_worker (tls_drange tls) && (depth_of tls + 1 <? adws_max_depth cfg) /\
    tls_tg_version tls2
      = (if tgd_owns_dtree_node tgdata
         then flip (tls_tg_version tls) (depth_of tls + 1)
         else tls_tg_version tls) /\
    (tgd_owns_dtree_node tgdata = true ->
     forall i, Z.testbit (val_ (tls_tg_version tls2)) i
               = xorb (Z.testbit (val_ (tls_tg_version tls)) i) (i =? depth_of tls + 1)).
Proof.
  intros Htls Hown Hd Hmax.
  unfold task_group_begin. rewrite Htls. cbn [mbind option_bind].
  destruct (is_cross_worker (tls_drange tls)) eqn:Hx.
  - specialize (Hown eq_refl).
    destruct (depth_of tls + 1 <? adws_max_depth cfg) eqn:Hlt.
    + (* a node is appended and owned *)
      apply Z.ltb_lt in Hlt. cbn [append].
      match goal with |- context [Some (?tg, ?s1) = Some _] =>
        set (s1' := s1);
        destruct (task_group_end_owned s1' _ (tls_drange tls)
                    (mk_node (tls_dtree_node_ref tls) (tls_drange tls) (tls_tg_version tls)
                       ((if int_max - n_ranks cfg <=? version_slot (dtree_ s) (depth_of tls + 1)
                         then my_rank cfg + 1
                         else version_slot (dtree_ s) (depth_of tls + 1)) + n_ranks cfg))
                    cf eq_refl Hx Hown eq_refl)
          as (s2 & Hend & Htls2 & Hp & Hm)
      end.
      { subst s1'. cbn. now rewrite lookup_insert_eq. }
      { unfold node_depth; cbn [parent]. unfold depth_of in *. lia. }
      eexists _, s1', s2, _. split; [reflexivity|]. split; [exact Hend|].
      split; [exact Htls2|]. cbn. rewrite Hp, Hm. subst s1'. cbn.
      repeat split; try reflexivity.
      intros _ i. apply flip_testbit. unfold depth_of in *. lia.
    + (* the depth does not permit a node *)
      match goal with |- context [Some (?tg, ?s1) = Some _] =>
        set (s1' := s1);
        destruct (task_group_end_not_owned s1' _ (tls_drange tls) cf eq_refl
                    (fun _ => Hown))
          as (s2 & Hend & Htls2 & Hp & Hm)
      end.
      eexists _, s1', s2, _. split; [reflexivity|]. split; [exact Hend|].
      split; [exact Htls2|]. cbn. rewrite Hp, Hm. subst s1'. cbn.
      repeat split; try reflexivity. discriminate.
  - (* the range is not cross-worker: nothing is recorded *)
    destruct (task_group_end_not_owned s tls (tls_drange tls) cf Htls
                ltac:(rewrite Hx; discriminate))
      as (s2 & Hend & Htls2 & Hp & Hm).
    rewrite Hx in Htls2.
    eexists _, s, s2, _. split; [reflexivity|]. split; [exact Hend|].
    split; [exact Htls2|]. cbn. repeat split; try assumption. discriminate.
Qed.

End TaskGroups.

Section TaskGroupRuns.
Import DistRange Flipper DistTree WSQueue Sched Samples.

(** C5, run: a thread of rank 0 with the range [0, 4), at depth 0. *)
Lemma C5_task_group_round_trip_witness :
  exists tgdata s1 s2 tls2,
    task_group_begin nat cfg_debug sched_cross = Some (tgdata, s1) /\
    task_group_end nat cfg_debug s1 tgdata 1900 = Some (s2, Returns) /\
    tls_ s2 = Some tls2 /\
    tls_drange tls2 = dr_root /\
    tls_dtree_node_ref tls2 = mk_node_ref 0 0 /\
    primary_wsq_ s2 = primary_wsq_ sched_cross /\
    migration_wsq_ s2 = migration_wsq_ sched_cross /\
    tls_tg_version tls2 = flip Flipper.zero 1.
Proof.
  destruct (C5_task_group_round_trip nat cfg_debug sched_cross (tls_at dr_root) 1900
              eq_refl
              ltac:(intros _; vm_compute; reflexivity)
              ltac:(apply Z.leb_le; vm_compute; reflexivity)
              ltac:(apply Z.leb_le; vm_compute; reflexivity))
    as (tgdata & s1 & s2 & tls2 & Hb & He & Ht & Hdr & Hnr & Hp & Hm & Hown & Hv & _).
  exists tgdata, s1, s2, tls2. repeat split; try assumption.
  rewrite Hv, Hown. reflexivity.
Defined.

(** C5 as it was stated fails: a thread of rank 0 with the range [0, 4) at
    depth 0, whose [tg_version] is 0, has the [tg_version] 2 after
    [task_group_begin(); task_group_end()]: the bit of depth 1 was flipped once,
    by [task_group_end]; [task_group_begin] flips nothing. *)
Lemma C5_counterexample :
  exists tgdata s1 s2 tls2,
    task_group_begin nat cfg_debug sched_cross = Some (tgdata, s1) /\
    tls_tg_version <$> tls_ s1 = Some (mk_flipper 0) /\
    task_group_end nat cfg_debug s1 tgdata 1900 = Some (s2, Returns) /\
    tls_ s2 = Some tls2 /\
    tls_tg_version <$> tls_ sched_cross = Some (mk_flipper 0) /\
    tls_tg_version tls2 = mk_flipper 2.
Proof.
  do 4 eexists. split; [vm_compute; reflexivity|].
  split; [vm_compute; reflexivity|].
  split; [vm_compute; reflexivity|].
  split; [reflexivity|]. split; vm_compute; reflexivity.
Qed.

End TaskGroupRuns.

(** ** fork and join *)

Section ForkJoin.
Import DistRange Flipper DistTree WSQueue Sched.
Variable T : Type.
Variable cfg : config.












End ForkJoin.

Section ForkJoinRuns.
Import DistRange Flipper DistTree WSQueue Sched Samples.
Local Open Scope float_scope.



End ForkJoinRuns.

Section HomeManagerRuns.
Import HomeManager Samples.

(** C9, run: 8 bytes at 4100 are checked out and checked in again. *)
Lemma C9_checkout_checkin_ref_count_witness :
  exists hm1 hm2,
    checkout_fast list_tlb list_tlb_get true hm_one_segment 4100 8 = (true, hm1) /\
    checkin_fast list_tlb list_tlb_get true hm1 4100 8 = (true, hm2) /\
    ref_count_of list_tlb hm_one_segment 7 = 0 /\
    ref_count_of list_tlb hm1 7 = 1 /\
    is_evictable (entry_at list_tlb hm1 7) = false /\
    ref_count_of list_tlb hm2 7 = 0.
Proof.
  pose (hm1 := snd (checkout_fast list_tlb list_tlb_get true hm_one_segment 4100 8)).
  pose (hm2 := snd (checkin_fast list_tlb list_tlb_get true hm1 4100 8)).
  destruct (C9_checkout_checkin_ref_count list_tlb list_tlb_get hm_one_segment hm1 hm2
              4100 8 eq_refl eq_refl eq_refl)
    as (_ & key & Hkey & H1 & H2 & H3 & Hev).
  exists hm1, hm2. injection Hkey as <-.
  split; [reflexivity|]. split; [reflexivity|]. split; [reflexivity|].
  split; [exact (H1 7)|]. split; [apply Hev; discriminate|]. exact (H3 7).
Defined.

End HomeManagerRuns.

(** ** The race on resume_flag *)

Section ResumeRace.
Import Sched JoinRace.
Variable T : Type.
Variable ret : T.
Variable ss : suspended_state.

Local Abbreviation race := (race T).
Local Abbreviation step := (step T ret ss).
Local Abbreviation reachable := (reachable T ret ss).
Local Abbreviation race_invariant := (race_invariant T ret ss).
Local Abbreviation progress_of := (progress_of T).

Lemma race_invariant_start : race_invariant (start T).
Proof. unfold race_invariant, start; cbn. repeat split. Qed.

Lemma race_invariant_step (who : party) (x x' : race) :
  race_invariant x -> step who x = Some x' -> race_invariant x'.
Proof.
  destruct x as [[rv fl sus] c p cs ps].
  unfold JoinRace.race_invariant, JoinRace.step; cbn.
  intros (Hfl & Hsaw & Hc & Hp) Hstep.
  (* the flag is known from what the parties saw *)
  assert (Hflag : fl = 0 \/ fl = 1 \/ fl = 2)
    by (destruct cs, ps; cbn in Hfl; lia).
  destruct who, c, p; cbn in Hstep; try discriminate;
    destruct cs as [cv|], ps as [pv|]; cbn in Hfl, Hsaw, Hc, Hp;
    try (exfalso; intuition (try discriminate; try congruence; try lia); fail);
    destruct Hflag as [-> | [-> | ->]]; try lia; cbn in Hstep;
    injection Hstep as <-; cbn;
    intuition (subst; try discriminate; try congruence; try lia; eauto).
Qed.

Lemma reachable_invariant (x : race) : reachable x -> race_invariant x.
Proof.
  induction 1 as [|who x x' _ IH Hstep].
  - apply race_invariant_start.
  - exact (race_invariant_step who x x' IH Hstep).
Qed.


Lemma run_reachable (sched : list party) (x : race) :
  reachable x -> reachable (run T ret ss sched x).
Proof.
  revert x. induction sched as [|who rest IH]; intros x Hx; cbn; [exact Hx|].
  apply IH. destruct (step who x) as [x'|] eqn:Hstep; cbn; [|exact Hx].
  exact (reachable_step T ret ss who x x' Hx Hstep).
Qed.

(** No reachable state is stuck: while a party is not through, one of the two
    can move. *)
Lemma race_progress (x : race) :
  reachable x -> finished T x \/ exists who x', step who x = Some x'.
Proof.
  intros Hx. apply reachable_invariant in Hx.
  destruct x as [[rv fl sus] c p cs ps].
  unfold JoinRace.race_invariant in Hx; cbn in Hx.
  destruct Hx as (_ & _ & Hc & Hp).
  destruct c; try (right; exists Child; cbn; eauto; fail);
    destruct p; try (right; exists Parent; cbn; eauto; fail);
    cbn; auto; cbn in Hp; intuition.
Qed.

Lemma race_step_moves_on (who : party) (x x' : race) :
  step who x = Some x' -> progress_of x < progress_of x' <= 8.
Proof.
  destruct x as [[rv fl sus] c p cs ps]. unfold JoinRace.step, JoinRace.progress_of; cbn.
  destruct who, c, p; cbn; try discriminate;
    try destruct (fl =? 0); try destruct (1 <=? fl);
    intros [= <-]; cbn; lia.
Qed.

(** C3 (as the code has it): when the child has died through [on_die_drifted]
    and the parent has come out of [join], under any interleaving of their
    accesses to the thread state: the child has incremented [resume_flag] once;
    the parent has incremented it once or, when it read [resume_flag >= 1]
    first, not at all, so that the flag ends at 1 or 2; exactly one of the two
    saw [fetch_add] return 0; the return value the parent gets is the one the
    child published before its increment; and the party whose [fetch_add]
    returned a non-zero value is the one that made the continuation of the
    parent go on: the child by resuming [ts->suspended], the parent by not
    suspending. *)
Theorem C3_resume_race (x : race) :
  reachable x -> finished T x ->
  increments (child_saw x) = 1 /\
  (parent_saw x = None \/ increments (parent_saw x) = 1) /\
  ts_resume_flag (shared x) = 1 + increments (parent_saw x) /\
  xorb (saw_zero (child_saw x)) (saw_zero (parent_saw x)) = true /\
  ppc x = PDone (Some ret) /\
  (child_saw x = Some 0 -> cpc x = CWins) /\
  (child_saw x = Some 1 <-> cpc x = CResumes (Some ss)) /\
  (child_saw x = Some 1 <-> parent_saw x = Some 0) /\
  (parent_saw x = None \/ parent_saw x = Some 1 <-> child_saw x = Some 0).
Proof.
  intros Hx Hfin. apply reachable_invariant in Hx.
  destruct x as [[rv fl sus] c p cs ps].
  unfold JoinRace.race_invariant in Hx; unfold finished in Hfin; cbn in *.
  destruct Hx as (Hfl & Hsaw & Hc & Hp).
  destruct c; try contradiction; destruct p; try contradiction;
    destruct cs as [cv|], ps as [pv|]; cbn in *;
    intuition (subst; cbn; try discriminate; try congruence; try lia; eauto).
Qed.

End ResumeRace.

Section RaceIsTheCode.
Import WSQueue Sched JoinRace.
Variable T : Type.
Variable cfg : config.

Lemma thread_state_at_update (s : scheduler_adws T) (ts : Z) (st : thread_state T) :
  thread_state_at T (update_thread_state T s ts st) ts = st.
Proof. unfold thread_state_at, update_thread_state; cbn. now rewrite lookup_insert_eq. Qed.

Lemma evacuate_all_thread_states (s s' : scheduler_adws T) :
  evacuate_all T cfg s = Some s' -> thread_states s' = thread_states s.
Proof.
  unfold evacuate_all. destruct (tls_ s); cbn; [|discriminate].
  destruct (use_primary_wsq_ s).
  - destruct (evacuate_primary_from _ _ _ _ _ _). intros [= <-]. reflexivity.
  - intros [= <-]. reflexivity.
Qed.

(** [on_die_drifted] does to the thread state what the two steps of the child
    do, and hands control on as the child of the race does: to the scheduler if
    its increment saw 0, to the continuation found in [ts->suspended]
    otherwise. *)
Lemma on_die_drifted_is_the_child (s s' : scheduler_adws T) (ts : Z) (ret : T)
    (ss : suspended_state) (c : control)
    (p : parent_pc T) (cs ps : option Z) :
  on_die_drifted T cfg s ts ret = Some (s', c) ->
  let x := run T ret ss [Child; Child]
             (mk_race T (thread_state_at T s ts) CPutRetval p cs ps) in
  thread_state_at T s' ts = shared x /\
  (c = ResumeSched /\ cpc x = CWins \/
   exists ss', c = ResumeSuspended ss' /\ cpc x = CLoses /\
               ts_suspended (shared x) = Some ss').
Proof.
  unfold on_die_drifted, put_retval, faa_resume_flag, resume_sched.
  rewrite thread_state_at_update.
  cbn [st_faa_resume_flag st_put_retval ts_resume_flag ts_retval ts_suspended fst snd].
  replace (thread_state_at T (issue T s DriftDieCb) ts) with (thread_state_at T s ts)
    by reflexivity.
  cbn [run JoinRace.step cpc shared default from_option st_faa_resume_flag st_put_retval
       ts_resume_flag ts_retval ts_suspended ppc child_saw parent_saw].
  unfold id.
  destruct (ts_resume_flag (thread_state_at T s ts) =? 0) eqn:Hz.
  - destruct (evacuate_all T cfg _) as [s4|] eqn:He; cbn; [|discriminate].
    intros [= <- <-]. apply evacuate_all_thread_states in He.
    rewrite Hz. split; [|now left].
    unfold thread_state_at; cbn. rewrite He; cbn. now rewrite lookup_insert_eq.
  - rewrite thread_state_at_update. cbn.
    destruct (ts_suspended (thread_state_at T s ts)) as [ss'|] eqn:Hs; [|discriminate].
    intros [= <- <-]. rewrite Hz. split; [apply thread_state_at_update|].
    right. exists ss'. repeat split.
Qed.

(** The branch of [join] for a thread that was not serialized does what the
    parent of the race does: it returns at once with the value in the thread
    state if it reads [resume_flag >= 1]; otherwise it leaves its evacuated
    continuation in [ts->suspended] and increments.  Within one call nobody
    else moves, so that the increment sees the 0 just read and the thread
    suspends. *)
Lemma join_is_the_parent (s s1 : scheduler_adws T) (th : thread_handler T) (cf : Z) :
  th_serialized th = false -> th_state th <> null ->
  on_task_die T cfg s = Some s1 ->
  let st := thread_state_at T s1 (th_state th) in
  if 1 <=? ts_resume_flag st then
    exists jr, join T cfg s th cf = Some jr /\
               jr_control jr = Returns /\ jr_retval jr = ts_retval st
  else if ts_resume_flag st =? 0 then
    match join T cfg s th cf with
    | Some jr =>
        jr_control jr = ResumeSched /\ jr_retval jr = None /\
        exists ss,
          thread_state_at T (jr_sched jr) (th_state th)
          = snd (st_faa_resume_flag T (st_put_suspended T st ss))
    | None => True
    end
  else True.
Proof.
  intros Hser Hts Hdie. cbn zeta. unfold join. rewrite Hdie. cbn [mbind option_bind].
  rewrite Hser. unfold ITYR_CHECK.
  replace (th_state th =? null) with false by (symmetry; now apply Z.eqb_neq).
  rewrite orb_true_r. cbn [negb].
  destruct (1 <=? ts_resume_flag (thread_state_at T s1 (th_state th))) eqn:Hge.
  - eexists. split; [reflexivity|]. split; reflexivity.
  - destruct (ts_resume_flag (thread_state_at T s1 (th_state th)) =? 0) eqn:Hz; [|exact I].
    unfold evacuate. destruct (evacuate_frame _ _ _) as [ss a] eqn:Hev.
    unfold faa_resume_flag, put_suspended. rewrite thread_state_at_update.
    cbn [st_faa_resume_flag st_put_suspended ts_resume_flag fst snd].
    assert (Hsame : thread_state_at T
                      (set_suspended_thread_allocator T (suspend_enter T s1 cf) a)
                      (th_state th)
                    = thread_state_at T s1 (th_state th)) by reflexivity.
    rewrite Hsame, Hz.
    destruct (evacuate_all T cfg _) as [s6|] eqn:He; cbn; [|exact I].
    repeat split. exists ss. apply evacuate_all_thread_states in He.
    unfold thread_state_at; cbn. rewrite He; cbn. now rewrite lookup_insert_eq.
Qed.

End RaceIsTheCode.

Section ResumeRaceRuns.
Import Sched JoinRace Samples.

(** C3, run: the parent reaches [join] first and suspends; the child dies, is
    second to increment and resumes the parent. *)
Lemma C3_resume_race_witness :
  ts_resume_flag
    (shared (run nat 5%nat some_frame
               [Parent; Parent; Parent; Child; Child; Child; Parent] (start nat))) = 2 /\
  ppc (run nat 5%nat some_frame
         [Parent; Parent; Parent; Child; Child; Child; Parent] (start nat))
  = PDone (Some 5%nat).
Proof.
  destruct (C3_resume_race nat 5%nat some_frame
              (run nat 5%nat some_frame
                 [Parent; Parent; Parent; Child; Child; Child; Parent] (start nat))
              (run_reachable nat 5%nat some_frame _ _ (reachable_start nat 5%nat some_frame))
              I)
    as (_ & _ & Hflag & _ & Hdone & _).
  split; [exact Hflag | exact Hdone].
Defined.

(** C3 as it was stated fails: the child dies before the parent reaches [join].
    The child publishes 5 and increments the flag from 0; the parent then reads
    [resume_flag >= 1], does not increment, fetches the value and returns.
    Both are through and [resume_flag] is 1: it was incremented once, not
    twice, and the only writer, the child, saw 0. *)
Lemma C3_counterexample :
  reachable nat 5%nat some_frame
    (run nat 5%nat some_frame [Child; Child; Parent; Parent] (start nat)) /\
  run nat 5%nat some_frame [Child; Child; Parent; Parent] (start nat)
  = mk_race nat (mk_thread_state (Some 5%nat) 1 None) CWins (PDone (Some 5%nat))
      (Some 0) None.
Proof.
  split; [|reflexivity].
  apply run_reachable. apply reachable_start.
Qed.

End ResumeRaceRuns.

(** ** The collective broadcast *)

Section CollectiveBroadcast.
Import CollExec.

(** Every positive number has a lowest set bit. *)
Lemma lowest_set_bit (t : Z) :
  1 <= t -> exists j, 0 <= j /\ t mod 2 ^ (j + 1) = 2 ^ j.
Proof.
  intros Ht. assert (H0 : 0 <= t) by lia. revert Ht. pattern t.
  apply Z_lt_induction; [clear t H0 | exact H0].
  intros t IH Ht.
  destruct (Z.eq_dec (t mod 2) 0) as [Heven | Hodd].
  - assert (Hdiv : t = 2 * (t / 2)) by (apply Z.div_exact; lia).
    destruct (IH (t / 2)) as (j & Hj & Hmod); try lia.
    exists (j + 1). split; [lia|].
    rewrite Hdiv at 1.
    replace (2 ^ (j + 1 + 1)) with (2 * 2 ^ (j + 1)) by (rewrite <- Z.pow_succ_r; f_equal; lia).
    rewrite Z.mul_mod_distr_l by (try apply Z.pow_nonzero; lia).
    rewrite Hmod. rewrite <- Z.pow_succ_r by lia. f_equal; lia.
  - exists 0. split; [lia|]. change (2 ^ (0 + 1)) with 2. change (2 ^ 0) with 1.
    pose proof (Z.mod_pos_bound t 2). lia.
Qed.

(** The bit a number ends with is determined by the number. *)
Lemma lowest_set_bit_unique (t j1 j2 : Z) :
  0 <= j1 -> 0 <= j2 ->
  t mod 2 ^ (j1 + 1) = 2 ^ j1 -> t mod 2 ^ (j2 + 1) = 2 ^ j2 -> j1 = j2.
Proof.
  assert (Hlt : forall a b, 0 <= a -> a < b ->
            t mod 2 ^ (a + 1) = 2 ^ a -> t mod 2 ^ (b + 1) = 2 ^ b -> False).
  { intros a b Ha Hab Hma Hmb.
    assert (Hpa : 0 < 2 ^ a) by (apply Z.pow_pos_nonneg; lia).
    assert (Hpa1 : 0 < 2 ^ (a + 1)) by (apply Z.pow_pos_nonneg; lia).
    assert (Hdiv : (2 ^ (a + 1) | 2 ^ b)).
    { exists (2 ^ (b - (a + 1))). rewrite <- Z.pow_add_r by lia. f_equal. lia. }
    assert (Hdiv' : (2 ^ (a + 1) | 2 ^ (b + 1))).
    { exists (2 ^ (b - a)). rewrite <- Z.pow_add_r by lia. f_equal. lia. }
    assert (Ht : (2 ^ (a + 1) | t)).
    { rewrite (Z.div_mod t (2 ^ (b + 1))) by (apply Z.pow_nonzero; lia).
      rewrite Hmb. apply Z.divide_add_r; [|exact Hdiv].
      apply Z.divide_mul_l. exact Hdiv'. }
    apply Z.mod_divide in Ht; lia. }
  intros H1 H2 Hm1 Hm2.
  destruct (Z.lt_trichotomy j1 j2) as [Hc | [Hc | Hc]]; [|exact Hc|].
  - exfalso. exact (Hlt j1 j2 H1 Hc Hm1 Hm2).
  - exfalso. exact (Hlt j2 j1 H2 Hc Hm2 Hm1).
Qed.

(** The ranks the loop of [execute_coll_task] puts to, from [i = 2^k] on: one
    for each [j < k] such that [2^(j+1)] divides the shifted rank and the
    shifted rank plus [2^j] is below [n_ranks]. *)
Lemma put_loop_pow2 (n b s : Z) (k fuel : nat) (r : Z) :
  (k <= fuel)%nat ->
  In r (put_loop n b s (2 ^ Z.of_nat k) fuel) <->
  exists j, 0 <= j < Z.of_nat k /\ s mod 2 ^ (j + 1) = 0 /\ s + 2 ^ j < n /\
            r = (s + 2 ^ j + b) mod n.
Proof.
  revert fuel. induction k as [|k IH]; intros fuel Hfuel.
  - destruct fuel; cbn; (split; [contradiction | intros (j & ? & _); lia]).
  - destruct fuel as [|fuel]; [lia|].
    cbn [put_loop].
    assert (Hpow : 2 ^ Z.of_nat (S k) = 2 * 2 ^ Z.of_nat k)
      by (rewrite Nat2Z.inj_succ, Z.pow_succ_r; lia).
    assert (Hpos : 0 < 2 ^ Z.of_nat k) by (apply Z.pow_pos_nonneg; lia).
    replace (1 <? 2 ^ Z.of_nat (S k)) with true by (symmetry; apply Z.ltb_lt; lia).
    assert (Hhalf : 2 ^ Z.of_nat (S k) / 2 = 2 ^ Z.of_nat k)
      by (rewrite Hpow, Z.mul_comm; apply Z.div_mul; lia).
    rewrite Hhalf, in_app_iff, (IH fuel) by lia.
    replace (2 ^ Z.of_nat (S k)) with (2 ^ (Z.of_nat k + 1))
      by (f_equal; lia).
    split.
    + intros [Hhead | (j & Hj & Hrest)].
      * exists (Z.of_nat k).
        destruct (Z.eqb_spec (s mod 2 ^ (Z.of_nat k + 1)) 0) as [Hz|]; [|contradiction].
        destruct (Z.ltb_spec (s + 2 ^ Z.of_nat k) n) as [Hlt|]; [|contradiction].
        destruct Hhead as [<- | []]. repeat split; try lia.
      * exists j. split; [lia | exact Hrest].
    + intros (j & Hj & Hz & Hlt & ->).
      destruct (Z.eq_dec j (Z.of_nat k)) as [-> | Hne].
      * left. rewrite Hz. cbn [Z.eqb].
        replace (s + 2 ^ Z.of_nat k <? n) with true by (symmetry; apply Z.ltb_lt; lia).
        now left.
      * right. exists j. repeat split; try assumption; lia.
Qed.


Lemma mod_below_twice (x n : Z) :
  0 <= x < 2 * n -> x mod n = if x <? n then x else x - n.
Proof.
  intros Hx. destruct (Z.ltb_spec x n).
  - apply Z.mod_small. lia.
  - symmetry. apply (Z.mod_unique x n 1 (x - n)); lia.
Qed.

Lemma shifted_range (n b r : Z) : 0 < n -> 0 <= shifted n b r < n.
Proof. intros Hn. unfold shifted. apply Z.mod_pos_bound. exact Hn. Qed.

Lemma unshift_range (n b t : Z) : 0 < n -> 0 <= (t + b) mod n < n.
Proof. intros Hn. apply Z.mod_pos_bound. exact Hn. Qed.

Lemma shifted_unshift (n b t : Z) :
  0 <= b < n -> 0 <= t < n -> shifted n b ((t + b) mod n) = t.
Proof.
  intros Hb Ht. unfold shifted.
  rewrite (mod_below_twice (t + b) n) by lia.
  destruct (Z.ltb_spec (t + b) n); rewrite mod_below_twice by lia;
    match goal with |- context [?x <? n] => destruct (Z.ltb_spec x n) end; lia.
Qed.

Lemma unshift_shifted (n b r : Z) :
  0 <= b < n -> 0 <= r < n -> (shifted n b r + b) mod n = r.
Proof.
  intros Hb Hr. unfold shifted.
  rewrite (mod_below_twice (r + n - b) n) by lia.
  destruct (Z.ltb_spec (r + n - b) n); rewrite mod_below_twice by lia;
    match goal with |- context [?x <? n] => destruct (Z.ltb_spec x n) end; lia.
Qed.

Lemma unshift_injective (n b t1 t2 : Z) :
  0 <= b < n -> 0 <= t1 < n -> 0 <= t2 < n ->
  (t1 + b) mod n = (t2 + b) mod n -> t1 = t2.
Proof.
  intros Hb H1 H2 Heq.
  rewrite <- (shifted_unshift n b t1), <- (shifted_unshift n b t2) by lia.
  now rewrite Heq.
Qed.

Lemma next_pow2_bounds (n : Z) :
  1 <= n ->
  next_pow2 n = 2 ^ Z.of_nat (Z.to_nat (Z.log2_up n)) /\
  n <= next_pow2 n /\
  (Z.to_nat (Z.log2_up n) <= Z.to_nat (next_pow2 n))%nat.
Proof.
  intros Hn. unfold next_pow2.
  pose proof (Z.log2_up_nonneg n) as Hk.
  rewrite Z2Nat.id by exact Hk. split; [reflexivity|]. split.
  - destruct (Z.eq_dec n 1) as [-> | Hne]; [cbn; lia|].
    apply Z.log2_up_spec. lia.
  - apply Z2Nat.inj_le;
      [lia | apply Z.pow_nonneg; lia | pose proof (Z.pow_gt_lin_r 2 (Z.log2_up n)); lia].
Qed.

(** The ranks a rank puts the task to: its shifted rank plus [2^j], shifted
    back, for each [j] such that [2^(j+1)] divides its shifted rank and the sum
    is below [n_ranks]. *)
Lemma put_targets_spec (n b r t : Z) :
  1 <= n ->
  In t (put_targets n b r) <->
  exists j, 0 <= j /\ shifted n b r mod 2 ^ (j + 1) = 0 /\
            shifted n b r + 2 ^ j < n /\ t = (shifted n b r + 2 ^ j + b) mod n.
Proof.
  intros Hn. destruct (next_pow2_bounds n Hn) as (Hp & Hle & Hfuel).
  unfold put_targets. rewrite Hp at 1. rewrite put_loop_pow2 by exact Hfuel.
  rewrite Z2Nat.id by apply Z.log2_up_nonneg.
  split; intros (j & Hj & Hz & Hlt & Ht); exists j; repeat split; try assumption; try lia.
  (* 2^j <= shifted + 2^j < n <= 2^K *)
  pose proof (shifted_range n b r ltac:(lia)) as Hs.
  assert (H2 : 2 ^ j < 2 ^ Z.log2_up n) by (unfold next_pow2 in Hle; lia).
  apply Z.pow_lt_mono_r_iff in H2; [exact H2 | lia | apply Z.log2_up_nonneg].
Qed.

(** A sum of a multiple of [2^(j+1)] and [2^j] ends with the bit [j]. *)
Lemma ends_with_bit (s j : Z) :
  0 <= j -> s mod 2 ^ (j + 1) = 0 -> (s + 2 ^ j) mod 2 ^ (j + 1) = 2 ^ j.
Proof.
  intros Hj Hz.
  assert (Hp : 0 < 2 ^ j) by (apply Z.pow_pos_nonneg; lia).
  assert (Hp1 : 2 ^ (j + 1) = 2 * 2 ^ j) by (rewrite Z.pow_add_r; lia).
  rewrite Z.add_mod, Hz, Z.add_0_l, Z.mod_mod by lia. apply Z.mod_small. lia.
Qed.

Lemma multiple_below_bit (t j : Z) :
  0 <= j -> t mod 2 ^ (j + 1) = 2 ^ j -> 0 <= t ->
  (t - 2 ^ j) mod 2 ^ (j + 1) = 0 /\ 0 <= t - 2 ^ j.
Proof.
  intros Hj Hm Ht.
  assert (Hp : 0 < 2 ^ (j + 1)) by (apply Z.pow_pos_nonneg; lia).
  pose proof (Z.div_mod t (2 ^ (j + 1)) ltac:(lia)) as Hdm.
  pose proof (Z.div_pos t (2 ^ (j + 1)) Ht Hp) as Hq.
  rewrite Hm in Hdm. split.
  - replace (t - 2 ^ j) with (t / 2 ^ (j + 1) * 2 ^ (j + 1)) by lia.
    apply Z.mod_mul. lia.
  - nia.
Qed.

(** The targets of a rank are ranks, and none is the rank that began. *)
Lemma put_targets_range (n b r t : Z) :
  1 <= n -> 0 <= b < n -> In t (put_targets n b r) -> 0 <= t < n /\ t <> b.
Proof.
  intros Hn Hb Hin. apply put_targets_spec in Hin; [|exact Hn].
  destruct Hin as (j & Hj & Hz & Hlt & ->).
  pose proof (shifted_range n b r ltac:(lia)) as Hs.
  assert (Hp : 0 < 2 ^ j) by (apply Z.pow_pos_nonneg; lia).
  split; [apply Z.mod_pos_bound; lia|].
  intros Heq.
  assert (H0 : shifted n b r + 2 ^ j = 0).
  { apply (unshift_injective n b); try lia.
    rewrite Heq. cbn [Z.add]. symmetry. apply Z.mod_small. lia. }
  lia.
Qed.

(** A rank gets the task from one rank only. *)
Lemma put_targets_one_sender (n b r1 r2 t : Z) :
  1 <= n -> 0 <= b < n -> 0 <= r1 < n -> 0 <= r2 < n ->
  In t (put_targets n b r1) -> In t (put_targets n b r2) -> r1 = r2.
Proof.
  intros Hn Hb H1 H2 Hin1 Hin2.
  apply put_targets_spec in Hin1; [|exact Hn]. apply put_targets_spec in Hin2; [|exact Hn].
  destruct Hin1 as (j1 & Hj1 & Hz1 & Hlt1 & ->).
  destruct Hin2 as (j2 & Hj2 & Hz2 & Hlt2 & Heq).
  pose proof (shifted_range n b r1 ltac:(lia)) as Hs1.
  pose proof (shifted_range n b r2 ltac:(lia)) as Hs2.
  assert (Hp1 : 0 < 2 ^ j1) by (apply Z.pow_pos_nonneg; lia).
  assert (Hp2 : 0 < 2 ^ j2) by (apply Z.pow_pos_nonneg; lia).
  apply unshift_injective in Heq; try lia.
  assert (Hj : j1 = j2).
  { apply (lowest_set_bit_unique (shifted n b r1 + 2 ^ j1)); try assumption.
    - now apply ends_with_bit.
    - rewrite Heq. now apply ends_with_bit. }
  subst j2. assert (Hs : shifted n b r1 = shifted n b r2) by lia.
  rewrite <- (unshift_shifted n b r1), <- (unshift_shifted n b r2) by lia.
  now rewrite Hs.
Qed.

(** Every rank but the one that began is the target of some rank. *)
Lemma put_targets_sender_exists (n b t : Z) :
  1 <= n -> 0 <= b < n -> 1 <= t < n ->
  exists s, 0 <= s < t /\ In ((t + b) mod n) (put_targets n b ((s + b) mod n)).
Proof.
  intros Hn Hb Ht.
  destruct (lowest_set_bit t ltac:(lia)) as (j & Hj & Hm).
  destruct (multiple_below_bit t j Hj Hm ltac:(lia)) as (Hz & Hnn).
  assert (Hp : 0 < 2 ^ j) by (apply Z.pow_pos_nonneg; lia).
  exists (t - 2 ^ j). split; [lia|].
  apply put_targets_spec; [exact Hn|]. exists j.
  rewrite shifted_unshift by lia.
  repeat split; try assumption; try lia.
  f_equal. lia.
Qed.

(** Every rank runs [execute_coll_task]. *)
Lemma every_rank_runs (n b r : Z) :
  1 <= n -> 0 <= b < n -> 0 <= r < n -> runs n b r.
Proof.
  intros Hn Hb Hr.
  assert (Hall : forall t, 0 <= t -> t < n -> runs n b ((t + b) mod n)).
  { intros t Ht. pattern t. apply Zlt_0_ind; [clear t Ht | exact Ht].
    intros t IH Ht Hlt.
    destruct (Z.eq_dec t 0) as [-> | Hne].
    - cbn [Z.add]. rewrite Z.mod_small by lia. apply runs_begin.
    - destruct (put_targets_sender_exists n b t Hn Hb ltac:(lia)) as (s & Hs & Hin).
      apply (runs_put n b ((s + b) mod n)); [|exact Hin].
      apply IH; lia. }
  rewrite <- (unshift_shifted n b r) by lia.
  pose proof (shifted_range n b r ltac:(lia)). apply Hall; lia.
Qed.


(** A rank puts the task to a rank once at most. *)
Lemma put_loop_nodup (n b s : Z) (k fuel : nat) :
  0 <= b < n -> 0 <= s -> (k <= fuel)%nat ->
  List.NoDup (put_loop n b s (2 ^ Z.of_nat k) fuel).
Proof.
  intros Hb Hs. revert fuel. induction k as [|k IH]; intros fuel Hfuel.
  - destruct fuel; cbn; constructor.
  - destruct fuel as [|fuel]; [lia|].
    pose proof (put_loop_pow2 n b s k fuel) as Hrest.
    cbn [put_loop].
    assert (Hpow : 2 ^ Z.of_nat (S k) = 2 * 2 ^ Z.of_nat k)
      by (rewrite Nat2Z.inj_succ, Z.pow_succ_r; lia).
    assert (Hpos : 0 < 2 ^ Z.of_nat k) by (apply Z.pow_pos_nonneg; lia).
    replace (1 <? 2 ^ Z.of_nat (S k)) with true by (symmetry; apply Z.ltb_lt; lia).
    assert (Hhalf : 2 ^ Z.of_nat (S k) / 2 = 2 ^ Z.of_nat k)
      by (rewrite Hpow, Z.mul_comm; apply Z.div_mul; lia).
    rewrite Hhalf.
    destruct (s mod 2 ^ Z.of_nat (S k) =? 0); [|apply IH; lia].
    destruct (Z.ltb_spec (s + 2 ^ Z.of_nat k) n) as [Hlt|]; [|apply IH; lia].
    cbn [app]. constructor; [|apply IH; lia].
    intros Hin. apply Hrest in Hin; [|lia].
    destruct Hin as (j & Hj & _ & Hltj & Heq).
    assert (Hpj : 0 < 2 ^ j) by (apply Z.pow_pos_nonneg; lia).
    apply unshift_injective in Heq; try lia.
    assert (H2 : 2 ^ j < 2 ^ Z.of_nat k) by (apply Z.pow_lt_mono_r; lia).
    lia.
Qed.

Lemma put_targets_nodup (n b r : Z) :
  1 <= n -> 0 <= b < n -> List.NoDup (put_targets n b r).
Proof.
  intros Hn Hb. destruct (next_pow2_bounds n Hn) as (Hp & _ & Hfuel).
  unfold put_targets. rewrite Hp at 1.
  apply put_loop_nodup; [exact Hb | | exact Hfuel].
  apply shifted_range. lia.
Qed.

Lemma runs_in_range (n b r : Z) :
  1 <= n -> 0 <= b < n -> runs n b r -> 0 <= r < n.
Proof.
  intros Hn Hb Hr. induction Hr as [|sender r _ _ Hin]; [exact Hb|].
  now apply (put_targets_range n b sender r Hn Hb).
Qed.

Lemma execute_coll_task_executes_once (n b r : Z) :
  count_executes (execute_coll_task n b r) = 1%nat.
Proof.
  unfold execute_coll_task, count_executes.
  induction (put_targets n b r) as [|t l IH]; [reflexivity|exact IH].
Qed.

(** C8: [coll_exec] on the rank [b] of [n] ranks.  The task reaches every rank:
    each rank runs [execute_coll_task], and only ranks do.  Each rank other than
    [b] is the target of exactly one rank, which puts the task to it once, and
    [b] is the target of none: a rank runs [execute_coll_task] once.  A run
    puts the task to the ranks below it in the tree, then does a barrier, the
    execution of the task, and a barrier: the task is executed once in each
    run.  The value [coll_exec] returns on [b] is the one the task computed
    there; on the other ranks the result is dropped. *)
Theorem C8_coll_exec_once (n b : Z) :
  1 <= n < 2 ^ 30 -> 0 <= b < n ->
  (forall r, 0 <= r < n -> runs n b r) /\
  (forall r, runs n b r -> 0 <= r < n) /\
  (forall r, 0 <= r < n -> r <> b ->
     exists sender,
       0 <= sender < n /\ In r (put_targets n b sender) /\
       forall sender', 0 <= sender' < n -> In r (put_targets n b sender') ->
                       sender' = sender) /\
  (forall sender, List.NoDup (put_targets n b sender) /\ ~ In b (put_targets n b sender)) /\
  (forall r,
     execute_coll_task n b r = map Put (put_targets n b r) ++ [Barrier; Execute; Barrier] /\
     count_executes (execute_coll_task n b r) = 1%nat) /\
  (forall (R : Type) (fn : Z -> R),
     fst (coll_exec n b fn) = execute_coll_task n b b /\
     snd (coll_exec n b fn) = Some (fn b) /\
     forall r, r <> b -> coll_task_fn fn b r None = None).
Proof.
  intros Hn Hb. assert (Hn1 : 1 <= n) by lia.
  split; [intros r Hr; now apply every_rank_runs|].
  split; [intros r Hr; now apply (runs_in_range n b)|].
  split.
  { intros r Hr Hne.
    pose proof (shifted_range n b r ltac:(lia)) as Hs.
    assert (Hs1 : 1 <= shifted n b r).
    { destruct (Z.eq_dec (shifted n b r) 0) as [H0|]; [|lia].
      exfalso. apply Hne. rewrite <- (unshift_shifted n b r), H0 by lia.
      cbn [Z.add]. apply Z.mod_small. lia. }
    destruct (put_targets_sender_exists n b (shifted n b r) Hn1 Hb ltac:(lia))
      as (s & Hsr & Hin).
    rewrite unshift_shifted in Hin by lia.
    exists ((s + b) mod n). split; [apply Z.mod_pos_bound; lia|].
    split; [exact Hin|].
    intros sender' Hs' Hin'.
    apply (put_targets_one_sender n b sender' ((s + b) mod n) r); try assumption.
    apply Z.mod_pos_bound. lia. }
  split.
  { intros sender. split; [now apply put_targets_nodup|].
    intros Hin. now apply (put_targets_range n b sender b Hn1 Hb) in Hin. }
  split.
  { intros r. split; [reflexivity | apply execute_coll_task_executes_once]. }
  intros R fn. unfold coll_exec, coll_task_fn; cbn [fst snd].
  rewrite Z.eqb_refl. repeat split.
  intros r Hne. now replace (r =? b) with false by (symmetry; now apply Z.eqb_neq).
Qed.

(** C8, run: four ranks, the task begun on rank 1. *)
Lemma C8_coll_exec_once_witness :
  runs 4 1 0 /\ runs 4 1 1 /\ runs 4 1 2 /\ runs 4 1 3 /\
  List.NoDup (put_targets 4 1 1).
Proof.
  destruct (C8_coll_exec_once 4 1 ltac:(lia) ltac:(lia)) as (Hruns & _ & _ & Hnd & _).
  repeat split; try (apply Hruns; lia). apply (Hnd 1).
Defined.

(** The tree of four ranks rooted at rank 1: rank 1 puts to ranks 3 and 2, rank 3
    puts to rank 0. *)
Example put_targets_four_ranks :
  map (put_targets 4 1) [0; 1; 2; 3] = [[]; [3; 2]; []; [0]].
Proof. reflexivity. Qed.

End CollectiveBroadcast.


(** ** Evacuation before the scheduler runs *)

Section Evacuation.
Import DistRange Flipper DistTree WSQueue Sched StackDiscipline.
Variable T : Type.
Variable cfg : config.







Lemma make_dummy_tasks_allocator (a : remotable_resource) (target_rank : Z) (todo : nat) :
  0 < rr_next a -> 0 < rr_next (snd (make_dummy_tasks cfg a target_rank todo)).
Proof.
  revert a target_rank. induction todo as [|todo IH]; intros a target_rank Ha.
  - exact Ha.
  - cbn [make_dummy_tasks]. unfold allocate.
    specialize (IH (mk_remotable_resource (rr_next a + Z.max 1 (sizeof_task cfg)) (rr_freed a))
                  (target_rank + 1)).
    destruct (make_dummy_tasks cfg _ (target_rank + 1) todo) as [tasks a2].
    cbn [snd] in *. apply IH. cbn. lia.
Qed.

(** [on_task_die] leaves the depth of the thread, the queues and the queue in
    use as they are, and the allocator of suspended threads usable. *)
Lemma on_task_die_keeps (s : scheduler_adws T) (tls : thread_local_storage) :
  tls_ s = Some tls ->
  0 < rr_next (suspended_thread_allocator_ s) ->
  exists s' tls',
    on_task_die T cfg s = Some s' /\
    tls_ s' = Some tls' /\ depth_of tls' = depth_of tls /\
    primary_wsq_ s' = primary_wsq_ s /\
    use_primary_wsq_ s' = use_primary_wsq_ s /\
    0 < rr_next (suspended_thread_allocator_ s').
Proof.
  intros Htls Ha. unfold on_task_die. rewrite Htls. cbn [mbind option_bind].
  destruct (is_cross_worker (tls_drange tls)).
  - eexists. eexists. split; [reflexivity|].
    destruct (tls_undistributed tls && _).
    + pose proof (make_dummy_tasks_allocator (suspended_thread_allocator_ s)
                    (begin_rank (tls_drange tls) + 1)
                    (Z.to_nat (end_rank (tls_drange tls) - (begin_rank (tls_drange tls) + 1)))
                    Ha) as Ha'.
      cbn [suspended_thread_allocator_ set_dtree].
      destruct (make_dummy_tasks cfg _ _ _) as [tasks a]. cbn [snd] in Ha'.
      match goal with |- context [issue_all T (issue_all T ?s0 ?e1) ?e2] =>
        pose proof (issue_all_fields T (issue_all T s0 e1) e2) as H2;
        pose proof (issue_all_fields T s0 e1) as H1 end.
      cbn zeta in H1, H2.
      destruct H1 as (p1 & _ & _ & _ & _ & _ & u1 & _ & a1).
      destruct H2 as (p2 & _ & _ & _ & _ & _ & u2 & _ & a2).
      cbn [tls_ set_tls primary_wsq_ use_primary_wsq_ suspended_thread_allocator_].
      rewrite p2, p1, u2, u1, a2, a1. cbn. repeat split. exact Ha'.
    + cbn. repeat split. exact Ha.
  - exists s, tls. repeat split; assumption.
Qed.

Lemma evacuate_keeps (s : scheduler_adws T) (cf : Z) :
  0 < rr_next (suspended_thread_allocator_ s) ->
  let r := evacuate T s cf in
  ss_evacuation_ptr (fst r) <> null /\
  0 < rr_next (suspended_thread_allocator_ (snd r)) /\
  tls_ (snd r) = tls_ s /\ use_primary_wsq_ (snd r) = use_primary_wsq_ s /\
  primary_wsq_ (snd r) = primary_wsq_ s.
Proof.
  intros Ha. unfold evacuate, evacuate_frame, allocate, null. cbn.
  repeat split; lia.
Qed.

(** *** The migration queue *)






(** *** The stack discipline *)






(** *** The paths that resume the scheduler context *)










(** *** Calls that return to the thread *)








(** *** The scheduler loop *)



End Evacuation.

Section EvacuationRuns.
Import DistRange Flipper DistTree WSQueue Sched StackDiscipline Samples.






End EvacuationRuns.

(** ** Version safety of work stealing *)

Section VersionSafety.
Import DistRange Flipper DistTree WSQueue Sched.
Variable T : Type.
Variable cfg : config.

(** The mask of [match] selects the bits [0 .. until]. *)
Lemma mask_ones (until : Z) : 0 <= until < 63 -> mask until = Z.ones (until + 1).
Proof.
  intros Hu. unfold mask. rewrite shl1_small by lia.
  rewrite Z.ones_equiv. unfold modulus, width.
  assert (0 < 2 ^ (until + 1)) by (apply Z.pow_pos_nonneg; lia).
  assert (2 ^ (until + 1) < 2 ^ 64) by (apply Z.pow_lt_mono_r; lia).
  rewrite Z.mod_small by lia. lia.
Qed.

(** [match] is the equality of the low [until + 1] bits. *)
Lemma match_low_bits (a b : flipper) (until : Z) :
  0 <= until < 63 ->
  match_ a b until = true <->
  (forall i, 0 <= i <= until -> Z.testbit (value a) i = Z.testbit (value b) i).
Proof.
  intros Hu. unfold match_, value. rewrite mask_ones by exact Hu. rewrite Z.eqb_eq. split.
  - intros Heq i Hi.
    assert (Hbit : Z.testbit (Z.land (val_ a) (Z.ones (until + 1))) i
                   = Z.testbit (Z.land (val_ b) (Z.ones (until + 1))) i) by now rewrite Heq.
    rewrite !Z.land_spec, Z.ones_spec_low, !andb_true_r in Hbit by lia. exact Hbit.
  - intros Hbits. apply Z.bits_inj'. intros i Hi. rewrite !Z.land_spec.
    destruct (Z.lt_ge_cases i (until + 1)) as [Hlt | Hge].
    + rewrite Hbits by lia. reflexivity.
    + rewrite Z.ones_spec_high by lia. now rewrite !andb_false_r.
Qed.

(** *** The scan of the distribution tree *)

(** An iteration of the scan writes flags of its own depth only, and nothing if
    the slot is retired. *)
Lemma scan_depth_spec (dt dt1 : dist_tree) (nr : node_ref) (d seed : Z) :
  scan_depth cfg dt nr d seed = Some dt1 ->
  node_win_ dt1 = node_win_ dt /\
  (forall rank d', d' <> d -> flag_at dt1 rank d' = flag_at dt rank d') /\
  (retired cfg dt d -> dt1 = dt).
Proof.
  unfold scan_depth, retired.
  destruct (ITYR_CHECK (check_enabled cfg) (scan_checks cfg dt nr d)); cbn [negb];
    [|discriminate].
  set (owner := if d =? depth nr then owner_rank nr
                else owner_rank (parent (local_node cfg dt (d + 1)))).
  destruct (Z.eqb_spec (local_dominant_flag cfg dt d) (- version (local_node cfg dt d)))
    as [Hret | Hnret].
  - rewrite andb_false_r. intros [= <-]. repeat split; reflexivity.
  - destruct (negb (owner =? my_rank cfg)); cbn [andb negb].
    2: { intros [= <-]. repeat split; reflexivity. }
    destruct (ITYR_CHECK (check_enabled cfg) _); cbn [negb]; [|discriminate].
    assert (Hflag : forall dt0 rank v rank' d', d' <> d ->
              flag_at (put_remote_flag dt0 rank d v) rank' d' = flag_at dt0 rank' d').
    { intros dt0 rank v rank' d' Hne. unfold flag_at, put_remote_flag; cbn.
      rewrite lookup_insert_ne by congruence. reflexivity. }
    assert (Hlocal : forall dt0 v rank' d', d' <> d ->
              flag_at (store_local_flag cfg dt0 d v) rank' d' = flag_at dt0 rank' d').
    { intros dt0 v rank' d' Hne. unfold flag_at, store_local_flag; cbn.
      rewrite lookup_insert_ne by congruence. reflexivity. }
    intros Hdt1. split; [|split]; [| |intros [Hr _]; contradiction].
    + revert Hdt1.
      repeat match goal with |- context [if ?b then _ else _] => destruct b end;
        intros [= <-]; reflexivity.
    + intros rank d' Hne. revert Hdt1.
      repeat match goal with |- context [if ?b then _ else _] => destruct b end;
        intros [= <-]; rewrite ?Hlocal, ?Hflag by exact Hne; reflexivity.
Qed.

(** A retired slot is passed over. *)
Lemma scan_from_skips_retired (dt : dist_tree) (nr : node_ref) (d : Z) (seeds : list Z)
    (todo : nat) :
  retired cfg dt d ->
  scan_from cfg dt nr d seeds (S todo)
  = if ITYR_CHECK (check_enabled cfg) (scan_checks cfg dt nr d)
    then scan_from cfg dt nr (d + 1) (tl seeds) todo
    else None.
Proof.
  intros [Hflag Hv]. cbn [scan_from]. unfold scan_depth.
  destruct (ITYR_CHECK (check_enabled cfg) (scan_checks cfg dt nr d)); cbn [negb];
    [|reflexivity].
  rewrite Hflag, Z.eqb_refl. cbn [negb]. rewrite andb_false_r.
  rewrite Hflag.
  destruct (Z.eqb_spec (- version (local_node cfg dt d)) (version (local_node cfg dt d)));
    [lia | reflexivity].
Qed.

(** The node the scan returns sits at a depth that was visited, whose flag equals
    the node's version after the scan, and which was not retired before it. *)
Lemma scan_from_returns (dt dt' : dist_tree) (nr : node_ref) (d : Z) (seeds : list Z)
    (todo : nat) (n : node) :
  scan_from cfg dt nr d seeds todo = Some (Some n, dt') ->
  exists d', d <= d' < d + Z.of_nat todo /\
             n = local_node cfg dt' d' /\
             local_dominant_flag cfg dt' d' = version n /\
             local_node cfg dt d' = n /\
             ~ retired cfg dt d'.
Proof.
  revert dt d seeds. induction todo as [|todo IH]; intros dt d seeds; cbn [scan_from].
  - discriminate.
  - destruct (scan_depth cfg dt nr d (hd 0 seeds)) as [dt1|] eqn:Hstep; [|discriminate].
    destruct (scan_depth_spec _ _ _ _ _ Hstep) as (Hnodes & Hflags & Hret).
    assert (Hnode : forall d0, local_node cfg dt1 d0 = local_node cfg dt d0).
    { intros d0. unfold local_node, node_at. now rewrite Hnodes. }
    destruct (Z.eqb_spec (local_dominant_flag cfg dt1 d) (version (local_node cfg dt1 d)))
      as [Hdom | Hndom].
    + intros [= <- <-]. exists d. split; [lia|]. split; [reflexivity|].
      split; [exact Hdom|]. split; [symmetry; apply Hnode|].
      intros Hr. pose proof (Hret Hr) as ->. destruct Hr as [Hr Hv]. lia.
    + intros Hrec. destruct (IH dt1 (d + 1) (tl seeds) Hrec)
        as (d' & Hd' & Hn & Hfl & Hn1 & Hnr).
      exists d'. split; [lia|]. split; [exact Hn|]. split; [exact Hfl|].
      split; [now rewrite <- Hnode|].
      unfold retired in *. unfold local_dominant_flag in *.
      rewrite <- (Hflags (my_rank cfg) d') by lia. rewrite <- Hnode. exact Hnr.
Qed.

Lemma get_topmost_dominant_returns (dt dt' : dist_tree) (nr : node_ref) (seeds : list Z)
    (n : node) :
  get_topmost_dominant cfg dt nr seeds = Some (Some n, dt') ->
  exists d, 0 <= d <= depth nr /\
            n = local_node cfg dt' d /\
            local_dominant_flag cfg dt' d = version n /\
            local_node cfg dt d = n /\
            ~ retired cfg dt d.
Proof.
  unfold get_topmost_dominant. destruct (Z.ltb_spec (depth nr) 0) as [Hneg | Hpos].
  - discriminate.
  - intros Hscan. destruct (scan_from_returns _ _ _ _ _ _ _ Hscan) as (d & Hd & Hrest).
    exists d. split; [lia | exact Hrest].
Qed.

(** *** The steal attempts *)

Lemma steal_primary_at_accepts (s s' : scheduler_adws T) (target_rank d : Z)
    (steal_cond_fn : primary_wsq_entry -> bool) (cf : Z) (what : stolen) (c : control) :
  steal_primary_at T s target_rank d steal_cond_fn cf = (s', Some (what, c)) ->
  exists pwe, what = StolenPrimary target_rank d pwe /\ steal_cond_fn pwe = true.
Proof.
  unfold steal_primary_at.
  destruct (trylock (primary_wsq_ s) target_rank d) as [[|] q1]; cbn [negb]; [|discriminate].
  destruct (steal_nolock q1 target_rank d) as [[pwe|] q2]; [|discriminate].
  destruct (steal_cond_fn pwe) eqn:Hcond; cbn [negb]; [|discriminate].
  destruct (negb (pwe_evacuation_ptr pwe =? null)); intros [= <- <- <-];
    exists pwe; split; reflexivity || exact Hcond.
Qed.

Lemma steal_migration_at_accepts (s s' : scheduler_adws T) (target_rank d : Z)
    (steal_cond_fn : migration_wsq_entry -> bool) (cf : Z) (what : stolen) (c : control) :
  steal_migration_at T s target_rank d steal_cond_fn cf = (s', Some (what, c)) ->
  exists mwe, what = StolenMigration target_rank d mwe /\ steal_cond_fn mwe = true.
Proof.
  unfold steal_migration_at.
  destruct (trylock (migration_wsq_ s) target_rank d) as [[|] q1]; cbn [negb]; [|discriminate].
  destruct (steal_nolock q1 target_rank d) as [[mwe|] q2]; [|discriminate].
  destruct (steal_cond_fn mwe) eqn:Hcond; cbn [negb]; [|discriminate].
  destruct (negb (mwe_is_continuation mwe)); [|destruct (negb (mwe_evacuation_ptr mwe =? null))];
    intros [= <- <- <-]; exists mwe; split; reflexivity || exact Hcond.
Qed.

(** [for_each_nonempty_queue] succeeds at one of the depths it visits. *)
Lemma first_success_at {R : Type}
    (f : scheduler_adws T -> Z -> scheduler_adws T * option R)
    (s s' : scheduler_adws T) (ds : list Z) (r : R) :
  first_success T f s ds = (s', Some r) ->
  exists s0 d, In d ds /\ f s0 d = (s', Some r).
Proof.
  revert s. induction ds as [|d ds IH]; intros s; cbn [first_success].
  - discriminate.
  - destruct (f s d) as [s1 [r1|]] eqn:Hf.
    + intros [= <- <-]. exists s, d. split; [now left | exact Hf].
    + intros Hrec. destruct (IH s1 Hrec) as (s0 & d0 & Hin & Hf0).
      exists s0, d0. split; [now right | exact Hf0].
Qed.

Lemma nonempty_depths_range {E : Type} (q : wsqueue E) (rank min_depth max_depth : Z)
    (reverse : bool) (d : Z) :
  In d (nonempty_depths q rank min_depth max_depth reverse) ->
  min_depth <= d < max_depth /\ queue_at q rank d <> [].
Proof.
  unfold nonempty_depths. intros Hin.
  assert (Hin' : In d (filter (fun d => queue_at q rank d <> [])
                         (depths_between min_depth max_depth))).
  { destruct reverse; [now apply in_rev|exact Hin]. }
  apply list_elem_of_In, list_elem_of_filter in Hin'. destruct Hin' as [Hne Hd].
  split; [|exact Hne].
  apply list_elem_of_In in Hd. unfold depths_between in Hd.
  apply in_map_iff in Hd. destruct Hd as (i & <- & Hi). apply in_seq in Hi. lia.
Qed.

(** What the loop of [steal] takes was accepted by the version predicate of the
    dominant node, from a queue at the dominant depth or deeper. *)
Lemma steal_loop_accepts (s s' : scheduler_adws T) (steal_range : dist_range float)
    (tgv : flipper) (d begin_rank end_rank : Z) (target_seeds : list Z)
    (arrivals : list (option cross_worker_task)) (cf : Z) (todo : nat)
    (what : stolen) (c : control) :
  steal_loop T s steal_range tgv d begin_rank end_rank target_seeds arrivals cf todo
    = (s', Took what c) ->
  match_ (stolen_tg_version what) tgv d = true /\ d <= stolen_depth what.
Proof.
  revert s target_seeds arrivals.
  induction todo as [|todo IH]; intros s target_seeds arrivals; cbn [steal_loop].
  - discriminate.
  - set (target_rank := get_random_rank (hd 0 target_seeds) begin_rank end_rank).
    destruct (if negb (target_rank =? begin_rank)
              then steal_from_migration_queues T s target_rank d (n_queues (migration_wsq_ s))
                     (fun mwe => match_ (mwe_tg_version mwe) tgv d) cf
              else (s, None)) as [s1 r1] eqn:Hmig.
    destruct r1 as [[what1 c1]|].
    + intros [= <- <- <-].
      destruct (negb (target_rank =? begin_rank)); [|discriminate].
      unfold steal_from_migration_queues in Hmig.
      destruct (first_success_at _ _ _ _ _ Hmig) as (s0 & d0 & Hin & Hat).
      apply nonempty_depths_range in Hin.
      destruct (steal_migration_at_accepts _ _ _ _ _ _ _ _ Hat) as (mwe & -> & Hcond).
      cbn [stolen_tg_version stolen_depth]. split; [exact Hcond | lia].
    + destruct (if negb (target_rank =? end_rank)
                   || (target_rank =? end_rank) && is_at_end_boundary steal_range
                then steal_from_primary_queues T s1 target_rank d (n_queues (primary_wsq_ s1))
                       (fun pwe => match_ (pwe_tg_version pwe) tgv d) cf
                else (s1, None)) as [s2 r2] eqn:Hpri.
      destruct r2 as [[what2 c2]|].
      * intros [= <- <- <-].
        destruct (negb (target_rank =? end_rank)
                  || (target_rank =? end_rank) && is_at_end_boundary steal_range);
          [|discriminate].
        unfold steal_from_primary_queues in Hpri.
        destruct (first_success_at _ _ _ _ _ Hpri) as (s0 & d0 & Hin & Hat).
        apply nonempty_depths_range in Hin.
        destruct (steal_primary_at_accepts _ _ _ _ _ _ _ _ Hat) as (pwe & -> & Hcond).
        cbn [stolen_tg_version stolen_depth]. split; [exact Hcond | lia].
      * destruct (hd None arrivals) as [cwt|].
        -- destruct (execute_cross_worker_task T s2 cwt cf). discriminate.
        -- apply IH.
Qed.

(** C2: whatever a call of [steal] takes (to execute or to resume it) was
    accepted by [entry.tg_version.match(dominant.tg_version, depth)], where
    [dominant] is the node [get_topmost_dominant] returned and [depth] its
    depth, and was taken from a queue of that depth or deeper; [match] is the
    equality of the bits [0 .. depth].  The dominant node is the node of a slot
    of this rank that was not retired when the scan began, that is, whose
    dominant flag did not hold [-version]: the scan passes over a retired slot
    without touching it.  If all the slots the scan visits are retired, or if
    the scan finds no dominant node for another reason, nothing is stolen. *)
Theorem C2_version_safety (s s' : scheduler_adws T) (env : environment) (cf : Z)
    (ne : option node) (o : steal_outcome) :
  steal T cfg s env cf = (s', ne, o) ->
  (forall what c, o = Took what c ->
     exists n, ne = Some n /\
       match_ (stolen_tg_version what) (tg_version n) (node_depth n) = true /\
       node_depth n <= stolen_depth what /\
       (0 <= node_depth n < 63 ->
        forall i, 0 <= i <= node_depth n ->
          Z.testbit (value (stolen_tg_version what)) i = Z.testbit (value (tg_version n)) i)) /\
  (forall n, ne = Some n ->
     exists d, 0 <= d <= depth (dtree_local_bottom_ref_ s) /\
       local_node cfg (dtree_ s) d = n /\
       ~ retired cfg (dtree_ s) d) /\
  (ne = None -> o = NothingStolen \/ o = CheckFailed) /\
  ((forall d, 0 <= d <= depth (dtree_local_bottom_ref_ s) -> retired cfg (dtree_ s) d) ->
   ne = None) /\
  (forall d seeds todo, retired cfg (dtree_ s) d ->
     scan_from cfg (dtree_ s) (dtree_local_bottom_ref_ s) d seeds (S todo)
     = if ITYR_CHECK (check_enabled cfg)
            (scan_checks cfg (dtree_ s) (dtree_local_bottom_ref_ s) d)
       then scan_from cfg (dtree_ s) (dtree_local_bottom_ref_ s) (d + 1) (tl seeds) todo
       else None).
Proof.
  intros Hsteal.
  assert (Hdom : forall n, ne = Some n ->
            exists d, 0 <= d <= depth (dtree_local_bottom_ref_ s) /\
              local_node cfg (dtree_ s) d = n /\ ~ retired cfg (dtree_ s) d).
  { intros n ->. revert Hsteal. unfold steal.
    destruct (get_topmost_dominant cfg (dtree_ s) (dtree_local_bottom_ref_ s)
                (env_scan_seeds env)) as [[[n0|] dt]|] eqn:Hscan; try discriminate.
    intros Hsteal.
    assert (n0 = n) as ->.
    { revert Hsteal.
      destruct (_ =? _); [now intros [= _ ->]|].
      destruct (negb _); [now intros [= _ ->]|].
      destruct (steal_loop _ _ _ _ _ _ _ _ _ _ _). now intros [= _ ->]. }
    destruct (get_topmost_dominant_returns _ _ _ _ _ Hscan) as (d & Hd & _ & _ & Hn & Hnr).
    exists d. repeat split; try assumption; lia. }
  split; [|split; [exact Hdom|split; [|split]]].
  - intros what c ->. revert Hsteal. unfold steal.
    destruct (get_topmost_dominant cfg (dtree_ s) (dtree_local_bottom_ref_ s)
                (env_scan_seeds env)) as [[[n|] dt]|]; try discriminate.
    destruct (_ =? _); [discriminate|].
    destruct (negb _); [discriminate|].
    destruct (steal_loop _ _ _ _ _ _ _ _ _ _ _) as [s2 o2] eqn:Hloop.
    intros [= <- <- ->]. apply steal_loop_accepts in Hloop. destruct Hloop as [Hm Hd].
    exists n. split; [reflexivity|]. split; [exact Hm|]. split; [exact Hd|].
    intros Hrange. now apply match_low_bits.
  - intros ->. revert Hsteal. unfold steal.
    destruct (get_topmost_dominant cfg (dtree_ s) (dtree_local_bottom_ref_ s)
                (env_scan_seeds env)) as [[[n|] dt]|].
    + destruct (_ =? _); [discriminate|].
      destruct (negb _); [discriminate|].
      destruct (steal_loop _ _ _ _ _ _ _ _ _ _ _). discriminate.
    + intros [= _ <-]. now left.
    + intros [= _ <-]. now right.
  - intros Hall. destruct ne as [n|]; [|reflexivity].
    destruct (Hdom n eq_refl) as (d & Hd & _ & Hnr). exfalso. exact (Hnr (Hall d Hd)).
  - intros d seeds todo. apply scan_from_skips_retired.
Qed.

End VersionSafety.

Section VersionSafetyRuns.
Import DistRange Flipper DistTree WSQueue Sched Samples.

(** C2, run: rank 0 finds the node of depth 0 dominant and takes from rank 2 an
    evacuated continuation whose version agrees with the node's on bit 0. *)
Lemma C2_version_safety_witness :
  snd (steal nat cfg_debug (sched_thief [stealable] dtree_dominant) draws 3000)
    = Took (StolenPrimary 2 0 stealable)
        (ResumeSuspended (mk_suspended_state 8192 1000 64)) /\
  exists n,
    snd (fst (steal nat cfg_debug (sched_thief [stealable] dtree_dominant) draws 3000))
      = Some n /\
    match_ (pwe_tg_version stealable) (tg_version n) (node_depth n) = true /\
    node_depth n <= 0.
Proof.
  split; [vm_compute; reflexivity|].
  destruct (C2_version_safety nat cfg_debug (sched_thief [stealable] dtree_dominant)
              (fst (fst (steal nat cfg_debug (sched_thief [stealable] dtree_dominant)
                           draws 3000)))
              draws 3000
              (snd (fst (steal nat cfg_debug (sched_thief [stealable] dtree_dominant)
                           draws 3000)))
              (snd (steal nat cfg_debug (sched_thief [stealable] dtree_dominant) draws 3000))
              ltac:(vm_compute; reflexivity))
    as (Htook & _).
  destruct (Htook (StolenPrimary 2 0 stealable)
              (ResumeSuspended (mk_suspended_state 8192 1000 64))
              ltac:(vm_compute; reflexivity))
    as (n & Hn & Hmatch & Hdepth & _).
  exists n. split; [exact Hn|]. split; [exact Hmatch | exact Hdepth].
Defined.

(** An entry whose version differs from the dominant node's on bit 0 is given
    back: the queue of rank 2 is as before and nothing is stolen. *)
Lemma steal_gives_back_mismatch :
  snd (steal nat cfg_debug (sched_thief [straggler] dtree_dominant) draws 3000)
    = NothingStolen /\
  queue_at (primary_wsq_ (fst (fst (steal nat cfg_debug
                                      (sched_thief [straggler] dtree_dominant) draws 3000))))
    2 0 = [straggler].
Proof. vm_compute. split; reflexivity. Qed.

(** Once rank 0 has retired the node, its scan returns nothing and nothing is
    stolen, although the entry would pass the version predicate. *)
Lemma steal_after_retirement :
  get_topmost_dominant cfg_debug dtree_retired (mk_node_ref 0 0) [0]
    = Some (None, dtree_retired) /\
  steal nat cfg_debug (sched_thief [stealable] dtree_retired) draws 3000
    = (sched_thief [stealable] dtree_retired, None, NothingStolen).
Proof. vm_compute. split; reflexivity. Qed.

(** C2 as it was stated fails in its second half.  Rank 1 opens a task group
    for the range [1, 4) and marks its node dominant; rank 2 copies the node
    and, asking rank 1, caches the flag [+version]; rank 1 then retires the
    group, so that its dominant flag holds [-version].  The flag is propagated
    lazily: the next scan of rank 2 draws rank 3, which has not heard of the
    retirement, keeps [+version] and returns the node of the retired group,
    and [steal] takes from rank 3 an entry that passes the version
    predicate. *)
Lemma C2_counterexample :
  node_at dtree_group_closed 1 0
    = mk_node null_ref (mk_dist_range 1%float 4%float) Flipper.zero 6 /\
  retired (cfg_of_rank 1) dtree_group_closed 0 /\
  flag_at dtree_group_closed 1 0 = - version (node_at dtree_group_closed 1 0) /\
  local_node (cfg_of_rank 2) dtree_group_closed 0 = node_at dtree_group_closed 1 0 /\
  local_dominant_flag (cfg_of_rank 2) dtree_group_closed 0
    = version (node_at dtree_group_closed 1 0) /\
  fst <$> get_topmost_dominant (cfg_of_rank 2) dtree_group_closed (mk_node_ref 1 0) [2]
    = Some (Some (node_at dtree_group_closed 1 0)) /\
  snd (steal nat (cfg_of_rank 2) sched_late_thief (mk_environment [2] [2] [None]) 3000)
    = Took (StolenPrimary 3 0 stealable)
        (ResumeSuspended (mk_suspended_state 8192 1000 64)).
Proof. vm_compute. repeat split; discriminate. Qed.

End VersionSafetyRuns.

(* ===================================================================== *)
(** * Part III: further properties of the code                           *)
(* ===================================================================== *)

(** ** flipper *)

Section FlipperProperties.
Import Flipper.

Lemma lxor_below_pow2 (a b n : Z) :
  0 <= n -> 0 <= a < 2 ^ n -> 0 <= b < 2 ^ n -> 0 <= Z.lxor a b < 2 ^ n.
Proof.
  intros Hn Ha Hb.
  assert (Hnn : 0 <= Z.lxor a b) by (apply Z.lxor_nonneg; lia).
  split; [exact Hnn|].
  destruct (Z.eq_dec (Z.lxor a b) 0) as [-> | Hne].
  - apply Z.pow_pos_nonneg; lia.
  - assert (Hpos : 0 < n).
    { destruct (Z.eq_dec n 0) as [-> | ?]; [|lia].
      change (2 ^ 0) with 1 in *. assert (a = 0) by lia. assert (b = 0) by lia.
      subst. exfalso. apply Hne. reflexivity. }
    apply Z.log2_lt_pow2; [lia|].
    pose proof (Z.log2_lxor a b ltac:(lia) ltac:(lia)) as Hl.
    assert (Z.log2 a < n).
    { destruct (Z.eq_dec a 0) as [-> | ?]; [cbn; lia | apply Z.log2_lt_pow2; lia]. }
    assert (Z.log2 b < n).
    { destruct (Z.eq_dec b 0) as [-> | ?]; [cbn; lia | apply Z.log2_lt_pow2; lia]. }
    lia.
Qed.

(** X1: [flip] is its own inverse, changes the value, and keeps it a 64-bit
    unsigned value. *)
Theorem X1_flip_twice (f : flipper) (at_ : Z) :
  0 <= at_ < 64 ->
  0 <= val_ f < modulus ->
  flip (flip f at_) at_ = f /\
  flip f at_ <> f /\
  0 <= val_ (flip f at_) < modulus.
Proof.
  intros Hat Hf. destruct f as [v]. cbn [val_] in Hf. unfold flip; cbn [val_].
  rewrite shl1_small by exact Hat.
  assert (Hbit : 0 <= 2 ^ at_ < modulus).
  { unfold modulus, width. split; [apply Z.pow_nonneg; lia | apply Z.pow_lt_mono_r; lia]. }
  split; [|split].
  - f_equal. rewrite Z.lxor_assoc, Z.lxor_nilpotent, Z.lxor_0_r. reflexivity.
  - intros [= Heq].
    assert (Hz : Z.lxor (Z.lxor v (2 ^ at_)) v = Z.lxor v v) by now rewrite Heq.
    rewrite Z.lxor_nilpotent, (Z.lxor_comm v (2 ^ at_)), Z.lxor_assoc,
      Z.lxor_nilpotent, Z.lxor_0_r in Hz. lia.
  - unfold modulus, width in *. apply lxor_below_pow2; lia.
Qed.

(** X1, run: bit 3 of the version 5. *)
Lemma X1_flip_twice_witness :
  flip (flip (mk_flipper 5) 3) 3 = mk_flipper 5 /\
  val_ (flip (mk_flipper 5) 3) = 13.
Proof.
  destruct (X1_flip_twice (mk_flipper 5) 3 ltac:(lia) ltac:(unfold modulus, width; cbn [val_]; lia)) as (Hback & _ & _).
  split; [exact Hback | reflexivity].
Defined.

(** X2: [match] against [until] looks at the bits [0 .. until] only.  It is
    reflexive, symmetric and transitive; a match up to [until] is a match up to
    every smaller bound; flipping a bit above [until] does not change the
    outcome, flipping a bit of [0 .. until] turns a match into a mismatch, and
    flipping the same bit on both sides changes nothing. *)
Theorem X2_match_and_flip (f g h : flipper) (until : Z) :
  0 <= until < 63 ->
  match_ f f until = true /\
  match_ f g until = match_ g f until /\
  (match_ f g until = true -> match_ g h until = true -> match_ f h until = true) /\
  (forall until', 0 <= until' <= until ->
     match_ f g until = true -> match_ f g until' = true) /\
  (forall at_, until < at_ < 64 -> match_ (flip f at_) g until = match_ f g until) /\
  (forall at_, 0 <= at_ <= until ->
     match_ f g until = true -> match_ (flip f at_) g until = false) /\
  (forall at_, 0 <= at_ < 64 ->
     match_ (flip f at_) (flip g at_) until = match_ f g until).
Proof.
  intros Hu.
  assert (Hto : forall a b u, 0 <= u < 63 -> match_ a b u = true ->
            forall i, 0 <= i <= u -> Z.testbit (val_ a) i = Z.testbit (val_ b) i).
  { intros a b u Hub. exact (proj1 (match_low_bits a b u Hub)). }
  assert (Hof : forall a b u, 0 <= u < 63 ->
            (forall i, 0 <= i <= u -> Z.testbit (val_ a) i = Z.testbit (val_ b) i) ->
            match_ a b u = true).
  { intros a b u Hub. exact (proj2 (match_low_bits a b u Hub)). }
  assert (Hbool : forall a b c d u, 0 <= u < 63 ->
            ((forall i, 0 <= i <= u -> Z.testbit (val_ a) i = Z.testbit (val_ b) i) <->
             (forall i, 0 <= i <= u -> Z.testbit (val_ c) i = Z.testbit (val_ d) i)) ->
            match_ a b u = match_ c d u).
  { intros a b c d u Hub Heq.
    destruct (match_ a b u) eqn:Hab; destruct (match_ c d u) eqn:Hcd; try reflexivity.
    - pose proof (Hof c d u Hub (proj1 Heq (Hto a b u Hub Hab))). congruence.
    - pose proof (Hof a b u Hub (proj2 Heq (Hto c d u Hub Hcd))). congruence. }
  repeat split.
  - apply Hof; [exact Hu|]. reflexivity.
  - apply Hbool; [exact Hu|]. split; intros H i Hi; symmetry; now apply H.
  - intros Hfg Hgh. apply Hof; [exact Hu|]. intros i Hi.
    rewrite (Hto f g until Hu Hfg i Hi). exact (Hto g h until Hu Hgh i Hi).
  - intros until' Hu' Hfg. apply Hof; [lia|]. intros i Hi.
    apply (Hto f g until Hu Hfg). lia.
  - intros at_ Hat. apply Hbool; [exact Hu|].
    split; intros H i Hi; specialize (H i Hi); rewrite flip_testbit in * by lia;
      replace (i =? at_) with false in * by (symmetry; apply Z.eqb_neq; lia);
      rewrite xorb_false_r in *; exact H.
  - intros at_ Hat Hfg.
    destruct (match_ (flip f at_) g until) eqn:Hm; [|reflexivity].
    pose proof (Hto _ _ _ Hu Hm at_ Hat) as Hbit.
    pose proof (Hto _ _ _ Hu Hfg at_ Hat) as Hbit'.
    rewrite flip_testbit, Z.eqb_refl, Hbit' in Hbit by lia.
    destruct (Z.testbit (val_ g) at_); discriminate.
  - intros at_ Hat. apply Hbool; [exact Hu|].
    split; intros H i Hi; specialize (H i Hi); rewrite !flip_testbit in * by lia.
    + destruct (i =? at_); [|now rewrite !xorb_false_r in H].
      rewrite !xorb_true_r in H.
      destruct (Z.testbit (val_ f) i), (Z.testbit (val_ g) i); cbn in H; congruence.
    + now rewrite H.
Qed.

(** X2, run: the versions 5 and 13 differ in bit 3 only. *)
Lemma X2_match_and_flip_witness :
  match_ (mk_flipper 5) (mk_flipper 13) 2 = true /\
  match_ (mk_flipper 5) (mk_flipper 13) 3 = false /\
  match_ (flip (mk_flipper 5) 3) (mk_flipper 13) 3 = true.
Proof.
  destruct (X2_match_and_flip (mk_flipper 5) (mk_flipper 13) (mk_flipper 13) 2
              ltac:(lia)) as (_ & _ & _ & _ & Habove & _).
  split; [|split].
  - rewrite <- (Habove 3 ltac:(lia)). reflexivity.
  - reflexivity.
  - reflexivity.
Defined.

End FlipperProperties.

(** ** The distribution tree *)

Section DistTreeProperties.
Import DistRange Flipper DistTree DistTreeState.
Variable cfg : config.

Lemma version_slot_ok (dt : dist_tree) (d : Z) :
  versions_ok cfg dt -> 0 <= d < Z.of_nat (length (versions_ dt)) ->
  version_ok cfg (version_slot dt d).
Proof.
  intros Hok Hd. unfold version_slot.
  destruct (versions_ dt !! Z.to_nat d) as [v|] eqn:Hv.
  - cbn. unfold versions_ok in Hok. rewrite Forall_forall in Hok.
    apply Hok. eapply list_elem_of_lookup_2. exact Hv.
  - apply lookup_ge_None in Hv. lia.
Qed.

(** X3: the version counters of [append].  The counters [dist_tree(max_depth)]
    starts with are in order, and [append] keeps them so: the version it gives
    the new node is positive (so never 0, the value of a slot nobody wrote),
    fits an [int], and is congruent to [my_rank + 1] modulo the number of ranks;
    it is the previous counter of that depth plus the number of ranks, unless the
    counter was about to overflow.  The node is written to the slot of this
    rank at the depth below the parent's, and that is the reference returned. *)
Theorem X3_append_versions (dt : dist_tree) (parent : node_ref) (dr : dist_range float)
    (tgv : flipper) (max_depth : Z) :
  topology_ok cfg ->
  versions_ok cfg dt ->
  0 <= depth parent + 1 < Z.of_nat (length (versions_ dt)) ->
  let d := depth parent + 1 in
  let dt' := fst (append cfg dt parent dr tgv) in
  let nr := snd (append cfg dt parent dr tgv) in
  versions_ok cfg (init cfg max_depth) /\
  versions_ok cfg dt' /\
  nr = mk_node_ref (my_rank cfg) d /\
  local_node cfg dt' d
    = mk_node parent dr tgv (version (local_node cfg dt' d)) /\
  version (local_node cfg dt' d) = version_slot dt' d /\
  version_ok cfg (version (local_node cfg dt' d)) /\
  version (local_node cfg dt' d) <> 0 /\
  (version_slot dt d < DistTree.int_max - n_ranks cfg ->
   version (local_node cfg dt' d) = version_slot dt d + n_ranks cfg) /\
  (DistTree.int_max - n_ranks cfg <= version_slot dt d ->
   version (local_node cfg dt' d) = my_rank cfg + 1 + n_ranks cfg) /\
  (forall cfg' v',
     n_ranks cfg' = n_ranks cfg -> topology_ok cfg' -> my_rank cfg' <> my_rank cfg ->
     version_ok cfg' v' -> version (local_node cfg dt' d) <> v').
Proof.
  intros (Hrank & Hroom) Hok Hd. cbn zeta.
  pose proof (version_slot_ok dt (depth parent + 1) Hok Hd) as ((Hpos & Hmax) & Hmod).
  set (d := depth parent + 1) in *.
  set (slot := version_slot dt d) in *.
  set (v0 := if DistTree.int_max - n_ranks cfg <=? slot then my_rank cfg + 1 else slot).
  assert (Hv : version_ok cfg (v0 + n_ranks cfg)).
  { unfold version_ok, v0.
    destruct (Z.leb_spec (DistTree.int_max - n_ranks cfg) slot) as [Hov | Hno].
    - split; [lia|]. rewrite <- Z.add_mod_idemp_r by lia.
      rewrite Z.mod_same, Z.add_0_r by lia. reflexivity.
    - split; [lia|]. rewrite <- Z.add_mod_idemp_r by lia.
      rewrite Z.mod_same, Z.add_0_r by lia. exact Hmod. }
  assert (Hnode : local_node cfg (fst (append cfg dt parent dr tgv)) d
                  = mk_node parent dr tgv (v0 + n_ranks cfg)).
  { unfold append, local_node, node_at. cbn [fst node_win_].
    fold d. fold slot. fold v0. rewrite lookup_insert_eq. reflexivity. }
  assert (Hslot : version_slot (fst (append cfg dt parent dr tgv)) d = v0 + n_ranks cfg).
  { unfold append, version_slot. cbn [fst versions_]. fold d. fold slot. fold v0.
    rewrite list_lookup_insert_eq by lia. reflexivity. }
  split; [|split; [|split; [|split; [|split; [|split; [|split; [|split; [|split]]]]]]]].
  - unfold versions_ok, init. cbn [versions_]. apply Forall_replicate.
    split; [unfold DistTree.int_max in *; lia | reflexivity].
  - unfold versions_ok, append. cbn [fst versions_]. fold d. fold slot. fold v0.
    apply Forall_insert; assumption.
  - reflexivity.
  - rewrite Hnode. reflexivity.
  - rewrite Hnode, Hslot. reflexivity.
  - rewrite Hnode. exact Hv.
  - rewrite Hnode. cbn [version]. destruct Hv as ((Hv & _) & _). lia.
  - intros Hno. rewrite Hnode. cbn [version]. unfold v0.
    destruct (Z.leb_spec (DistTree.int_max - n_ranks cfg) slot); [lia | reflexivity].
  - intros Hov. rewrite Hnode. cbn [version]. unfold v0.
    destruct (Z.leb_spec (DistTree.int_max - n_ranks cfg) slot); [reflexivity | lia].
  - intros cfg' v' Hn (Hrank' & _) Hne (_ & Hmod') Heq.
    rewrite Hnode in Heq. cbn [version] in Heq. destruct Hv as (_ & Hmodv).
    rewrite Hn in Hmod'. rewrite Heq, Hmod' in Hmodv.
    assert (Hcases : forall r, 0 <= r < n_ranks cfg ->
              (r + 1) mod n_ranks cfg = if r + 1 =? n_ranks cfg then 0 else r + 1).
    { intros r Hr. destruct (Z.eqb_spec (r + 1) (n_ranks cfg)) as [-> | ?].
      - apply Z.mod_same. lia.
      - apply Z.mod_small. lia. }
    rewrite !Hcases in Hmodv by lia.
    destruct (Z.eqb_spec (my_rank cfg' + 1) (n_ranks cfg));
      destruct (Z.eqb_spec (my_rank cfg + 1) (n_ranks cfg)); lia.
Qed.

Lemma set_dominant_local_flag (dt : dist_tree) (nr : node_ref) (b : bool) :
  owner_rank nr = my_rank cfg ->
  local_dominant_flag cfg (set_dominant cfg dt nr b) (depth nr)
    = (if b then 1 else -1) * version (local_node cfg dt (depth nr)) /\
  (forall d, local_node cfg (set_dominant cfg dt nr b) d = local_node cfg dt d) /\
  (forall rank d, (rank, d) <> (my_rank cfg, depth nr) ->
     flag_at (set_dominant cfg dt nr b) rank d = flag_at dt rank d).
Proof.
  intros Hown. unfold set_dominant. rewrite Hown, Z.eqb_refl. cbn [negb].
  unfold local_dominant_flag, local_node, flag_at, node_at, store_local_flag.
  cbn [dominant_flag_win_ node_win_]. split; [|split].
  - rewrite lookup_insert_eq. reflexivity.
  - reflexivity.
  - intros rank d Hne. rewrite lookup_insert_ne by congruence. reflexivity.
Qed.

(** The scan from a depth at or above a slot of the caller's own node whose
    flag says dominant does not come back empty-handed. *)
Lemma scan_from_finds (dt : dist_tree) (nr : node_ref) (d : Z) (seeds : list Z)
    (todo : nat) (ne : option node) (dt' : dist_tree) :
  owner_rank nr = my_rank cfg ->
  d <= depth nr ->
  Z.of_nat todo = depth nr - d + 1 ->
  local_dominant_flag cfg dt (depth nr) = version (local_node cfg dt (depth nr)) ->
  scan_from cfg dt nr d seeds todo = Some (ne, dt') ->
  exists n, ne = Some n.
Proof.
  intros Hown. revert dt d seeds.
  induction todo as [|todo IH]; intros dt d seeds Hle Htodo Hflag; cbn [scan_from].
  - lia.
  - destruct (scan_depth cfg dt nr d (hd 0 seeds)) as [dt1|] eqn:Hstep; [|discriminate].
    destruct (scan_depth_spec cfg _ _ _ _ _ Hstep) as (Hnodes & Hflags & _).
    assert (Hnode : forall d0, local_node cfg dt1 d0 = local_node cfg dt d0).
    { intros d0. unfold local_node, node_at. now rewrite Hnodes. }
    destruct (Z.eqb_spec (local_dominant_flag cfg dt1 d) (version (local_node cfg dt1 d)))
      as [Hdom | Hndom].
    + intros [= <- _]. eexists. reflexivity.
    + destruct (Z.eq_dec d (depth nr)) as [-> | Hne].
      * exfalso. apply Hndom.
        assert (dt1 = dt) as ->; [|exact Hflag].
        revert Hstep. unfold scan_depth. rewrite Z.eqb_refl, Hown, Z.eqb_refl.
        cbn [negb andb]. destruct (negb _); [discriminate | now intros [= <-]].
      * intros Hrec. apply (IH dt1 (d + 1) (tl seeds)); [lia|lia| |exact Hrec].
        unfold local_dominant_flag in *. rewrite Hflags by lia. rewrite Hnode. exact Hflag.
Qed.

(** X4: once a rank has marked a node of its own dominant ([set_dominant(nr,
    true)], as [on_task_die] does), its scan from that node finds a dominant
    node: [get_topmost_dominant] does not return [std::nullopt].  The node found
    is that one or one above it.  With ITYR_CHECK compiled out the scan always
    comes to that end. *)
Theorem X4_dominant_is_found (dt : dist_tree) (nr : node_ref) (seeds : list Z) :
  owner_rank nr = my_rank cfg ->
  0 <= depth nr ->
  (forall ne dt',
     get_topmost_dominant cfg (set_dominant cfg dt nr true) nr seeds = Some (ne, dt') ->
     exists n d, ne = Some n /\ 0 <= d <= depth nr /\
                 n = local_node cfg dt d /\
                 local_dominant_flag cfg dt' d = version n) /\
  (check_enabled cfg = false ->
   exists n dt',
     get_topmost_dominant cfg (set_dominant cfg dt nr true) nr seeds = Some (Some n, dt')).
Proof.
  intros Hown Hd.
  destruct (set_dominant_local_flag dt nr true Hown) as (Hflag & Hnodes & _).
  assert (Hfound : forall ne dt',
            get_topmost_dominant cfg (set_dominant cfg dt nr true) nr seeds = Some (ne, dt') ->
            exists n, ne = Some n).
  { intros ne dt'. unfold get_topmost_dominant.
    destruct (Z.ltb_spec (depth nr) 0); [lia|].
    apply scan_from_finds; [exact Hown | lia | lia |].
    rewrite Hflag, Hnodes. lia. }
  split.
  - intros ne dt' Hscan. destruct (Hfound ne dt' Hscan) as (n & ->).
    destruct (get_topmost_dominant_returns cfg _ _ _ _ _ Hscan)
      as (d & Hdr & Hn & Hfl & Hn0 & _).
    exists n, d. split; [reflexivity|]. split; [lia|]. split; [|exact Hfl].
    rewrite <- Hn0. apply Hnodes.
  - intros Hoff.
    assert (Hsome : forall dt0 d s, scan_depth cfg dt0 nr d s <> None).
    { intros dt0 d s. unfold scan_depth, ITYR_CHECK. rewrite Hoff. cbn [negb orb].
      destruct (negb _ && negb _); [destruct (negb _ && _)|]; discriminate. }
    assert (Hscan : forall todo dt0 d sd, scan_from cfg dt0 nr d sd todo <> None).
    { induction todo as [|todo IH]; intros dt0 d sd; cbn [scan_from]; [discriminate|].
      destruct (scan_depth cfg dt0 nr d (hd 0 sd)) as [dt1|] eqn:Hs;
        [|now apply Hsome in Hs].
      destruct (_ =? _); [discriminate | apply IH]. }
    destruct (get_topmost_dominant cfg (set_dominant cfg dt nr true) nr seeds)
      as [[ne dt']|] eqn:Hres.
    + destruct (Hfound ne dt' eq_refl) as (n & ->). exists n, dt'. reflexivity.
    + exfalso. revert Hres. unfold get_topmost_dominant.
      destruct (_ <? _); [discriminate | apply Hscan].
Qed.

(** [copy_parents], [todo] depths from [d] on. *)
Lemma copy_parents_from_spec (dt : dist_tree) (nr : node_ref) (d : Z) (todo : nat) :
  let dt' := copy_parents_from cfg dt nr d todo in
  (forall d', d <= d' < d + Z.of_nat todo ->
     local_node cfg dt' d' = node_at dt (owner_rank nr) d' /\
     local_dominant_flag cfg dt' d' = 0) /\
  (forall d', ~ (d <= d' < d + Z.of_nat todo) ->
     local_node cfg dt' d' = local_node cfg dt d' /\
     local_dominant_flag cfg dt' d' = local_dominant_flag cfg dt d') /\
  (forall rank d', rank <> my_rank cfg ->
     node_at dt' rank d' = node_at dt rank d' /\ flag_at dt' rank d' = flag_at dt rank d') /\
  versions_ dt' = versions_ dt /\ max_depth_ dt' = max_depth_ dt.
Proof.
  revert dt d. induction todo as [|todo IH]; intros dt d; cbn zeta; cbn [copy_parents_from].
  - repeat split; intros; lia.
  - set (dt1 := mk_dist_tree (max_depth_ dt)
                  (<[(my_rank cfg, d) := node_at dt (owner_rank nr) d]> (node_win_ dt))
                  (<[(my_rank cfg, d) := 0]> (dominant_flag_win_ dt)) (versions_ dt)).
    specialize (IH dt1 (d + 1)). cbn zeta in IH.
    destruct IH as (Hin & Hout & Hother & Hv & Hm).
    assert (Hnode1 : forall rank d', (rank, d') <> (my_rank cfg, d) ->
              node_at dt1 rank d' = node_at dt rank d').
    { intros rank d' Hne. unfold node_at, dt1; cbn [node_win_].
      rewrite lookup_insert_ne by congruence. reflexivity. }
    assert (Hflag1 : forall rank d', (rank, d') <> (my_rank cfg, d) ->
              flag_at dt1 rank d' = flag_at dt rank d').
    { intros rank d' Hne. unfold flag_at, dt1; cbn [dominant_flag_win_].
      rewrite lookup_insert_ne by congruence. reflexivity. }
    assert (Hhere : node_at dt1 (my_rank cfg) d = node_at dt (owner_rank nr) d /\
                    flag_at dt1 (my_rank cfg) d = 0).
    { unfold node_at, flag_at, dt1; cbn [node_win_ dominant_flag_win_].
      rewrite !lookup_insert_eq. split; reflexivity. }
    split; [|split; [|split; [|split]]].
    + intros d' Hd'. destruct (Z.eq_dec d' d) as [-> | Hne].
      * destruct (Hout d ltac:(lia)) as [-> ->]. exact Hhere.
      * destruct (Hin d' ltac:(lia)) as [-> ->]. split; [|reflexivity].
        destruct (Z.eq_dec (owner_rank nr) (my_rank cfg)) as [Heq | Hneq].
        -- apply Hnode1. rewrite Heq. intros [= ?]. lia.
        -- apply Hnode1. congruence.
    + intros d' Hd'. destruct (Hout d' ltac:(lia)) as [-> ->].
      unfold local_node, local_dominant_flag.
      rewrite Hnode1, Hflag1 by (intros [= ?]; lia). split; reflexivity.
    + intros rank d' Hrank. destruct (Hother rank d' Hrank) as [-> ->].
      rewrite Hnode1, Hflag1 by congruence. split; reflexivity.
    + rewrite Hv. reflexivity.
    + rewrite Hm. reflexivity.
Qed.

(** X5: [copy_parents(nr)] gives this rank the nodes the owner of [nr] has at
    the depths [0 .. nr.depth] and sets its own dominant flags of these depths
    to 0 (undetermined); it leaves its deeper slots, the slots of every other
    rank and the version counters as they are. *)
Theorem X5_copy_parents (dt : dist_tree) (nr : node_ref) :
  let dt' := copy_parents cfg dt nr in
  (forall d, 0 <= d <= depth nr ->
     local_node cfg dt' d = node_at dt (owner_rank nr) d /\
     local_dominant_flag cfg dt' d = 0) /\
  (forall d, ~ (0 <= d <= depth nr) ->
     local_node cfg dt' d = local_node cfg dt d /\
     local_dominant_flag cfg dt' d = local_dominant_flag cfg dt d) /\
  (forall rank d, rank <> my_rank cfg ->
     node_at dt' rank d = node_at dt rank d /\ flag_at dt' rank d = flag_at dt rank d) /\
  versions_ dt' = versions_ dt /\ max_depth_ dt' = max_depth_ dt.
Proof.
  cbn zeta. unfold copy_parents.
  pose proof (copy_parents_from_spec dt nr 0 (Z.to_nat (depth nr + 1))) as H.
  cbn zeta in H. destruct H as (Hin & Hout & Hother & Hv & Hm).
  repeat split; try assumption.
  - apply Hin. lia.
  - apply Hin. lia.
  - apply Hout. lia.
  - apply Hout. lia.
  - apply Hother. assumption.
  - apply Hother. assumption.
Qed.

End DistTreeProperties.

Section DistTreeRuns.
Import DistRange Flipper DistTree DistTreeState Samples.

(** X3, run: rank 0 of 4 appends its first node at depth 0: version 5. *)
Lemma X3_append_versions_witness :
  version (local_node cfg_debug dtree_appended 0) = 5 /\
  versions_ok cfg_debug dtree_appended.
Proof.
  destruct (X3_append_versions cfg_debug (init cfg_debug 8) null_ref dr_root Flipper.zero 8)
    as (Hinit & Hok & _ & _ & _ & _ & _ & Hnext & _).
  - split; [split; reflexivity | discriminate].
  - unfold versions_ok. cbn. repeat constructor; discriminate.
  - split; [discriminate | reflexivity].
  - split; [|exact Hok]. exact (Hnext eq_refl).
Defined.

(** X4, run: rank 0 marks its node of depth 0 dominant and scans from it. *)
Lemma X4_dominant_is_found_witness :
  exists n,
    fst <$> get_topmost_dominant cfg_debug dtree_dominant (mk_node_ref 0 0) [0] = Some (Some n) /\
    version n = 5.
Proof.
  destruct (X4_dominant_is_found cfg_debug dtree_appended (mk_node_ref 0 0) [0]
              eq_refl ltac:(cbn; lia)) as (Hfound & _).
  destruct (get_topmost_dominant cfg_debug (set_dominant cfg_debug dtree_appended
              (mk_node_ref 0 0) true) (mk_node_ref 0 0) [0]) as [[ne dt']|] eqn:Hscan.
  - destruct (Hfound ne dt' eq_refl) as (n & d & -> & _).
    exists n. unfold dtree_dominant. rewrite Hscan. split; [reflexivity|].
    vm_compute in Hscan. now injection Hscan as <- _.
  - vm_compute in Hscan. discriminate.
Defined.

End DistTreeRuns.

(** ** The scheduler: tasks that die *)

Section TaskDeath.
Import DistRange Flipper DistTree WSQueue Sched SchedState.
Variable T : Type.
Variable cfg : config.

Lemma issue_all_issued (s : scheduler_adws T) (es : list event) :
  issued (issue_all T s es) = rev es ++ issued s.
Proof.
  revert s. induction es as [|e es IH]; intros s; cbn [issue_all fold_left].
  - reflexivity.
  - change (fold_left (issue T) es (issue T s e)) with (issue_all T (issue T s e) es).
    rewrite IH. cbn [issue issued rev]. rewrite <- app_assoc. reflexivity.
Qed.

Lemma make_dummy_tasks_spec (a : remotable_resource) (target_rank : Z) (todo : nat) :
  let tasks := fst (make_dummy_tasks cfg a target_rank todo) in
  map snd tasks = map (fun i => target_rank + Z.of_nat i) (seq 0 todo) /\
  Forall (fun t => cwt_evacuation_ptr (fst t) = null /\
                   cwt_frame_size (fst t) = sizeof_task cfg) tasks.
Proof.
  revert a target_rank. induction todo as [|todo IH]; intros a target_rank; cbn zeta.
  - split; [reflexivity | constructor].
  - cbn [make_dummy_tasks]. unfold allocate.
    specialize (IH (mk_remotable_resource (rr_next a + Z.max 1 (sizeof_task cfg)) (rr_freed a))
                  (target_rank + 1)). cbn zeta in IH.
    destruct (make_dummy_tasks cfg _ (target_rank + 1) todo) as [tasks a2].
    cbn [fst snd map] in *. destruct IH as [Hranks Hall]. split.
    + rewrite Hranks. cbn [seq map]. f_equal; [lia|].
      rewrite <- seq_shift, map_map. apply map_ext. intros i. lia.
    + constructor; [split; reflexivity | exact Hall].
Qed.

Lemma put_targets_of_puts (tasks : list (cross_worker_task * Z)) :
  put_targets_of (map (fun tr => MailboxPut (fst tr) (snd tr)) tasks) = map snd tasks /\
  put_tasks_of (map (fun tr => MailboxPut (fst tr) (snd tr)) tasks) = map fst tasks /\
  waits_of (map (fun tr => MailboxPut (fst tr) (snd tr)) tasks) = [].
Proof.
  induction tasks as [|t tasks (IH1 & IH2 & IH3)]; [repeat split|].
  unfold put_targets_of, put_tasks_of, waits_of in *. cbn [map flat_map app].
  rewrite IH1, IH2, IH3. repeat split.
Qed.

Lemma waits_of_waits (tasks : list (cross_worker_task * Z)) :
  put_targets_of (map (fun tr => WaitRemotelyFreed (cwt_frame_base (fst tr))) tasks) = [] /\
  put_tasks_of (map (fun tr => WaitRemotelyFreed (cwt_frame_base (fst tr))) tasks) = [] /\
  waits_of (map (fun tr => WaitRemotelyFreed (cwt_frame_base (fst tr))) tasks)
    = map (fun tr => cwt_frame_base (fst tr)) tasks.
Proof.
  induction tasks as [|t tasks (IH1 & IH2 & IH3)]; [repeat split|].
  unfold put_targets_of, put_tasks_of, waits_of in *. cbn [map flat_map app].
  rewrite IH1, IH2, IH3. repeat split.
Qed.

(** X6: [on_task_die].  For a thread whose range is cross-worker it marks the
    node of the thread dominant and makes the range of the thread
    non-cross-worker, so that a second call does nothing.  If the thread has not
    distributed child tasks, the ranks strictly between the first and the last
    rank of its range get one dummy task each through the mailbox, in
    increasing order of rank, all put before the first is waited for, and each
    task put is waited for.  For a thread whose range is not cross-worker
    nothing happens. *)
Theorem X6_on_task_die (s : scheduler_adws T) (tls : thread_local_storage) :
  tls_ s = Some tls ->
  exists s1 new,
    on_task_die T cfg s = Some s1 /\
    on_task_die T cfg s1 = Some s1 /\
    events s1 = events s ++ new /\
    put_targets_of new
      = (if is_cross_worker (tls_drange tls) && tls_undistributed tls
         then ranks_from_to (begin_rank (tls_drange tls) + 1) (end_rank (tls_drange tls))
         else []) /\
    waits_of new = map cwt_frame_base (put_tasks_of new) /\
    Forall (fun cwt => cwt_evacuation_ptr cwt = null) (put_tasks_of new) /\
    (exists k, new = firstn k new ++ skipn k new /\
               waits_of (firstn k new) = [] /\ put_targets_of (skipn k new) = []) /\
    dtree_ s1 = (if is_cross_worker (tls_drange tls)
                 then set_dominant cfg (dtree_ s) (tls_dtree_node_ref tls) true
                 else dtree_ s) /\
    (is_cross_worker (tls_drange tls) = false -> s1 = s).
Proof.
  intros Htls.
  assert (Hidem : forall s1 dr,
            tls_ s1 = Some (with_drange tls dr) -> is_cross_worker dr = false ->
            on_task_die T cfg s1 = Some s1).
  { intros s1 dr Ht Hx. unfold on_task_die. rewrite Ht. cbn [mbind option_bind].
    unfold with_drange; cbn [tls_drange]. rewrite Hx. reflexivity. }
  assert (Hnon : is_cross_worker (make_non_cross_worker (tls_drange tls)) = false).
  { unfold is_cross_worker, make_non_cross_worker; cbn [begin_ end_].
    rewrite Z.eqb_refl. reflexivity. }
  unfold on_task_die at 1. rewrite Htls. cbn [mbind option_bind].
  destruct (is_cross_worker (tls_drange tls)) eqn:Hx; cbn [andb].
  - destruct (tls_undistributed tls) eqn:Hund.
    + cbn [andb].
      destruct (Z.ltb_spec (begin_rank (tls_drange tls) + 1) (end_rank (tls_drange tls)))
        as [Hlt | Hge].
      * pose proof (make_dummy_tasks_spec
                      (suspended_thread_allocator_
                         (set_dtree T s (set_dominant cfg (dtree_ s) (tls_dtree_node_ref tls) true)))
                      (begin_rank (tls_drange tls) + 1)
                      (Z.to_nat (end_rank (tls_drange tls) - (begin_rank (tls_drange tls) + 1))))
          as Hspec. cbn zeta in Hspec.
        destruct (make_dummy_tasks cfg _ _ _) as [tasks a]. cbn [fst] in Hspec.
        destruct Hspec as [Hranks Hall].
        destruct (put_targets_of_puts tasks) as (Hp1 & Hp2 & Hp3).
        destruct (waits_of_waits tasks) as (Hw1 & Hw2 & Hw3).
        eexists.
        exists (map (fun tr => MailboxPut (fst tr) (snd tr)) tasks
                ++ map (fun tr => WaitRemotelyFreed (cwt_frame_base (fst tr))) tasks).
        split; [reflexivity|]. split; [|split; [|split; [|split; [|split; [|split; [|split]]]]]].
        -- apply (Hidem _ (make_non_cross_worker (tls_drange tls))); [reflexivity | exact Hnon].
        -- unfold events. cbn [issued set_tls]. rewrite !issue_all_issued.
           cbn [issued set_suspended_thread_allocator set_dtree].
           rewrite !rev_app_distr, !rev_involutive, <- app_assoc. reflexivity.
        -- unfold put_targets_of in *. rewrite flat_map_app, Hp1, Hw1, app_nil_r. exact Hranks.
        -- unfold waits_of, put_tasks_of in *.
           rewrite !flat_map_app, Hp2, Hp3, Hw2, Hw3, app_nil_r. cbn [app].
           rewrite map_map. reflexivity.
        -- unfold put_tasks_of in *. rewrite flat_map_app, Hp2, Hw2, app_nil_r.
           rewrite Forall_forall in Hall. rewrite Forall_forall. intros cwt Hin.
           apply list_elem_of_In, in_map_iff in Hin. destruct Hin as (t & <- & Hin).
           apply (Hall t). now apply list_elem_of_In.
        -- exists (length tasks).
           rewrite firstn_app, skipn_app, !length_map, Nat.sub_diag.
           rewrite firstn_all2, skipn_all2 by (rewrite length_map; lia).
           cbn [firstn skipn app]. rewrite app_nil_r.
           split; [reflexivity|]. split; [exact Hp3 | exact Hw1].
        -- cbn. rewrite !(proj1 (proj2 (proj2 (proj2 (issue_all_fields T _ _))))).
           reflexivity.
        -- discriminate.
      * eexists. exists []. split; [reflexivity|].
        split; [|split; [|split; [|split; [|split; [|split; [|split]]]]]].
        -- apply (Hidem _ (make_non_cross_worker (tls_drange tls))); [reflexivity | exact Hnon].
        -- unfold events. cbn. rewrite app_nil_r. reflexivity.
        -- unfold ranks_from_to. replace (Z.to_nat _) with 0%nat by lia. reflexivity.
        -- reflexivity.
        -- constructor.
        -- exists 0%nat. repeat split.
        -- reflexivity.
        -- discriminate.
    + rewrite andb_false_l. eexists. exists []. split; [reflexivity|].
      split; [|split; [|split; [|split; [|split; [|split; [|split]]]]]].
      * apply (Hidem _ (make_non_cross_worker (tls_drange tls))); [reflexivity | exact Hnon].
      * unfold events. cbn. rewrite app_nil_r. reflexivity.
      * reflexivity.
      * reflexivity.
      * constructor.
      * exists 0%nat. repeat split.
      * reflexivity.
      * discriminate.
  - exists s, []. split; [reflexivity|].
    split; [|split; [|split; [|split; [|split; [|split; [|split]]]]]].
    + apply (Hidem s (tls_drange tls)); [|exact Hx]. rewrite with_drange_same. exact Htls.
    + unfold events. rewrite app_nil_r. reflexivity.
    + reflexivity.
    + reflexivity.
    + constructor.
    + exists 0%nat. repeat split.
    + reflexivity.
    + reflexivity.
Qed.

End TaskDeath.

(** ** The scheduler: fork to another rank *)

Section ForkAway.
Import DistRange Flipper DistTree WSQueue Sched SchedState.
Variable T : Type.
Variable cfg : config.

(** X7: [fork] when the range given to the new thread belongs to another
    rank.  The body [fn] is not run by the caller: whatever [fn] is, [fork]
    returns to its caller, which goes on with the rest of the range.  The
    handler is not serialized and names a fresh thread state (no return value,
    [resume_flag] 0).  One task is handed over: through the mailbox of the
    target rank if the new range is cross-worker, otherwise as the oldest entry
    of the target's migration queue at the depth of the caller, as a new task
    with the caller's task-group version.  The primary queues are not touched
    and nothing is suspended. *)
Theorem X7_fork_to_another_rank (s : scheduler_adws T) (tls tls1 : thread_local_storage)
    (new_drange : dist_range float) (target_rank cf : Z) (w_new w_rest : float) :
  tls_ s = Some tls ->
  fork_ranges cfg tls w_new w_rest = (tls1, new_drange, target_rank) ->
  target_rank <> my_rank cfg ->
  exists r,
    (forall fn, fork T cfg s cf w_new w_rest fn = Some r) /\
    fr_control r = Returns /\
    fr_th r = mk_thread_handler (rr_next (thread_state_allocator_ s)) false None /\
    thread_state_at T (fr_sched r) (th_state (fr_th r)) = fresh_thread_state T /\
    tls_ (fr_sched r) = Some tls1 /\
    primary_wsq_ (fr_sched r) = primary_wsq_ s /\
    cf_top_ (fr_sched r) = cf_top_ s /\
    stack_frames (fr_sched r) = stack_frames s /\
    let task_ptr := rr_next (suspended_thread_allocator_ s) in
    if is_cross_worker new_drange then
      issued (fr_sched r)
        = MailboxPut (mk_cross_worker_task null task_ptr (sizeof_task cfg)) target_rank
          :: issued s /\
      migration_wsq_ (fr_sched r) = migration_wsq_ s
    else
      issued (fr_sched r) = issued s /\
      taken_from (migration_wsq_ (fr_sched r)) (migration_wsq_ s) target_rank (depth_of tls1)
        (mk_migration_wsq_entry false null task_ptr (sizeof_task cfg) (tls_tg_version tls1)).
Proof.
  intros Htls Hranges Hne.
  assert (Hneb : (target_rank =? my_rank cfg) = false) by now apply Z.eqb_neq.
  unfold fork. rewrite Htls. cbn [mbind option_bind].
  unfold new_thread_state, allocate. cbn zeta. rewrite Hranges, Hneb.
  destruct (is_cross_worker new_drange) eqn:Hx.
  - eexists. split; [intros fn; reflexivity|].
    cbn. unfold thread_state_at. cbn. rewrite lookup_insert_eq. repeat split.
  - eexists. split; [intros fn; reflexivity|].
    cbn. unfold thread_state_at. cbn. rewrite lookup_insert_eq. repeat split.
    + unfold pass. rewrite queue_at_set_queue. reflexivity.
    + intros rank' d' Hne'. unfold pass.
      unfold queue_at, set_queue; cbn. rewrite lookup_insert_ne by congruence. reflexivity.
Qed.

End ForkAway.

(** ** The scheduler: the order of the local queues *)

Section LocalPops.
Import DistRange Flipper DistTree WSQueue Sched SchedState.
Variable T : Type.
Variable cfg : config.

Lemma pop_primary_from_spec (q : wsqueue primary_wsq_entry) (d : Z) (todo : nat) :
  match pop_primary_from cfg q d todo with
  | (Some e, q') =>
      exists d' rest,
        d - Z.of_nat todo < d' <= d /\
        queue_at q (my_rank cfg) d' = e :: rest /\
        (forall d'', d' < d'' <= d -> queue_at q (my_rank cfg) d'' = []) /\
        q' = set_queue q (my_rank cfg) d' rest
  | (None, q') =>
      q' = q /\
      forall d', d - Z.of_nat todo < d' <= d -> queue_at q (my_rank cfg) d' = []
  end.
Proof.
  revert d. induction todo as [|todo IH]; intros d; cbn [pop_primary_from].
  - split; [reflexivity|]. intros d' Hd'. lia.
  - unfold pop. destruct (queue_at q (my_rank cfg) d) as [|e rest] eqn:Hq.
    + specialize (IH (d - 1)).
      destruct (pop_primary_from cfg q (d - 1) todo) as [[e'|] q'].
      * destruct IH as (d' & rest & Hd' & Htop & Hdeeper & Hq').
        exists d', rest. split; [lia|]. split; [exact Htop|]. split; [|exact Hq'].
        intros d'' Hd''. destruct (Z.eq_dec d'' d) as [-> | Hne]; [exact Hq|].
        apply Hdeeper. lia.
      * destruct IH as (-> & Hall). split; [reflexivity|].
        intros d' Hd'. destruct (Z.eq_dec d' d) as [-> | Hne]; [exact Hq|].
        apply Hall. lia.
    + exists d, rest. split; [lia|]. split; [exact Hq|]. split; [|reflexivity].
      intros d'' Hd''. lia.
Qed.

Lemma pop_migration_from_spec (q : wsqueue migration_wsq_entry) (d : Z) (todo : nat) :
  match pop_migration_from cfg q d todo with
  | (Some e, q') =>
      exists d' rest,
        d <= d' < d + Z.of_nat todo /\
        queue_at q (my_rank cfg) d' = e :: rest /\
        (forall d'', d <= d'' < d' -> queue_at q (my_rank cfg) d'' = []) /\
        q' = set_queue q (my_rank cfg) d' rest
  | (None, q') =>
      q' = q /\
      forall d', d <= d' < d + Z.of_nat todo -> queue_at q (my_rank cfg) d' = []
  end.
Proof.
  revert d. induction todo as [|todo IH]; intros d; cbn [pop_migration_from].
  - split; [reflexivity|]. intros d' Hd'. lia.
  - unfold pop. destruct (queue_at q (my_rank cfg) d) as [|e rest] eqn:Hq.
    + specialize (IH (d + 1)).
      destruct (pop_migration_from cfg q (d + 1) todo) as [[e'|] q'].
      * destruct IH as (d' & rest & Hd' & Htop & Hshallower & Hq').
        exists d', rest. split; [lia|]. split; [exact Htop|]. split; [|exact Hq'].
        intros d'' Hd''. destruct (Z.eq_dec d'' d) as [-> | Hne]; [exact Hq|].
        apply Hshallower. lia.
      * destruct IH as (-> & Hall). split; [reflexivity|].
        intros d' Hd'. destruct (Z.eq_dec d' d) as [-> | Hne]; [exact Hq|].
        apply Hall. lia.
    + exists d, rest. split; [lia|]. split; [exact Hq|]. split; [|reflexivity].
      intros d'' Hd''. lia.
Qed.

(** X8: the order in which the scheduler loop empties the queues of its own
    rank.  [pop_from_primary_queues(depth_from)] takes the entry pushed last to
    the deepest deque that is not empty among the depths [0 .. depth_from], and
    [pop_from_migration_queues()] the entry pushed last to the shallowest deque
    that is not empty among all depths; nothing else changes.  Each returns
    [std::nullopt], leaving the queues as they are, exactly when all these deques
    are empty. *)
Theorem X8_local_pop_order (s : scheduler_adws T) (depth_from : Z) :
  match pop_from_primary_queues T cfg s depth_from with
  | (Some e, s') =>
      exists d rest,
        0 <= d <= depth_from /\
        queue_at (primary_wsq_ s) (my_rank cfg) d = e :: rest /\
        (forall d', d < d' <= depth_from -> queue_at (primary_wsq_ s) (my_rank cfg) d' = []) /\
        s' = set_primary_wsq T s (set_queue (primary_wsq_ s) (my_rank cfg) d rest)
  | (None, s') =>
      primary_wsq_ s' = primary_wsq_ s /\ migration_wsq_ s' = migration_wsq_ s /\
      forall d, 0 <= d <= depth_from -> queue_at (primary_wsq_ s) (my_rank cfg) d = []
  end /\
  match pop_from_migration_queues T cfg s with
  | (Some e, s') =>
      exists d rest,
        0 <= d < n_queues (migration_wsq_ s) /\
        queue_at (migration_wsq_ s) (my_rank cfg) d = e :: rest /\
        (forall d', 0 <= d' < d -> queue_at (migration_wsq_ s) (my_rank cfg) d' = []) /\
        s' = set_migration_wsq T s (set_queue (migration_wsq_ s) (my_rank cfg) d rest)
  | (None, s') =>
      primary_wsq_ s' = primary_wsq_ s /\ migration_wsq_ s' = migration_wsq_ s /\
      forall d, 0 <= d < n_queues (migration_wsq_ s) ->
                queue_at (migration_wsq_ s) (my_rank cfg) d = []
  end.
Proof.
  split.
  - unfold pop_from_primary_queues.
    pose proof (pop_primary_from_spec (primary_wsq_ s) depth_from
                  (Z.to_nat (depth_from + 1))) as Hspec.
    destruct (pop_primary_from cfg (primary_wsq_ s) depth_from (Z.to_nat (depth_from + 1)))
      as [[e|] q'].
    + destruct Hspec as (d & rest & Hd & Htop & Hdeeper & ->).
      exists d, rest. split; [lia|]. split; [exact Htop|]. split; [exact Hdeeper | reflexivity].
    + destruct Hspec as (-> & Hall). cbn. split; [reflexivity|]. split; [reflexivity|].
      intros d Hd. apply Hall. lia.
  - unfold pop_from_migration_queues.
    pose proof (pop_migration_from_spec (migration_wsq_ s) 0
                  (Z.to_nat (n_queues (migration_wsq_ s)))) as Hspec.
    destruct (pop_migration_from cfg (migration_wsq_ s) 0
                (Z.to_nat (n_queues (migration_wsq_ s)))) as [[e|] q'].
    + destruct Hspec as (d & rest & Hd & Htop & Hshallower & ->).
      exists d, rest. split; [lia|]. split; [exact Htop|].
      split; [|reflexivity]. intros d' Hd'. apply Hshallower. lia.
    + destruct Hspec as (-> & Hall). cbn. split; [reflexivity|]. split; [reflexivity|].
      intros d Hd. apply Hall. lia.
Qed.

End LocalPops.

(** ** The scheduler: what a steal leaves behind *)

Section StealFootprint.
Import DistRange Flipper DistTree WSQueue Sched SchedState.
Variable T : Type.
Variable cfg : config.

Lemma locked_set_lock {E : Type} (q : wsqueue E) (rank d : Z) (b : bool) (rank' d' : Z) :
  locked (set_lock q rank d b) rank' d'
  = if decide ((rank', d') = (rank, d)) then b else locked q rank' d'.
Proof.
  unfold locked, set_lock; cbn [locks]. destruct (decide ((rank', d') = (rank, d))) as [-> | Hne].
  - rewrite lookup_insert_eq. reflexivity.
  - rewrite lookup_insert_ne by congruence. reflexivity.
Qed.

Lemma queue_at_set_queue_other {E : Type} (q : wsqueue E) (rank d : Z) (l : list E)
    (rank' d' : Z) :
  (rank', d') <> (rank, d) -> queue_at (set_queue q rank d l) rank' d' = queue_at q rank' d'.
Proof.
  intros Hne. unfold queue_at, set_queue; cbn [queues].
  rewrite lookup_insert_ne by congruence. reflexivity.
Qed.

(** One attempt on a deque: the lock is taken and given back on every path, and
    the deque loses its oldest entry only if the attempt succeeds. *)
Lemma steal_attempt {E : Type} (q : wsqueue E) (rank d : Z) (accept : E -> bool) :
  match trylock q rank d with
  | (false, q1) => q1 = q
  | (true, q1) =>
      locked q rank d = false /\
      match steal_nolock q1 rank d with
      | (None, q2) =>
          same_locks q (unlock q2 rank d) /\ same_entries q (unlock q2 rank d)
      | (Some e, q2) =>
          (same_locks q (unlock (abort_steal q2 rank d e) rank d) /\
           same_entries q (unlock (abort_steal q2 rank d e) rank d)) /\
          (same_locks q (unlock q2 rank d) /\ taken_from q (unlock q2 rank d) rank d e)
      end
  end.
Proof.
  unfold trylock. destruct (locked q rank d) eqn:Hl; [reflexivity|].
  split; [reflexivity|].
  assert (Hlocks : forall q2 : wsqueue E,
            locks q2 = locks (set_lock q rank d true) -> same_locks q (unlock q2 rank d)).
  { intros q2 Hq2 r' d'. unfold unlock. rewrite locked_set_lock.
    destruct (decide ((r', d') = (rank, d))) as [[= -> ->] | Hne]; [now rewrite Hl|].
    unfold locked. rewrite Hq2. cbn [set_lock locks].
    rewrite lookup_insert_ne by congruence. reflexivity. }
  unfold steal_nolock.
  change (queue_at (set_lock q rank d true) rank d) with (queue_at q rank d).
  destruct (rev (queue_at q rank d)) as [|e l] eqn:Hrev.
  - split; [apply Hlocks; reflexivity|]. intros r' d'. reflexivity.
  - assert (Hq : queue_at q rank d = rev l ++ [e]).
    { rewrite <- (rev_involutive (queue_at q rank d)), Hrev. reflexivity. }
    split; split.
    + apply Hlocks. reflexivity.
    + intros r' d'. unfold unlock, abort_steal.
      change (queue_at (set_lock ?x _ _ _) r' d') with (queue_at x r' d').
      destruct (decide ((r', d') = (rank, d))) as [[= -> ->] | Hne].
      * rewrite !queue_at_set_queue. symmetry. exact Hq.
      * rewrite !queue_at_set_queue_other by exact Hne. reflexivity.
    + apply Hlocks. reflexivity.
    + unfold taken_from, unlock.
      change (queue_at (set_lock ?x _ _ _) ?a ?b) with (queue_at x a b).
      split.
      * rewrite queue_at_set_queue. exact Hq.
      * intros r' d' Hne. rewrite queue_at_set_queue_other by exact Hne. reflexivity.
Qed.

Lemma queues_untouched_refl (s : scheduler_adws T) : queues_untouched s s.
Proof. repeat split. Qed.

Lemma queues_untouched_trans (s1 s2 s3 : scheduler_adws T) :
  queues_untouched s1 s2 -> queues_untouched s2 s3 -> queues_untouched s1 s3.
Proof.
  intros (A1 & B1 & C1 & D1) (A2 & B2 & C2 & D2).
  repeat split; intros r d; [rewrite A2; apply A1 | rewrite B2; apply B1
                            | rewrite C2; apply C1 | rewrite D2; apply D1].
Qed.

Lemma entry_taken_after (s1 s2 s3 : scheduler_adws T) (what : stolen) :
  queues_untouched s1 s2 -> entry_taken s2 s3 what -> entry_taken s1 s3 what.
Proof.
  intros (A1 & B1 & C1 & D1) (A2 & B2 & Hw).
  split; [intros r d; rewrite A2; apply A1|].
  split; [intros r d; rewrite B2; apply B1|].
  destruct what as [t d e | t d e]; destruct Hw as [[Hq Hrest] Hsame]; split.
  - split; [rewrite <- Hq; symmetry; apply C1 | intros r' d' Hne; rewrite Hrest by exact Hne; apply C1].
  - intros r' d'. rewrite Hsame. apply D1.
  - split; [rewrite <- Hq; symmetry; apply D1 | intros r' d' Hne; rewrite Hrest by exact Hne; apply D1].
  - intros r' d'. rewrite Hsame. apply C1.
Qed.

Lemma steal_primary_at_footprint (s : scheduler_adws T) (target_rank d : Z)
    (steal_cond_fn : primary_wsq_entry -> bool) (cf : Z) :
  match steal_primary_at T s target_rank d steal_cond_fn cf with
  | (s', None) => queues_untouched s s'
  | (s', Some (what, c)) =>
      entry_taken s s' what /\ stolen_rank what = target_rank
  end.
Proof.
  unfold steal_primary_at.
  pose proof (steal_attempt (primary_wsq_ s) target_rank d steal_cond_fn) as Hat.
  destruct (trylock (primary_wsq_ s) target_rank d) as [[|] q1]; cbn [negb].
  2: { apply queues_untouched_refl. }
  destruct Hat as [_ Hat].
  destruct (steal_nolock q1 target_rank d) as [[pwe|] q2].
  - destruct Hat as [[Hl1 He1] [Hl2 Ht2]].
    destruct (steal_cond_fn pwe); cbn [negb].
    + destruct (negb (pwe_evacuation_ptr pwe =? null)); cbn;
        (split; [|reflexivity]); repeat split; try assumption; apply Ht2.
    + repeat split; assumption.
  - destruct Hat as [Hl He]. repeat split; assumption.
Qed.

Lemma steal_migration_at_footprint (s : scheduler_adws T) (target_rank d : Z)
    (steal_cond_fn : migration_wsq_entry -> bool) (cf : Z) :
  match steal_migration_at T s target_rank d steal_cond_fn cf with
  | (s', None) => queues_untouched s s'
  | (s', Some (what, c)) =>
      entry_taken s s' what /\ stolen_rank what = target_rank /\
      exists mwe, what = StolenMigration target_rank d mwe
  end.
Proof.
  unfold steal_migration_at.
  pose proof (steal_attempt (migration_wsq_ s) target_rank d steal_cond_fn) as Hat.
  destruct (trylock (migration_wsq_ s) target_rank d) as [[|] q1]; cbn [negb].
  2: { apply queues_untouched_refl. }
  destruct Hat as [_ Hat].
  destruct (steal_nolock q1 target_rank d) as [[mwe|] q2].
  - destruct Hat as [[Hl1 He1] [Hl2 Ht2]].
    destruct (steal_cond_fn mwe); cbn [negb].
    + destruct (negb (mwe_is_continuation mwe));
        [|destruct (negb (mwe_evacuation_ptr mwe =? null))]; cbn;
        (split; [|split; [reflexivity | eexists; reflexivity]]);
        repeat split; try assumption; apply Ht2.
    + repeat split; assumption.
  - destruct Hat as [Hl He]. repeat split; assumption.
Qed.

Lemma first_success_footprint {R : Type}
    (f : scheduler_adws T -> Z -> scheduler_adws T * option R)
    (P : scheduler_adws T -> scheduler_adws T -> R -> Prop)
    (s : scheduler_adws T) (ds : list Z) :
  (forall s0 d, match f s0 d with
                | (s', None) => queues_untouched s0 s'
                | (s', Some r) => P s0 s' r
                end) ->
  (forall s1 s2 s3 r, queues_untouched s1 s2 -> P s2 s3 r -> P s1 s3 r) ->
  match first_success T f s ds with
  | (s', None) => queues_untouched s s'
  | (s', Some r) => P s s' r
  end.
Proof.
  intros Hf Hcomp. revert s. induction ds as [|d ds IH]; intros s; cbn [first_success].
  - apply queues_untouched_refl.
  - pose proof (Hf s d) as Hd. destruct (f s d) as [s1 [r|]].
    + exact Hd.
    + specialize (IH s1). destruct (first_success T f s1 ds) as [s' [r|]].
      * exact (Hcomp _ _ _ _ Hd IH).
      * exact (queues_untouched_trans _ _ _ Hd IH).
Qed.

Lemma get_random_rank_range (seed a b : Z) :
  a <= get_random_rank seed a b <= Z.max a b.
Proof.
  unfold get_random_rank. destruct (Z.leb_spec a b) as [Hle | Hgt]; [|lia].
  pose proof (Z.mod_pos_bound seed (b - a + 1) ltac:(lia)). lia.
Qed.

Lemma steal_loop_footprint (s : scheduler_adws T) (steal_range : dist_range float)
    (tgv : flipper) (d begin_rank end_rank : Z) (target_seeds : list Z)
    (arrivals : list (option cross_worker_task)) (cf : Z) (todo : nat) :
  match steal_loop T s steal_range tgv d begin_rank end_rank target_seeds arrivals cf todo with
  | (s', Took what c) =>
      entry_taken s s' what /\
      begin_rank <= stolen_rank what <= Z.max begin_rank end_rank /\
      match what with
      | StolenMigration _ _ _ => stolen_rank what <> begin_rank
      | StolenPrimary _ _ _ =>
          stolen_rank what <> end_rank \/ is_at_end_boundary steal_range = true
      end
  | (s', _) => queues_untouched s s'
  end.
Proof.
  revert s target_seeds arrivals.
  induction todo as [|todo IH]; intros s target_seeds arrivals; cbn [steal_loop].
  - apply queues_untouched_refl.
  - set (target_rank := get_random_rank (hd 0 target_seeds) begin_rank end_rank).
    pose proof (get_random_rank_range (hd 0 target_seeds) begin_rank end_rank) as Hrange.
    fold target_rank in Hrange.
    assert (Hmig : match (if negb (target_rank =? begin_rank)
                          then steal_from_migration_queues T s target_rank d
                                 (n_queues (migration_wsq_ s))
                                 (fun mwe => match_ (mwe_tg_version mwe) tgv d) cf
                          else (s, None)) with
                   | (s1, None) => queues_untouched s s1
                   | (s1, Some (what, c)) =>
                       entry_taken s s1 what /\ stolen_rank what = target_rank /\
                       (exists mwe dq, what = StolenMigration target_rank dq mwe) /\
                       target_rank <> begin_rank
                   end).
    { destruct (Z.eqb_spec target_rank begin_rank) as [Heq | Hne]; cbn [negb].
      - apply queues_untouched_refl.
      - unfold steal_from_migration_queues.
        apply (first_success_footprint
                 (fun s' d0 => steal_migration_at T s' target_rank d0
                                 (fun mwe => match_ (mwe_tg_version mwe) tgv d) cf)
                 (fun s0 s' (r : stolen * control) =>
                    let '(what, c) := r in
                    entry_taken s0 s' what /\ stolen_rank what = target_rank /\
                    (exists mwe dq, what = StolenMigration target_rank dq mwe) /\
                    target_rank <> begin_rank)).
        + intros s0 d0. pose proof (steal_migration_at_footprint s0 target_rank d0
                                      (fun mwe => match_ (mwe_tg_version mwe) tgv d) cf) as H0.
          destruct (steal_migration_at T s0 target_rank d0 _ cf) as [s' [[what c]|]];
            [|exact H0].
          destruct H0 as (Ht & Hr & mwe & ->).
          split; [exact Ht|]. split; [exact Hr|].
          split; [eexists; eexists; reflexivity | exact Hne].
        + intros s1 s2 s3 [what c] Hu (Ht & Hr & Hm & Hb).
          split; [exact (entry_taken_after _ _ _ _ Hu Ht)|].
          split; [exact Hr|]. split; [exact Hm | exact Hb]. }
    destruct (if negb (target_rank =? begin_rank)
              then steal_from_migration_queues T s target_rank d (n_queues (migration_wsq_ s))
                     (fun mwe => match_ (mwe_tg_version mwe) tgv d) cf
              else (s, None)) as [s1 [[what1 c1]|]].
    + destruct Hmig as (Ht & Hr & (mwe & dq & ->) & Hb). cbn [stolen_rank] in *.
      split; [exact Ht|]. split; [lia | exact Hb].
    + assert (Hpri : match (if negb (target_rank =? end_rank)
                               || (target_rank =? end_rank) && is_at_end_boundary steal_range
                            then steal_from_primary_queues T s1 target_rank d
                                   (n_queues (primary_wsq_ s1))
                                   (fun pwe => match_ (pwe_tg_version pwe) tgv d) cf
                            else (s1, None)) with
                     | (s2, None) => queues_untouched s1 s2
                     | (s2, Some (what, c)) =>
                         entry_taken s1 s2 what /\ stolen_rank what = target_rank /\
                         (exists pwe dq, what = StolenPrimary target_rank dq pwe) /\
                         (target_rank <> end_rank \/ is_at_end_boundary steal_range = true)
                     end).
      { destruct (negb (target_rank =? end_rank)
                  || (target_rank =? end_rank) && is_at_end_boundary steal_range) eqn:Hcond.
        2: { apply queues_untouched_refl. }
        assert (Hwhy : target_rank <> end_rank \/ is_at_end_boundary steal_range = true).
        { destruct (Z.eqb_spec target_rank end_rank) as [Heq | Hne]; [|now left].
          right. cbn in Hcond. exact Hcond. }
        unfold steal_from_primary_queues.
        apply (first_success_footprint
                 (fun s' d0 => steal_primary_at T s' target_rank d0
                                 (fun pwe => match_ (pwe_tg_version pwe) tgv d) cf)
                 (fun s0 s' (r : stolen * control) =>
                    let '(what, c) := r in
                    entry_taken s0 s' what /\ stolen_rank what = target_rank /\
                    (exists pwe dq, what = StolenPrimary target_rank dq pwe) /\
                    (target_rank <> end_rank \/ is_at_end_boundary steal_range = true))).
        - intros s0 d0.
          pose proof (steal_primary_at_footprint s0 target_rank d0
                        (fun pwe => match_ (pwe_tg_version pwe) tgv d) cf) as H0.
          destruct (steal_primary_at T s0 target_rank d0 _ cf) as [s' [[what c]|]] eqn:Hat;
            [|exact H0].
          destruct H0 as (Ht & Hr).
          destruct (steal_primary_at_accepts T _ _ _ _ _ _ _ _ Hat) as (pwe & -> & _).
          split; [exact Ht|]. split; [exact Hr|].
          split; [eexists; eexists; reflexivity | exact Hwhy].
        - intros s1' s2 s3 [what c] Hu (Ht & Hr & Hm & Hb).
          split; [exact (entry_taken_after _ _ _ _ Hu Ht)|].
          split; [exact Hr|]. split; [exact Hm | exact Hb]. }
      destruct (if negb (target_rank =? end_rank)
                   || (target_rank =? end_rank) && is_at_end_boundary steal_range
                then steal_from_primary_queues T s1 target_rank d (n_queues (primary_wsq_ s1))
                       (fun pwe => match_ (pwe_tg_version pwe) tgv d) cf
                else (s1, None)) as [s2 [[what2 c2]|]].
      * destruct Hpri as (Ht & Hr & (pwe & dq & ->) & Hb). cbn [stolen_rank] in *.
        split; [exact (entry_taken_after _ _ _ _ Hmig Ht)|]. split; [lia|].
        destruct Hb as [Hb | Hb]; [left; lia | now right].
      * pose proof (queues_untouched_trans _ _ _ Hmig Hpri) as H12.
        destruct (hd None arrivals) as [cwt|].
        -- unfold execute_cross_worker_task.
           destruct (cwt_evacuation_ptr cwt =? null); exact H12.
        -- specialize (IH s2 (tl target_seeds) (tl arrivals)).
           destruct (steal_loop T s2 steal_range tgv d begin_rank end_rank
                       (tl target_seeds) (tl arrivals) cf todo) as [s' o].
           destruct o as [| |what c|cwt c].
           ++ exact (queues_untouched_trans _ _ _ H12 IH).
           ++ exact (queues_untouched_trans _ _ _ H12 IH).
           ++ destruct IH as (Ht & Hrest). split; [|exact Hrest].
              exact (entry_taken_after _ _ _ _ H12 Ht).
           ++ exact (queues_untouched_trans _ _ _ H12 IH).
Qed.

(** X9: what a call of [steal] leaves behind in the work-stealing queues of all
    ranks.  Every lock it takes it gives back, on every path: the locks are as
    they were, those held by others included.  It takes at most one entry: if
    it takes nothing (no dominant node, a held lock, an empty deque, a version
    that does not match, or a cross-worker task that arrived meanwhile), every
    deque holds what it held, an entry refused by the version predicate being
    given back; if it takes an entry, that is the oldest entry of one deque and
    nothing else changes.  The rank stolen from is drawn from the ranks of the
    range of the dominant node, and a migration queue is never stolen from on
    the first rank of that range. *)
Theorem X9_steal_footprint (s : scheduler_adws T) (env : environment) (cf : Z) :
  match steal T cfg s env cf with
  | (s', ne, Took what c) =>
      entry_taken s s' what /\
      exists n,
        ne = Some n /\
        begin_rank (drange n) <= stolen_rank what
          <= Z.max (begin_rank (drange n)) (end_rank (drange n)) /\
        match what with
        | StolenMigration _ _ _ => stolen_rank what <> begin_rank (drange n)
        | StolenPrimary _ _ _ => True
        end
  | (s', _, _) => queues_untouched s s'
  end.
Proof.
  assert (Hdt : forall dt, queues_untouched s (set_dtree T s dt)) by (intros dt; repeat split).
  unfold steal.
  destruct (get_topmost_dominant cfg (dtree_ s) (dtree_local_bottom_ref_ s)
              (env_scan_seeds env)) as [[[n|] dt]|].
  - destruct (_ =? _); [apply Hdt|].
    destruct (negb _); [apply Hdt|].
    match goal with |- context [steal_loop T ?s1 ?sr ?tgv ?d ?b ?e ?ts ?ar ?cf ?todo] =>
      pose proof (steal_loop_footprint s1 sr tgv d b e ts ar cf todo) as Hloop;
      destruct (steal_loop T s1 sr tgv d b e ts ar cf todo) as [s2 o] end.
    destruct o as [| |what c|cwt c];
      try exact (queues_untouched_trans _ _ _ (Hdt dt) Hloop).
    destruct Hloop as (Ht & Hrange & Hkind).
    split; [exact (entry_taken_after _ _ _ _ (Hdt dt) Ht)|].
    exists n. split; [reflexivity|]. split.
    + destruct (is_at_end_boundary (drange n)); lia.
    + destruct what; [exact I | exact Hkind].
  - apply Hdt.
  - apply queues_untouched_refl.
Qed.

End StealFootprint.

Section SchedulerRuns.
Import DistRange Flipper DistTree WSQueue Sched SchedState Samples.

(** X6, run: the root thread of rank 0, with the range [0, 4) and no child
    distributed, dies: the ranks 1, 2 and 3 get a dummy task. *)
Lemma X6_on_task_die_witness :
  exists s1,
    on_task_die nat cfg_debug sched_cross = Some s1 /\
    put_targets_of (events s1) = [1; 2; 3] /\
    on_task_die nat cfg_debug s1 = Some s1.
Proof.
  destruct (X6_on_task_die nat cfg_debug sched_cross (tls_at dr_root) eq_refl)
    as (s1 & new & Hdie & Hagain & Hev & Hput & _).
  exists s1. split; [exact Hdie|]. split; [|exact Hagain].
  rewrite Hev. change (events sched_cross) with (@nil event). cbn [app].
  rewrite Hput. vm_compute. reflexivity.
Defined.

(** X7, run: a thread of rank 0 with the range [0.5, 1.5) forks with equal
    weights: the new thread gets [1, 1.5) and goes to the migration queue of
    rank 1. *)
Lemma X7_fork_to_another_rank_witness :
  exists r,
    fork nat cfg_debug sched_into_rank_1 1900 1 1 fn_42 = Some r /\
    th_serialized (fr_th r) = false /\
    queue_at (migration_wsq_ (fr_sched r)) 1 0
      = [mk_migration_wsq_entry false 0 8192 64 Flipper.zero].
Proof.
  destruct (X7_fork_to_another_rank nat cfg_debug sched_into_rank_1
              (tls_at dr_into_rank_1)
              (tls_at (mk_dist_range 0x1p-1%float 1%float))
              (mk_dist_range 1%float 0x1.8p+0%float) 1 1900 1%float 1%float
              eq_refl ltac:(vm_compute; reflexivity) ltac:(discriminate))
    as (r & Hfork & _ & Hth & _ & _ & _ & _ & _ & Hq).
  exists r. split; [apply Hfork|]. split; [rewrite Hth; reflexivity|].
  cbn zeta in Hq.
  change (is_cross_worker (mk_dist_range 1%float 0x1.8p+0%float)) with false in Hq.
  destruct Hq as (_ & Htaken & _). exact Htaken.
Defined.

(** X8, run: the deepest primary deque and the shallowest migration deque. *)
Lemma X8_local_pop_order_witness :
  fst (pop_from_primary_queues nat cfg_debug sched_three_queues 7) = Some entry_b /\
  fst (pop_from_migration_queues nat cfg_debug sched_three_queues) = Some task_m.
Proof.
  pose proof (X8_local_pop_order nat cfg_debug sched_three_queues 7) as [Hp Hm].
  destruct (pop_from_primary_queues nat cfg_debug sched_three_queues 7) as [[e|] s'] eqn:Hpop;
    [|vm_compute in Hpop; discriminate].
  destruct (pop_from_migration_queues nat cfg_debug sched_three_queues) as [[m|] s''] eqn:Hpopm;
    [|vm_compute in Hpopm; discriminate].
  vm_compute in Hpop. vm_compute in Hpopm.
  injection Hpop as <- _. injection Hpopm as <- _. split; reflexivity.
Defined.

(** X9, run: rank 0 steals the only entry of rank 2. *)
Lemma X9_steal_footprint_witness :
  entry_taken (sched_thief [stealable] dtree_dominant)
    (fst (fst (steal nat cfg_debug (sched_thief [stealable] dtree_dominant) draws 3000)))
    (StolenPrimary 2 0 stealable) /\
  queue_at (primary_wsq_
              (fst (fst (steal nat cfg_debug (sched_thief [stealable] dtree_dominant)
                           draws 3000)))) 2 0 = [] /\
  locked (primary_wsq_
            (fst (fst (steal nat cfg_debug (sched_thief [stealable] dtree_dominant)
                         draws 3000)))) 2 0 = false.
Proof.
  pose proof (X9_steal_footprint nat cfg_debug (sched_thief [stealable] dtree_dominant)
                draws 3000) as Hfoot.
  destruct (steal nat cfg_debug (sched_thief [stealable] dtree_dominant) draws 3000)
    as [[s' ne] o] eqn:Hsteal.
  assert (Ho : o = Took (StolenPrimary 2 0 stealable)
                 (ResumeSuspended (mk_suspended_state 8192 1000 64))).
  { vm_compute in Hsteal. now injection Hsteal as _ _ <-. }
  subst o. destruct Hfoot as (Htaken & _). cbn [fst].
  split; [exact Htaken|].
  vm_compute in Hsteal. injection Hsteal as <- _. split; reflexivity.
Defined.

End SchedulerRuns.

(** ** The scheduler: the root thread *)

Section RootThread.
Import DistRange Flipper DistTree WSQueue Sched SchedState RootExec.
Variable T : Type.
Variable cfg : config.

(** X10: [root_exec].  The root thread starts with the range of all ranks, no
    node of the distribution tree and a thread state whose [resume_flag] is 0,
    so that the condition given to the scheduler loop is false.  When its body
    [fn] has returned, whatever [fn] did to the scheduler, [on_root_die] has
    published the value [fn] returned, set [resume_flag] to 1 (the condition of
    the scheduler loop holds from then on) and given control to the scheduler
    context with no thread current; what [root_exec] then reads and returns is
    the value [fn] returned, and the thread state is freed. *)
Theorem X10_root_exec_returns (s : scheduler_adws T) (cf stack_top : Z)
    (fn : scheduler_adws T -> T * scheduler_adws T) :
  let ts := fst (root_exec_enter T cfg s cf stack_top) in
  let s3 := snd (root_exec_enter T cfg s cf stack_top) in
  let died := root_thread T cfg s cf stack_top fn in
  let s5 := fst (snd died) in
  tls_ s3 = Some (root_tls cfg) /\
  cf_top_ s3 = stack_top /\ sched_cf_ s3 = cf /\
  root_is_done T s3 ts = false /\
  fst died = ts /\
  snd (snd died) = ResumeSched /\
  root_is_done T s5 ts = true /\
  fst (root_exec_leave T s5 ts) = Some (fst (fn s3)) /\
  tls_ s5 = None /\ cf_top_ s5 = null /\
  thread_states (snd (root_exec_leave T s5 ts)) !! ts = None /\
  In ts (rr_freed (thread_state_allocator_ (snd (root_exec_leave T s5 ts)))).
Proof.
  cbn zeta. unfold root_thread, root_exec_enter, new_thread_state, allocate.
  cbn [fst snd]. destruct (fn _) as [ret s4] eqn:Hfn. cbn [fst snd].
  unfold root_is_done, root_exec_leave, on_root_die, resume_sched, thread_state_at,
    put_retval, update_thread_state, delete_thread_state, deallocate.
  cbn. rewrite !lookup_insert_eq. cbn. rewrite lookup_delete_eq.
  repeat split. now left.
Qed.

End RootThread.

(** ** The scheduler: a task group and its node *)

Section TaskGroupNode.
Import DistRange Flipper DistTree WSQueue Sched SchedState.
Variable T : Type.
Variable cfg : config.

Lemma on_task_die_dtree (s s' : scheduler_adws T) (tls : thread_local_storage) :
  tls_ s = Some tls ->
  on_task_die T cfg s = Some s' ->
  dtree_ s' = (if is_cross_worker (tls_drange tls)
               then set_dominant cfg (dtree_ s) (tls_dtree_node_ref tls) true
               else dtree_ s) /\
  dtree_local_bottom_ref_ s' = dtree_local_bottom_ref_ s.
Proof.
  intros Htls. unfold on_task_die. rewrite Htls. cbn [mbind option_bind].
  destruct (is_cross_worker (tls_drange tls)); [|now intros [= <-]].
  destruct (tls_undistributed tls && _).
  - destruct (make_dummy_tasks cfg _ _ _) as [tasks a].
    intros [= <-]. cbn [dtree_ dtree_local_bottom_ref_ set_tls].
    match goal with |- context [issue_all T (issue_all T ?s0 ?e1) ?e2] =>
      pose proof (issue_all_fields T (issue_all T s0 e1) e2) as H2;
      pose proof (issue_all_fields T s0 e1) as H1 end.
    cbn zeta in H1, H2.
    destruct H1 as (_ & _ & _ & d1 & b1 & _).
    destruct H2 as (_ & _ & _ & d2 & b2 & _).
    rewrite d2, d1, b2, b1. split; reflexivity.
  - intros [= <-]. split; reflexivity.
Qed.

(** X11: a task group retires its node.  A thread that runs on the owner of
    its cross-worker range, below the maximal depth, opens and closes a task
    group: [task_group_begin] appends a node one level down, with a version
    that is not 0; [task_group_end] marks it dominant (in [on_task_die]) and
    then non-dominant: in the end the dominant flag of that depth on this rank
    holds minus the version of the node, the slot is retired, and the bottom
    reference of the rank is back at the node of the thread. *)
Theorem X11_task_group_retires_node (s : scheduler_adws T) (tls : thread_local_storage)
    (cf : Z) :
  tls_ s = Some tls ->
  is_cross_worker (tls_drange tls) = true ->
  owner (tls_drange tls) = my_rank cfg ->
  -1 <= depth_of tls ->
  depth_of tls + 1 < adws_max_depth cfg <= 64 ->
  0 <= my_rank cfg -> 0 < n_ranks cfg ->
  0 <= version_slot (dtree_ s) (depth_of tls + 1) ->
  exists tgdata s1 s2,
    task_group_begin T cfg s = Some (tgdata, s1) /\
    task_group_end T cfg s1 tgdata cf = Some (s2, Returns) /\
    tgd_owns_dtree_node tgdata = true /\
    dtree_local_bottom_ref_ s1 = mk_node_ref (my_rank cfg) (depth_of tls + 1) /\
    version (local_node cfg (dtree_ s1) (depth_of tls + 1)) <> 0 /\
    local_node cfg (dtree_ s2) (depth_of tls + 1)
      = local_node cfg (dtree_ s1) (depth_of tls + 1) /\
    retired cfg (dtree_ s2) (depth_of tls + 1) /\
    dtree_local_bottom_ref_ s2 = tls_dtree_node_ref tls.
Proof.
  intros Htls Hx Hown Hd Hmax Hrank Hn Hslot.
  unfold task_group_begin. rewrite Htls. cbn [mbind option_bind]. rewrite Hx.
  replace (depth_of tls + 1 <? adws_max_depth cfg) with true
    by (symmetry; apply Z.ltb_lt; lia).
  cbn [append].
  set (v := (if int_max - n_ranks cfg <=? version_slot (dtree_ s) (depth (tls_dtree_node_ref tls) + 1)
             then my_rank cfg + 1
             else version_slot (dtree_ s) (depth (tls_dtree_node_ref tls) + 1)) + n_ranks cfg).
  assert (Hv : 0 < v).
  { unfold v, depth_of in *. destruct (_ <=? _); lia. }
  set (n := mk_node (tls_dtree_node_ref tls) (tls_drange tls) (tls_tg_version tls) v).
  match goal with |- context [Some (?tg, ?s1) = Some _] => set (s1' := s1) end.
  set (tls1 := with_undistributed
                 (with_dtree_node_ref tls
                    (mk_node_ref (my_rank cfg) (depth (tls_dtree_node_ref tls) + 1))) true).
  assert (Htls1 : tls_ s1' = Some tls1) by reflexivity.
  assert (Hnode1 : node_win_ (dtree_ s1') !! (my_rank cfg, depth_of tls + 1) = Some n).
  { subst s1'. cbn. unfold depth_of. now rewrite lookup_insert_eq. }
  destruct (on_task_die_effect T cfg s1' tls1 Htls1) as (sd & Hdie & Htd & Hp & Hm & Hnw & _).
  destruct (on_task_die_dtree s1' sd tls1 Htls1 Hdie) as (Hdt & Hbot).
  change (tls_drange tls1) with (tls_drange tls) in *.
  change (tls_dtree_node_ref tls1)
    with (mk_node_ref (my_rank cfg) (depth_of tls + 1)) in *.
  rewrite Hx in Hdt, Htd.
  exists (mk_task_group_data (tls_drange tls) true), s1'.
  unfold task_group_end. rewrite Hdie. cbn [mbind option_bind]. rewrite Htd.
  cbn [mbind option_bind tgd_drange]. unfold with_drange at 1.
  cbn [tls_drange tls_dtree_node_ref tls_tg_version tls_undistributed].
  unfold with_drange at 1. cbn [tls_drange].
  rewrite Hx, Hown, Z.eqb_refl. cbn [negb].
  unfold task_group_end_tail.
  cbn [tls_ set_tls mbind option_bind tgd_owns_dtree_node tls_dtree_node_ref owner_rank].
  rewrite Z.eqb_refl, ITYR_CHECK_passes.
  unfold get_local_node. cbn [dtree_ set_tls].
  change (tls_dtree_node_ref
            (with_drange (with_drange tls1 (make_non_cross_worker (tls_drange tls)))
               (tls_drange tls)))
    with (mk_node_ref (my_rank cfg) (depth_of tls + 1)).
  cbn [depth].
  set (dt2 := set_dominant cfg (dtree_ sd) (mk_node_ref (my_rank cfg) (depth_of tls + 1)) false).
  assert (Hloc : forall dt0, node_win_ dt0 = node_win_ (dtree_ s1') ->
                   local_node cfg dt0 (depth_of tls + 1) = n).
  { intros dt0 Hw. unfold local_node, node_at. rewrite Hw, Hnode1. reflexivity. }
  assert (Hn2 : local_node cfg dt2 (depth_of tls + 1) = n).
  { apply Hloc. unfold dt2.
    rewrite (proj1 (set_dominant_nodes cfg _ _ _)). exact Hnw. }
  rewrite Hn2.
  assert (Hrange : Flipper.in_range (node_depth n) = true).
  { unfold Flipper.in_range, width, node_depth, n; cbn [parent]. unfold depth_of in *.
    apply andb_true_iff. split; [apply Z.leb_le | apply Z.ltb_lt]; lia. }
  rewrite Hrange, ITYR_CHECK_passes.
  eexists. split; [reflexivity|]. split; [reflexivity|]. split; [reflexivity|].
  cbn [dtree_ dtree_local_bottom_ref_ set_tls set_dtree set_dtree_local_bottom_ref parent n].
  split; [subst s1'; reflexivity|].
  assert (Hn1 : local_node cfg (dtree_ s1') (depth_of tls + 1) = n) by (apply Hloc; reflexivity).
  rewrite Hn1, Hn2. split; [cbn [version n]; lia|]. split; [reflexivity|].
  split; [|reflexivity].
  unfold retired. rewrite Hn2. cbn [version n]. split; [|lia].
  destruct (set_dominant_local_flag cfg (dtree_ sd)
              (mk_node_ref (my_rank cfg) (depth_of tls + 1)) false eq_refl) as (Hflag & _).
  cbn [depth] in Hflag. fold dt2 in Hflag. rewrite Hflag.
  rewrite (Hloc (dtree_ sd)); [cbn [version n]; lia|].
  rewrite Hdt. rewrite (proj1 (set_dominant_nodes cfg _ _ _)). reflexivity.
Qed.

End TaskGroupNode.

(** ** The collective broadcast: its cost *)

Section BroadcastCost.
Import CollExec CollState.

Lemma put_loop_length (n b s : Z) (k fuel : nat) :
  (length (put_loop n b s (2 ^ Z.of_nat k) fuel) <= k)%nat.
Proof.
  revert k. induction fuel as [|fuel IH]; intros k; cbn [put_loop]; [cbn; lia|].
  destruct k as [|k].
  - change (2 ^ Z.of_nat 0) with 1. cbn. lia.
  - assert (Hpow : 2 ^ Z.of_nat (S k) = 2 * 2 ^ Z.of_nat k).
    { rewrite Nat2Z.inj_succ, Z.pow_succ_r by lia. reflexivity. }
    assert (Hpos : 0 < 2 ^ Z.of_nat k) by (apply Z.pow_pos_nonneg; lia).
    replace (1 <? 2 ^ Z.of_nat (S k)) with true by (symmetry; apply Z.ltb_lt; lia).
    replace (2 ^ Z.of_nat (S k) / 2) with (2 ^ Z.of_nat k)
      by (rewrite Hpow, Z.mul_comm, Z.div_mul; lia).
    rewrite length_app. specialize (IH k).
    destruct (_ =? 0); [destruct (_ <? n)|]; cbn [length]; lia.
Qed.

Lemma all_ranks_spec (n r : Z) : In r (all_ranks n) <-> 0 <= r < n.
Proof.
  unfold all_ranks. rewrite in_map_iff. split.
  - intros (i & <- & Hi). apply in_seq in Hi. lia.
  - intros Hr. exists (Z.to_nat r). split; [lia|]. apply in_seq. lia.
Qed.

Lemma all_ranks_nodup (n : Z) : List.NoDup (all_ranks n).
Proof.
  unfold all_ranks. apply Finite.Injective_map_NoDup; [|apply seq_NoDup].
  intros i j Hij. lia.
Qed.

Lemma flat_map_nodup (f : Z -> list Z) (l : list Z) :
  List.NoDup l ->
  (forall r, In r l -> List.NoDup (f r)) ->
  (forall r1 r2 t, In r1 l -> In r2 l -> In t (f r1) -> In t (f r2) -> r1 = r2) ->
  List.NoDup (flat_map f l).
Proof.
  induction l as [|r l IH]; intros Hnd Hf Hone; cbn [flat_map]; [constructor|].
  inversion Hnd as [|? ? Hnotin Hnd']; subst.
  apply List.NoDup_app.
  - apply Hf. now left.
  - apply IH; [exact Hnd' | |].
    + intros r0 Hr0. apply Hf. now right.
    + intros r1 r2 t H1 H2. apply Hone; now right.
  - intros t Ht Hin.
    apply in_flat_map in Hin. destruct Hin as (r' & Hr' & Ht').
    assert (r = r') by (apply (Hone r r' t); [now left | now right | exact Ht | exact Ht']).
    subst r'. now apply Hnotin.
Qed.

(** X12: the cost of the broadcast of [coll_exec] among [n] ranks, begun on any
    rank: no rank puts the task to more than ceil(log2 n) ranks, and [n - 1]
    puts are made in all, one for each rank other than the one that began. *)
Theorem X12_broadcast_cost (n b : Z) :
  1 <= n -> 0 <= b < n ->
  (forall r, Z.of_nat (length (put_targets n b r)) <= Z.log2_up n) /\
  Z.of_nat (length (all_puts n b)) = n - 1 /\
  List.NoDup (all_puts n b) /\
  (forall t, In t (all_puts n b) <-> 0 <= t < n /\ t <> b).
Proof.
  intros Hn Hb.
  assert (Hnd : List.NoDup (all_puts n b)).
  { unfold all_puts. apply flat_map_nodup.
    - apply all_ranks_nodup.
    - intros r _. now apply put_targets_nodup.
    - intros r1 r2 t H1 H2. apply all_ranks_spec in H1, H2.
      now apply put_targets_one_sender. }
  assert (Hin : forall t, In t (all_puts n b) <-> 0 <= t < n /\ t <> b).
  { intros t. unfold all_puts. rewrite in_flat_map. split.
    - intros (r & _ & Ht). now apply (put_targets_range n b r).
    - intros (Ht & Hne).
      pose proof (shifted_range n b t ltac:(lia)) as Hs.
      assert (Hs1 : 1 <= shifted n b t).
      { destruct (Z.eq_dec (shifted n b t) 0) as [H0|]; [|lia].
        exfalso. apply Hne. rewrite <- (unshift_shifted n b t), H0 by lia.
        cbn [Z.add]. apply Z.mod_small. lia. }
      destruct (put_targets_sender_exists n b (shifted n b t) Hn Hb ltac:(lia))
        as (s & Hsr & Hput).
      rewrite unshift_shifted in Hput by lia.
      exists ((s + b) mod n). split; [|exact Hput].
      apply all_ranks_spec. apply Z.mod_pos_bound. lia. }
  split; [|split; [|split; [exact Hnd | exact Hin]]].
  - intros r. unfold put_targets.
    destruct (next_pow2_bounds n Hn) as (-> & _ & _).
    pose proof (put_loop_length n b (shifted n b r) (Z.to_nat (Z.log2_up n))
                  (Z.to_nat (2 ^ Z.of_nat (Z.to_nat (Z.log2_up n))))) as Hlen.
    pose proof (Z.log2_up_nonneg n). lia.
  - assert (Hperm : Permutation (b :: all_puts n b) (all_ranks n)).
    { apply Stdlib.Sorting.Permutation.NoDup_Permutation.
      - constructor; [|exact Hnd]. intros Hbin. apply Hin in Hbin. lia.
      - apply all_ranks_nodup.
      - intros t. rewrite all_ranks_spec. cbn [In]. rewrite Hin.
        destruct (Z.eq_dec t b); lia. }
    apply Permutation_length in Hperm. cbn [length] in Hperm.
    unfold all_ranks in Hperm at 1. rewrite length_map, length_seq in Hperm. lia.
Qed.

(** X12, run: four ranks, begun on rank 1. *)
Lemma X12_broadcast_cost_witness :
  all_puts 4 1 = [3; 2; 0] /\ Z.of_nat (length (all_puts 4 1)) = 3.
Proof.
  destruct (X12_broadcast_cost 4 1 ltac:(lia) ltac:(lia)) as (_ & Hcount & _).
  split; [vm_compute; reflexivity | exact Hcount].
Defined.

End BroadcastCost.

Section TaskGroupRuns.
Import DistRange Flipper DistTree WSQueue Sched SchedState Samples.

(** X11, run: rank 0 of four, the thread of the range [0, 4) at depth 0; the
    node of depth 1 gets the version 5 and ends with the flag -5. *)
Lemma X11_task_group_retires_node_witness :
  exists tgdata s1 s2,
    task_group_begin nat cfg_debug sched_cross = Some (tgdata, s1) /\
    task_group_end nat cfg_debug s1 tgdata 1900 = Some (s2, Returns) /\
    version (local_node cfg_debug (dtree_ s1) 1) = 5 /\
    local_dominant_flag cfg_debug (dtree_ s2) 1 = -5 /\
    retired cfg_debug (dtree_ s2) 1.
Proof.
  destruct (X11_task_group_retires_node nat cfg_debug sched_cross (tls_at dr_root) 1900
              eq_refl
              ltac:(vm_compute; reflexivity)
              ltac:(vm_compute; reflexivity)
              ltac:(apply Z.leb_le; vm_compute; reflexivity)
              ltac:(split; [apply Z.ltb_lt | apply Z.leb_le]; vm_compute; reflexivity)
              ltac:(apply Z.leb_le; vm_compute; reflexivity)
              ltac:(apply Z.ltb_lt; vm_compute; reflexivity)
              ltac:(apply Z.leb_le; vm_compute; reflexivity))
    as (tgdata & s1 & s2 & Hb & He & _ & _ & _ & Hsame & Hret & _).
  exists tgdata, s1, s2.
  assert (Hv : version (local_node cfg_debug (dtree_ s1) 1) = 5).
  { revert Hb. vm_compute. intros [= <- <-]. reflexivity. }
  split; [exact Hb|]. split; [exact He|]. split; [exact Hv|].
  split; [|exact Hret].
  destruct Hret as (Hflag & _).
  change (depth_of (tls_at dr_root) + 1) with 1 in *.
  rewrite Hflag, Hsame, Hv. reflexivity.
Defined.

End TaskGroupRuns.

(** ** The serial loop over global iterators *)

Section SerialChunks.
Import SerialLoop.

Lemma map_seq_from {A : Type} (f : nat -> A) (len s : nat) :
  map f (seq s len) = map (fun i => f (i + s)%nat) (seq 0 len).
Proof.
  revert f s. induction len as [|len IH]; intros f s; [reflexivity|].
  cbn [seq map]. f_equal. rewrite (IH f (S s)), (IH (fun i => f (i + s)%nat) 1%nat).
  apply map_ext. intros i. f_equal. lia.
Qed.

Lemma positions_app (a b c : Z) :
  a <= b -> b <= c -> positions a b ++ positions b c = positions a c.
Proof.
  intros Hab Hbc. unfold positions.
  replace (Z.to_nat (c - a)) with (Z.to_nat (b - a) + Z.to_nat (c - b))%nat by lia.
  rewrite seq_app, map_app. f_equal. cbn [Nat.add].
  rewrite (map_seq_from _ _ (Z.to_nat (b - a))). apply map_ext. intros i. lia.
Qed.

Lemma applied_app (t1 t2 : list event) : applied (t1 ++ t2) = applied t1 ++ applied t2.
Proof. unfold applied. apply flat_map_app. Qed.

Lemma checkouts_app (t1 t2 : list event) :
  checkouts (t1 ++ t2) = checkouts t1 ++ checkouts t2.
Proof. unfold checkouts. apply flat_map_app. Qed.

Lemma applied_apply_iterators (k p : Z) :
  applied (apply_iterators k p) = positions p (p + k).
Proof.
  unfold apply_iterators, positions. replace (p + k - p) with k by lia.
  unfold applied.
  induction (seq 0 (Z.to_nat k)) as [|i l IH]; [reflexivity|].
  cbn [map flat_map app]. now rewrite IH.
Qed.

Lemma checkouts_apply_iterators (k p : Z) : checkouts (apply_iterators k p) = [].
Proof.
  unfold apply_iterators, checkouts.
  induction (seq 0 (Z.to_nat k)) as [|i l IH]; [reflexivity|].
  cbn [map flat_map app]. exact IH.
Qed.

Lemma applied_chunk_events (p k : Z) : applied (chunk_events p k) = positions p (p + k).
Proof.
  unfold chunk_events.
  change (Checkout p k :: apply_iterators k p ++ [EndOfChunk p k])
    with ([Checkout p k] ++ apply_iterators k p ++ [EndOfChunk p k]).
  rewrite !applied_app, applied_apply_iterators. cbn. apply app_nil_r.
Qed.

Lemma checkouts_chunk_events (p k : Z) : checkouts (chunk_events p k) = [(p, k)].
Proof.
  unfold chunk_events.
  change (Checkout p k :: apply_iterators k p ++ [EndOfChunk p k])
    with ([Checkout p k] ++ apply_iterators k p ++ [EndOfChunk p k]).
  rewrite !checkouts_app, checkouts_apply_iterators. reflexivity.
Qed.

Lemma chunks_for_count (n c : Z) :
  0 <= n -> 0 < c -> chunks_for n c (Z.to_nat ((n + c - 1) / c)).
Proof.
  intros Hn Hc. unfold chunks_for.
  pose proof (Z.div_mod (n + c - 1) c ltac:(lia)) as Hdm.
  pose proof (Z.mod_pos_bound (n + c - 1) c Hc) as Hm.
  assert (0 <= (n + c - 1) / c) by (apply Z.div_pos; lia).
  rewrite Z2Nat.id by lia. split; [nia|].
  destruct (Z.eq_dec ((n + c - 1) / c) 0) as [H0|H0]; [left; lia | right; nia].
Qed.

Lemma chunks_shift (n c first : Z) (m : nat) :
  map (chunk_at n c first) (seq 1 m) = map (chunk_at (n - c) c (first + c)) (seq 0 m).
Proof.
  rewrite <- seq_shift, map_map. apply map_ext. intros i. unfold chunk_at.
  f_equal; [lia|]. f_equal. lia.
Qed.

Lemma chunk_loop_run (m : nat) :
  forall (fuel : nat) (n c d first : Z) (done : list event),
    0 < c -> 0 <= d -> n + c <= size_max ->
    chunks_for (n - d) c m -> (m <= fuel)%nat ->
    chunk_loop fuel n c d first done
    = (true, done ++ flat_map events_of (map (chunk_at (n - d) c first) (seq 0 m))).
Proof.
  induction m as [|m IH]; intros fuel n c d first done Hc Hd Hn (Hup & Hlow) Hfuel.
  - cbn [seq map flat_map]. rewrite app_nil_r.
    assert (Hdn : (d <? n) = false) by (apply Z.ltb_ge; lia).
    destruct fuel; cbn [chunk_loop]; rewrite Hdn; reflexivity.
  - destruct fuel as [|fuel]; [lia|]. cbn [chunk_loop].
    assert (Hlt : d < n) by (destruct Hlow as [|Hlow]; [discriminate | nia]).
    replace (d <? n) with true by (symmetry; apply Z.ltb_lt; lia).
    unfold size_max in *.
    rewrite (Z.mod_small (n - d)), (Z.mod_small (d + c)) by lia.
    change (seq 0 (S m)) with (0%nat :: seq 1 m). cbn [map flat_map].
    rewrite chunks_shift.
    change (events_of (chunk_at (n - d) c first 0))
      with (chunk_events (first + 0 * c) (Z.min (n - d - 0 * c) c)).
    replace (first + 0 * c) with first by lia.
    replace (n - d - 0 * c) with (n - d) by lia.
    destruct m as [|m].
    + rewrite (IH fuel n c (d + c) _ _ Hc) by (unfold chunks_for; lia || (split; [lia | now left])).
      cbn [seq map flat_map]. rewrite !app_nil_r. reflexivity.
    + assert (Hmin : Z.min (n - d) c = c) by nia.
      rewrite Hmin.
      rewrite (IH fuel n c (d + c) (first + c) _ Hc); [| lia | lia | | lia].
      * rewrite <- app_assoc. replace (n - (d + c)) with (n - d - c) by lia. reflexivity.
      * split; [nia | right; nia].
Qed.

Lemma applied_chunks (m : nat) :
  forall n c first, 0 < c -> 0 <= n -> chunks_for n c m ->
    applied (flat_map events_of (map (chunk_at n c first) (seq 0 m)))
    = positions first (first + n).
Proof.
  induction m as [|m IH]; intros n c first Hc Hn (Hup & Hlow).
  - assert (n = 0) by lia. subst n. cbn. unfold positions.
    replace (first + 0 - first) with 0 by lia. reflexivity.
  - change (seq 0 (S m)) with (0%nat :: seq 1 m). cbn [map flat_map].
    rewrite chunks_shift, applied_app.
    change (events_of (chunk_at n c first 0))
      with (chunk_events (first + 0 * c) (Z.min (n - 0 * c) c)).
    replace (first + 0 * c) with first by lia.
    replace (n - 0 * c) with n by lia.
    rewrite applied_chunk_events.
    assert (Hlt : 0 < n) by (destruct Hlow as [|Hlow]; [discriminate | nia]).
    destruct m as [|m].
    + cbn [seq map flat_map applied]. rewrite app_nil_r.
      replace (Z.min n c) with n by lia. reflexivity.
    + assert (Hmin : Z.min n c = c) by nia. rewrite Hmin.
      rewrite (IH (n - c) c (first + c) Hc); [| nia | split; [nia | right; nia]].
      replace (first + c + (n - c)) with (first + n) by lia.
      apply positions_app; nia.
Qed.

Lemma checkouts_chunks (l : list (Z * Z)) : checkouts (flat_map events_of l) = l.
Proof.
  induction l as [|[p k] l IH]; [reflexivity|].
  cbn [flat_map]. rewrite checkouts_app, IH.
  unfold events_of. cbn [fst snd]. now rewrite checkouts_chunk_events.
Qed.

Lemma plain_loop_run (k : nat) :
  forall (fuel : nat) (first last : Z) (done : list event),
    last - first = Z.of_nat k -> (k <= fuel)%nat ->
    plain_loop fuel first last done = (true, done ++ map Apply (positions first last)).
Proof.
  induction k as [|k IH]; intros fuel first last done Hk Hfuel.
  - assert (first = last) by lia. subst last. unfold positions.
    replace (first - first) with 0 by lia. cbn [Z.to_nat seq map]. rewrite app_nil_r.
    destruct fuel; cbn [plain_loop]; rewrite Z.eqb_refl; reflexivity.
  - destruct fuel as [|fuel]; [lia|]. cbn [plain_loop].
    replace (first =? last) with false by (symmetry; apply Z.eqb_neq; lia).
    rewrite (IH fuel (first + 1) last) by lia.
    rewrite <- app_assoc. f_equal. f_equal.
    rewrite <- (positions_app first (first + 1) last) by lia.
    rewrite map_app. f_equal.
    unfold positions. replace (first + 1 - first) with 1 by lia.
    change (Z.to_nat 1) with 1%nat. cbn [seq map Z.of_nat].
    now rewrite Z.add_0_r.
Qed.

(** X13: the serial [for_each_aux] over the global range [first, last) with a
    positive [checkout_count] c.  It ends after ceil(n / c) iterations; it
    applies [op] to every position of the range once, in order; the i-th
    checkout is of min(c, n - i c) elements at [first + i c], so the checkouts
    are never empty, never of more than c elements, inside the range, and each
    one is given up before the next is made.  Over iterators that are not
    global the loop applies [op] to the same positions, with no checkout. *)
Theorem X13_for_each_chunks (policy : sequenced_policy) (first last : Z) (fuel : nat) :
  let n := last - first in
  let c := checkout_count policy in
  0 < c -> first <= last -> n + c <= size_max ->
  (n + c - 1) / c <= Z.of_nat fuel ->
  exists tr,
    for_each_aux true fuel policy first last = (true, tr) /\
    applied tr = positions first last /\
    checkouts tr = map (chunk_at n c first) (seq 0 (Z.to_nat ((n + c - 1) / c))) /\
    Forall (fun ch => 1 <= snd ch <= c /\ first <= fst ch /\ fst ch + snd ch <= last)
      (checkouts tr) /\
    tr = flat_map events_of (checkouts tr) /\
    (n <= Z.of_nat fuel ->
     for_each_aux false fuel policy first last = (true, map Apply (positions first last))).
Proof.
  intros n c Hc Hle Hn Hfuel.
  set (m := Z.to_nat ((n + c - 1) / c)).
  assert (Hm : chunks_for n c m) by (apply chunks_for_count; unfold n; lia).
  exists (flat_map events_of (map (chunk_at n c first) (seq 0 m))).
  assert (Hsmall : (last - first) mod size_max = n).
  { apply Z.mod_small. unfold n, size_max in *. lia. }
  split; [|split; [|split; [|split; [|split]]]].
  - unfold for_each_aux. fold c. rewrite Hsmall.
    rewrite (chunk_loop_run m fuel n c 0 first []); try lia.
    + replace (n - 0) with n by lia. reflexivity.
    + replace (n - 0) with n by lia. exact Hm.
  - rewrite (applied_chunks m n c first Hc ltac:(unfold n; lia) Hm).
    unfold n. f_equal. lia.
  - apply checkouts_chunks.
  - rewrite checkouts_chunks. apply List.Forall_forall. intros ch Hin.
    apply in_map_iff in Hin. destruct Hin as (i & <- & Hi). apply in_seq in Hi.
    destruct Hm as (Hup & Hlow). unfold chunk_at. cbn [fst snd].
    destruct Hlow as [Hlow|Hlow]; [lia|].
    assert (Z.of_nat i * c <= (Z.of_nat m - 1) * c) by nia.
    unfold n in *. lia.
  - now rewrite checkouts_chunks.
  - intros Hplain. unfold for_each_aux.
    apply (plain_loop_run (Z.to_nat n) fuel first last []); unfold n in *; lia.
Qed.

(** X14: the same loop with [checkout_count] 0 over a range that is not empty
    never ends: however many iterations are run, the loop is still going, it
    has made that many checkouts of no element, all at [first], and has applied
    [op] to nothing.  [assert_policy] refuses such a policy where ITYR_CHECK is
    compiled in. *)
Theorem X14_zero_checkout_count (policy : sequenced_policy) (first last : Z) (fuel : nat) :
  checkout_count policy = 0 -> first < last -> last - first < size_max ->
  for_each_aux true fuel policy first last
    = (false, flat_map events_of (repeat (first, 0) fuel)) /\
  applied (snd (for_each_aux true fuel policy first last)) = [] /\
  checkouts (snd (for_each_aux true fuel policy first last)) = repeat (first, 0) fuel /\
  assert_policy_seq true policy = false.
Proof.
  intros Hc Hlt Hn.
  assert (Hrun : forall fuel done,
             chunk_loop fuel ((last - first) mod size_max) 0 0 first done
             = (false, done ++ flat_map events_of (repeat (first, 0) fuel))).
  { rewrite Z.mod_small by lia.
    assert (Hpos : (0 <? last - first) = true) by (apply Z.ltb_lt; lia).
    induction fuel0 as [|f IH]; intros done; cbn [chunk_loop].
    - rewrite Hpos. cbn. now rewrite app_nil_r.
    - rewrite Hpos.
      replace (Z.min ((last - first - 0) mod size_max) 0) with 0
        by (pose proof (Z.mod_pos_bound (last - first - 0) size_max ltac:(reflexivity)); lia).
      change ((0 + 0) mod size_max) with 0. replace (first + 0) with first by lia.
      rewrite IH. rewrite <- app_assoc. reflexivity. }
  assert (Heq : for_each_aux true fuel policy first last
                = (false, flat_map events_of (repeat (first, 0) fuel))).
  { unfold for_each_aux. rewrite Hc. apply (Hrun fuel []). }
  rewrite Heq. cbn [snd]. split; [reflexivity|]. split; [|split].
  - clear. induction fuel as [|f IH]; [reflexivity|]. cbn [repeat flat_map].
    rewrite applied_app, IH. reflexivity.
  - apply checkouts_chunks.
  - unfold assert_policy_seq, ITYR_CHECK. rewrite Hc. reflexivity.
Qed.

End SerialChunks.

Section SerialRuns.
Import SerialLoop.

(** X13, run: ten elements from position 100, four at a time. *)
Lemma X13_for_each_chunks_witness :
  exists tr,
    for_each_aux true 3 (mk_sequenced_policy 4) 100 110 = (true, tr) /\
    checkouts tr = [(100, 4); (104, 4); (108, 2)] /\
    applied tr = [100; 101; 102; 103; 104; 105; 106; 107; 108; 109].
Proof.
  destruct (X13_for_each_chunks (mk_sequenced_policy 4) 100 110 3
              ltac:(cbn; lia) ltac:(lia) ltac:(vm_compute; discriminate)
              ltac:(vm_compute; discriminate))
    as (tr & Hrun & Happ & Hch & _).
  exists tr. split; [exact Hrun|]. split; [exact Hch | exact Happ].
Defined.

(** X14, run: the same range with [checkout_count] 0, five iterations on. *)
Lemma X14_zero_checkout_count_witness :
  fst (for_each_aux true 5 (mk_sequenced_policy 0) 100 110) = false /\
  applied (snd (for_each_aux true 5 (mk_sequenced_policy 0) 100 110)) = [].
Proof.
  destruct (X14_zero_checkout_count (mk_sequenced_policy 0) 100 110 5
              eq_refl ltac:(lia) ltac:(vm_compute; reflexivity))
    as (Hrun & Happ & _).
  split; [now rewrite Hrun | exact Happ].
Defined.

End SerialRuns.

(** ** global_vector: growth and the memory it holds *)

Section VectorGrowth.
Import GlobalVector GlobalVectorOps GlobalVectorState.
Variables trivially_destructible check_enabled is_spmd is_root : bool.
Variable heap : Type.
Variables ori_malloc ori_malloc_coll : heap -> Z -> Z * heap.
Variable ori_free : heap -> Z -> Z -> heap.
Variable ori_free_coll : heap -> Z -> heap.

Local Abbreviation realloc_mem :=
  (GlobalVectorOps.realloc_mem trivially_destructible is_spmd is_root heap
     ori_malloc ori_malloc_coll ori_free ori_free_coll).
Local Abbreviation push_back :=
  (GlobalVectorOps.push_back trivially_destructible check_enabled is_spmd is_root heap
     ori_malloc ori_malloc_coll ori_free ori_free_coll).
Local Abbreviation push_back_impl :=
  (GlobalVectorOps.push_back_impl trivially_destructible check_enabled is_spmd is_root heap
     ori_malloc ori_malloc_coll ori_free ori_free_coll).
Local Abbreviation emplace_back :=
  (GlobalVectorOps.emplace_back trivially_destructible check_enabled is_spmd is_root heap
     ori_malloc ori_malloc_coll ori_free ori_free_coll).
Local Abbreviation emplace_each :=
  (GlobalVectorOps.emplace_each trivially_destructible check_enabled is_spmd is_root heap
     ori_malloc ori_malloc_coll ori_free ori_free_coll).
Local Abbreviation construct_input_range :=
  (GlobalVectorOps.construct_input_range trivially_destructible check_enabled is_spmd
     is_root heap ori_malloc ori_malloc_coll ori_free ori_free_coll).
Local Abbreviation pop_back := (GlobalVectorOps.pop_back check_enabled heap).
Local Abbreviation reserve :=
  (GlobalVectorOps.reserve trivially_destructible is_spmd is_root heap
     ori_malloc ori_malloc_coll ori_free ori_free_coll).
Local Abbreviation resize :=
  (GlobalVectorOps.resize trivially_destructible is_spmd is_root heap
     ori_malloc ori_malloc_coll ori_free ori_free_coll).
Local Abbreviation clear := (GlobalVectorOps.clear trivially_destructible is_spmd is_root heap).
Local Abbreviation destructor :=
  (GlobalVectorOps.destructor trivially_destructible is_spmd is_root heap
     ori_free ori_free_coll).
Local Abbreviation apply_operation :=
  (GlobalVectorOps.apply_operation trivially_destructible check_enabled is_spmd is_root
     heap ori_malloc ori_malloc_coll ori_free ori_free_coll).
Local Abbreviation apply_operations :=
  (GlobalVectorOps.apply_operations trivially_destructible check_enabled is_spmd is_root
     heap ori_malloc ori_malloc_coll ori_free ori_free_coll).
Local Abbreviation construct_count :=
  (GlobalVectorOps.construct_count is_spmd is_root heap ori_malloc ori_malloc_coll).
Local Abbreviation construct_range :=
  (GlobalVectorOps.construct_range is_spmd is_root heap ori_malloc ori_malloc_coll).
Local Abbreviation world := (GlobalVectorOps.world heap).

Local Ltac size_lia :=
  unfold size_max in *; change (2 ^ 64) with 18446744073709551616 in *; lia.

Lemma well_formed_size (v : object) :
  well_formed v ->
  size (ptrs v) = end_ (ptrs v) - begin_ (ptrs v) /\
  capacity (ptrs v) = reserved_end_ (ptrs v) - begin_ (ptrs v) /\
  0 <= size (ptrs v) <= capacity (ptrs v) /\ capacity (ptrs v) < size_max.
Proof.
  intros ((Hbe & Her) & Hcap). unfold size, capacity, size_max in *.
  rewrite !Z.mod_small by lia. lia.
Qed.

Lemma mallocs_app (c1 c2 : list call) : mallocs (c1 ++ c2) = mallocs c1 + mallocs c2.
Proof. unfold mallocs. rewrite List.filter_app, length_app. lia. Qed.

Lemma moved_app (c1 c2 : list call) : moved (c1 ++ c2) = moved c1 + moved c2.
Proof.
  unfold moved. rewrite map_app.
  induction (map _ c1) as [|x l IH]; cbn [app fold_right]; lia.
Qed.

(** The calls of [realloc_mem] on a vector that is not collective. *)
Lemma realloc_mem_run (v : object) (count : Z) (w : world) :
  collective (opts_ v) = false ->
  let b := begin_ (ptrs v) in
  let e := end_ (ptrs v) in
  let p := fst (ori_malloc (heap_ heap w) count) in
  exists w',
    realloc_mem v count w = Done (with_ptrs v p (p + (e - b)) (p + count), w') /\
    calls_ heap w' =
      calls_ heap w ++ Malloc count p ::
        (if 0 <? e - b
         then ConstructFrom Called (parallel_construct (opts_ v)) (cutoff_count (opts_ v))
                (MovedFrom b e) p ::
              (if trivially_destructible then []
               else [Destruct Called (parallel_destruct (opts_ v)) (cutoff_count (opts_ v)) b e])
         else []) ++
        (if 0 <? capacity (ptrs v) then [Free b (capacity (ptrs v))] else []).
Proof.
  intros Hcoll b e p. subst b e p.
  unfold GlobalVectorOps.realloc_mem, allocate_mem, construct_elems_from_iter,
    destruct_elems, free_mem, root_exec_if_coll, bind, malloc, free, emit, ret.
  cbn [opts_ with_ptrs]. rewrite Hcoll.
  destruct (ori_malloc (heap_ heap w) count) as [p h]. cbn [fst heap_ calls_].
  destruct (0 <? end_ (ptrs v) - begin_ (ptrs v));
    destruct trivially_destructible; destruct (0 <? capacity (ptrs v));
    cbn [heap_ calls_]; eexists; (split; [reflexivity|]); cbn [calls_];
    rewrite <- ?app_assoc; reflexivity.
Qed.

(** What [push_back] does to a vector that is not collective. *)
Lemma push_back_run (v : object) (w : world) :
  collective (opts_ v) = false ->
  exists v1 w1 w',
    (if size (ptrs v) =? capacity (ptrs v)
     then realloc_mem v (next_size v ((size (ptrs v) + 1) mod size_max)) w = Done (v1, w1)
     else v1 = v /\ w1 = w) /\
    push_back v w
    = Done (with_ptrs v1 (begin_ (ptrs v1)) (end_ (ptrs v1) + 1) (reserved_end_ (ptrs v1)), w') /\
    calls_ heap w' = calls_ heap w1 ++ [PlaceAt (end_ (ptrs v1))].
Proof.
  intros Hcoll.
  unfold GlobalVectorOps.push_back, GlobalVectorOps.push_back_impl, bind, check, ITYR_CHECK.
  rewrite Hcoll. cbn [negb orb]. rewrite orb_true_r.
  destruct (size (ptrs v) =? capacity (ptrs v)).
  - destruct (realloc_mem_run v (next_size v ((size (ptrs v) + 1) mod size_max)) w Hcoll)
      as (w1 & Hre & _).
    rewrite Hre. unfold emit, ret. do 3 eexists. split; [reflexivity|].
    split; reflexivity.
  - unfold emit, ret. exists v, w. eexists. split; [now split|]. split; reflexivity.
Qed.

Lemma push_back_effect (v : object) (w : world) :
  collective (opts_ v) = false ->
  well_formed v ->
  size (ptrs v) < capacity (ptrs v) \/ 2 * size (ptrs v) < size_max ->
  exists v' w',
    push_back v w = Done (v', w') /\
    opts_ v' = opts_ v /\
    well_formed v' /\
    size (ptrs v') = size (ptrs v) + 1 /\
    capacity (ptrs v') =
      (if size (ptrs v) <? capacity (ptrs v) then capacity (ptrs v)
       else Z.max (size (ptrs v) + 1) (2 * size (ptrs v))) /\
    (size (ptrs v) < capacity (ptrs v) ->
     begin_ (ptrs v') = begin_ (ptrs v) /\
     reserved_end_ (ptrs v') = reserved_end_ (ptrs v) /\
     calls_ heap w' = calls_ heap w ++ [PlaceAt (end_ (ptrs v))]) /\
    (size (ptrs v) = capacity (ptrs v) ->
     begin_ (ptrs v') = fst (ori_malloc (heap_ heap w) (capacity (ptrs v'))) /\
     mallocs (calls_ heap w') = mallocs (calls_ heap w) + 1 /\
     moved (calls_ heap w') = moved (calls_ heap w) + size (ptrs v) /\
     last (calls_ heap w') = Some (PlaceAt (begin_ (ptrs v') + size (ptrs v)))).
Proof.
  intros Hcoll Hwf Hsmall.
  destruct (well_formed_size v Hwf) as (Hsz & Hcp & Hle & Hmax).
  destruct (push_back_run v w Hcoll) as (v1 & w1 & w' & Hgrow & Hrun & Hcalls).
  exists (with_ptrs v1 (begin_ (ptrs v1)) (end_ (ptrs v1) + 1) (reserved_end_ (ptrs v1))), w'.
  split; [exact Hrun|].
  destruct (Z.eqb_spec (size (ptrs v)) (capacity (ptrs v))) as [Heq|Hne].
  1: assert (Hsmall' : 2 * size (ptrs v) < size_max) by (destruct Hsmall; [lia | assumption]).
  1: clear Hsmall; rename Hsmall' into Hsmall.
  2: clear Hsmall.
  - set (nc := next_size v ((size (ptrs v) + 1) mod size_max)) in *.
    assert (Hnc : nc = Z.max (size (ptrs v) + 1) (2 * size (ptrs v))).
    { unfold nc, next_size, size_max in *. rewrite !Z.mod_small by lia.
      f_equal. apply Z.mul_comm. }
    clearbody nc.
    destruct (realloc_mem_run v nc w Hcoll) as (w1' & Hre & Hc1).
    rewrite Hre in Hgrow. injection Hgrow as <- <-.
    cbn [ptrs with_ptrs begin_ end_ reserved_end_ opts_] in *.
    set (p := fst (ori_malloc (heap_ heap w) nc)) in *.
    assert (Hp : p = fst (ori_malloc (heap_ heap w) nc)) by reflexivity.
    clearbody p.
    assert (Hsz' : size (mk_global_vector p (p + (end_ (ptrs v) - begin_ (ptrs v)) + 1) (p + nc))
                   = size (ptrs v) + 1).
    { unfold size at 1. cbn [ptrs with_ptrs begin_ end_]. unfold size_max in *.
      rewrite Z.mod_small by lia. lia. }
    assert (Hcp' : capacity (mk_global_vector p (p + (end_ (ptrs v) - begin_ (ptrs v)) + 1) (p + nc))
                   = nc).
    { unfold capacity at 1. cbn [ptrs with_ptrs begin_ reserved_end_]. unfold size_max in *.
      rewrite Z.mod_small by lia. lia. }
    split; [reflexivity|]. split.
    { unfold well_formed. cbn [ptrs with_ptrs begin_ end_ reserved_end_]. size_lia. }
    split; [exact Hsz'|]. split.
    { rewrite Hcp'. replace (size (ptrs v) <? capacity (ptrs v)) with false
        by (symmetry; apply Z.ltb_ge; lia). exact Hnc. }
    split; [intros; lia|].
    intros _. rewrite Hcp'. split; [exact Hp|].
    rewrite Hcalls, Hc1.
    rewrite !mallocs_app, !moved_app. split; [|split].
    + change (Malloc nc p :: ?l) with ([Malloc nc p] ++ l).
      rewrite !mallocs_app.
      destruct (0 <? _); destruct trivially_destructible; destruct (0 <? _);
        unfold mallocs; cbn; lia.
    + change (Malloc nc p :: ?l) with ([Malloc nc p] ++ l).
      rewrite !moved_app.
      destruct (Z.ltb_spec 0 (end_ (ptrs v) - begin_ (ptrs v)));
        destruct trivially_destructible; destruct (0 <? capacity (ptrs v));
        unfold moved; cbn; lia.
    + rewrite last_snoc. do 2 f_equal. lia.
  - destruct Hgrow as (-> & ->).
    cbn [ptrs with_ptrs begin_ end_ reserved_end_ opts_] in *.
    assert (Hsz' : size (mk_global_vector (begin_ (ptrs v)) (end_ (ptrs v) + 1)
                           (reserved_end_ (ptrs v))) = size (ptrs v) + 1).
    { unfold size at 1. cbn [ptrs with_ptrs begin_ end_]. unfold size_max in *.
      rewrite Z.mod_small by lia. lia. }
    split; [reflexivity|]. split.
    { unfold well_formed. cbn [ptrs with_ptrs begin_ end_ reserved_end_].
      destruct Hwf as (? & ?). size_lia. }
    split; [exact Hsz'|]. split.
    { replace (size (ptrs v) <? capacity (ptrs v)) with true
        by (symmetry; apply Z.ltb_lt; lia). reflexivity. }
    split; [|intros; lia].
    intros _. split; [reflexivity|]. split; [reflexivity | exact Hcalls].
Qed.


(** X15: [push_back] on a vector that is not collective, whose pointers are in
    order, of fewer than 2^63 elements.  The size grows by one.  If there is
    room (size < capacity) nothing is allocated or moved and the three
    pointers but [end_] stay: the only call is the construction of the new
    element at the old [end_].  If there is none, the capacity becomes
    max(size + 1, 2 size), one block of that size is allocated, the [size]
    elements are moved to it, and the new element is constructed behind them.
    On a collective vector the ITYR_CHECK fails. *)
Theorem X15_push_back_growth (v : object) (w : world) :
  collective (opts_ v) = false ->
  well_formed v ->
  2 * size (ptrs v) < size_max ->
  exists v' w',
    push_back v w = Done (v', w') /\
    opts_ v' = opts_ v /\
    well_formed v' /\
    size (ptrs v') = size (ptrs v) + 1 /\
    capacity (ptrs v') =
      (if size (ptrs v) <? capacity (ptrs v) then capacity (ptrs v)
       else Z.max (size (ptrs v) + 1) (2 * size (ptrs v))) /\
    (size (ptrs v) < capacity (ptrs v) ->
     begin_ (ptrs v') = begin_ (ptrs v) /\
     reserved_end_ (ptrs v') = reserved_end_ (ptrs v) /\
     calls_ heap w' = calls_ heap w ++ [PlaceAt (end_ (ptrs v))]) /\
    (size (ptrs v) = capacity (ptrs v) ->
     begin_ (ptrs v') = fst (ori_malloc (heap_ heap w) (capacity (ptrs v'))) /\
     mallocs (calls_ heap w') = mallocs (calls_ heap w) + 1 /\
     moved (calls_ heap w') = moved (calls_ heap w) + size (ptrs v) /\
     last (calls_ heap w') = Some (PlaceAt (begin_ (ptrs v') + size (ptrs v)))) /\
    (forall u, collective (opts_ u) = true -> check_enabled = true ->
               push_back u w = CheckFails).
Proof.
  intros Hcoll Hwf Hsmall.
  destruct (push_back_effect v w Hcoll Hwf (or_intror Hsmall))
    as (v' & w' & Hrun & Ho & Hwf' & Hsz & Hcap & Hroom & Hfull).
  exists v', w'. repeat (split; [assumption|]).
  intros u Hu Hce. unfold GlobalVectorOps.push_back, GlobalVectorOps.push_back_impl,
    bind, check, ITYR_CHECK. rewrite Hu, Hce. reflexivity.
Qed.


Lemma grown_capacity_bounds (k : Z) :
  0 < k -> k <= grown_capacity k < 2 * k.
Proof.
  intros Hk. unfold grown_capacity.
  replace (k =? 0) with false by (symmetry; apply Z.eqb_neq; lia).
  destruct (Z.eq_dec k 1) as [->|Hk1]; [cbn; lia|].
  pose proof (Z.log2_up_spec k ltac:(lia)) as (Hlo & Hhi).
  pose proof (Z.log2_up_pos k ltac:(lia)) as Hpos.
  replace (Z.log2_up k) with (Z.succ (Z.pred (Z.log2_up k))) at 2 by lia.
  rewrite Z.pow_succ_r by lia. lia.
Qed.

Lemma grown_capacity_next (k : Z) :
  0 <= k ->
  grown_capacity (k + 1)
  = (if k <? grown_capacity k then grown_capacity k else Z.max (k + 1) (2 * k)) /\
  growth_steps (k + 1) = growth_steps k + (if k <? grown_capacity k then 0 else 1).
Proof.
  intros Hk. destruct (Z.eq_dec k 0) as [->|Hk0]; [split; reflexivity|].
  pose proof (grown_capacity_bounds k ltac:(lia)) as Hb.
  unfold grown_capacity, growth_steps in *.
  replace (k =? 0) with false in * by (symmetry; apply Z.eqb_neq; lia).
  replace (k + 1 =? 0) with false by (symmetry; apply Z.eqb_neq; lia).
  pose proof (Z.log2_up_nonneg k) as Hj.
  destruct (Z.ltb_spec k (2 ^ Z.log2_up k)) as [Hlt|Hge].
  - assert (Hk1 : 1 < k).
    { destruct (Z.eq_dec k 1) as [->|]; [cbn in Hlt; lia | lia]. }
    pose proof (Z.log2_up_spec k Hk1) as (Hlo & Hhi).
    pose proof (Z.log2_up_pos k Hk1) as Hpos.
    rewrite (Z.log2_up_unique (k + 1) (Z.log2_up k)) by lia.
    split; lia.
  - assert (Heq : 2 ^ Z.log2_up k = k) by lia.
    rewrite (Z.log2_up_unique (k + 1) (Z.log2_up k + 1)).
    + rewrite Z.pow_add_r by lia. change (2 ^ 1) with 2. split; lia.
    + lia.
    + replace (Z.pred (Z.log2_up k + 1)) with (Z.log2_up k) by lia.
      rewrite Z.pow_add_r by lia. change (2 ^ 1) with 2. lia.
Qed.

Lemma emplace_each_run (n : nat) :
  forall (v : object) (w : world),
    collective (opts_ v) = false ->
    well_formed v ->
    capacity (ptrs v) = grown_capacity (size (ptrs v)) ->
    size (ptrs v) + Z.of_nat n < 2 ^ 62 ->
    exists v' w',
      emplace_each n v w = Done (v', w') /\
      opts_ v' = opts_ v /\
      well_formed v' /\
      size (ptrs v') = size (ptrs v) + Z.of_nat n /\
      capacity (ptrs v') = grown_capacity (size (ptrs v')) /\
      mallocs (calls_ heap w')
      = mallocs (calls_ heap w) + growth_steps (size (ptrs v')) - growth_steps (size (ptrs v)) /\
      moved (calls_ heap w')
      = moved (calls_ heap w) + Z.max 0 (grown_capacity (size (ptrs v')) - 1)
        - Z.max 0 (grown_capacity (size (ptrs v)) - 1).
Proof.
  induction n as [|n IH]; intros v w Hcoll Hwf Hcap Hsmall.
  - exists v, w. cbn [GlobalVectorOps.emplace_each]. unfold ret.
    rewrite Z.add_0_r. repeat split; try assumption; try lia; apply Hwf.
  - destruct (well_formed_size v Hwf) as (_ & _ & Hle & _).
    destruct (push_back_effect v w Hcoll Hwf ltac:(right; size_lia))
      as (v1 & w1 & Hrun & Ho & Hwf1 & Hsz1 & Hcap1 & Hroom & Hfull).
    destruct (grown_capacity_next (size (ptrs v)) ltac:(lia)) as (Hgc & Hgs).
    rewrite <- Hcap in Hgc, Hgs.
    assert (Hcap1' : capacity (ptrs v1) = grown_capacity (size (ptrs v1))).
    { rewrite Hsz1, Hgc. exact Hcap1. }
    destruct (IH v1 w1 ltac:(congruence) Hwf1 Hcap1' ltac:(lia))
      as (v' & w' & Hrun' & Ho' & Hwf' & Hsz' & Hcap' & Hm' & Hmv').
    exists v', w'. cbn [GlobalVectorOps.emplace_each].
    unfold bind at 1. unfold GlobalVectorOps.emplace_back, bind at 1.
    unfold GlobalVectorOps.push_back in Hrun. rewrite Hrun. unfold ret at 1. cbn [snd].
    split; [exact Hrun'|]. split; [congruence|]. split; [exact Hwf'|].
    split; [lia|]. split; [exact Hcap'|].
    rewrite Hm', Hmv', Hsz1, Hgs.
    destruct (Z.ltb_spec (size (ptrs v)) (capacity (ptrs v))) as [Hlt|Hge].
    + destruct (Hroom Hlt) as (_ & _ & Hc). rewrite Hc, mallocs_app, moved_app.
      rewrite Hcap1', Hsz1 in Hcap1. rewrite Hcap1, <- Hcap.
      unfold mallocs, moved. cbn. lia.
    + assert (Heq : size (ptrs v) = capacity (ptrs v)) by lia.
      destruct (Hfull Heq) as (_ & Hm1 & Hmv1 & _). rewrite Hm1, Hmv1.
      rewrite Hcap1', Hsz1 in Hcap1. rewrite Hcap1, <- Hcap. lia.
Qed.

(** X16: the constructor from a range of input iterators, which appends the
    [n] elements (fewer than 2^62) one by one to a vector that is not
    collective.  The result has [n] elements and, for n > 0, the capacity
    2^ceil(log2 n): the least power of two that is at least [n], so less than
    2 n.  It made ceil(log2 n) + 1 allocations and moved capacity - 1 elements
    in all between blocks, fewer than 2 n. *)
Theorem X16_input_range_growth (opts : global_vector_options) (n : nat) (w : world) :
  collective opts = false ->
  parallel_construct opts = false ->
  Z.of_nat n < 2 ^ 62 ->
  exists v w',
    construct_input_range opts n w = Done (v, w') /\
    opts_ v = opts /\
    well_formed v /\
    size (ptrs v) = Z.of_nat n /\
    capacity (ptrs v) = (if Z.of_nat n =? 0 then 0 else 2 ^ Z.log2_up (Z.of_nat n)) /\
    mallocs (calls_ heap w')
    = mallocs (calls_ heap w) + (if Z.of_nat n =? 0 then 0 else Z.log2_up (Z.of_nat n) + 1) /\
    moved (calls_ heap w') = moved (calls_ heap w) + Z.max 0 (capacity (ptrs v) - 1) /\
    (0 < Z.of_nat n ->
     Z.of_nat n <= capacity (ptrs v) < 2 * Z.of_nat n /\
     moved (calls_ heap w') - moved (calls_ heap w) < 2 * Z.of_nat n).
Proof.
  intros Hcoll Hpar Hn.
  assert (Hwf : well_formed (nulled opts)).
  { unfold well_formed, nulled. cbn. unfold size_max. lia. }
  destruct (emplace_each_run n (nulled opts) w Hcoll Hwf eq_refl
              ltac:(change (size (ptrs (nulled opts))) with 0; lia))
    as (v & w' & Hrun & Ho & Hwf' & Hsz & Hcap & Hm & Hmv).
  change (size (ptrs (nulled opts))) with 0 in *.
  change (growth_steps 0) with 0 in Hm. change (grown_capacity 0) with 0 in Hmv.
  rewrite Z.add_0_l in Hsz. rewrite Hsz in *.
  exists v, w'.
  split.
  { unfold GlobalVectorOps.construct_input_range, initialize_from_input_iter, bind, check,
      ITYR_CHECK. cbn [opts_ nulled]. rewrite Hcoll, Hpar. cbn [negb]. rewrite !orb_true_r.
    exact Hrun. }
  split; [exact Ho|]. split; [exact Hwf'|]. split; [exact Hsz|].
  split; [exact Hcap|]. split; [rewrite Hm; unfold growth_steps; lia|].
  split; [rewrite Hmv, Hcap; lia|].
  intros Hpos. pose proof (grown_capacity_bounds (Z.of_nat n) Hpos) as Hb.
  rewrite Hcap. split; [exact Hb|]. rewrite Hmv. lia.
Qed.


(** What [reserve] does to a vector that is not collective. *)
Lemma reserve_effect (v : object) (new_cap : Z) (w : world) :
  collective (opts_ v) = false ->
  well_formed v ->
  0 <= new_cap < size_max ->
  exists v' w',
    reserve v new_cap w = Done (v', w') /\
    opts_ v' = opts_ v /\
    well_formed v' /\
    size (ptrs v') = size (ptrs v) /\
    capacity (ptrs v') = Z.max (capacity (ptrs v)) new_cap /\
    (new_cap <= capacity (ptrs v) -> v' = v /\ w' = w) /\
    mallocs (calls_ heap w')
    = mallocs (calls_ heap w) + (if capacity (ptrs v) <? new_cap then 1 else 0) /\
    moved (calls_ heap w')
    = moved (calls_ heap w) + (if capacity (ptrs v) <? new_cap then size (ptrs v) else 0).
Proof.
  intros Hcoll Hwf Hrange.
  destruct (well_formed_size v Hwf) as (Hsz & Hcp & Hle & Hmax).
  unfold GlobalVectorOps.reserve.
  destruct (Z.eqb_spec (capacity (ptrs v)) 0) as [Hc0|Hc0];
    [destruct (Z.ltb_spec 0 new_cap) as [Hpos|Hnpos]|]; cbn [andb].
  - unfold bind, allocate_mem, malloc, ret. rewrite Hcoll.
    destruct (ori_malloc (heap_ heap w) new_cap) as [p h].
    do 2 eexists. split; [reflexivity|].
    cbn [opts_ ptrs with_ptrs calls_]. split; [reflexivity|].
    replace (capacity (ptrs v) <? new_cap) with true by (symmetry; apply Z.ltb_lt; lia).
    split; [unfold well_formed; cbn; size_lia|].
    split; [unfold size at 1; cbn [ptrs with_ptrs begin_ end_]; rewrite Z.sub_diag;
            change (0 mod size_max) with 0; lia|].
    split; [unfold capacity at 1; cbn [ptrs with_ptrs begin_ reserved_end_];
            replace (p + new_cap - p) with new_cap by lia;
            rewrite Z.mod_small by lia; lia|].
    split; [intros; lia|].
    rewrite mallocs_app, moved_app. unfold mallocs, moved. cbn. lia.
  - replace (capacity (ptrs v) <? new_cap) with false by (symmetry; apply Z.ltb_ge; lia).
    unfold ret. exists v, w. repeat split; try assumption; try lia; apply Hwf.
  - destruct (Z.ltb_spec (capacity (ptrs v)) new_cap) as [Hlt|Hge].
    + destruct (realloc_mem_run v new_cap w Hcoll) as (w' & Hre & Hc).
      rewrite Hre. do 2 eexists. split; [reflexivity|].
      cbn [opts_ ptrs with_ptrs]. split; [reflexivity|].
      set (p := fst (ori_malloc (heap_ heap w) new_cap)) in *. clearbody p.
      split; [unfold well_formed; cbn; size_lia|].
      split; [unfold size at 1; cbn [ptrs with_ptrs begin_ end_];
              replace (p + (end_ (ptrs v) - begin_ (ptrs v)) - p)
                with (end_ (ptrs v) - begin_ (ptrs v)) by lia;
              rewrite Z.mod_small by size_lia; lia|].
      split; [unfold capacity at 1; cbn [ptrs with_ptrs begin_ reserved_end_];
              replace (p + new_cap - p) with new_cap by lia;
              rewrite Z.mod_small by lia; lia|].
      split; [intros; lia|].
      rewrite Hc. change (Malloc new_cap p :: ?l) with ([Malloc new_cap p] ++ l).
      rewrite !mallocs_app, !moved_app.
      destruct (Z.ltb_spec 0 (end_ (ptrs v) - begin_ (ptrs v)));
        destruct trivially_destructible; destruct (0 <? capacity (ptrs v));
        unfold mallocs, moved; cbn; lia.
    + unfold ret. exists v, w. repeat split; try assumption; try lia; apply Hwf.
Qed.

(** Appending while there is room. *)
Lemma push_back_with_room (m : nat) :
  forall (v : object) (w : world),
    collective (opts_ v) = false ->
    well_formed v ->
    size (ptrs v) + Z.of_nat m <= capacity (ptrs v) ->
    exists v' w',
      apply_operations (repeat PushBack m) v w = Done (v', w') /\
      opts_ v' = opts_ v /\
      well_formed v' /\
      begin_ (ptrs v') = begin_ (ptrs v) /\
      reserved_end_ (ptrs v') = reserved_end_ (ptrs v) /\
      size (ptrs v') = size (ptrs v) + Z.of_nat m /\
      calls_ heap w'
      = calls_ heap w
        ++ map (fun i => PlaceAt (end_ (ptrs v) + Z.of_nat i)) (seq 0 m).
Proof.
  induction m as [|m IH]; intros v w Hcoll Hwf Hroom.
  - exists v, w. cbn. unfold ret. rewrite Z.add_0_r, app_nil_r.
    repeat split; try reflexivity; apply Hwf.
  - destruct (well_formed_size v Hwf) as (Hsz & Hcp & Hle & Hmax).
    destruct (push_back_effect v w Hcoll Hwf ltac:(left; lia))
      as (v1 & w1 & Hrun & Ho & Hwf1 & Hsz1 & Hcap1 & Hstay & _).
    destruct (Hstay ltac:(lia)) as (Hb1 & Hr1 & Hc1).
    destruct (well_formed_size v1 Hwf1) as (Hsz1' & Hcp1' & _).
    destruct (IH v1 w1 ltac:(congruence) Hwf1 ltac:(rewrite Hcp1', Hr1, Hb1; lia))
      as (v' & w' & Hrun' & Ho' & Hwf' & Hb' & Hr' & Hsz' & Hc').
    exists v', w'. cbn [repeat GlobalVectorOps.apply_operations].
    unfold bind at 1. cbn [GlobalVectorOps.apply_operation]. rewrite Hrun.
    split; [exact Hrun'|]. split; [congruence|]. split; [exact Hwf'|].
    split; [congruence|]. split; [congruence|]. split; [lia|].
    rewrite Hc', Hc1, <- app_assoc. f_equal.
    change (seq 0 (S m)) with (0%nat :: seq 1 m). cbn [map app].
    rewrite Z.add_0_r. f_equal.
    rewrite <- seq_shift, map_map. apply map_ext. intros i. f_equal.
    assert (end_ (ptrs v1) = end_ (ptrs v) + 1) by lia. lia.
Qed.

(** X17: [reserve(new_cap)] followed by [m] calls of [push_back], on a vector
    that is not collective, when [new_cap] has room for the [m] elements.  The
    capacity after [reserve] is max(capacity, new_cap): [reserve] never
    shrinks, it leaves the size alone, and it allocates once or, if the
    capacity was enough, does nothing at all.  The calls of [push_back] that
    follow allocate and move nothing: [begin_] and [reserved_end_] stay
    where [reserve] put them, and the only calls are the m constructions at
    the m positions behind the old elements. *)
Theorem X17_reserve_then_push_back (v : object) (new_cap : Z) (m : nat) (w : world) :
  collective (opts_ v) = false ->
  well_formed v ->
  0 <= new_cap < size_max ->
  size (ptrs v) + Z.of_nat m <= new_cap ->
  exists v1 w1 v' w',
    reserve v new_cap w = Done (v1, w1) /\
    apply_operations (Reserve new_cap :: repeat PushBack m) v w = Done (v', w') /\
    size (ptrs v1) = size (ptrs v) /\
    capacity (ptrs v1) = Z.max (capacity (ptrs v)) new_cap /\
    (new_cap <= capacity (ptrs v) -> v1 = v /\ w1 = w) /\
    mallocs (calls_ heap w1)
    = mallocs (calls_ heap w) + (if capacity (ptrs v) <? new_cap then 1 else 0) /\
    well_formed v' /\
    size (ptrs v') = size (ptrs v) + Z.of_nat m /\
    begin_ (ptrs v') = begin_ (ptrs v1) /\
    reserved_end_ (ptrs v') = reserved_end_ (ptrs v1) /\
    calls_ heap w'
    = calls_ heap w1 ++ map (fun i => PlaceAt (end_ (ptrs v1) + Z.of_nat i)) (seq 0 m) /\
    mallocs (calls_ heap w') = mallocs (calls_ heap w1) /\
    moved (calls_ heap w') = moved (calls_ heap w1).
Proof.
  intros Hcoll Hwf Hrange Hroom.
  destruct (reserve_effect v new_cap w Hcoll Hwf Hrange)
    as (v1 & w1 & Hres & Ho1 & Hwf1 & Hsz1 & Hcap1 & Hsame & Hm1 & _).
  destruct (push_back_with_room m v1 w1 ltac:(congruence) Hwf1 ltac:(lia))
    as (v' & w' & Hrun & Ho' & Hwf' & Hb' & Hr' & Hsz' & Hc').
  exists v1, w1, v', w'.
  split; [exact Hres|]. split.
  { cbn [GlobalVectorOps.apply_operations]. unfold bind at 1.
    cbn [GlobalVectorOps.apply_operation]. rewrite Hres. exact Hrun. }
  split; [exact Hsz1|]. split; [exact Hcap1|]. split; [exact Hsame|].
  split; [exact Hm1|]. split; [exact Hwf'|]. split; [lia|].
  split; [exact Hb'|]. split; [exact Hr'|]. split; [exact Hc'|].
  rewrite Hc', mallocs_app, moved_app.
  assert (Hnone : forall l : list nat,
             mallocs (map (fun i => PlaceAt (end_ (ptrs v1) + Z.of_nat i)) l) = 0 /\
             moved (map (fun i => PlaceAt (end_ (ptrs v1) + Z.of_nat i)) l) = 0).
  { induction l as [|i l (IHa & IHb)]; [split; reflexivity|].
    unfold mallocs, moved in *. cbn [map List.filter fold_right] in *. split; lia. }
  destruct (Hnone (seq 0 m)) as (-> & ->). lia.
Qed.


(** X18: [resize(count)] on a vector that is not collective, of fewer than 2^63
    elements.  The size becomes [count].  The capacity stays unless [count]
    exceeds it, and then becomes max(count, 2 size).  If [count] is within the
    capacity nothing is allocated or moved and [begin_] stays.  Growing ends
    with the construction of the elements from the old size up to [count];
    shrinking only destructs the elements from [count] on (nothing at all for
    a trivially destructible type); [resize] to the present size does nothing. *)
Theorem X18_resize (v : object) (count : Z) (w : world) :
  collective (opts_ v) = false ->
  well_formed v ->
  0 <= count < size_max ->
  2 * size (ptrs v) < size_max ->
  exists v' w',
    resize v count w = Done (v', w') /\
    opts_ v' = opts_ v /\
    well_formed v' /\
    size (ptrs v') = count /\
    capacity (ptrs v') =
      (if capacity (ptrs v) <? count then Z.max count (2 * size (ptrs v))
       else capacity (ptrs v)) /\
    (count <= capacity (ptrs v) ->
     begin_ (ptrs v') = begin_ (ptrs v) /\
     reserved_end_ (ptrs v') = reserved_end_ (ptrs v) /\
     mallocs (calls_ heap w') = mallocs (calls_ heap w) /\
     moved (calls_ heap w') = moved (calls_ heap w)) /\
    (size (ptrs v) < count ->
     last (calls_ heap w')
     = Some (Construct Called (parallel_construct (opts_ v)) (cutoff_count (opts_ v))
               (begin_ (ptrs v') + size (ptrs v)) (begin_ (ptrs v') + count))) /\
    (count < size (ptrs v) ->
     calls_ heap w'
     = calls_ heap w ++
       (if trivially_destructible then []
        else [Destruct Called (parallel_destruct (opts_ v)) (cutoff_count (opts_ v))
                (begin_ (ptrs v) + count) (end_ (ptrs v))])) /\
    (count = size (ptrs v) -> v' = v /\ w' = w).
Proof.
  intros Hcoll Hwf Hrange Hsmall.
  destruct (well_formed_size v Hwf) as (Hsz & Hcp & Hle & Hmax).
  unfold GlobalVectorOps.resize, resize_impl.
  destruct (Z.ltb_spec (size (ptrs v)) count) as [Hgrow|Hngrow].
  - destruct (Z.ltb_spec (capacity (ptrs v)) count) as [Hre|Hnre].
    + assert (Hnc : next_size v count = Z.max count (2 * size (ptrs v))).
      { unfold next_size. rewrite Z.mod_small by size_lia. f_equal. apply Z.mul_comm. }
      rewrite Hnc. set (nc := Z.max count (2 * size (ptrs v))) in *.
      assert (Hncr : count <= nc < size_max) by (unfold nc; size_lia).
      clearbody nc.
      destruct (realloc_mem_run v nc w Hcoll) as (w1 & Hrun & Hc1).
      unfold bind at 1. rewrite Hrun.
      set (p := fst (ori_malloc (heap_ heap w) nc)) in *. clearbody p.
      unfold bind, construct_elems, root_exec_if_coll, emit, ret.
      cbn [opts_ ptrs with_ptrs begin_ end_ reserved_end_]. rewrite Hcoll.
      do 2 eexists. split; [reflexivity|].
      cbn [opts_ ptrs with_ptrs begin_ end_ reserved_end_ calls_].
      split; [reflexivity|].
      split; [unfold well_formed; cbn [ptrs with_ptrs begin_ end_ reserved_end_]; size_lia|].
      split; [unfold size at 1; cbn [ptrs with_ptrs begin_ end_];
              replace (p + count - p) with count by lia; apply Z.mod_small; lia|].
      split; [unfold capacity at 1; cbn [ptrs with_ptrs begin_ reserved_end_];
              replace (p + nc - p) with nc by lia; apply Z.mod_small; lia|].
      split; [intros; lia|]. split; [|split; intros; lia].
      intros _. rewrite last_snoc. do 2 f_equal. lia.
    + unfold bind, construct_elems, root_exec_if_coll, emit, ret. rewrite Hcoll.
      do 2 eexists. split; [reflexivity|].
      cbn [opts_ ptrs with_ptrs begin_ end_ reserved_end_ calls_].
      split; [reflexivity|].
      split; [unfold well_formed; cbn [ptrs with_ptrs begin_ end_ reserved_end_];
              destruct Hwf as (? & ?); size_lia|].
      split; [unfold size at 1; cbn [ptrs with_ptrs begin_ end_];
              replace (begin_ (ptrs v) + count - begin_ (ptrs v)) with count by lia;
              apply Z.mod_small; lia|].
      split; [reflexivity|].
      split; [intros _; split; [reflexivity|]; split; [reflexivity|];
              rewrite mallocs_app, moved_app; unfold mallocs, moved; cbn; lia|].
      split; [|split; intros; lia].
      intros _. rewrite last_snoc. do 2 f_equal. lia.
  - replace (capacity (ptrs v) <? count) with false by (symmetry; apply Z.ltb_ge; lia).
    destruct (Z.ltb_spec count (size (ptrs v))) as [Hshrink|Hsame].
    + unfold bind, destruct_elems, root_exec_if_coll, emit, ret. rewrite Hcoll.
      destruct trivially_destructible; do 2 eexists; (split; [reflexivity|]);
        cbn [opts_ ptrs with_ptrs begin_ end_ reserved_end_ calls_];
        (split; [reflexivity|]);
        (split; [unfold well_formed; cbn [ptrs with_ptrs begin_ end_ reserved_end_];
                 destruct Hwf as (? & ?); size_lia|]);
        (split; [unfold size at 1; cbn [ptrs with_ptrs begin_ end_];
                 replace (begin_ (ptrs v) + count - begin_ (ptrs v)) with count by lia;
                 apply Z.mod_small; lia|]);
        (split; [reflexivity|]);
        (split; [intros _; split; [reflexivity|]; split; [reflexivity|];
                 rewrite ?mallocs_app, ?moved_app; unfold mallocs, moved; cbn; lia|]);
        (split; [intros; lia|]);
        (split; [intros _; rewrite ?app_nil_r; reflexivity | intros; lia]).
    + unfold ret. exists v, w. assert (count = size (ptrs v)) by lia.
      repeat split; try assumption; try reflexivity; try lia; try apply Hwf.
Qed.

(** X19: [pop_back] undoes [push_back] on a vector that is not collective, of
    fewer than 2^63 elements: the size is back, the element destroyed is the
    one that was constructed last, and if [push_back] found room the vector is
    the one before.  The capacity [push_back] grew to is kept.  On a vector
    of no element [pop_back] fails its ITYR_CHECK; where the checks are
    compiled out it moves [end_] below [begin_], and [size()] becomes
    2^64 - 1. *)
Theorem X19_pop_back (v : object) (w : world) :
  collective (opts_ v) = false ->
  well_formed v ->
  2 * size (ptrs v) < size_max ->
  (exists v1 w1 v2 w2 cs p,
     push_back v w = Done (v1, w1) /\
     pop_back v1 w1 = Done (v2, w2) /\
     well_formed v2 /\
     size (ptrs v2) = size (ptrs v) /\
     begin_ (ptrs v2) = begin_ (ptrs v1) /\
     capacity (ptrs v2) = capacity (ptrs v1) /\
     calls_ heap w2 = cs ++ [PlaceAt p; DestroyAt p] /\
     (size (ptrs v) < capacity (ptrs v) ->
      v2 = v /\ calls_ heap w2 = calls_ heap w ++ [PlaceAt p; DestroyAt p])) /\
  (size (ptrs v) = 0 ->
   exists v' w',
     pop_back v w = (if check_enabled then CheckFails else Done (v', w')) /\
     size (ptrs v') = size_max - 1 /\
     end_ (ptrs v') < begin_ (ptrs v') /\
     capacity (ptrs v') = capacity (ptrs v)).
Proof.
  intros Hcoll Hwf Hsmall.
  destruct (well_formed_size v Hwf) as (Hsz & Hcp & Hle & Hmax).
  split.
  - destruct (push_back_run v w Hcoll) as (u & wu & w1 & Hgrow & Hrun & Hcalls).
    destruct (push_back_effect v w Hcoll Hwf (or_intror Hsmall))
      as (v1 & w1' & Hrun' & Ho & Hwf1 & Hsz1 & Hcap1 & Hroom & _).
    rewrite Hrun in Hrun'. injection Hrun' as Hv1 <-.
    destruct (well_formed_size v1 Hwf1) as (Hsz1' & Hcp1' & Hle1 & Hmax1).
    assert (Hend : end_ (ptrs v1) - 1 = end_ (ptrs u)).
    { rewrite <- Hv1. cbn. lia. }
    exists v1, w1,
      (with_ptrs v1 (begin_ (ptrs v1)) (end_ (ptrs v1) - 1) (reserved_end_ (ptrs v1))),
      (mk_world heap (heap_ heap w1) (calls_ heap w1 ++ [DestroyAt (end_ (ptrs v1) - 1)])),
      (calls_ heap wu), (end_ (ptrs u)).
    split; [rewrite <- Hv1; exact Hrun|]. split.
    { unfold GlobalVectorOps.pop_back, bind, check, ITYR_CHECK, emit, ret.
      rewrite Ho, Hcoll.
      replace (0 <? size (ptrs v1)) with true by (symmetry; apply Z.ltb_lt; lia).
      cbn [negb]. rewrite !orb_true_r. reflexivity. }
    cbn [opts_ ptrs with_ptrs begin_ end_ reserved_end_ calls_].
    split; [unfold well_formed; cbn [ptrs with_ptrs begin_ end_ reserved_end_];
            destruct Hwf1 as (? & ?); size_lia|].
    split; [unfold size at 1; cbn [ptrs with_ptrs begin_ end_];
            rewrite Z.mod_small by size_lia; lia|].
    split; [reflexivity|]. split; [reflexivity|].
    split; [rewrite Hcalls, Hend, <- app_assoc; reflexivity|].
    intros Hlt. destruct (Hroom Hlt) as (Hb & Hr & Hc).
    replace (size (ptrs v) =? capacity (ptrs v)) with false in Hgrow
      by (symmetry; apply Z.eqb_neq; lia).
    destruct Hgrow as (-> & ->). split.
    + unfold with_ptrs. rewrite Hend, Hb, Hr, Ho. destruct v as [o [b e r]]. reflexivity.
    + rewrite Hcalls, Hend, <- app_assoc. reflexivity.
  - intros H0.
    exists (with_ptrs v (begin_ (ptrs v)) (end_ (ptrs v) - 1) (reserved_end_ (ptrs v))),
      (mk_world heap (heap_ heap w) (calls_ heap w ++ [DestroyAt (end_ (ptrs v) - 1)])).
    split.
    { unfold GlobalVectorOps.pop_back, bind, check, ITYR_CHECK, emit, ret.
      rewrite Hcoll, H0. destruct check_enabled; reflexivity. }
    cbn [ptrs with_ptrs begin_ end_ reserved_end_].
    assert (He : end_ (ptrs v) = begin_ (ptrs v)) by lia.
    split; [unfold size; cbn [ptrs with_ptrs begin_ end_]; rewrite He;
            replace (begin_ (ptrs v) - 1 - begin_ (ptrs v)) with (-1) by lia;
            reflexivity|].
    split; [lia | reflexivity].
Qed.


(** *** Every block is given back *)

Lemma live_blocks_app (c1 c2 : list call) :
  forall live,
    live_blocks (c1 ++ c2) live
    = match live_blocks c1 live with
      | Some live' => live_blocks c2 live'
      | None => None
      end.
Proof.
  induction c1 as [|c c1 IH]; intros live; [reflexivity|].
  destruct c; cbn [app live_blocks]; try apply IH.
  destruct (remove_block (p, count) live); [apply IH | reflexivity].
Qed.

Lemma live_blocks_quiet (cs : list call) :
  List.Forall quiet cs -> forall live, live_blocks cs live = Some live.
Proof.
  induction 1 as [|c cs Hc _ IH]; intros live; [reflexivity|].
  destruct c; cbn [live_blocks]; try apply IH; destruct Hc.
Qed.

Lemma remove_block_in (b : Z * Z) (l : list (Z * Z)) :
  In b l -> exists l', remove_block b l = Some l' /\ Permutation l (b :: l').
Proof.
  induction l as [|x l IH]; intros Hin; [destruct Hin|].
  cbn [remove_block].
  destruct ((fst x =? fst b) && (snd x =? snd b)) eqn:Heq.
  - apply andb_prop in Heq. destruct Heq as (H1 & H2).
    apply Z.eqb_eq in H1, H2. exists l. split; [reflexivity|].
    destruct x, b. cbn in *. subst. reflexivity.
  - destruct Hin as [->|Hin].
    + rewrite !Z.eqb_refl in Heq. discriminate.
    + destruct (IH Hin) as (l' & Hr & Hp). rewrite Hr. exists (x :: l').
      split; [reflexivity|]. rewrite Hp. apply perm_swap.
Qed.

Lemma remove_block_perm (b : Z * Z) (l rest : list (Z * Z)) :
  Permutation l (b :: rest) ->
  exists l', remove_block b l = Some l' /\ Permutation l' rest.
Proof.
  intros Hp.
  assert (Hin : In b l).
  { apply (Permutation_in b (Permutation_sym Hp)). now left. }
  destruct (remove_block_in b l Hin) as (l' & Hr & Hp').
  exists l'. split; [exact Hr|].
  apply (Permutation_cons_inv (a := b)). now rewrite <- Hp'.
Qed.

Lemma tracked_quiet (v v' : object) (cs more : list call) :
  tracked v cs ->
  begin_ (ptrs v') = begin_ (ptrs v) ->
  reserved_end_ (ptrs v') = reserved_end_ (ptrs v) ->
  List.Forall quiet more ->
  tracked v' (cs ++ more).
Proof.
  intros (live & Hlive & Hrange & rest & Hrest & Hown) Hb Hr Hq.
  exists live. split.
  - rewrite live_blocks_app, Hlive. now apply live_blocks_quiet.
  - unfold holds, capacity in *. rewrite Hb, Hr. split; [exact Hrange|].
    exists rest. split; [exact Hrest | exact Hown].
Qed.

(** A new block for the vector: what it pointed to before is freed if it had a
    capacity, and is of no element if not. *)
Lemma tracked_new_block (v : object) (cs : list call) (p count e : Z)
    (moves : list call) :
  tracked v cs ->
  0 <= count < size_max ->
  List.Forall quiet moves ->
  tracked (with_ptrs v p e (p + count))
    (cs ++ Malloc count p :: moves
        ++ (if 0 <? capacity (ptrs v)
            then [Free (begin_ (ptrs v)) (capacity (ptrs v))] else [])).
Proof.
  intros (live & Hlive & Hrange & rest & Hrest & Hown) Hcount Hq.
  assert (Hcap : capacity (ptrs (with_ptrs v p e (p + count))) = count).
  { unfold capacity. cbn [ptrs with_ptrs begin_ reserved_end_].
    replace (p + count - p) with count by lia. apply Z.mod_small. lia. }
  assert (Hr' : 0 <= reserved_end_ (ptrs (with_ptrs v p e (p + count)))
                     - begin_ (ptrs (with_ptrs v p e (p + count))) < size_max).
  { cbn [ptrs with_ptrs begin_ reserved_end_]. lia. }
  assert (Hc0 : 0 <= capacity (ptrs v)).
  { unfold capacity. apply Z.mod_pos_bound. reflexivity. }
  unfold tracked. rewrite live_blocks_app, Hlive. cbn [live_blocks].
  rewrite live_blocks_app, (live_blocks_quiet moves Hq).
  destruct (Z.ltb_spec 0 (capacity (ptrs v))) as [Hpos|Hzero]; cbn [live_blocks].
  - destruct Hown as [Hperm|(_ & _ & H0)]; [|lia].
    destruct (remove_block_perm (begin_ (ptrs v), capacity (ptrs v))
                ((p, count) :: live) ((p, count) :: rest)) as (l' & Hrm & Hp').
    { rewrite Hperm. apply perm_swap. }
    rewrite Hrm. exists l'. split; [reflexivity|]. split; [exact Hr'|].
    exists rest. split; [exact Hrest|]. left. rewrite Hcap. exact Hp'.
  - exists ((p, count) :: live). split; [reflexivity|]. split; [exact Hr'|].
    destruct Hown as [Hperm|(-> & _ & _)].
    + exists ((begin_ (ptrs v), capacity (ptrs v)) :: rest). split.
      * constructor; [left; cbn; lia | exact Hrest].
      * left. rewrite Hcap, Hperm. reflexivity.
    + exists rest. split; [exact Hrest|]. left. rewrite Hcap. reflexivity.
Qed.

Lemma realloc_mem_tracked (v : object) (count : Z) (w : world) :
  collective (opts_ v) = false ->
  tracked v (calls_ heap w) ->
  0 <= count < size_max ->
  exists v' w',
    realloc_mem v count w = Done (v', w') /\
    opts_ v' = opts_ v /\
    tracked v' (calls_ heap w').
Proof.
  intros Hcoll Htr Hcount.
  destruct (realloc_mem_run v count w Hcoll) as (w' & Hrun & Hc).
  do 2 eexists. split; [exact Hrun|]. split; [reflexivity|].
  rewrite Hc. apply tracked_new_block; [exact Htr | exact Hcount |].
  destruct (0 <? _); [|constructor].
  destruct trivially_destructible; repeat constructor.
Qed.

Lemma ends_well_bind {A B : Type} (P : A -> world -> Prop) (Q : B -> world -> Prop)
    (m : M heap A) (f : A -> M heap B) (w : world) :
  ends_well check_enabled P (m w) ->
  (forall a w', P a w' -> ends_well check_enabled Q (f a w')) ->
  ends_well check_enabled Q (bind heap m f w).
Proof.
  intros Hm Hf. unfold bind. destruct (m w) as [[a w']| |]; cbn in *; auto.
Qed.

Lemma ends_well_check {A : Type} (Q : A -> world -> Prop) (cond : bool)
    (k : M heap A) (w : world) :
  (cond = true \/ check_enabled = false -> ends_well check_enabled Q (k w)) ->
  ends_well check_enabled Q (bind heap (check check_enabled heap cond) (fun _ => k) w).
Proof.
  intros Hk. unfold bind, check, ITYR_CHECK.
  destruct check_enabled eqn:Hce; cbn [negb orb].
  - destruct cond; [apply Hk; now left | reflexivity].
  - apply Hk. now right.
Qed.

(** The vector keeps track of its block through [push_back]: also for
    [emplace_back]. *)
Lemma push_back_impl_tracked (v : object) (w : world) :
  collective (opts_ v) = false ->
  tracked v (calls_ heap w) ->
  ends_well check_enabled
    (fun v' w' => opts_ v' = opts_ v /\ tracked v' (calls_ heap w'))
    (push_back_impl v w).
Proof.
  intros Hcoll Htr. unfold GlobalVectorOps.push_back_impl.
  apply ends_well_check. intros _.
  destruct (size (ptrs v) =? capacity (ptrs v)).
  - destruct (realloc_mem_tracked v (next_size v ((size (ptrs v) + 1) mod size_max)) w
                Hcoll Htr) as (v1 & w1 & Hrun & Ho & Htr1).
    { unfold next_size.
      pose proof (Z.mod_pos_bound (size (ptrs v) + 1) size_max ltac:(reflexivity)).
      pose proof (Z.mod_pos_bound (size (ptrs v) * 2) size_max ltac:(reflexivity)). lia. }
    unfold bind at 1. rewrite Hrun. unfold bind, emit, ret. cbn [ends_well opts_ with_ptrs calls_].
    split; [exact Ho|]. apply (tracked_quiet v1); try reflexivity; [exact Htr1|].
    repeat constructor.
  - unfold bind, emit, ret. cbn [ends_well opts_ with_ptrs calls_].
    split; [reflexivity|]. apply (tracked_quiet v); try reflexivity; [exact Htr|].
    repeat constructor.
Qed.

Lemma apply_operation_tracked (o : operation) (v : object) (w : world) :
  collective (opts_ v) = false ->
  operation_in_range o ->
  tracked v (calls_ heap w) ->
  ends_well check_enabled
    (fun v' w' => opts_ v' = opts_ v /\ tracked v' (calls_ heap w'))
    (apply_operation o v w).
Proof.
  intros Hcoll Hrange Htr. destruct o as [| | |new_cap|count]; cbn [GlobalVectorOps.apply_operation].
  - now apply push_back_impl_tracked.
  - unfold GlobalVectorOps.pop_back.
    apply ends_well_check. intros _. apply ends_well_check. intros _.
    unfold bind, emit, ret. cbn [ends_well opts_ with_ptrs calls_].
    split; [reflexivity|]. apply (tracked_quiet v); try reflexivity; [exact Htr|].
    repeat constructor.
  - unfold GlobalVectorOps.clear, bind, destruct_elems, root_exec_if_coll, emit, ret.
    rewrite Hcoll.
    destruct trivially_destructible; cbn [ends_well opts_ with_ptrs calls_];
      (split; [reflexivity|]).
    + rewrite <- (app_nil_r (calls_ heap w)).
      apply (tracked_quiet v); try reflexivity; [exact Htr | constructor].
    + apply (tracked_quiet v); try reflexivity; [exact Htr | repeat constructor].
  - cbn [operation_in_range] in Hrange. unfold GlobalVectorOps.reserve.
    destruct ((capacity (ptrs v) =? 0) && (0 <? new_cap)) eqn:Hfirst.
    + apply andb_prop in Hfirst. destruct Hfirst as (Hc0 & _). apply Z.eqb_eq in Hc0.
      unfold bind, allocate_mem, malloc, ret. rewrite Hcoll.
      destruct (ori_malloc (heap_ heap w) new_cap) as [p h].
      cbn [ends_well opts_ with_ptrs calls_]. split; [reflexivity|].
      pose proof (tracked_new_block v (calls_ heap w) p new_cap p [] Htr Hrange
                    ltac:(constructor)) as Hnew.
      rewrite Hc0 in Hnew. cbn [Z.ltb Z.compare app] in Hnew. exact Hnew.
    + destruct (capacity (ptrs v) <? new_cap).
      * destruct (realloc_mem_tracked v new_cap w Hcoll Htr Hrange)
          as (v1 & w1 & Hrun & Ho & Htr1).
        rewrite Hrun. cbn [ends_well]. split; assumption.
      * unfold ret. cbn [ends_well]. split; [reflexivity | exact Htr].
  - cbn [operation_in_range] in Hrange.
    unfold GlobalVectorOps.resize, resize_impl.
    destruct (size (ptrs v) <? count).
    + destruct (capacity (ptrs v) <? count).
      * destruct (realloc_mem_tracked v (next_size v count) w Hcoll Htr)
          as (v1 & w1 & Hrun & Ho & Htr1).
        { unfold next_size.
          pose proof (Z.mod_pos_bound (size (ptrs v) * 2) size_max ltac:(reflexivity)). lia. }
        unfold bind at 1. rewrite Hrun.
        unfold bind, construct_elems, root_exec_if_coll, emit, ret. rewrite Ho, Hcoll.
        cbn [ends_well opts_ with_ptrs calls_]. split; [exact Ho|].
        apply (tracked_quiet v1); try reflexivity; [exact Htr1 | repeat constructor].
      * unfold bind, construct_elems, root_exec_if_coll, emit, ret. rewrite Hcoll.
        cbn [ends_well opts_ with_ptrs calls_]. split; [reflexivity|].
        apply (tracked_quiet v); try reflexivity; [exact Htr | repeat constructor].
    + destruct (count <? size (ptrs v)).
      * unfold bind, destruct_elems, root_exec_if_coll, emit, ret. rewrite Hcoll.
        destruct trivially_destructible; cbn [ends_well opts_ with_ptrs calls_];
          (split; [reflexivity|]).
        -- rewrite <- (app_nil_r (calls_ heap w)).
           apply (tracked_quiet v); try reflexivity; [exact Htr | constructor].
        -- apply (tracked_quiet v); try reflexivity; [exact Htr | repeat constructor].
      * unfold ret. cbn [ends_well]. split; [reflexivity | exact Htr].
Qed.

Lemma apply_operations_tracked (os : list operation) :
  forall (v : object) (w : world),
    collective (opts_ v) = false ->
    List.Forall operation_in_range os ->
    tracked v (calls_ heap w) ->
    ends_well check_enabled
      (fun v' w' => opts_ v' = opts_ v /\ tracked v' (calls_ heap w'))
      (apply_operations os v w).
Proof.
  induction os as [|o os IH]; intros v w Hcoll Hrange Htr;
    cbn [GlobalVectorOps.apply_operations].
  - unfold ret. cbn. split; [reflexivity | exact Htr].
  - inversion Hrange as [|? ? Ho Hos]; subst.
    apply (ends_well_bind (fun v' w' => opts_ v' = opts_ v /\ tracked v' (calls_ heap w'))).
    + now apply apply_operation_tracked.
    + intros v1 w1 (Ho1 & Htr1).
      assert (Hcoll1 : collective (opts_ v1) = false) by congruence.
      pose proof (IH v1 w1 Hcoll1 Hos Htr1) as Hrest.
      destruct (apply_operations os v1 w1) as [[v2 w2]| |]; cbn in *; [|assumption..].
      destruct Hrest as (Ho2 & Htr2). split; [congruence | exact Htr2].
Qed.

Lemma emplace_each_tracked (n : nat) :
  forall (v : object) (w : world),
    collective (opts_ v) = false ->
    tracked v (calls_ heap w) ->
    ends_well check_enabled
      (fun v' w' => opts_ v' = opts_ v /\ tracked v' (calls_ heap w'))
      (emplace_each n v w).
Proof.
  induction n as [|n IH]; intros v w Hcoll Htr; cbn [GlobalVectorOps.emplace_each].
  - unfold ret. cbn. split; [reflexivity | exact Htr].
  - apply (ends_well_bind
             (fun r w' => opts_ (snd r) = opts_ v /\ tracked (snd r) (calls_ heap w'))).
    + unfold GlobalVectorOps.emplace_back.
      apply (ends_well_bind
               (fun v' w' => opts_ v' = opts_ v /\ tracked v' (calls_ heap w'))).
      * now apply push_back_impl_tracked.
      * intros v1 w1 H1. unfold ret. cbn. exact H1.
    + intros [r v1] w1 (Ho1 & Htr1). cbn [snd] in *.
      assert (Hcoll1 : collective (opts_ v1) = false) by congruence.
      pose proof (IH v1 w1 Hcoll1 Htr1) as Hrest.
      destruct (emplace_each n v1 w1) as [[v2 w2]| |]; cbn in *; [|assumption..].
      destruct Hrest as (Ho2 & Htr2). split; [congruence | exact Htr2].
Qed.

Lemma construct_tracked (c : construction) (opts : global_vector_options) (h : heap) :
  collective opts = false ->
  construction_in_range c ->
  ends_well check_enabled
    (fun v w => opts_ v = opts /\ tracked v (calls_ heap w))
    (construct trivially_destructible check_enabled is_spmd is_root heap
       ori_malloc ori_malloc_coll ori_free ori_free_coll c opts (mk_world heap h [])).
Proof.
  intros Hcoll Hrange.
  assert (Hnull : tracked (nulled opts) []).
  { exists []. split; [reflexivity|]. split; [cbn; unfold size_max; lia|].
    exists []. split; [constructor|]. right. repeat split; reflexivity. }
  destruct c as [|count|d|n]; cbn [construct construction_in_range] in *.
  - unfold construct_empty, ret. cbn. split; [reflexivity | exact Hnull].
  - unfold GlobalVectorOps.construct_count, initialize_uniform, bind, allocate_mem, malloc,
      construct_elems, root_exec_if_coll, emit, ret.
    cbn [opts_ nulled with_ptrs]. rewrite Hcoll. cbn [heap_ calls_].
    destruct (ori_malloc h count) as [p h']. cbn [ends_well opts_ calls_ heap_].
    split; [reflexivity|].
    pose proof (tracked_new_block (nulled opts) [] p count (p + count)
                  [Construct Called (parallel_construct opts) (cutoff_count opts) p (p + count)]
                  Hnull Hrange ltac:(repeat constructor)) as Hnew.
    cbn in Hnew. cbn. exact Hnew.
  - unfold GlobalVectorOps.construct_range, initialize_from_iter.
    destruct (Z.ltb_spec 0 d) as [Hpos|Hnpos].
    + unfold bind, allocate_mem, malloc, construct_elems_from_iter, root_exec_if_coll,
        emit, ret.
      cbn [opts_ nulled with_ptrs]. rewrite Hcoll. cbn [heap_ calls_].
      destruct (ori_malloc h d) as [p h']. cbn [ends_well opts_ calls_ heap_].
      split; [reflexivity|].
      pose proof (tracked_new_block (nulled opts) [] p d (p + d)
                    [ConstructFrom Called (parallel_construct opts) (cutoff_count opts)
                       (Given d) p]
                    Hnull ltac:(lia) ltac:(repeat constructor)) as Hnew.
      cbn in Hnew. cbn. exact Hnew.
    + unfold ret. cbn. split; [reflexivity | exact Hnull].
  - unfold GlobalVectorOps.construct_input_range, initialize_from_input_iter.
    apply ends_well_check. intros _. apply ends_well_check. intros _.
    apply (emplace_each_tracked n (nulled opts)); [exact Hcoll | exact Hnull].
Qed.

Lemma destructor_tracked (v : object) (w : world) :
  collective (opts_ v) = false ->
  tracked v (calls_ heap w) ->
  ends_well check_enabled
    (fun _ w' => exists rest,
         live_blocks (calls_ heap w') [] = Some rest /\ List.Forall zero_or_null rest)
    (destructor v w).
Proof.
  intros Hcoll (live & Hlive & Hrange & rest & Hrest & Hown).
  unfold GlobalVectorOps.destructor.
  destruct (Z.eqb_spec (begin_ (ptrs v)) 0) as [Hnull|Hptr]; cbn [negb].
  - unfold ret. cbn. exists live. split; [exact Hlive|].
    destruct Hown as [Hperm|(-> & _)]; [|exact Hrest].
    apply List.Forall_forall. intros b Hb.
    apply (Permutation_in b Hperm) in Hb. destruct Hb as [<-|Hb].
    + right. exact Hnull.
    + revert b Hb. now apply List.Forall_forall.
  - destruct Hown as [Hperm|(_ & H0 & _)]; [|contradiction].
    destruct (remove_block_perm _ _ _ Hperm) as (l' & Hrm & Hp').
    assert (Hleft : List.Forall zero_or_null l').
    { apply List.Forall_forall. intros b Hb.
      apply (Permutation_in b Hp') in Hb. revert b Hb. now apply List.Forall_forall. }
    unfold bind, destruct_elems, root_exec_if_coll, free_mem, free, emit, ret.
    rewrite Hcoll.
    destruct trivially_destructible; cbn [ends_well]; exists l';
      (split; [|exact Hleft]); cbn [calls_ heap_];
      rewrite ?live_blocks_app, Hlive; cbn [live_blocks]; rewrite Hrm; reflexivity.
Qed.

(** X20: a vector that is not collective, from its constructor through any
    operations ([push_back], [pop_back], [clear], [reserve], [resize], with
    arguments that are [size_type] values) to its destructor.  The run does
    not die, and it stops at an ITYR_CHECK only where the checks are compiled
    in.  If it ends, every [ori::free] it made was of a block [ori::malloc]
    had returned and that was not freed before, with the count it had been
    allocated with; and every block that is left was allocated with count 0 or
    is the null pointer. *)
Theorem X20_blocks_given_back (c : construction) (opts : global_vector_options)
    (os : list operation) (h : heap) :
  collective opts = false ->
  construction_in_range c ->
  List.Forall operation_in_range os ->
  match lifetime trivially_destructible check_enabled is_spmd is_root heap
          ori_malloc ori_malloc_coll ori_free ori_free_coll c opts os (mk_world heap h []) with
  | Done (_, w') =>
      exists rest,
        live_blocks (calls_ heap w') [] = Some rest /\ List.Forall zero_or_null rest
  | CheckFails => check_enabled = true
  | Dies => False
  end.
Proof.
  intros Hcoll Hc Hos.
  assert (Hrun : ends_well check_enabled
            (fun (_ : unit) w' => exists rest,
                 live_blocks (calls_ heap w') [] = Some rest /\ List.Forall zero_or_null rest)
            (lifetime trivially_destructible check_enabled is_spmd is_root heap
               ori_malloc ori_malloc_coll ori_free ori_free_coll c opts os
               (mk_world heap h []))).
  { unfold lifetime.
    apply (ends_well_bind (fun v w => opts_ v = opts /\ tracked v (calls_ heap w)));
      [now apply construct_tracked|].
    intros v0 w0 (Ho0 & Htr0).
    apply (ends_well_bind (fun v w => opts_ v = opts_ v0 /\ tracked v (calls_ heap w))).
    - apply apply_operations_tracked; [congruence | exact Hos | exact Htr0].
    - intros v1 w1 (Ho1 & Htr1). apply destructor_tracked; [congruence | exact Htr1]. }
  unfold ends_well in Hrun.
  destruct (lifetime _ _ _ _ _ _ _ _ _ _ _ _ _) as [[[] w']| |]; exact Hrun.
Qed.

End VectorGrowth.

Section VectorRuns.
Import GlobalVector GlobalVectorOps GlobalVectorState Samples.

Local Ltac ptr_facts :=
  vm_compute; repeat split; try reflexivity; intros; discriminate.

(** X15, run: a full vector of four elements grows to the capacity 8. *)
Lemma X15_push_back_growth_witness :
  exists v' w',
    push_back false true false false Z bump_malloc bump_malloc bump_free bump_free_coll
      vec_full world_8192 = Done (v', w') /\
    size (ptrs v') = 5 /\ capacity (ptrs v') = 8 /\ begin_ (ptrs v') = 8192.
Proof.
  destruct (X15_push_back_growth false true false false Z bump_malloc bump_malloc
              bump_free bump_free_coll vec_full world_8192
              eq_refl ltac:(ptr_facts) ltac:(ptr_facts))
    as (v' & w' & Hrun & _ & _ & Hsz & Hcap & _ & Hfull & _).
  exists v', w'. split; [exact Hrun|]. split; [exact Hsz|]. split; [exact Hcap|].
  destruct (Hfull eq_refl) as (Hb & _). rewrite Hb, Hcap. reflexivity.
Defined.

(** X16, run: five elements from a range of input iterators. *)
Lemma X16_input_range_growth_witness :
  exists v w',
    construct_input_range false true false false Z bump_malloc bump_malloc bump_free
      bump_free_coll default_options 5 world_8192 = Done (v, w') /\
    size (ptrs v) = 5 /\ capacity (ptrs v) = 8 /\
    mallocs (calls_ Z w') = 4 /\ moved (calls_ Z w') = 7.
Proof.
  destruct (X16_input_range_growth false true false false Z bump_malloc bump_malloc
              bump_free bump_free_coll default_options 5 world_8192
              eq_refl eq_refl ltac:(ptr_facts))
    as (v & w' & Hrun & _ & _ & Hsz & Hcap & Hm & Hmv & _).
  exists v, w'. split; [exact Hrun|]. split; [exact Hsz|]. split; [exact Hcap|].
  split; [exact Hm|]. rewrite Hmv, Hcap. reflexivity.
Defined.

(** X17, run: [reserve(6)] on a vector of two elements and capacity 4, then
    four times [push_back]. *)
Lemma X17_reserve_then_push_back_witness :
  exists v' w',
    apply_operations false true false false Z bump_malloc bump_malloc bump_free
      bump_free_coll [Reserve 6; PushBack; PushBack; PushBack; PushBack]
      vec_half world_8192 = Done (v', w') /\
    size (ptrs v') = 6 /\ begin_ (ptrs v') = 8192 /\ mallocs (calls_ Z w') = 1.
Proof.
  destruct (X17_reserve_then_push_back false true false false Z bump_malloc bump_malloc
              bump_free bump_free_coll vec_half 6 4 world_8192
              eq_refl ltac:(ptr_facts) ltac:(ptr_facts) ltac:(ptr_facts))
    as (v1 & w1 & v' & w' & Hres & Hrun & _ & _ & _ & Hm1 & _ & Hsz & Hb & _ & _ & Hm & _).
  exists v', w'. split; [exact Hrun|]. split; [exact Hsz|].
  split; [|rewrite Hm, Hm1; reflexivity].
  rewrite Hb. revert Hres. vm_compute. intros [= <- _]. reflexivity.
Defined.

(** X18, run: [resize(6)] on the full vector of four elements. *)
Lemma X18_resize_witness :
  exists v' w',
    resize false false false Z bump_malloc bump_malloc bump_free bump_free_coll
      vec_full 6 world_8192 = Done (v', w') /\
    size (ptrs v') = 6 /\ capacity (ptrs v') = 8.
Proof.
  destruct (X18_resize false false false Z bump_malloc bump_malloc bump_free
              bump_free_coll vec_full 6 world_8192
              eq_refl ltac:(ptr_facts) ltac:(ptr_facts) ltac:(ptr_facts))
    as (v' & w' & Hrun & _ & _ & Hsz & Hcap & _).
  exists v', w'. split; [exact Hrun|]. split; [exact Hsz | exact Hcap].
Defined.

(** X19, run: [push_back] and [pop_back] on a vector with room, and [pop_back]
    on a vector of no element where the checks are compiled out. *)
Lemma X19_pop_back_witness :
  (exists w1 w2,
     push_back false false false false Z bump_malloc bump_malloc bump_free bump_free_coll
       vec_none world_8192
     = Done (with_ptrs vec_none 4096 4097 4100, w1) /\
     pop_back false Z (with_ptrs vec_none 4096 4097 4100) w1 = Done (vec_none, w2)) /\
  (exists v' w',
     pop_back false Z vec_none world_8192 = Done (v', w') /\
     size (ptrs v') = 18446744073709551615).
Proof.
  destruct (X19_pop_back false false false false Z bump_malloc bump_malloc bump_free
              bump_free_coll vec_none world_8192
              eq_refl ltac:(ptr_facts) ltac:(ptr_facts))
    as ((v1 & w1 & v2 & w2 & cs & p & Hpush & Hpop & _ & _ & _ & _ & _ & Hsame) & Hempty).
  split.
  - destruct (Hsame ltac:(ptr_facts)) as (-> & _).
    exists w1, w2.
    assert (Hv1 : v1 = with_ptrs vec_none 4096 4097 4100).
    { revert Hpush. vm_compute. intros [= <- _]. reflexivity. }
    rewrite <- Hv1. split; [exact Hpush | exact Hpop].
  - destruct (Hempty eq_refl) as (v' & w' & Hrun & Hsz & _).
    exists v', w'. split; [exact Hrun | exact Hsz].
Defined.

(** X20, run: a vector of three elements that grows, shrinks and is destroyed
    gives back all it took. *)
Lemma X20_blocks_given_back_witness :
  exists w' rest,
    lifetime false true false false Z bump_malloc bump_malloc bump_free bump_free_coll
      (OfCount 3) default_options [PushBack; Resize 20; PopBack; Clear; Reserve 64]
      world_8192 = Done (tt, w') /\
    mallocs (calls_ Z w') = 4 /\
    live_blocks (calls_ Z w') [] = Some rest /\
    List.Forall zero_or_null rest.
Proof.
  pose proof (X20_blocks_given_back false true false false Z bump_malloc bump_malloc
                bump_free bump_free_coll (OfCount 3) default_options
                [PushBack; Resize 20; PopBack; Clear; Reserve 64] 8192
                eq_refl ltac:(ptr_facts)
                ltac:(repeat constructor; ptr_facts)) as Hrun.
  change (mk_world Z 8192 []) with world_8192 in Hrun.
  destruct (lifetime false true false false Z bump_malloc bump_malloc bump_free
              bump_free_coll (OfCount 3) default_options
              [PushBack; Resize 20; PopBack; Clear; Reserve 64] world_8192)
    as [[[] w']| |] eqn:Heq.
  - destruct Hrun as (rest & Hlive & Hrest).
    exists w', rest. split; [reflexivity|].
    split; [|split; [exact Hlive | exact Hrest]].
    revert Heq. vm_compute. intros [= <-]. reflexivity.
  - revert Heq. vm_compute. discriminate.
  - destruct Hrun.
Defined.

End VectorRuns.

(** ** The home manager: the mappings put off *)

Section PendingMappings.
Import HomeManager HomeManagerOps.
Variable tlb : Type.
Variable check_enabled : bool.

Local Abbreviation update_mapping := (HomeManagerOps.update_mapping check_enabled).
Local Abbreviation update_mappings := (HomeManagerOps.update_mappings check_enabled).
Local Abbreviation checkout_complete := (HomeManagerOps.checkout_complete tlb check_enabled).
Local Abbreviation entry_at := (HomeManager.entry_at tlb).

Lemma mapped_app (m1 m2 : list mapping) : mapped (m1 ++ m2) = mapped m1 ++ mapped m2.
Proof. unfold mapped. apply flat_map_app. Qed.

Lemma update_mapping_run (me : mmap_entry) :
  pm me <> 0 -> addr me <> 0 ->
  exists ms,
    update_mapping me = Some (with_mapping me (addr me) (size me), ms) /\
    mapped ms = [map_of me].
Proof.
  intros Hpm Haddr. unfold HomeManagerOps.update_mapping, ITYR_CHECK.
  replace (pm me =? 0) with false by (symmetry; apply Z.eqb_neq; assumption).
  replace (addr me =? 0) with false by (symmetry; apply Z.eqb_neq; assumption).
  cbn [negb]. rewrite orb_true_r.
  eexists. split; [reflexivity|].
  rewrite mapped_app. destruct (mapped_addr me =? 0); reflexivity.
Qed.

Lemma update_mappings_run (keys : list Z) :
  forall (cs : gmap Z mmap_entry) (done : list mapping),
    (forall key, In key keys ->
       pm (default fresh_entry (cs !! key)) <> 0 /\
       addr (default fresh_entry (cs !! key)) <> 0) ->
    exists cs' ms,
      update_mappings cs keys done = Some (cs', done ++ ms) /\
      mapped ms = map (fun key => map_of (default fresh_entry (cs !! key))) keys /\
      forall key,
        (In key keys ->
         default fresh_entry (cs' !! key)
         = with_mapping (default fresh_entry (cs !! key))
             (addr (default fresh_entry (cs !! key)))
             (size (default fresh_entry (cs !! key)))) /\
        (~ In key keys -> default fresh_entry (cs' !! key) = default fresh_entry (cs !! key)).
Proof.
  induction keys as [|k keys IH]; intros cs done Hok.
  - exists cs, []. rewrite app_nil_r. split; [reflexivity|]. split; [reflexivity|].
    intros key. split; [intros []|reflexivity].
  - cbn [HomeManagerOps.update_mappings].
    set (me := default fresh_entry (cs !! k)).
    destruct (Hok k ltac:(now left)) as (Hpm & Haddr).
    destruct (update_mapping_run me Hpm Haddr) as (ms & Hrun & Hms).
    rewrite Hrun.
    set (cs1 := <[k := with_mapping me (addr me) (size me)]> cs).
    assert (Hat : forall key,
               default fresh_entry (cs1 !! key)
               = if decide (key = k) then with_mapping me (addr me) (size me)
                 else default fresh_entry (cs !! key)).
    { intros key. unfold cs1. destruct (decide (key = k)) as [->|Hne].
      - now rewrite lookup_insert_eq.
      - now rewrite lookup_insert_ne by congruence. }
    destruct (IH cs1 (done ++ ms)) as (cs' & ms' & Hrest & Hms' & Hent).
    { intros key Hin. rewrite Hat. destruct (decide (key = k)) as [->|Hne].
      - cbn. split; assumption.
      - apply Hok. now right. }
    exists cs', (ms ++ ms'). rewrite Hrest, <- app_assoc. split; [reflexivity|].
    split.
    { rewrite mapped_app, Hms, Hms'. cbn [map app]. f_equal.
      apply map_ext. intros key. rewrite Hat.
      destruct (decide (key = k)) as [->|Hne]; reflexivity. }
    intros key. destruct (Hent key) as (Hin' & Hout').
    destruct (decide (key = k)) as [->|Hne].
    + split; [intros _|intros Hn; exfalso; apply Hn; now left].
      specialize (Hat k). destruct (decide (k = k)); [|congruence].
      destruct (in_dec Z.eq_dec k keys) as [Hin|Hnin].
      * rewrite (Hin' Hin), Hat. reflexivity.
      * rewrite (Hout' Hnin), Hat. reflexivity.
    + specialize (Hat key). destruct (decide (key = k)); [congruence|].
      split.
      * intros [Heq|Hin]; [congruence|]. rewrite (Hin' Hin), Hat. reflexivity.
      * intros Hn. rewrite Hout' by (intros Hin; apply Hn; now right). exact Hat.
Qed.

Lemma update_mappings_changes (entry : Z -> mmap_entry) (keys : list Z) :
  forall (cs : gmap Z mmap_entry) (done : list mapping) (seen : list Z),
    (forall key,
       default fresh_entry (cs !! key)
       = if in_dec Z.eq_dec key seen
         then with_mapping (entry key) (addr (entry key)) (size (entry key))
         else entry key) ->
    (forall key, In key keys -> pm (entry key) <> 0 /\ addr (entry key) <> 0) ->
    forall cs' out,
      update_mappings cs keys done = Some (cs', out) ->
      out = done ++ changes_for entry seen keys.
Proof.
  induction keys as [|k keys IH]; intros cs done seen Hcs Hok cs' out Hrun.
  - cbn in Hrun. injection Hrun as _ <-. cbn. now rewrite app_nil_r.
  - cbn [HomeManagerOps.update_mappings] in Hrun.
    destruct (Hok k ltac:(now left)) as (Hpm & Haddr).
    set (me := default fresh_entry (cs !! k)) in *.
    assert (Hme : pm me = pm (entry k) /\ addr me = addr (entry k) /\
                  size me = size (entry k) /\ pm_offset me = pm_offset (entry k) /\
                  (mapped_addr me, mapped_size me)
                  = (if in_dec Z.eq_dec k seen then (addr (entry k), size (entry k))
                     else (mapped_addr (entry k), mapped_size (entry k))) /\
                  with_mapping me (addr me) (size me)
                  = with_mapping (entry k) (addr (entry k)) (size (entry k))).
    { unfold me. rewrite (Hcs k). destruct (in_dec Z.eq_dec k seen); repeat split. }
    destruct Hme as (Hpm' & Haddr' & Hsize' & Hoff' & Hwas & Hnew).
    unfold HomeManagerOps.update_mapping, ITYR_CHECK in Hrun.
    replace (pm me =? 0) with false in Hrun
      by (symmetry; apply Z.eqb_neq; congruence).
    replace (addr me =? 0) with false in Hrun
      by (symmetry; apply Z.eqb_neq; congruence).
    cbn [negb] in Hrun. rewrite orb_true_r in Hrun.
    apply (IH _ _ (k :: seen)) in Hrun.
    + rewrite Hrun, <- app_assoc. f_equal. cbn [changes_for].
      rewrite <- Hwas. cbn [fst snd]. unfold map_of.
      rewrite Hpm', Haddr', Hsize', Hoff'.
      destruct (mapped_addr me =? 0); reflexivity.
    + intros key. destruct (Z.eq_dec key k) as [->|Hne].
      * rewrite lookup_insert_eq. cbn [default].
        destruct (in_dec Z.eq_dec k (k :: seen)) as [_|Hn];
          [exact Hnew|exfalso; apply Hn; now left].
      * rewrite lookup_insert_ne by congruence. rewrite (Hcs key).
        destruct (in_dec Z.eq_dec key seen) as [Hin|Hnin];
          destruct (in_dec Z.eq_dec key (k :: seen)) as [Hin'|Hnin']; try reflexivity.
        -- exfalso. apply Hnin'. now right.
        -- exfalso. destruct Hin' as [Heq|Hin']; [congruence|contradiction].
    + intros key Hin. apply Hok. now right.
Qed.

(** X21: [checkout_complete] when every entry waiting in
    [home_segments_to_map_] has a physical memory and an address (as
    [checkout_seg] leaves them).  It empties the list.  The changes it makes to
    the address space are exactly these, in the order of the list: for each
    entry that waits, first the unmapping ([mmap_no_physical_mem]) of what the
    entry has mapped, if it has anything mapped (for an entry that is twice in
    the list, the second time this is what the first time mapped), then one
    [map_to_vm] of the entry's segment.  Each entry that waited is then mapped
    where it should be ([mapped_addr == addr], [mapped_size == size]).  The
    reference counts and every other field, the entries that did not wait and
    the lookup buffer are as they were, and a second call does nothing. *)
Theorem X21_checkout_complete (hm : home_manager tlb) :
  (forall key, In key (home_segments_to_map_ tlb hm) ->
     pm (entry_at hm key) <> 0 /\ addr (entry_at hm key) <> 0) ->
  exists hm' ms,
    checkout_complete hm = Some (hm', ms) /\
    home_segments_to_map_ tlb hm' = [] /\
    home_tlb_ tlb hm' = home_tlb_ tlb hm /\
    ms = changes_for (entry_at hm) [] (home_segments_to_map_ tlb hm) /\
    mapped ms = map (fun key => map_of (entry_at hm key)) (home_segments_to_map_ tlb hm) /\
    (forall key, In key (home_segments_to_map_ tlb hm) ->
       entry_at hm' key
       = with_mapping (entry_at hm key) (addr (entry_at hm key)) (size (entry_at hm key)) /\
       mapped_addr (entry_at hm' key) = addr (entry_at hm' key) /\
       mapped_size (entry_at hm' key) = size (entry_at hm' key) /\
       ref_count (entry_at hm' key) = ref_count (entry_at hm key)) /\
    (forall key, ~ In key (home_segments_to_map_ tlb hm) ->
       entry_at hm' key = entry_at hm key) /\
    checkout_complete hm' = Some (hm', []).
Proof.
  intros Hok. unfold HomeManagerOps.checkout_complete.
  destruct hm as [cs t queue]. cbn [home_segments_to_map_ cs_ home_tlb_] in *.
  destruct queue as [|k queue].
  - exists (mk_home_manager tlb cs t []), [].
    split; [reflexivity|]. split; [reflexivity|]. split; [reflexivity|].
    split; [reflexivity|].
    split; [reflexivity|]. split; [intros key []|]. split; reflexivity.
  - destruct (update_mappings_run (k :: queue) cs [] Hok) as (cs' & ms & Hrun & Hms & Hent).
    assert (Hall : ms = changes_for (HomeManager.entry_at tlb (mk_home_manager tlb cs t (k :: queue)))
                          [] (k :: queue)).
    { apply (update_mappings_changes
               (HomeManager.entry_at tlb (mk_home_manager tlb cs t (k :: queue)))
               (k :: queue) cs [] [] (fun key => eq_refl) Hok cs' ms Hrun). }
    rewrite Hrun. cbn [app].
    exists (mk_home_manager tlb cs' t []), ms.
    split; [reflexivity|]. split; [reflexivity|]. split; [reflexivity|].
    split; [exact Hall|].
    split; [exact Hms|]. split; [|split; [|reflexivity]].
    + intros key Hin. unfold HomeManager.entry_at. cbn [cs_].
      destruct (Hent key) as (Hin' & _). rewrite (Hin' Hin). repeat split.
    + intros key Hnin. unfold HomeManager.entry_at. cbn [cs_].
      destruct (Hent key) as (_ & Hout'). exact (Hout' Hnin).
Qed.

End PendingMappings.

Section PendingMappingsRuns.
Import HomeManager HomeManagerOps Samples.

(** X21, run: two segments wait, the first of them was mapped elsewhere. *)
Lemma X21_checkout_complete_witness :
  exists hm',
    checkout_complete list_tlb true hm_two_waiting
    = Some (hm', [Unmap 12288 4096; Map 100 4096 4096 0; Map 100 8192 4096 4096]) /\
    mapped_addr (entry_at list_tlb hm' 1) = 4096 /\
    mapped_addr (entry_at list_tlb hm' 2) = 8192.
Proof.
  destruct (X21_checkout_complete list_tlb true hm_two_waiting)
    as (hm' & ms & Hrun & _ & _ & Hall & _).
  { intros key Hin. cbn in Hin. destruct Hin as [<-|[<-|[]]]; split; discriminate. }
  assert (Hms : ms = [Unmap 12288 4096; Map 100 4096 4096 0; Map 100 8192 4096 4096]).
  { rewrite Hall. vm_compute. reflexivity. }
  exists hm'. rewrite <- Hms. split; [exact Hrun|].
  revert Hrun. vm_compute. intros [= <- _]. split; reflexivity.
Defined.

End PendingMappingsRuns.

(** ** The scheduler loop: what it runs first *)

Section SchedulerLoop.
Import DistRange Flipper DistTree WSQueue Sched SchedState SchedLoopState.
Variable T : Type.
Variable cfg : config.

(** X22: one iteration of [sched_loop] does one thing, by priority.  A
    cross-worker task that has arrived is run first, with the queues left as
    they are.  Otherwise the entry pushed last to the deepest primary deque of
    this rank that is not empty is resumed (it has to be evacuated: the loop
    asserts it).  Only when all primary deques of this rank are empty is the
    entry pushed last to the shallowest migration deque that is not empty run,
    with [use_primary_wsq_] false.  A steal is attempted only when no task has
    arrived and all primary and migration deques of this rank are empty; with
    stealing disabled the iteration then changes nothing. *)
Theorem X22_sched_loop_priority (s : scheduler_adws T) (env : environment) (cf : Z) :
  match sched_loop_body T cfg s env cf with
  | (s', RunsCrossWorkerTask cwt c) =>
      hd None (env_arrivals env) = Some cwt /\
      primary_wsq_ s' = primary_wsq_ s /\ migration_wsq_ s' = migration_wsq_ s /\
      (c = StartNewTask (cwt_frame_base cwt) (cwt_frame_size cwt) <->
       cwt_evacuation_ptr cwt = null)
  | (s', RunsPopped pwe c) =>
      hd None (env_arrivals env) = None /\
      (exists d,
          0 <= d < n_queues (primary_wsq_ s) /\
          popped_at cfg (primary_wsq_ s) (primary_wsq_ s') d pwe /\
          forall d', d < d' < n_queues (primary_wsq_ s) ->
                     queue_at (primary_wsq_ s) (my_rank cfg) d' = []) /\
      migration_wsq_ s' = migration_wsq_ s /\
      (c = Dies <-> check_enabled cfg = true /\ pwe_evacuation_ptr pwe = null) /\
      (c <> Dies ->
       c = ResumeSuspended (mk_suspended_state (pwe_evacuation_ptr pwe)
                              (pwe_frame_base pwe) (pwe_frame_size pwe)))
  | (s', RunsMigrated mwe c) =>
      hd None (env_arrivals env) = None /\
      local_queues_empty cfg (primary_wsq_ s) /\
      primary_wsq_ s' = primary_wsq_ s /\
      (exists d,
          0 <= d < n_queues (migration_wsq_ s) /\
          popped_at cfg (migration_wsq_ s) (migration_wsq_ s') d mwe /\
          forall d', 0 <= d' < d -> queue_at (migration_wsq_ s) (my_rank cfg) d' = []) /\
      use_primary_wsq_ s' = false /\
      (c = Dies <-> mwe_is_continuation mwe = true /\ mwe_evacuation_ptr mwe = null)
  | (s', Steals o) =>
      hd None (env_arrivals env) = None /\
      local_queues_empty cfg (primary_wsq_ s) /\
      local_queues_empty cfg (migration_wsq_ s) /\
      (adws_enable_steal cfg = false ->
       o = NothingStolen /\
       primary_wsq_ s' = primary_wsq_ s /\ migration_wsq_ s' = migration_wsq_ s /\
       dtree_ s' = dtree_ s /\ issued s' = issued s)
  end.
Proof.
  unfold sched_loop_body.
  destruct (hd None (env_arrivals env)) as [cwt|] eqn:Harr.
  { unfold execute_cross_worker_task.
    destruct (Z.eqb_spec (cwt_evacuation_ptr cwt) null) as [Hnull|Hptr].
    - repeat split; try reflexivity; intros; assumption.
    - repeat split; try reflexivity; intros H; [discriminate H | contradiction]. }
  unfold pop_from_primary_queues.
  pose proof (pop_primary_from_spec cfg (primary_wsq_ s) (n_queues (primary_wsq_ s) - 1)
                (Z.to_nat (n_queues (primary_wsq_ s) - 1 + 1))) as Hp.
  destruct (pop_primary_from cfg (primary_wsq_ s) (n_queues (primary_wsq_ s) - 1)
              (Z.to_nat (n_queues (primary_wsq_ s) - 1 + 1))) as [[pwe|] q'].
  { destruct Hp as (d & rest & Hd & Htop & Hdeeper & ->).
    assert (Hpop : exists d0,
               0 <= d0 < n_queues (primary_wsq_ s) /\
               popped_at cfg (primary_wsq_ s)
                 (set_queue (primary_wsq_ s) (my_rank cfg) d rest) d0 pwe /\
               forall d', d0 < d' < n_queues (primary_wsq_ s) ->
                          queue_at (primary_wsq_ s) (my_rank cfg) d' = []).
    { exists d. split; [lia|]. split; [exists rest; split; [exact Htop | reflexivity]|].
      intros d' Hd'. apply Hdeeper. lia. }
    unfold ITYR_CHECK.
    destruct (check_enabled cfg) eqn:Hce;
      destruct (Z.eqb_spec (pwe_evacuation_ptr pwe) null) as [Hnull|Hptr];
      cbn [negb orb];
      (split; [reflexivity|]); (split; [exact Hpop|]); (split; [reflexivity|]).
    - split; [split; [intros _; split; [reflexivity | exact Hnull] | reflexivity]|].
      intros H; contradiction.
    - split; [split; [discriminate | intros (_ & H); contradiction]|]. reflexivity.
    - split; [split; [discriminate | intros (H & _); discriminate]|]. reflexivity.
    - split; [split; [discriminate | intros (H & _); discriminate]|]. reflexivity. }
  destruct Hp as (-> & Hempty).
  assert (Hpe : local_queues_empty cfg (primary_wsq_ s)).
  { intros d Hd. apply Hempty. lia. }
  unfold pop_from_migration_queues. cbn [migration_wsq_ set_primary_wsq].
  pose proof (pop_migration_from_spec cfg (migration_wsq_ s) 0
                (Z.to_nat (n_queues (migration_wsq_ s)))) as Hm.
  destruct (pop_migration_from cfg (migration_wsq_ s) 0
              (Z.to_nat (n_queues (migration_wsq_ s)))) as [[mwe|] q'].
  { destruct Hm as (d & rest & Hd & Htop & Hshallower & ->).
    unfold execute_migrated_task.
    assert (Hpop : exists d0,
               0 <= d0 < n_queues (migration_wsq_ s) /\
               popped_at cfg (migration_wsq_ s)
                 (set_queue (migration_wsq_ s) (my_rank cfg) d rest) d0 mwe /\
               forall d', 0 <= d' < d0 ->
                          queue_at (migration_wsq_ s) (my_rank cfg) d' = []).
    { exists d. split; [lia|]. split; [exists rest; split; [exact Htop | reflexivity]|].
      intros d' Hd'. apply Hshallower. lia. }
    destruct (mwe_is_continuation mwe) eqn:Hcont; cbn [negb];
      [destruct (Z.eqb_spec (mwe_evacuation_ptr mwe) null) as [Hnull|Hptr]; cbn [negb]|];
      (split; [reflexivity|]); (split; [exact Hpe|]); (split; [reflexivity|]);
      (split; [exact Hpop|]); (split; [reflexivity|]).
    - split; [intros _; split; [exact Hcont | exact Hnull] | reflexivity].
    - split; [discriminate | intros (_ & H); contradiction].
    - split; [discriminate | intros (H & _); congruence]. }
  destruct Hm as (-> & Hmempty).
  assert (Hme : local_queues_empty cfg (migration_wsq_ s)).
  { intros d Hd. apply Hmempty. lia. }
  destruct (adws_enable_steal cfg) eqn:Hsteal.
  - destruct (steal T cfg _ _ cf) as [[s3 n] o].
    split; [reflexivity|]. split; [exact Hpe|]. split; [exact Hme|]. discriminate.
  - split; [reflexivity|]. split; [exact Hpe|]. split; [exact Hme|].
    intros _. repeat split.
Qed.

End SchedulerLoop.

Section SchedulerLoopRuns.
Import DistRange Flipper DistTree WSQueue Sched SchedState SchedLoopState Samples.

(** X22, run: a rank with entries in its primary deques of depth 0 and 2 and a
    task in its migration deque resumes the entry pushed last at depth 2. *)
Lemma X22_sched_loop_priority_witness :
  exists s',
    sched_loop_body nat cfg_debug sched_three_queues quiet 0
    = (s', RunsPopped entry_b
             (ResumeSuspended (mk_suspended_state 8256 1100 64))) /\
    queue_at (primary_wsq_ s') 0 2 = [entry_c] /\
    migration_wsq_ s' = migration_wsq_ sched_three_queues.
Proof.
  pose proof (X22_sched_loop_priority nat cfg_debug sched_three_queues quiet 0) as H.
  destruct (sched_loop_body nat cfg_debug sched_three_queues quiet 0) as [s' it] eqn:Hrun.
  assert (Hit : it = RunsPopped entry_b (ResumeSuspended (mk_suspended_state 8256 1100 64))).
  { revert Hrun. vm_compute. intros [= _ <-]. reflexivity. }
  subst it. destruct H as (_ & _ & Hmig & _).
  exists s'. split; [reflexivity|]. split; [|exact Hmig].
  revert Hrun. vm_compute. intros [= <-]. reflexivity.
Defined.

End SchedulerLoopRuns.

(** ** global_vector: moves, and collective vectors *)

Section VectorMoves.
Import GlobalVector GlobalVectorOps GlobalVectorState.
Variables trivially_destructible check_enabled is_spmd is_root : bool.
Variable heap : Type.
Variables ori_malloc ori_malloc_coll : heap -> Z -> Z * heap.
Variable ori_free : heap -> Z -> Z -> heap.
Variable ori_free_coll : heap -> Z -> heap.

Local Abbreviation apply_operations :=
  (GlobalVectorOps.apply_operations trivially_destructible check_enabled is_spmd is_root
     heap ori_malloc ori_malloc_coll ori_free ori_free_coll).
Local Abbreviation destructor :=
  (GlobalVectorOps.destructor trivially_destructible is_spmd is_root heap
     ori_free ori_free_coll).
Local Abbreviation construct :=
  (GlobalVectorState.construct trivially_destructible check_enabled is_spmd is_root heap
     ori_malloc ori_malloc_coll ori_free ori_free_coll).
Local Abbreviation lifetime_moved :=
  (GlobalVectorState.lifetime_moved trivially_destructible check_enabled is_spmd is_root
     heap ori_malloc ori_malloc_coll ori_free ori_free_coll).
Local Abbreviation lifetime :=
  (GlobalVectorState.lifetime trivially_destructible check_enabled is_spmd is_root
     heap ori_malloc ori_malloc_coll ori_free ori_free_coll).
Local Abbreviation world := (GlobalVectorOps.world heap).
Local Abbreviation ends_well := (GlobalVectorState.ends_well check_enabled).

(** X23: a vector that is moved from owns nothing.  The move constructor makes
    no call and leaves its argument with three null pointers: empty, of
    capacity 0, and such that its destructor makes no call.  So when a vector
    that is not collective is constructed, changed, moved to a new vector that
    is changed in turn, and both are destroyed, the block is still freed once:
    every [ori::free] is of a block [ori::malloc] had returned and that was not
    freed before, with its count, and what is left was allocated with count 0
    or is the null pointer. *)
Theorem X23_moved_from_owns_nothing (c : construction) (opts : global_vector_options)
    (os os' : list operation) (h : heap) :
  collective opts = false ->
  construction_in_range c ->
  List.Forall operation_in_range os ->
  List.Forall operation_in_range os' ->
  (forall (v : object) (w : world),
      move_construct heap v w = Done (mk_object (opts_ v) (ptrs v), nulled (opts_ v), w) /\
      size (ptrs (nulled (opts_ v))) = 0 /\
      capacity (ptrs (nulled (opts_ v))) = 0 /\
      destructor (nulled (opts_ v)) w = Done (tt, w)) /\
  match lifetime_moved c opts os os' (mk_world heap h []) with
  | Done (_, w') =>
      exists rest,
        live_blocks (calls_ heap w') [] = Some rest /\ List.Forall zero_or_null rest
  | CheckFails => check_enabled = true
  | Dies => False
  end.
Proof.
  intros Hcoll Hc Hos Hos'. split.
  { intros v w. repeat split. }
  assert (Hrun : ends_well
            (fun (_ : unit) w' => exists rest,
                 live_blocks (calls_ heap w') [] = Some rest /\ List.Forall zero_or_null rest)
            (lifetime_moved c opts os os' (mk_world heap h []))).
  { unfold GlobalVectorState.lifetime_moved.
    apply (ends_well_bind check_enabled heap
             (fun v w => opts_ v = opts /\ tracked v (calls_ heap w)));
      [now apply construct_tracked|].
    intros v0 w0 (Ho0 & Htr0).
    apply (ends_well_bind check_enabled heap
             (fun v w => opts_ v = opts /\ tracked v (calls_ heap w))).
    { pose proof (apply_operations_tracked trivially_destructible check_enabled is_spmd
                    is_root heap ori_malloc ori_malloc_coll ori_free ori_free_coll
                    os v0 w0 ltac:(congruence) Hos Htr0) as H.
      destruct (apply_operations os v0 w0) as [[v1 w1]| |]; cbn in *; [|assumption..].
      destruct H as (Ho1 & Htr1). split; [congruence | exact Htr1]. }
    intros v1 w1 (Ho1 & Htr1).
    apply (ends_well_bind check_enabled heap
             (fun (m : object * object) w =>
                opts_ (fst m) = opts /\ tracked (fst m) (calls_ heap w) /\
                snd m = nulled (opts_ v1))).
    { unfold move_construct, ret. cbn. split; [exact Ho1|]. split; [|reflexivity].
      destruct Htr1 as (live & Hlive & Hholds). exists live. split; [exact Hlive|].
      exact Hholds. }
    intros [v2 husk] w2 (Ho2 & Htr2 & Hhusk). cbn [fst snd] in *. subst husk.
    apply (ends_well_bind check_enabled heap
             (fun v w => opts_ v = opts /\ tracked v (calls_ heap w))).
    { pose proof (apply_operations_tracked trivially_destructible check_enabled is_spmd
                    is_root heap ori_malloc ori_malloc_coll ori_free ori_free_coll
                    os' v2 w2 ltac:(congruence) Hos' Htr2) as H.
      destruct (apply_operations os' v2 w2) as [[v3 w3]| |]; cbn in *; [|assumption..].
      destruct H as (Ho3 & Htr3). split; [congruence | exact Htr3]. }
    intros v3 w3 (Ho3 & Htr3).
    apply (ends_well_bind check_enabled heap
             (fun (_ : unit) w' => exists rest,
                  live_blocks (calls_ heap w') [] = Some rest /\
                  List.Forall zero_or_null rest)).
    { apply destructor_tracked; [congruence | exact Htr3]. }
    intros [] w4 Hleft. exact Hleft. }
  unfold GlobalVectorState.ends_well in Hrun.
  destruct (lifetime_moved c opts os os' (mk_world heap h [])) as [[[] w']| |]; exact Hrun.
Qed.

(** *** Collective vectors *)

Lemma routed_app (cs more : list call) :
  List.Forall (routed is_spmd) cs -> List.Forall (routed is_spmd) more ->
  List.Forall (routed is_spmd) (cs ++ more).
Proof. intros H1 H2. apply List.Forall_app. now split. Qed.

Section Routes.
Hypothesis Hregion : is_spmd || is_root = true.

Lemma root_exec_if_coll_route (v : object) (w : world) :
  collective (opts_ v) = true ->
  root_exec_if_coll is_spmd is_root heap v w
  = Done (if is_spmd then ViaRootExec else Called, w).
Proof.
  intros Hcoll. unfold root_exec_if_coll. rewrite Hcoll.
  destruct is_spmd; [reflexivity|]. cbn in Hregion. rewrite Hregion. reflexivity.
Qed.

Lemma coll_exec_if_coll_route (v : object) (w : world) :
  collective (opts_ v) = true ->
  coll_exec_if_coll is_spmd is_root heap v w
  = Done (if is_spmd then Called else ViaCollExec, w).
Proof.
  intros Hcoll. unfold coll_exec_if_coll. rewrite Hcoll.
  destruct is_spmd; [reflexivity|]. cbn in Hregion. rewrite Hregion. reflexivity.
Qed.

Local Abbreviation routes v :=
  (fun (v' : object) (w' : world) =>
     opts_ v' = opts_ v /\ List.Forall (routed is_spmd) (calls_ heap w')).

Lemma allocate_mem_routed (v : object) (count : Z) (w : world) :
  collective (opts_ v) = true ->
  List.Forall (routed is_spmd) (calls_ heap w) ->
  exists p w',
    allocate_mem is_spmd is_root heap ori_malloc ori_malloc_coll v count w = Done (p, w') /\
    List.Forall (routed is_spmd) (calls_ heap w').
Proof.
  intros Hcoll Hr. unfold allocate_mem, bind. rewrite Hcoll, coll_exec_if_coll_route by exact Hcoll.
  unfold malloc_coll. destruct (ori_malloc_coll (heap_ heap w) count) as [p h'].
  do 2 eexists. split; [reflexivity|]. cbn [calls_].
  apply routed_app; [exact Hr|]. repeat constructor.
Qed.

Lemma free_mem_routed (v : object) (p count : Z) (w : world) :
  collective (opts_ v) = true ->
  List.Forall (routed is_spmd) (calls_ heap w) ->
  exists w',
    free_mem is_spmd is_root heap ori_free ori_free_coll v p count w = Done (tt, w') /\
    List.Forall (routed is_spmd) (calls_ heap w').
Proof.
  intros Hcoll Hr. unfold free_mem, bind. rewrite Hcoll, coll_exec_if_coll_route by exact Hcoll.
  unfold free_coll. eexists. split; [reflexivity|]. cbn [calls_].
  apply routed_app; [exact Hr|]. repeat constructor.
Qed.

Lemma construct_elems_routed (v : object) (b e : Z) (w : world) :
  collective (opts_ v) = true ->
  List.Forall (routed is_spmd) (calls_ heap w) ->
  exists w',
    construct_elems is_spmd is_root heap v b e w = Done (tt, w') /\
    List.Forall (routed is_spmd) (calls_ heap w').
Proof.
  intros Hcoll Hr. unfold construct_elems, bind.
  rewrite root_exec_if_coll_route by exact Hcoll. unfold emit.
  eexists. split; [reflexivity|]. cbn [calls_].
  apply routed_app; [exact Hr|]. repeat constructor.
Qed.

Lemma construct_elems_from_iter_routed (v : object) (src : source) (b : Z) (w : world) :
  collective (opts_ v) = true ->
  List.Forall (routed is_spmd) (calls_ heap w) ->
  exists w',
    construct_elems_from_iter is_spmd is_root heap v src b w = Done (tt, w') /\
    List.Forall (routed is_spmd) (calls_ heap w').
Proof.
  intros Hcoll Hr. unfold construct_elems_from_iter, bind.
  rewrite root_exec_if_coll_route by exact Hcoll. unfold emit.
  eexists. split; [reflexivity|]. cbn [calls_].
  apply routed_app; [exact Hr|]. repeat constructor.
Qed.

Lemma destruct_elems_routed (v : object) (b e : Z) (w : world) :
  collective (opts_ v) = true ->
  List.Forall (routed is_spmd) (calls_ heap w) ->
  exists w',
    destruct_elems trivially_destructible is_spmd is_root heap v b e w = Done (tt, w') /\
    List.Forall (routed is_spmd) (calls_ heap w').
Proof.
  intros Hcoll Hr. unfold destruct_elems.
  destruct trivially_destructible; [exists w; split; [reflexivity | exact Hr]|].
  unfold bind. rewrite root_exec_if_coll_route by exact Hcoll. unfold emit.
  eexists. split; [reflexivity|]. cbn [calls_].
  apply routed_app; [exact Hr|]. repeat constructor.
Qed.

Lemma realloc_mem_routed (v : object) (count : Z) (w : world) :
  collective (opts_ v) = true ->
  List.Forall (routed is_spmd) (calls_ heap w) ->
  exists v' w',
    realloc_mem trivially_destructible is_spmd is_root heap ori_malloc ori_malloc_coll
      ori_free ori_free_coll v count w = Done (v', w') /\
    opts_ v' = opts_ v /\
    List.Forall (routed is_spmd) (calls_ heap w').
Proof.
  intros Hcoll Hr. unfold realloc_mem.
  destruct (allocate_mem_routed v count w Hcoll Hr) as (p & w1 & Ha & Hr1).
  unfold bind at 1. rewrite Ha.
  set (v' := with_ptrs v p (p + (end_ (ptrs v) - begin_ (ptrs v))) (p + count)).
  assert (Hcoll' : collective (opts_ v') = true) by exact Hcoll.
  assert (Hmove : exists w2,
             (if 0 <? end_ (ptrs v) - begin_ (ptrs v)
              then bind heap
                     (construct_elems_from_iter is_spmd is_root heap v'
                        (MovedFrom (begin_ (ptrs v)) (end_ (ptrs v))) p)
                     (fun _ => destruct_elems trivially_destructible is_spmd is_root heap v'
                                 (begin_ (ptrs v)) (end_ (ptrs v)))
              else ret heap tt) w1 = Done (tt, w2) /\
             List.Forall (routed is_spmd) (calls_ heap w2)).
  { destruct (0 <? end_ (ptrs v) - begin_ (ptrs v)).
    - destruct (construct_elems_from_iter_routed v'
                  (MovedFrom (begin_ (ptrs v)) (end_ (ptrs v))) p w1 Hcoll' Hr1)
        as (wa & Hca & Hra).
      destruct (destruct_elems_routed v' (begin_ (ptrs v)) (end_ (ptrs v)) wa Hcoll' Hra)
        as (wb & Hcb & Hrb).
      exists wb. unfold bind. rewrite Hca, Hcb. split; [reflexivity | exact Hrb].
    - exists w1. split; [reflexivity | exact Hr1]. }
  destruct Hmove as (w2 & Hm & Hr2).
  unfold bind at 1. rewrite Hm.
  destruct (0 <? capacity (ptrs v)).
  - destruct (free_mem_routed v' (begin_ (ptrs v)) (capacity (ptrs v)) w2 Hcoll' Hr2)
      as (w3 & Hf & Hr3).
    unfold bind. rewrite Hf. unfold ret. do 2 eexists.
    split; [reflexivity|]. split; [reflexivity | exact Hr3].
  - unfold bind, ret. do 2 eexists. split; [reflexivity|]. split; [reflexivity | exact Hr2].
Qed.

Lemma apply_operation_routed (o : operation) (v : object) (w : world) :
  collective (opts_ v) = true ->
  List.Forall (routed is_spmd) (calls_ heap w) ->
  ends_well (routes v)
    (apply_operation trivially_destructible check_enabled is_spmd is_root heap
       ori_malloc ori_malloc_coll ori_free ori_free_coll o v w).
Proof.
  intros Hcoll Hr. destruct o as [| | |new_cap|count]; cbn [apply_operation].
  - unfold push_back, push_back_impl.
    apply ends_well_check. intros _.
    destruct (size (ptrs v) =? capacity (ptrs v)).
    + destruct (realloc_mem_routed v (next_size v ((size (ptrs v) + 1) mod size_max)) w
                  Hcoll Hr) as (v1 & w1 & Hrun & Ho & Hr1).
      unfold bind at 1. rewrite Hrun. unfold bind, emit, ret.
      cbn [GlobalVectorState.ends_well opts_ with_ptrs calls_].
      split; [exact Ho|]. apply routed_app; [exact Hr1 | repeat constructor].
    + unfold bind, emit, ret. cbn [GlobalVectorState.ends_well opts_ with_ptrs calls_].
      split; [reflexivity|]. apply routed_app; [exact Hr | repeat constructor].
  - unfold pop_back.
    apply ends_well_check. intros _. apply ends_well_check. intros _.
    unfold bind, emit, ret. cbn [GlobalVectorState.ends_well opts_ with_ptrs calls_].
    split; [reflexivity|]. apply routed_app; [exact Hr | repeat constructor].
  - unfold clear.
    destruct (destruct_elems_routed v (begin_ (ptrs v)) (end_ (ptrs v)) w Hcoll Hr)
      as (w1 & Hd & Hr1).
    unfold bind. rewrite Hd. unfold ret. cbn. split; [reflexivity | exact Hr1].
  - unfold reserve.
    destruct ((capacity (ptrs v) =? 0) && (0 <? new_cap)).
    + destruct (allocate_mem_routed v new_cap w Hcoll Hr) as (p & w1 & Ha & Hr1).
      unfold bind. rewrite Ha. unfold ret. cbn. split; [reflexivity | exact Hr1].
    + destruct (capacity (ptrs v) <? new_cap).
      * destruct (realloc_mem_routed v new_cap w Hcoll Hr) as (v1 & w1 & Hrun & Ho & Hr1).
        rewrite Hrun. cbn. split; assumption.
      * unfold ret. cbn. split; [reflexivity | exact Hr].
  - unfold resize, resize_impl.
    destruct (size (ptrs v) <? count).
    + assert (Hgrow : exists v1 w1,
                 (if capacity (ptrs v) <? count
                  then realloc_mem trivially_destructible is_spmd is_root heap ori_malloc
                         ori_malloc_coll ori_free ori_free_coll v (next_size v count)
                  else ret heap v) w = Done (v1, w1) /\
                 opts_ v1 = opts_ v /\ List.Forall (routed is_spmd) (calls_ heap w1)).
      { destruct (capacity (ptrs v) <? count).
        - apply realloc_mem_routed; assumption.
        - exists v, w. split; [reflexivity|]. split; [reflexivity | exact Hr]. }
      destruct Hgrow as (v1 & w1 & Hg & Ho & Hr1).
      unfold bind at 1. rewrite Hg.
      destruct (construct_elems_routed v1 (end_ (ptrs v1)) (begin_ (ptrs v1) + count) w1
                  ltac:(congruence) Hr1) as (w2 & Hc & Hr2).
      unfold bind. rewrite Hc. unfold ret. cbn. split; [exact Ho | exact Hr2].
    + destruct (count <? size (ptrs v)).
      * destruct (destruct_elems_routed v (begin_ (ptrs v) + count) (end_ (ptrs v)) w
                    Hcoll Hr) as (w1 & Hd & Hr1).
        unfold bind. rewrite Hd. unfold ret. cbn. split; [reflexivity | exact Hr1].
      * unfold ret. cbn. split; [reflexivity | exact Hr].
Qed.

Lemma apply_operations_routed (os : list operation) :
  forall (v : object) (w : world),
    collective (opts_ v) = true ->
    List.Forall (routed is_spmd) (calls_ heap w) ->
    ends_well (routes v) (apply_operations os v w).
Proof.
  induction os as [|o os IH]; intros v w Hcoll Hr; cbn [GlobalVectorOps.apply_operations].
  - unfold ret. cbn. split; [reflexivity | exact Hr].
  - apply (ends_well_bind check_enabled heap (routes v)).
    + now apply apply_operation_routed.
    + intros v1 w1 (Ho1 & Hr1).
      pose proof (IH v1 w1 ltac:(congruence) Hr1) as Hrest.
      destruct (apply_operations os v1 w1) as [[v2 w2]| |]; cbn in *; [|assumption..].
      destruct Hrest as (Ho2 & Hr2). split; [congruence | exact Hr2].
Qed.

Lemma emplace_each_routed (n : nat) :
  forall (v : object) (w : world),
    collective (opts_ v) = true ->
    List.Forall (routed is_spmd) (calls_ heap w) ->
    ends_well (routes v)
      (emplace_each trivially_destructible check_enabled is_spmd is_root heap
         ori_malloc ori_malloc_coll ori_free ori_free_coll n v w).
Proof.
  induction n as [|n IH]; intros v w Hcoll Hr; cbn [emplace_each].
  - unfold ret. cbn. split; [reflexivity | exact Hr].
  - apply (ends_well_bind check_enabled heap
             (fun (r : Z * object) w' =>
                opts_ (snd r) = opts_ v /\ List.Forall (routed is_spmd) (calls_ heap w'))).
    + unfold emplace_back.
      apply (ends_well_bind check_enabled heap (routes v)).
      * exact (apply_operation_routed PushBack v w Hcoll Hr).
      * intros v1 w1 H1. unfold ret. cbn. exact H1.
    + intros [r v1] w1 (Ho1 & Hr1). cbn [snd] in *.
      pose proof (IH v1 w1 ltac:(congruence) Hr1) as Hrest.
      destruct (emplace_each _ _ _ _ _ _ _ _ _ n v1 w1) as [[v2 w2]| |];
        cbn in *; [|assumption..].
      destruct Hrest as (Ho2 & Hr2). split; [congruence | exact Hr2].
Qed.

Lemma construct_routed (c : construction) (opts : global_vector_options) (h : heap) :
  collective opts = true ->
  ends_well
    (fun v w => opts_ v = opts /\ List.Forall (routed is_spmd) (calls_ heap w))
    (construct c opts (mk_world heap h [])).
Proof.
  intros Hcoll.
  assert (Hn : collective (opts_ (nulled opts)) = true) by exact Hcoll.
  assert (H0 : List.Forall (routed is_spmd) (calls_ heap (mk_world heap h [])))
    by constructor.
  destruct c as [|count|d|n]; cbn [GlobalVectorState.construct].
  - unfold construct_empty, ret. cbn. split; [reflexivity | constructor].
  - unfold construct_count, initialize_uniform.
    destruct (allocate_mem_routed (nulled opts) count _ Hn H0) as (p & w1 & Ha & Hr1).
    unfold bind at 1. rewrite Ha.
    destruct (construct_elems_routed (with_ptrs (nulled opts) p (p + count) (p + count))
                p (p + count) w1 Hcoll Hr1) as (w2 & Hc & Hr2).
    unfold bind. rewrite Hc. unfold ret. cbn. split; [reflexivity | exact Hr2].
  - unfold construct_range, initialize_from_iter.
    destruct (0 <? d).
    + destruct (allocate_mem_routed (nulled opts) d _ Hn H0) as (p & w1 & Ha & Hr1).
      unfold bind at 1. rewrite Ha.
      destruct (construct_elems_from_iter_routed
                  (with_ptrs (nulled opts) p (p + d) (p + d)) (Given d) p w1 Hcoll Hr1)
        as (w2 & Hc & Hr2).
      unfold bind. rewrite Hc. unfold ret. cbn. split; [reflexivity | exact Hr2].
    + unfold ret. cbn. split; [reflexivity | constructor].
  - unfold construct_input_range, initialize_from_input_iter.
    apply ends_well_check. intros _. apply ends_well_check. intros _.
    apply (emplace_each_routed n (nulled opts)); [exact Hcoll | constructor].
Qed.

Lemma destructor_routed (v : object) (w : world) :
  collective (opts_ v) = true ->
  List.Forall (routed is_spmd) (calls_ heap w) ->
  ends_well (fun (_ : unit) w' => List.Forall (routed is_spmd) (calls_ heap w'))
    (destructor v w).
Proof.
  intros Hcoll Hr. unfold GlobalVectorOps.destructor.
  destruct (negb (begin_ (ptrs v) =? 0)).
  - destruct (destruct_elems_routed v (begin_ (ptrs v)) (end_ (ptrs v)) w Hcoll Hr)
      as (w1 & Hd & Hr1).
    destruct (free_mem_routed v (begin_ (ptrs v)) (capacity (ptrs v)) w1 Hcoll Hr1)
      as (w2 & Hf & Hr2).
    unfold bind. rewrite Hd, Hf. cbn. exact Hr2.
  - unfold ret. cbn. exact Hr.
Qed.

Lemma lifetime_routed (c : construction) (opts : global_vector_options)
    (os : list operation) (h : heap) :
  collective opts = true ->
  ends_well (fun (_ : unit) w' => List.Forall (routed is_spmd) (calls_ heap w'))
    (lifetime c opts os (mk_world heap h [])).
Proof.
  intros Hcoll. unfold GlobalVectorState.lifetime.
  apply (ends_well_bind check_enabled heap
           (fun v w => opts_ v = opts /\ List.Forall (routed is_spmd) (calls_ heap w)));
    [now apply construct_routed|].
  intros v0 w0 (Ho0 & Hr0).
  apply (ends_well_bind check_enabled heap (routes v0)).
  - apply apply_operations_routed; [congruence | exact Hr0].
  - intros v1 w1 (Ho1 & Hr1). apply destructor_routed; [congruence | exact Hr1].
Qed.

End Routes.

(** X24: a collective vector, from any of its constructors through any
    operations to its destructor, in the SPMD region or on the root thread.
    The run does not die, and stops at an ITYR_CHECK only where the checks are
    compiled in.  It never calls [ori::malloc] or [ori::free]: its memory is
    allocated and freed by [ori::malloc_coll] and [ori::free_coll] only.  In
    the SPMD region these are called in place and every loop over the
    elements runs through [root_exec]; on the root thread they go through
    [ito::coll_exec] and the loops run in place.  Anywhere else the
    constructors that allocate die. *)
Theorem X24_collective_routes (c : construction) (opts : global_vector_options)
    (os : list operation) (h : heap) :
  collective opts = true ->
  (is_spmd || is_root = true ->
   match lifetime c opts os (mk_world heap h []) with
   | Done (_, w') => List.Forall (routed is_spmd) (calls_ heap w')
   | CheckFails => check_enabled = true
   | Dies => False
   end) /\
  (is_spmd = false -> is_root = false ->
   forall count d w, 0 < d ->
     construct (OfCount count) opts w = Dies /\ construct (OfRange d) opts w = Dies).
Proof.
  intros Hcoll. split.
  - intros Hregion.
    pose proof (lifetime_routed Hregion c opts os h Hcoll) as Hrun.
    unfold GlobalVectorState.ends_well in Hrun.
    destruct (lifetime c opts os (mk_world heap h [])) as [[[] w']| |]; exact Hrun.
  - intros Hs Hr count d w Hd. cbn [GlobalVectorState.construct].
    unfold construct_count, initialize_uniform, construct_range, initialize_from_iter,
      allocate_mem, coll_exec_if_coll, bind, die.
    cbn [opts_ nulled]. rewrite Hcoll, Hs, Hr.
    replace (0 <? d) with true by (symmetry; apply Z.ltb_lt; exact Hd).
    split; reflexivity.
Qed.

End VectorMoves.

Section VectorMovesRuns.
Import GlobalVector GlobalVectorOps GlobalVectorState Samples.

Local Ltac range_facts :=
  vm_compute; repeat split; try reflexivity; intros; discriminate.

(** X23, run: a vector of three elements grows, is moved, and the new vector
    shrinks; both are destroyed. *)
Lemma X23_moved_from_owns_nothing_witness :
  exists w' rest,
    lifetime_moved false true false false Z bump_malloc bump_malloc bump_free
      bump_free_coll (OfCount 3) default_options [PushBack; Reserve 16] [Resize 2; PushBack]
      world_8192 = Done (tt, w') /\
    live_blocks (calls_ Z w') [] = Some rest /\
    List.Forall zero_or_null rest.
Proof.
  destruct (X23_moved_from_owns_nothing false true false false Z bump_malloc bump_malloc
              bump_free bump_free_coll (OfCount 3) default_options
              [PushBack; Reserve 16] [Resize 2; PushBack] 8192
              eq_refl ltac:(range_facts) ltac:(repeat constructor; range_facts)
              ltac:(repeat constructor; range_facts)) as (_ & Hrun).
  change (mk_world Z 8192 []) with world_8192 in Hrun.
  destruct (lifetime_moved false true false false Z bump_malloc bump_malloc bump_free
              bump_free_coll (OfCount 3) default_options
              [PushBack; Reserve 16] [Resize 2; PushBack] world_8192)
    as [[[] w']| |] eqn:Heq.
  - destruct Hrun as (rest & Hlive & Hrest).
    exists w', rest. split; [reflexivity|]. split; [exact Hlive | exact Hrest].
  - revert Heq. vm_compute. discriminate.
  - destruct Hrun.
Defined.

(** X24, run: a collective vector of three elements on the root thread. *)
Lemma X24_collective_routes_witness :
  exists w',
    lifetime false false false true Z bump_malloc bump_malloc bump_free bump_free_coll
      (OfCount 3) coll_options [Resize 8; Clear] world_8192 = Done (tt, w') /\
    List.Forall (routed false) (calls_ Z w').
Proof.
  destruct (X24_collective_routes false false false true Z bump_malloc bump_malloc
              bump_free bump_free_coll (OfCount 3) coll_options [Resize 8; Clear] 8192
              eq_refl) as (Hrun & _).
  specialize (Hrun eq_refl).
  change (mk_world Z 8192 []) with world_8192 in Hrun.
  destruct (lifetime false false false true Z bump_malloc bump_malloc bump_free
              bump_free_coll (OfCount 3) coll_options [Resize 8; Clear] world_8192)
    as [[[] w']| |] eqn:Heq.
  - exists w'. split; [reflexivity | exact Hrun].
  - discriminate Hrun.
  - destruct Hrun.
Defined.

End VectorMovesRuns.

(** ** A task group that ends away from home *)

Section TaskGroupMigration.
Import DistRange Flipper DistTree WSQueue Sched SchedState.
Variable T : Type.
Variable cfg : config.

(** X25: [task_group_end] on a rank that does not own the range of the task
    group (a cross-worker range) sends the thread home.  After [on_task_die]
    and the pre-suspend callback, the continuation of the thread is evacuated
    and put once into the mailbox of the owner of the range; then the
    scheduler is resumed with no thread current.  What is put is an evacuated
    continuation (its evacuation pointer is not null), so the rank that
    receives it resumes it ([execute_cross_worker_task] does not start a new
    task).  The rest of [task_group_end] is not done on this rank: the
    distribution tree is as [on_task_die] left it. *)
Theorem X25_task_group_end_migrates (s : scheduler_adws T) (tls : thread_local_storage)
    (tgdata : task_group_data) (cf : Z) :
  tls_ s = Some tls ->
  0 < rr_next (suspended_thread_allocator_ s) ->
  is_cross_worker (tgd_drange tgdata) = true ->
  owner (tgd_drange tgdata) <> my_rank cfg ->
  exists s1 s' ss,
    on_task_die T cfg s = Some s1 /\
    task_group_end T cfg s tgdata cf = Some (s', ResumeSched) /\
    tls_ s' = None /\ cf_top_ s' = null /\
    ss_frame_base ss = cf /\ ss_evacuation_ptr ss <> null /\
    issued s'
    = MailboxPut (mk_cross_worker_task (ss_evacuation_ptr ss) (ss_frame_base ss)
                    (ss_frame_size ss)) (owner (tgd_drange tgdata))
      :: PreSuspendCb :: issued s1 /\
    dtree_ s' = dtree_ s1 /\
    dtree_local_bottom_ref_ s' = dtree_local_bottom_ref_ s1 /\
    (forall (r : scheduler_adws T) (cf' : Z),
        snd (execute_cross_worker_task T r
               (mk_cross_worker_task (ss_evacuation_ptr ss) (ss_frame_base ss)
                  (ss_frame_size ss)) cf')
        = ResumeSuspended ss).
Proof.
  intros Htls Ha Hx Hown. unfold task_group_end.
  destruct (on_task_die_keeps T cfg s tls Htls Ha)
    as (s1 & tls1 & Hdie & Htls1 & Hd1 & Hp1 & Hu1 & Ha1).
  rewrite Hdie. cbn [mbind option_bind]. rewrite Htls1. cbn [mbind option_bind].
  cbn [tls_drange with_drange]. rewrite Hx.
  replace (owner (tgd_drange tgdata) =? my_rank cfg) with false
    by (symmetry; apply Z.eqb_neq; exact Hown).
  cbn [negb].
  set (s3 := suspend_enter T (issue T (set_tls T s1 (Some (with_drange tls1 (tgd_drange tgdata))))
                                PreSuspendCb) cf).
  pose proof (evacuate_keeps T s3 cf Ha1) as Hk. cbn zeta in Hk.
  assert (Hss : ss_frame_base (fst (evacuate T s3 cf)) = cf) by reflexivity.
  assert (Hiss : issued (snd (evacuate T s3 cf)) = PreSuspendCb :: issued s1) by reflexivity.
  assert (Hdt : dtree_ (snd (evacuate T s3 cf)) = dtree_ s1) by reflexivity.
  assert (Hbot : dtree_local_bottom_ref_ (snd (evacuate T s3 cf))
                 = dtree_local_bottom_ref_ s1) by reflexivity.
  destruct (evacuate T s3 cf) as [ss s4]. cbn [fst snd] in *.
  destruct Hk as (Hev & Ha4 & Htls4 & Hu4 & Hp4).
  exists s1.
  set (s5 := issue T s4 (MailboxPut (mk_cross_worker_task (ss_evacuation_ptr ss)
                            (ss_frame_base ss) (ss_frame_size ss))
                          (owner (tgd_drange tgdata)))).
  assert (Hall : exists s6,
             evacuate_all T cfg s5 = Some s6 /\ issued s6 = issued s5 /\
             dtree_ s6 = dtree_ s5 /\
             dtree_local_bottom_ref_ s6 = dtree_local_bottom_ref_ s5).
  { unfold evacuate_all.
    assert (Htls5 : tls_ s5 = Some (with_drange tls1 (tgd_drange tgdata)))
      by (cbn; rewrite Htls4; reflexivity).
    rewrite Htls5. cbn [mbind option_bind].
    destruct (use_primary_wsq_ s5).
    - destruct (evacuate_primary_from _ _ _ _ _ _) as [a q].
      eexists. split; [reflexivity|]. repeat split.
    - destruct (for_each_entry _ _ _ _ _) as [a q].
      eexists. split; [reflexivity|]. repeat split. }
  destruct Hall as (s6 & Hev6 & Hiss6 & Hdt6 & Hbot6).
  rewrite Hev6. cbn [mbind option_bind]. unfold resume_sched.
  eexists. exists ss. split; [reflexivity|]. split; [reflexivity|].
  cbn [tls_ cf_top_ set_tls set_cf_top issued dtree_ dtree_local_bottom_ref_].
  split; [reflexivity|]. split; [reflexivity|]. split; [exact Hss|]. split; [exact Hev|].
  split; [rewrite Hiss6; cbn; rewrite Hiss; reflexivity|].
  split; [rewrite Hdt6; cbn; exact Hdt|].
  split; [rewrite Hbot6; cbn; exact Hbot|].
  intros r cf'. unfold execute_cross_worker_task. cbn [cwt_evacuation_ptr].
  replace (ss_evacuation_ptr ss =? null) with false
    by (symmetry; apply Z.eqb_neq; exact Hev).
  cbn [snd cwt_frame_base cwt_frame_size]. destruct ss. reflexivity.
Qed.

End TaskGroupMigration.

Section TaskGroupMigrationRuns.
Import DistRange Flipper DistTree WSQueue Sched SchedState Samples.

(** X25, run: rank 0 ends a task group whose range [1.5, 3.5) belongs to
    rank 1. *)
Lemma X25_task_group_end_migrates_witness :
  exists s' p size,
    task_group_end nat cfg_debug sched_on_stack tgdata_of_rank_1 1000
    = Some (s', ResumeSched) /\
    p <> null /\
    hd_error (issued s') = Some (MailboxPut (mk_cross_worker_task p 1000 size) 1).
Proof.
  destruct (X25_task_group_end_migrates nat cfg_debug sched_on_stack
              (tls_at dr_local) tgdata_of_rank_1 1000
              eq_refl ltac:(apply Z.ltb_lt; vm_compute; reflexivity)
              ltac:(vm_compute; reflexivity) ltac:(vm_compute; discriminate))
    as (s1 & s' & ss & _ & Hrun & _ & _ & Hbase & Hev & Hiss & _).
  exists s', (ss_evacuation_ptr ss), (ss_frame_size ss).
  split; [exact Hrun|]. split; [exact Hev|].
  rewrite Hiss, Hbase. cbn [hd_error]. do 3 f_equal.
Defined.

End TaskGroupMigrationRuns.
